(* ===== verification/_CoqProject ===== *)
-Q . S2P
Prelude.v
GoStrings.v
Float64.v
Policy.v
Suppress.v
Crypto.v
Json.v
JsonIndent.v
GoTime.v
GoJson.v
EventLog.v
ChainProofs.v
LogRun.v
Anchor.v
LogAnchor.v
BpfEvent.v
Loader.v
Bridge.v
MapSync.v
BpfMaps.v
Probes.v
Collector.v
ConnTrack.v
Response.v
Nft.v
Quarantine.v
Responder.v
Agent.v
AgentProofs.v
Security.v
Query.v
Disk.v
SuppressFile.v
Workers.v
Keys.v
PolicyFile.v
PolicySave.v
PolicyStore.v
Baseline.v
Metrics.v
Server.v
ServerProofs.v
Fanotify.v
Procfs.v
Config.v
Main.v
Program.v
Client.v
ClientRun.v
Notify.v
Web.v
