(* ===== verification/Prelude.v ===== *)
(** * A verification library for the EDR Linux agent

    The program is an endpoint agent written in Go.  Kernel probes deliver
    process and network events ([internal/bpf]); a collector reads [/proc] and
    merges the events into a snapshot ([internal/collector]); the control loop
    ([internal/control/agent.go]) evaluates the policy ([internal/policy]) on
    every process, file event and connection of the snapshot, passes each match
    through the suppressor ([internal/control/suppress.go]), writes an event to
    the hash-chained log ([internal/eventlog]) and asks the responder
    ([internal/response]) to act; a fast path does the same for single kernel
    events, and a file guard answers the kernel before a file is opened
    ([internal/fanotify]).  The control server ([internal/control/server.go])
    checks its peers and the paths they name ([security.go]) and serves the
    command line client ([cmd/edrctl]): status, event queries, signed policy
    reloads and rollbacks ([internal/integrity]), responses, shutdown.  The main
    program ([cmd/edr-agent]) reads the configuration and puts the parts
    together.  Notifications and the web console ([internal/notify],
    [internal/web]) are packages that main does not start.

    ** Files and sources

    - [Prelude]: scope, results, machine integers, stable insertion sort and
      shared lemmas, and the hint databases.
    - [Float64]: error bounds of the binary64 arithmetic of [SpecFloat].
    - [GoStrings], [GoTime], [Json], [JsonIndent], [GoJson]: what the program uses of Go's
      [strings], [strconv], [time] and [encoding/json]; floating point and
      Unicode tables are interfaces ([FloatOps], [FloatText], [GoUnicode]).
    - [Policy], [PolicyFile], [PolicySave]: [policy.go], the rules, their
      validation, matching, evaluation and aggregation; [Load] and [Save] over
      the file and its JSON.
    - [Suppress], [SuppressFile]: [suppress.go], cooldowns, token buckets,
      eviction, saved state; the text of the state file and its decoding.
    - [Crypto], [EventLog], [ChainProofs], [LogRun]: [event.go] and
      [integrity.go]; records, JSON forms, the chain writer, rotation, recovery
      and [Verify].  The digest is an interface ([Digest]); SHA-256 is an
      instance.
    - [Anchor], [LogAnchor]: [anchor.go], pushing and comparing the chain head,
      the goroutine of [Start]; logger and anchor over one file system.
    - [BpfEvent], [Loader]: the ring-buffer record and its decoder; the queues
      of the libbpf loader and the fake loader as a step relation.
    - [Bridge]: the C functions of [loader_libbpf.go] that open, poll and close
      the probes, in a monad over a heap of resources whose use after a release
      is undefined; the handle on the Go side as a step relation of the
      goroutines that use it.
    - [Probes]: [internal/bpf/probes], the programs in the kernel as functions to
      the records, signals and refusals they cause, and the memory layout of
      the record.
    - [MapSync], [BpfMaps]: [loader.go]'s [MapFiller] as a class with laws, and
      [syncBPFMaps] proved against it; the map functions of [loader_libbpf.go]
      over a kernel hash map with laws, as an instance.
    - [Collector], [ConnTrack], [Procfs]: [merge.go], [conntrack.go],
      [collector.go] and [procutil]: processes, connections, file changes by
      polling and by inotify.
    - [Response], [Nft], [Quarantine], [Responder]: process identity, kill, kill
      tree, suspension; the firewall command lines; quarantine and restore; the
      dispatch of actions ([response.go]).
    - [Agent], [AgentProofs]: [agent.go] in a state monad over an environment
      that answers each question; every handler of the polling round and of
      the fast path.
    - [Workers]: the goroutines of [agent.go], the response file and [Shutdown]
      as a step relation.
    - [Security]: [security.go], peer credentials and path containment over a
      file system with links.
    - [Disk], [Keys]: files by name; [keystore.go] and [sign.go].  Ed25519 and
      the digest are interfaces.
    - [Query], [PolicyStore], [Baseline], [Metrics], [Server], [ServerProofs]:
      [server.go], [forensics.go], [baseline.go], [prometheus.go]: every route
      in a state monad over the agent, the kernel maps, the files and the
      machine; what other processes do to the files between two accesses is an
      argument.
    - [Fanotify]: [fanotify.go] and the adapters of [main.go]: marks, decoding,
      answers, the loop, [Start] and [Stop].
    - [Config], [Main], [Program]: [main.go], [main_libbpf.go]: the
      configuration file and its comments, the start, the loop as a step
      relation; a whole run with its services and deferred calls.
    - [Client], [ClientRun]: [edrctl/main.go], what each command line asks for,
      signing and checking a policy; requests, answers, output and exit code.
    - [Notify], [Web]: [webhook.go], [email.go], [handler.go]: the dispatcher
      and the event stream as step relations, payloads, mails, redaction.

    ** What the theorems show

    - The log: what the logger writes verifies across rotations, two logs that
      verify to one head hold the same events, the head is recovered from the
      log, a log that is put back behind the last anchored head together with
      its state file is reported after a restart, whatever the interleaving of
      writes and pushes was.
    - The policy: validation is the declared well-formedness, evaluation returns
      the rules that apply (a predicate on the rule, the time of day, subject and
      object that does not mention the evaluation) in priority order, and
      aggregation keeps every audit rule and the first actionable one.
    - The gates: emits of one key are a cooldown apart, a rule emits at most
      burst plus rate times time up to the rounding of [float64], eviction and
      restart change no verdict.
    - The agent: the effects of a match set are exactly the ones its gates let
      through, every request a round sends is justified by policy and snapshot,
      a denied exec reaches the responder once, self protection never signals
      the agent or init, the history keeps the latest records; [Shutdown]
      leaves every record that was taken in the response file.
    - Kernel data: every record of the probes decodes, and which fields do not
      come back; a program is killed at its start exactly when the policy in
      force lists it and there is room for the record; the agent is shielded
      from five signals and from traces of others; under any interleaving with
      [Close] the channels of the loader carry exactly the records that are owed
      to them, in order;
      the merge refines a map update; the blacklists follow the policy, and
      clearing them ends.  Opening the probes takes all it needs or gives
      everything back; no poll and no close uses a freed handle.
    - Responses: a kill tree signals exactly the processes whose kill is
      accepted, each once, children first;
      suspension follows the signals; only validated words reach nft; each
      action of the responder touches only what it names; a quarantined file
      comes back.
    - Paths: an accepted path is under its base and meets no link.
    - The server: a peer that is not allowed changes nothing; the policy in
      force changes only by an authorised reload or rollback to a signed, valid
      file; only root shuts the agent down, and every attempt is audited.
    - Composition: a policy that the client signed with success is put in force
      by its reload command; what is saved is loaded as it was; the requests of
      the client have handlers, and its exit code is the verdict of the agent.
    - The file guard: every record is handled once and in order, each permission
      event is answered once; marks are bounded.
    - The main program: a configuration that loads is in range, comments are
      removed and nothing else, a start that succeeds leaves its
      directories, policy, key, logger and kernel maps as declared, the loop ends only on request, and what was started is stopped in
      reverse order.
    - File changes: a polling scan reports exactly the difference.
    - Notifications: every taken event is handed to the end points that want
      it, [Stop] ends, the receiver decodes the message; a browser decodes its
      stream to published events in order.

    Executions in which the program departs from its intent are theorems or
    examples too ([audited_rule_not_enforced], [pidfd_kill_refused],
    [reload_forgets_cooldown], the rejected untouched logs of [LogRun.Sample],
    [denial_never_delivered], [evil_swapped_in], [request_during_round_lost],
    [rollback_forgotten], [kept_state_hides_rollback], [map_operation_after_close],
    [huge_burst_not_spent],
    [monitored_program_killed], [long_name_escapes], [zero_pid_kills_callers] and
    the examples of the [Sample] modules).

    ** Bounds and fuel

    Go integers keep their width ([wrapu], [wraps]).  The search of a process
    tree runs on as much fuel as there are processes plus one, and is shown to
    reach every descendant with it.  The JSON reader runs on twice the length
    of its input, each call consuming a byte or opening one level.  A path
    lookup follows 40 links as the kernel does and [EvalSymlinks] 255; beyond
    them the code fails, and so does the model.  A buffer of the file guard is
    read with as much fuel as it has bytes, each record taking at least 24;
    any larger bound gives the same run.  Clearing a kernel map runs on as much
    fuel as the map has room for, each round removing a key.

    ** Not modelled

    libbpf, the kernel and its helpers, known through what they answer; the transfer of HTTP messages over the socket; the parsing
    of the flags by the [flag] package; the embedded pages and the HTML template
    of the mails; texts of error messages where nothing reads them.  Getters
    that return a channel or a field have no definition of their own. *)

From Stdlib Require Export ZArith Lia Ascii String.
From stdpp Require Export base tactics option list sorting gmap strings numbers pretty.

(** ** Scope, comparisons and results *)

Declare Scope go_scope.
Delimit Scope go_scope with go.

(** Go's [==] and [!=] on strings, integers and booleans. *)
Notation "x == y" := (bool_decide (x = y)) (at level 70, no associativity) : go_scope.
Notation "x != y" := (negb (bool_decide (x = y))) (at level 70, no associativity) : go_scope.
#[global] Open Scope go_scope.
#[global] Open Scope Z_scope.

(** A Go function that returns [(T, error)]. *)
Inductive result (E A : Type) : Type :=
| Ok (a : A)
| Err (e : E).
Arguments Ok {E A} a.
Arguments Err {E A} e.

Definition res_bind {E A B} (r : result E A) (k : A -> result E B) : result E B :=
  match r with Ok a => k a | Err e => Err e end.

Notation "'let?' x := r 'in' k" := (res_bind r (fun x => k))
  (at level 10, x pattern, r at level 100, k at level 200) : go_scope.

(** An early return: [if c { return Err(e) }]. *)
Notation "'fail_if' c 'with' e ';;' k" := (if c then Err e else k)
  (at level 10, c at level 99, e at level 99, k at level 200) : go_scope.

Definition is_ok {E A} (r : result E A) : bool :=
  match r with Ok _ => true | Err _ => false end.

(** ** Machine integers *)

(** Truncation to an unsigned or a two's-complement signed width. *)
Definition wrapu (w z : Z) : Z := z mod 2 ^ w.
Definition wraps (w z : Z) : Z := (z + 2 ^ (w - 1)) mod 2 ^ w - 2 ^ (w - 1).

Definition maxInt64 : Z := 2 ^ 63 - 1.
Definition minInt64 : Z := - 2 ^ 63.

(** Instants and durations are nanosecond counts. [time.Time.Sub] saturates. *)
Definition time_sub (t u : Z) : Z := Z.max minInt64 (Z.min maxInt64 (t - u)).

Definition second : Z := 1000000000.
Definition minute : Z := 60 * second.

(** ** Tactics *)

(** Case analysis on every boolean equality test and [if]/[match] in sight,
    simplifying as it goes. *)
Ltac gosimpl := repeat (first [case_bool_decide | case_match]; simplify_eq/=).

(** Turns boolean connectives in hypotheses and goal into propositions. *)
Ltac bool_props :=
  repeat match goal with
  | H : (_ && _)%bool = true |- _ => apply andb_true_iff in H as [? ?]
  | H : (_ || _)%bool = false |- _ => apply orb_false_iff in H as [? ?]
  | H : (_ && _)%bool = false |- _ => apply andb_false_iff in H as [?|?]
  | H : (_ || _)%bool = true |- _ => apply orb_true_iff in H as [?|?]
  | H : negb _ = true |- _ => apply negb_true_iff in H
  | H : negb _ = false |- _ => apply negb_false_iff in H
  | H : bool_decide _ = true |- _ => apply bool_decide_eq_true in H
  | H : bool_decide _ = false |- _ => apply bool_decide_eq_false in H
  | H : (_ <? _) = true |- _ => apply Z.ltb_lt in H
  | H : (_ <? _) = false |- _ => apply Z.ltb_ge in H
  | H : (_ <=? _) = true |- _ => apply Z.leb_le in H
  | H : (_ <=? _) = false |- _ => apply Z.leb_gt in H
  | H : (_ =? _) = true |- _ => apply Z.eqb_eq in H
  | H : (_ =? _) = false |- _ => apply Z.eqb_neq in H
  end.

(** ** Hints *)

Create HintDb edr.

(** ** Integers *)

Lemma wrapu_small w z : 0 <= z < 2 ^ w -> wrapu w z = z.
Proof. intros. unfold wrapu. by apply Z.mod_small. Qed.

Lemma wrapu_range w z : 0 <= w -> 0 <= wrapu w z < 2 ^ w.
Proof. intros. unfold wrapu. apply Z.mod_pos_bound. lia. Qed.

Lemma wraps_small w z : 0 < w -> - 2 ^ (w - 1) <= z < 2 ^ (w - 1) -> wraps w z = z.
Proof.
  intros Hw Hz. unfold wraps.
  assert (2 ^ w = 2 * 2 ^ (w - 1)) as E.
  { rewrite <- Z.pow_succ_r by lia. f_equal; lia. }
  rewrite Z.mod_small; lia.
Qed.

Lemma time_sub_lt t u d : d <= maxInt64 -> 0 < d -> time_sub t u < d <-> t - u < d.
Proof. unfold time_sub, maxInt64, minInt64. lia. Qed.

Lemma time_sub_gt t u d : 0 <= d < maxInt64 -> d < time_sub t u <-> d < t - u.
Proof. unfold time_sub, maxInt64, minInt64. lia. Qed.

(** ** Results *)

Lemma res_bind_ok {E A B} (r : result E A) (k : A -> result E B) b :
  res_bind r k = Ok b <-> exists a, r = Ok a /\ k a = Ok b.
Proof. destruct r; naive_solver. Qed.

(** ** Stable sorting ([sort.SliceStable]) *)

Section StableSort.
Context {A : Type} (less : A -> A -> bool).

Fixpoint insert_stable (x : A) (l : list A) : list A :=
  match l with
  | [] => [x]
  | y :: l' => if less y x then y :: insert_stable x l' else x :: l
  end.

(** The unique stable rearrangement in which no element is [less] than an
    earlier one. *)
Fixpoint sort_stable (l : list A) : list A :=
  match l with
  | [] => []
  | x :: l' => insert_stable x (sort_stable l')
  end.

Lemma insert_stable_perm x l : insert_stable x l ≡ₚ x :: l.
Proof.
  induction l as [|y l IH]; simpl; [done|].
  destruct (less y x); [|done]. rewrite IH. apply Permutation_swap.
Qed.

Lemma sort_stable_perm l : sort_stable l ≡ₚ l.
Proof. induction l as [|x l IH]; simpl; [done|]. by rewrite insert_stable_perm, IH. Qed.
End StableSort.

Section StableSortKey.
Context {A : Type} (key : A -> Z).
Let less (x y : A) : bool := key x <? key y.

Lemma insert_stable_sorted x l :
  StronglySorted (fun a b => key a <= key b) l ->
  StronglySorted (fun a b => key a <= key b) (insert_stable less x l).
Proof.
  induction 1 as [|y l HS IH HF]; simpl; [repeat constructor|].
  unfold less at 1. destruct (Z.ltb_spec (key y) (key x)).
  - constructor; [done|]. rewrite (insert_stable_perm less x l).
    constructor; [lia|done].
  - constructor; [by constructor|]. constructor; [lia|].
    eapply Forall_impl; [exact HF|]. simpl. lia.
Qed.

Lemma sort_stable_sorted l :
  StronglySorted (fun a b => key a <= key b) (sort_stable less l).
Proof. induction l; simpl; [constructor|by apply insert_stable_sorted]. Qed.

(** Stability: elements of one key keep their relative order. *)
Lemma insert_stable_filter k x l :
  StronglySorted (fun a b => key a <= key b) l ->
  filter (fun a => key a = k) (insert_stable less x l)
  = filter (fun a => key a = k) (x :: l).
Proof.
  induction 1 as [|y l HS IH HF]; simpl; [done|].
  unfold less at 1. destruct (Z.ltb_spec (key y) (key x)); [|done].
  rewrite !filter_cons, IH, filter_cons.
  repeat case_decide; try done. lia.
Qed.

Lemma sort_stable_stable k l :
  filter (fun a => key a = k) (sort_stable less l) = filter (fun a => key a = k) l.
Proof.
  induction l as [|x l IH]; [done|]. simpl.
  rewrite insert_stable_filter by apply sort_stable_sorted.
  rewrite !filter_cons, IH. done.
Qed.
End StableSortKey.

#[export] Hint Resolve sort_stable_sorted sort_stable_perm : edr.
