(* ===== verification/GoStrings.v ===== *)
(** * The parts of Go's [strings], [bytes] and [strconv] the agent uses

    Go strings are byte strings; they are modelled by [string] (one [ascii]
    per byte) and [[]byte] by [list ascii].  The functions below follow the
    standard library: white space is Unicode white space in its UTF-8 form,
    [EqualFold] and [ToLower] run the library's ASCII path and hand what is not
    ASCII to the Unicode tables, an interface ([GoUnicode]), and the numeric
    parsers return the value Go returns beside an error. *)

From S2P Require Import Prelude.

(** ** Bytes *)

Definition bytes (s : string) : list ascii := list_ascii_of_string s.
Definition text (l : list ascii) : string := string_of_list_ascii l.
Definition code (a : ascii) : Z := Z.of_N (N_of_ascii a).
Definition byte (z : Z) : ascii := ascii_of_N (Z.to_N (z mod 256)).
Definition nl : string := String (byte 10) "".

(** [len(s)] *)
Definition slen (s : string) : Z := Z.of_nat (String.length s).

(** [s[n:]] *)
Definition from (n : nat) (s : string) : string := text (drop n (bytes s)).

(** ** Searching *)

Definition hasPrefix (s p : string) : bool := String.prefix p s.
Definition hasSuffix (s p : string) : bool :=
  String.prefix (text (rev (bytes p))) (text (rev (bytes s))).

Fixpoint contains (s sub : string) : bool :=
  String.prefix sub s || match s with "" => false | String _ s' => contains s' sub end.

(** [strings.TrimPrefix] *)
Definition trimPrefix (s p : string) : string :=
  if hasPrefix s p then from (String.length p) s else s.

(** [strings.Index]: the offset of the first occurrence. *)
Fixpoint index (s sub : string) : option nat :=
  if String.prefix sub s then Some 0%nat
  else match s with "" => None | String _ s' => S <$> index s' sub end.

(** [strings.LastIndex(s, c)] for a one-byte pattern. *)
Fixpoint lastIndexByte (c : ascii) (s : string) : option nat :=
  match s with
  | "" => None
  | String a s' =>
      match lastIndexByte c s' with
      | Some i => Some (S i)
      | None => if a == c then Some 0%nat else None
      end
  end.

(** [bytes.IndexByte] *)
Fixpoint indexByte (c : ascii) (l : list ascii) : option nat :=
  match l with
  | [] => None
  | a :: l' => if a == c then Some 0%nat else S <$> indexByte c l'
  end.

(** [strings.Split(s, c)] for a one-byte separator: never empty. *)
Fixpoint split_aux (c : ascii) (l cur : list ascii) : list string :=
  match l with
  | [] => [text (rev cur)]
  | a :: l' => if a == c then text (rev cur) :: split_aux c l' [] else split_aux c l' (a :: cur)
  end.
Definition split (c : ascii) (s : string) : list string := split_aux c (bytes s) [].

(** [strings.Join] *)
Fixpoint join (sep : string) (l : list string) : string :=
  match l with
  | [] => ""
  | [x] => x
  | x :: l' => (x +:+ sep +:+ join sep l')%string
  end.

(** [strings.ReplaceAll] of one byte by one byte. *)
Definition replaceByte (c d : ascii) (s : string) : string :=
  text (map (fun a => if a == c then d else a) (bytes s)).

(** [strings.TrimRight(s, cut)] *)
Fixpoint dropWhile (p : ascii -> bool) (l : list ascii) : list ascii :=
  match l with [] => [] | a :: l' => if p a then dropWhile p l' else l end.
Definition trimRight (p : ascii -> bool) (s : string) : string :=
  text (rev (dropWhile p (rev (bytes s)))).

(** ** White space *)

Definition ascii_space (c : Z) : bool := (c =? 32) || ((9 <=? c) && (c <=? 13)).

(** The number of bytes of the white-space rune at the head of [l], 0 when the
    first rune is not white space ([unicode.IsSpace]). *)
Definition space_width (l : list Z) : nat :=
  match l with
  | c :: t =>
      if ascii_space c then 1%nat
      else match t with
      | d :: u =>
          if (c =? 0xC2) && ((d =? 0x85) || (d =? 0xA0)) then 2%nat
          else match u with
          | e :: _ =>
              if ((c =? 0xE1) && (d =? 0x9A) && (e =? 0x80))
                 || ((c =? 0xE2) && (d =? 0x80) && (((0x80 <=? e) && (e <=? 0x8A)) || (e =? 0xA8) || (e =? 0xA9) || (e =? 0xAF)))
                 || ((c =? 0xE2) && (d =? 0x81) && (e =? 0x9F))
                 || ((c =? 0xE3) && (d =? 0x80) && (e =? 0x80))
              then 3%nat else 0%nat
          | [] => 0%nat
          end
      | [] => 0%nat
      end
  | [] => 0%nat
  end.

(** The width of the white-space rune that ends a string, read from its
    reversed bytes. *)
Definition space_width_rev (l : list Z) : nat :=
  match l with
  | c :: t =>
      if ascii_space c then 1%nat
      else match t with
      | d :: u =>
          if (1 <? Z.of_nat (space_width [d; c])) && negb (ascii_space d) then 2%nat
          else match u with
          | e :: _ => if (2 <? Z.of_nat (space_width [e; d; c])) then 3%nat else 0%nat
          | [] => 0%nat
          end
      | [] => 0%nat
      end
  | [] => 0%nat
  end.

Fixpoint trim_with (width : list Z -> nat) (fuel : nat) (l : list ascii) : list ascii :=
  match fuel with
  | O => l
  | S fuel =>
      match width (map code l) with
      | O => l
      | S k => trim_with width fuel (drop (S k) l)
      end
  end.

(** [strings.TrimSpace]; every round removes a byte, so the length is enough fuel. *)
Definition trimSpace (s : string) : string :=
  let l := trim_with space_width (String.length s) (bytes s) in
  text (rev (trim_with space_width_rev (length l) (rev l))).

(** [strings.Fields]: the maximal runs without white space. *)
Fixpoint fields_aux (fuel : nat) (l cur : list ascii) : list string :=
  let flush := match cur with [] => [] | _ => [text (rev cur)] end in
  match fuel, l with
  | O, _ | _, [] => flush
  | S fuel, a :: l' =>
      match space_width (map code l) with
      | O => fields_aux fuel l' (a :: cur)
      | S k => flush ++ fields_aux fuel (drop (S k) l) []
      end
  end.
Definition fields (s : string) : list string := fields_aux (String.length s) (bytes s) [].

(** ** Case folding *)

(** What [EqualFold] and [ToLower] do from the first byte that is not ASCII on
    is decided by Go's Unicode tables. *)
Class GoUnicode := {
  uni_equalFold : string -> string -> bool;
  uni_toLower : string -> string;
}.

Definition is_upper (a : ascii) : bool := (65 <=? code a) && (code a <=? 90).
Definition lower (a : ascii) : ascii := if is_upper a then byte (code a + 32) else a.
Definition is_ascii (a : ascii) : bool := code a <? 128.

(** The byte comparison of [EqualFold]'s ASCII loop. *)
Definition fold_byte (a b : ascii) : bool :=
  (code a =? code b)
  || (let lo := Z.min (code a) (code b) in
      let hi := Z.max (code a) (code b) in
      (65 <=? lo) && (lo <=? 90) && (hi =? lo + 32)).

Fixpoint equalFold `{GoUnicode} (s t : string) : bool :=
  match s, t with
  | String a s', String b t' =>
      if negb (is_ascii a) || negb (is_ascii b) then uni_equalFold s t
      else if fold_byte a b then equalFold s' t' else false
  | "", "" => true
  | _, _ => false
  end.

(** [strings.ToLower] *)
Definition toLower `{GoUnicode} (s : string) : string :=
  if forallb is_ascii (bytes s) then text (map lower (bytes s)) else uni_toLower s.

(** ** Numbers *)

Inductive num_err := ErrSyntax | ErrRange.

Definition digit_val (a : ascii) : option Z :=
  let c := code a in
  if (48 <=? c) && (c <=? 57) then Some (c - 48)
  else if (97 <=? c) && (c <=? 122) then Some (c - 97 + 10)
  else if (65 <=? c) && (c <=? 90) then Some (c - 65 + 10)
  else None.

Fixpoint parse_digits (base maxv : Z) (l : list ascii) (acc : Z) : Z * option num_err :=
  match l with
  | [] => (acc, None)
  | a :: l' =>
      match digit_val a with
      | Some d =>
          if d <? base then
            if maxv <? acc * base + d then (maxv, Some ErrRange)
            else parse_digits base maxv l' (acc * base + d)
          else (0, Some ErrSyntax)
      | None => (0, Some ErrSyntax)
      end
  end.

(** [strconv.ParseUint(s, base, bits)]: the value and the error. *)
Definition parseUint (base bits : Z) (s : string) : Z * option num_err :=
  match bytes s with
  | [] => (0, Some ErrSyntax)
  | l => parse_digits base (2 ^ bits - 1) l 0
  end.

(** [strconv.ParseInt(s, base, bits)] *)
Definition parseInt (base bits : Z) (s : string) : Z * option num_err :=
  match s with
  | "" => (0, Some ErrSyntax)
  | String a s' =>
      let neg := a == "-"%char in
      let digits := if neg || (a == "+"%char) then s' else s in
      match parseUint base bits digits with
      | (_, Some ErrSyntax) => (0, Some ErrSyntax)
      | (un, _) =>
          let cutoff := 2 ^ (bits - 1) in
          if negb neg && (cutoff <=? un) then (cutoff - 1, Some ErrRange)
          else if neg && (cutoff <? un) then (- cutoff, Some ErrRange)
          else ((if neg then - un else un), None)
      end
  end.

(** [strconv.Atoi] *)
Definition atoi (s : string) : Z * option num_err := parseInt 10 64 s.

(** [strconv.Itoa]: the digits are produced from the last to the first; a number
    below [2 ^ n] needs at most [n] rounds. *)
Fixpoint udec_aux (fuel : nat) (z : Z) : list ascii :=
  match fuel with
  | O => []
  | S fuel => if z <? 10 then [byte (48 + z)] else udec_aux fuel (z / 10) ++ [byte (48 + z mod 10)]
  end.
Definition udec (z : Z) : list ascii := udec_aux (S (Z.to_nat (Z.log2 z))) z.
Definition itoa (z : Z) : string := text (if z <? 0 then "-"%char :: udec (- z) else udec z).

(** ** Facts *)

Lemma text_bytes s : text (bytes s) = s.
Proof. apply string_of_list_ascii_of_string. Qed.

Lemma bytes_text l : bytes (text l) = l.
Proof. apply list_ascii_of_string_of_list_ascii. Qed.

Lemma bytes_app s t : bytes (s +:+ t)%string = bytes s ++ bytes t.
Proof. unfold bytes. induction s as [|a s IH]; simpl; [done|]. by rewrite IH. Qed.

Lemma string_app_assoc s t u : ((s +:+ t) +:+ u)%string = (s +:+ (t +:+ u))%string.
Proof. induction s as [|a s IH]; [done|]. exact (f_equal (String a) IH). Qed.

Lemma code_range a : 0 <= code a < 256.
Proof. unfold code. pose proof (N_ascii_bounded a). lia. Qed.

Lemma byte_code a : byte (code a) = a.
Proof.
  unfold byte. rewrite Z.mod_small by apply code_range.
  unfold code. rewrite N2Z.id. apply ascii_N_embedding.
Qed.

Lemma code_byte z : 0 <= z < 256 -> code (byte z) = z.
Proof.
  intros. unfold byte, code. rewrite Z.mod_small by done.
  rewrite N_ascii_embedding by lia. lia.
Qed.

Lemma code_inj a b : code a = code b -> a = b.
Proof. intros E. by rewrite <- (byte_code a), E, byte_code. Qed.

Lemma fold_byte_refl a : fold_byte a a = true.
Proof. unfold fold_byte. by rewrite Z.eqb_refl. Qed.

(** ASCII strings are equal to themselves under folding. *)
Lemma equalFold_refl_ascii `{GoUnicode} s :
  forallb is_ascii (bytes s) = true -> equalFold s s = true.
Proof.
  induction s as [|a s IH]; simpl; [done|]. intros Ha. bool_props.
  rewrite H0, fold_byte_refl. simpl. auto.
Qed.

Lemma prefix_app s t : String.prefix s (s +:+ t) = true.
Proof. induction s as [|a s IH]; simpl; [by destruct t|]. by destruct (ascii_dec a a). Qed.

Lemma prefix_spec p s : String.prefix p s = true <-> exists t, s = (p +:+ t)%string.
Proof.
  split.
  - revert s; induction p as [|a p IH]; intros s; [by exists s|].
    destruct s as [|b s]; simpl; [done|]. destruct (ascii_dec a b) as [->|]; [|done].
    intros [t ->]%IH. by exists t.
  - intros [t ->]. apply prefix_app.
Qed.

Lemma contains_unfold s sub :
  contains s sub
  = String.prefix sub s || match s with "" => false | String _ s' => contains s' sub end.
Proof. by destruct s. Qed.

Lemma contains_spec s sub :
  contains s sub = true <-> exists l r, s = (l +:+ sub +:+ r)%string.
Proof.
  split.
  - induction s as [|a s IH]; simpl; rewrite ?orb_true_iff.
    + intros [Hp|]; [|done]. apply (prefix_spec sub "") in Hp as [t ->]. by exists "", t.
    + intros [Hp|Hc].
      * apply (prefix_spec sub (String a s)) in Hp as [t ->]. by exists "", t.
      * destruct (IH Hc) as (l & r & ->). by exists (String a l), r.
  - intros (l & r & ->). induction l as [|a l IH].
    + change (contains (sub +:+ r) sub = true). by rewrite contains_unfold, prefix_app.
    + rewrite contains_unfold. simpl. by rewrite IH, orb_true_r.
Qed.

Lemma join_cons sep x y l : join sep (x :: y :: l) = (x +:+ sep +:+ join sep (y :: l))%string.
Proof. done. Qed.

(** *** The parsers on what the printers print *)

Definition digit_char (a : ascii) : bool := (48 <=? code a) && (code a <=? 57).

Lemma digit_char_byte z : 0 <= z < 10 -> digit_char (byte (48 + z)) = true /\ digit_val (byte (48 + z)) = Some z.
Proof.
  intros. unfold digit_char, digit_val. rewrite code_byte by lia.
  rewrite (proj2 (Z.leb_le 48 _)), (proj2 (Z.leb_le _ 57)) by lia. simpl. split; [done|f_equal; lia].
Qed.

Definition fuel_ok (fuel : nat) (z : Z) : Prop := (0 < fuel)%nat /\ 0 <= z < 2 ^ Z.of_nat fuel.

Lemma fuel_ok_div fuel z : fuel_ok (S fuel) z -> 10 <= z -> fuel_ok fuel (z / 10).
Proof.
  unfold fuel_ok. intros [_ Hz] Hge. destruct fuel as [|fuel]; [simpl in Hz; lia|].
  rewrite Nat2Z.inj_succ, Z.pow_succ_r in Hz by lia. pose proof (Z.div_mod z 10 ltac:(lia)).
  pose proof (Z.mod_pos_bound z 10 ltac:(lia)). lia.
Qed.

Lemma udec_aux_parse fuel z m l :
  fuel_ok fuel z -> z <= m ->
  parse_digits 10 m (udec_aux fuel z ++ l) 0 = parse_digits 10 m l z.
Proof.
  revert z l. induction fuel as [|fuel IH]; intros z l Hz Hm; [destruct Hz; lia|].
  pose proof (fuel_ok_div _ _ Hz) as Hd. destruct Hz as [_ Hz]. cbn [udec_aux]. destruct (Z.ltb_spec z 10) as [Hlt|Hge].
  - cbn [app parse_digits]. rewrite (proj2 (digit_char_byte z ltac:(lia))).
    rewrite (proj2 (Z.ltb_lt z 10)), (proj2 (Z.ltb_ge m (0 * 10 + z))) by lia. done.
  - pose proof (Z.mod_pos_bound z 10 ltac:(lia)). pose proof (Z.div_mod z 10 ltac:(lia)).
    rewrite <- app_assoc, IH by (auto || lia). cbn [app parse_digits].
    rewrite (proj2 (digit_char_byte _ ltac:(eassumption))).
    rewrite (proj2 (Z.ltb_lt (z mod 10) 10)) by lia.
    replace (z / 10 * 10 + z mod 10) with z by lia. by rewrite (proj2 (Z.ltb_ge m z)) by lia.
Qed.

(** Every character is a digit, and only 0 starts with the digit 0. *)
Lemma udec_aux_head fuel z :
  fuel_ok fuel z -> forallb digit_char (udec_aux fuel z) = true
  /\ exists a t, udec_aux fuel z = a :: t /\ (a = "0"%char -> t = []).
Proof.
  revert z. induction fuel as [|fuel IH]; intros z Hz; [destruct Hz; lia|].
  pose proof (fuel_ok_div _ _ Hz) as Hd. destruct Hz as [_ Hz]. cbn [udec_aux]. destruct (Z.ltb_spec z 10) as [Hlt|Hge].
  - cbn [forallb]. rewrite (proj1 (digit_char_byte z ltac:(lia))). eauto.
  - pose proof (Z.mod_pos_bound z 10 ltac:(lia)). pose proof (Z.div_mod z 10 ltac:(lia)).
    destruct (IH (z / 10) ltac:(auto)) as (H1 & a & t & E & H2). rewrite E in *. split.
    + rewrite forallb_app, H1. cbn [forallb]. by rewrite (proj1 (digit_char_byte _ ltac:(eassumption))).
    + exists a, (t ++ [byte (48 + z mod 10)]). split; [done|]. intros ->. rewrite H2 in * by done. exfalso.
      assert (parse_digits 10 (z / 10) (udec_aux fuel (z / 10) ++ []) 0 = (z / 10, None)) as Hp
        by (by rewrite udec_aux_parse by (auto || lia)).
      rewrite E in Hp. cbn in Hp. change (digit_val "0") with (Some 0) in Hp. simpl in Hp.
      destruct (Z.ltb_spec (z / 10) (0 * 10 + 0)); [lia|]. apply (f_equal fst) in Hp. simpl in Hp. lia.
Qed.

Lemma udec_fuel z : 0 <= z -> fuel_ok (S (Z.to_nat (Z.log2 z))) z.
Proof.
  intros Hz. split; [lia|]. split; [done|]. destruct (decide (z = 0)) as [->|Hne]; [done|].
  rewrite Nat2Z.inj_succ, Z2Nat.id by apply Z.log2_nonneg. apply Z.log2_spec. lia.
Qed.

Lemma parseUint_itoa bits z : 0 <= z < 2 ^ bits -> parseUint 10 bits (itoa z) = (z, None).
Proof.
  intros Hz. unfold parseUint, itoa. rewrite (proj2 (Z.ltb_ge z 0)), bytes_text by lia.
  destruct (udec_aux_head _ _ (udec_fuel z ltac:(lia))) as (_ & a & t & E & _).
  pose proof (udec_aux_parse _ _ (2 ^ bits - 1) [] (udec_fuel z ltac:(lia)) ltac:(lia)) as Hp.
  rewrite app_nil_r in Hp. unfold udec. rewrite E in *. done.
Qed.

Lemma atoi_itoa z : - 2 ^ 63 <= z < 2 ^ 63 -> atoi (itoa z) = (z, None).
Proof.
  intros Hz. unfold atoi, parseInt.
  assert (forall y, 0 <= y < 2 ^ 64 ->
    exists a s, text (udec y) = String a s /\ (a == "-"%char) = false /\ (a == "+"%char) = false
    /\ parseUint 10 64 (text (udec y)) = (y, None)) as Hu.
  { intros y Hy. pose proof (parseUint_itoa 64 y Hy) as Hp. unfold itoa in Hp.
    rewrite (proj2 (Z.ltb_ge y 0)) in Hp by lia.
    destruct (udec_aux_head _ _ (udec_fuel y ltac:(lia))) as (Hd & a & t & E & _).
    unfold udec in *. rewrite E in *. simpl in Hd. bool_props.
    exists a, (text t). split_and!; try done; apply bool_decide_eq_false; intros ->; done. }
  unfold itoa. destruct (Z.ltb_spec z 0) as [Hneg|Hpos].
  - destruct (Hu (- z)) as (a & s & _ & _ & _ & Hp); [lia|]. cbn [text string_of_list_ascii].
    rewrite bool_decide_eq_true_2 by done. simpl orb. cbv iota zeta. fold (text (udec (- z))). rewrite Hp.
    simpl negb. rewrite (proj2 (Z.ltb_ge _ (- z))) by lia. simpl. f_equal. lia.
  - destruct (Hu z) as (a & s & E & H1 & H2 & Hp); [lia|]. rewrite E in *. rewrite H1, H2. simpl orb.
    cbv iota zeta. rewrite Hp. simpl negb. rewrite (proj2 (Z.leb_gt _ z)) by lia. done.
Qed.

Example trimSpace_1 : trimSpace (" 	ab c " +:+ nl) = "ab c".
Proof. reflexivity. Qed.

Example fields_1 : fields "  S 12	0 " = ["S"; "12"; "0"].
Proof. reflexivity. Qed.

Example atoi_1 : (atoi "-17", atoi "", atoi "9x", atoi "99999999999999999999") =
  ((-17, None), (0, Some ErrSyntax), (0, Some ErrSyntax), (9223372036854775807, Some ErrRange)).
Proof. vm_compute. reflexivity. Qed.

(** ** Trimming *)

Definition graphic (a : ascii) : Prop := 33 <= code a < 128.

Lemma graphic_not_space a : graphic a -> ascii_space (code a) = false.
Proof.
  unfold graphic, ascii_space. intros Ha. rewrite (proj2 (Z.eqb_neq _ 32)), (proj2 (Z.leb_gt _ 13)), andb_false_r by lia. done.
Qed.

Lemma space_width_graphic a l : graphic a -> space_width (map code (a :: l)) = O.
Proof.
  intros Ha. cbn [map space_width]. rewrite graphic_not_space by done. unfold graphic in Ha.
  destruct (map code l) as [|d [|e u]]; [done| |]; repeat (rewrite (proj2 (Z.eqb_neq (code a) _)) by lia); done.
Qed.

Lemma space_width_rev_graphic a l : graphic a -> space_width_rev (map code (a :: l)) = O.
Proof.
  intros Ha. cbn [map space_width_rev]. rewrite graphic_not_space by done. unfold graphic in Ha.
  assert (forall d, ascii_space d = false -> space_width [d; code a] = O) as H2.
  { intros d Hd. cbn [space_width]. rewrite Hd. by rewrite !(proj2 (Z.eqb_neq (code a) _)), andb_false_r by lia. }
  assert (forall d e, (space_width [e; d; code a] <= 2)%nat) as H3.
  { intros d e. cbn [space_width]. destruct (ascii_space e); [lia|]. case_match; [lia|].
    rewrite !(proj2 (Z.eqb_neq (code a) _)), (proj2 (Z.leb_gt 0x80 (code a))) by lia.
    rewrite !andb_false_r. simpl. lia. }
  destruct (map code l) as [|d [|e u]]; [done| |].
  - destruct (ascii_space d) eqn:Hd; [by rewrite andb_false_r|]. by rewrite H2.
  - assert (Z.ltb 2 (Z.of_nat (space_width [e; d; code a])) = false) as -> by (apply Z.ltb_ge; specialize (H3 d e); lia).
    destruct (ascii_space d) eqn:Hd; [by rewrite andb_false_r|]. by rewrite H2.
Qed.

(** A text that starts and ends with graphic ASCII is not changed. *)
Lemma trimSpace_id a b l : graphic a -> graphic b -> trimSpace (text (a :: l ++ [b])) = text (a :: l ++ [b]).
Proof.
  intros Ha Hb. unfold trimSpace. rewrite bytes_text.
  assert (forall n, trim_with space_width n (a :: l ++ [b]) = a :: l ++ [b]) as ->.
  { intros [|n]; cbn [trim_with]; [done|]. by rewrite space_width_graphic. }
  assert (rev (a :: l ++ [b]) = b :: rev (a :: l)) as ->.
  { change (a :: l ++ [b]) with ((a :: l) ++ [b]). by rewrite rev_app_distr. }
  assert (forall n, trim_with space_width_rev n (b :: rev (a :: l)) = b :: rev (a :: l)) as ->.
  { intros [|n]; cbn [trim_with]; [done|]. by rewrite space_width_rev_graphic. }
  f_equal. change (b :: rev (a :: l)) with ([b] ++ rev (a :: l)). by rewrite rev_app_distr, rev_involutive.
Qed.

(** ** Prefixes *)

Lemma hasPrefix_app s t : hasPrefix (s +:+ t) s = true.
Proof. unfold hasPrefix. induction s as [|a s IH]; simpl; [by destruct t|]. by destruct (ascii_dec a a). Qed.

Lemma hasPrefix_split s p : hasPrefix s p = true -> exists t, s = (p +:+ t)%string.
Proof.
  unfold hasPrefix. revert s. induction p as [|a p IH]; intros s; [by exists s|].
  destruct s as [|b s]; simpl; [done|]. destruct (ascii_dec a b) as [->|]; [|done]. intros [t ->]%IH. by exists t.
Qed.
