(* ===== verification/Float64.v ===== *)
(** * Error bounds of [float64] arithmetic

    The operations of [SpecFloat] with 53 bits of mantissa, on which Go's
    [float64] is specified, against rational arithmetic: in the range
    [2^-1000 .. 2^1000] a sum, a difference, a product and a quotient of finite
    numbers are finite and off by at most [2^-52] of the exact result, integers
    below [2^53] are exact, and the comparison is that of the values.  The
    buckets of [Suppress] are the client. *)

From S2P Require Import Prelude.
From Stdlib Require Import SpecFloat QArith Qabs Qpower Lqa.
Local Open Scope Z_scope.

(** ** Values *)

Definition sign (s : bool) : Q := if s then (-1)%Q else 1%Q.

Definition value (x : spec_float) : Q :=
  match x with
  | S754_finite s m e => (sign s * (inject_Z (Zpos m) * 2 ^ e))%Q
  | _ => 0%Q
  end.

(** Zero, or a number in its canonical form. *)
Definition fin (x : spec_float) : Prop :=
  match x with
  | S754_zero _ => True
  | S754_finite _ m e => bounded 53 1024 m e = true
  | _ => False
  end.

Definition ulp : Q := (2 ^ (-52))%Q.

(** ** Powers of two *)

Lemma p2_pos e : (0 < 2 ^ e)%Q.
Proof. by apply Qpower_0_lt. Qed.

Lemma p2_plus a b : (2 ^ (a + b) == 2 ^ a * 2 ^ b)%Q.
Proof. apply Qpower_plus. discriminate. Qed.

Lemma p2_Z n : 0 <= n -> (inject_Z (2 ^ n) == 2 ^ n)%Q.
Proof. intros Hn. by rewrite Zpower_Qpower. Qed.

Lemma p2_le a b : a <= b -> (2 ^ a <= 2 ^ b)%Q.
Proof. intros. by apply Qpower_le_compat_l. Qed.

Lemma p2_lt_inv a b : (2 ^ a < 2 ^ b)%Q -> a < b.
Proof. intros H. destruct (Z.lt_ge_cases a b) as [|Hle]; [done|]. apply p2_le in Hle. lra. Qed.

(** [m * 2^e] with the exponent moved down. *)
Lemma scale_down m e n : 0 <= n -> (inject_Z (m * 2 ^ n) * 2 ^ (e - n) == inject_Z m * 2 ^ e)%Q.
Proof.
  intros Hn. rewrite inject_Z_mult, p2_Z by done. rewrite <- Qmult_assoc, <- p2_plus.
  by replace (n + (e - n)) with e by lia.
Qed.

(** ** Digits *)

Lemma digits_pos m : 2 ^ (Zpos (digits2_pos m) - 1) <= Zpos m < 2 ^ Zpos (digits2_pos m).
Proof.
  induction m as [m IH|m IH|]; cbn [digits2_pos]; [..|done];
    rewrite Pos2Z.inj_succ; replace (Z.succ (Zpos (digits2_pos m)) - 1) with (Z.succ (Zpos (digits2_pos m) - 1)) by lia;
    rewrite !Z.pow_succ_r by lia; lia.
Qed.

Lemma digits_bounds m : 0 < m -> 2 ^ (Zdigits2 m - 1) <= m < 2 ^ Zdigits2 m /\ 0 < Zdigits2 m.
Proof. intros H. destruct m as [|p|p]; [lia| |lia]. split; [apply digits_pos|]. simpl. lia. Qed.

Lemma digits_le m d : 0 < m -> 0 <= d -> m < 2 ^ d -> Zdigits2 m <= d.
Proof.
  intros Hm Hd H. destruct (digits_bounds m Hm) as [[H1 _] H0].
  assert (Zdigits2 m - 1 < d); [|lia]. apply (Z.pow_lt_mono_r_iff 2); lia.
Qed.

Lemma digits_ge m d : 0 < m -> 2 ^ (d - 1) <= m -> d <= Zdigits2 m.
Proof.
  intros Hm H. destruct (digits_bounds m Hm) as [[_ H1] H0]. destruct (Z.le_gt_cases d 0); [lia|].
  assert (d - 1 < Zdigits2 m); [|lia]. apply (Z.pow_lt_mono_r_iff 2); lia.
Qed.

(** ** Rounding *)

Lemma shr_1_half mrs : 0 <= shr_m mrs -> shr_m (shr_1 mrs) = shr_m mrs / 2.
Proof.
  destruct mrs as [m r s]. simpl. intros Hm. destruct m as [|[p|p|]|p]; try lia; simpl; try done.
  - apply (Z.div_unique _ _ _ 1); lia.
  - apply (Z.div_unique _ _ _ 0); lia.
Qed.

Lemma shr_iter n mrs : 0 <= shr_m mrs -> shr_m (SpecFloat.iter_pos shr_1 n mrs) = shr_m mrs / 2 ^ Zpos n.
Proof.
  revert mrs. induction n as [n IH|n IH|]; intros mrs Hm; cbn [SpecFloat.iter_pos].
  - assert (0 <= shr_m mrs / 2) by (apply Z.div_pos; lia).
    rewrite !IH; rewrite ?IH; rewrite ?shr_1_half by done; try done; [|apply Z.div_pos; lia].
    rewrite !Z.div_div by lia. f_equal. replace (Zpos n~1) with (1 + (Zpos n + Zpos n)) by lia.
    rewrite !Z.pow_add_r by lia. lia.
  - rewrite !IH; try done; [|rewrite IH by done; apply Z.div_pos; lia].
    rewrite Z.div_div by lia. f_equal. replace (Zpos n~0) with (Zpos n + Zpos n) by lia. by rewrite Z.pow_add_r by lia.
  - by rewrite shr_1_half.
Qed.

Lemma shr_spec mrs e n : 0 <= shr_m mrs -> 0 <= n ->
  shr_m (shr mrs e n).1 = shr_m mrs / 2 ^ n /\ (shr mrs e n).2 = e + n.
Proof.
  intros Hm Hn. destruct n as [|n|n]; [|by split; [apply shr_iter|]|lia]. simpl. rewrite Z.div_1_r. lia.
Qed.

Lemma round_even_cases m l : round_nearest_even m l = m \/ round_nearest_even m l = m + 1.
Proof. destruct l as [|[]]; simpl; auto. destruct (Z.even m); auto. Qed.

Abbreviation fexp64 := (fexp 53 1024).

Lemma fexp64_eq d : fexp64 d = Z.max (d - 53) (-1074).
Proof. reflexivity. Qed.

(** What [binary_round_aux] makes of a mantissa [k] that fits at exponent [e]:
    the number itself, in canonical form. *)
Definition packed (s : bool) (k e : Z) (y : spec_float) : Prop :=
  fin y /\ (value y == sign s * (inject_Z k * 2 ^ e))%Q.

Definition pack (s : bool) (k e : Z) : spec_float :=
  let '(mrs, e') := shr_fexp 53 1024 k e loc_Exact in
  match shr_m mrs with
  | Z0 => S754_zero s
  | Zpos m => if e' <=? 1024 - 53 then S754_finite s m e' else S754_infinity s
  | _ => S754_nan
  end.

Lemma bounded_iff m e : bounded 53 1024 m e = true <-> fexp64 (Zpos (digits2_pos m) + e) = e /\ e <= 971.
Proof. unfold bounded, canonical_mantissa. rewrite andb_true_iff, Z.eqb_eq, Z.leb_le. done. Qed.

Lemma pack_spec s k e :
  0 <= k <= 2 ^ 53 -> -1074 <= e <= 970 -> (e = -1074 \/ 2 ^ 52 <= k) -> packed s k e (pack s k e).
Proof.
  intros Hk He Hn. unfold pack, shr_fexp. destruct (Z.eq_dec k 0) as [->|Hk0].
  { cbn [Zdigits2 shr_record_of_loc]. rewrite fexp64_eq. replace (Z.max (0 + e - 53) (-1074) - e) with 0 by lia.
    cbn [shr shr_m]. split; [done|]. cbn [value]. change (inject_Z 0) with 0%Q. lra. }
  destruct (digits_bounds k ltac:(lia)) as [Hd Hd0].
  destruct (Z.eq_dec k (2 ^ 53)) as [->|Hk1].
  - replace (fexp64 (Zdigits2 (2 ^ 53) + e) - e) with 1 by (rewrite fexp64_eq; change (Zdigits2 (2 ^ 53)) with 54; lia).
    assert (shr (shr_record_of_loc (2 ^ 53) loc_Exact) e 1
      = ({| shr_m := Zpos (2 ^ 52); shr_r := false; shr_s := false |}, e + 1)) as -> by reflexivity.
    cbn [shr_m]. rewrite (proj2 (Z.leb_le _ _)) by lia. split.
    + cbn [fin]. rewrite bounded_iff, fexp64_eq. change (Zpos (digits2_pos (2 ^ 52))) with 53. lia.
    + cbn [value]. rewrite <- (scale_down (Zpos (2 ^ 52)) (e + 1) 1) by lia.
      replace (e + 1 - 1) with e by lia. reflexivity.
  - assert (Zdigits2 k <= 53) as H53 by (apply digits_le; lia).
    assert (e = -1074 \/ Zdigits2 k = 53) as Hc.
    { destruct Hn as [?|Hn]; [by left|right]. apply (digits_ge k 53) in Hn; lia. }
    assert (fexp64 (Zdigits2 k + e) = e) as Hf by (rewrite fexp64_eq; lia). rewrite Hf, Z.sub_diag. cbn [shr shr_record_of_loc shr_m].
    destruct k as [|m|m]; [lia| |lia]. rewrite (proj2 (Z.leb_le _ _)) by lia. split; [|done].
    cbn [fin]. rewrite bounded_iff. split; [exact Hf|lia].
Qed.

(** Rounding of a mantissa [m] at exponent [e] with any location: the result is
    the mantissa cut to the exponent [fexp] gives, or the next one; nothing is
    lost when nothing is cut. *)
Lemma round_aux_spec s m e l :
  0 < m -> e <= fexp64 (Zdigits2 m + e) -> Zdigits2 m + e <= 1023 ->
  let e1 := fexp64 (Zdigits2 m + e) in
  exists k, packed s k e1 (binary_round_aux 53 1024 s m e l)
    /\ m / 2 ^ (e1 - e) <= k <= m / 2 ^ (e1 - e) + 1 /\ (e1 = e -> l = loc_Exact -> k = m).
Proof.
  intros Hm He Hov e1. destruct (digits_bounds m Hm) as [[Hd1 Hd2] Hd0].
  assert (shr_m (shr_record_of_loc m l) = m) as Hrl by (by destruct l as [|[]]).
  destruct (shr_spec (shr_record_of_loc m l) e (e1 - e)) as [Hq He']; [lia|lia|]. rewrite Hrl in Hq.
  set (q := m / 2 ^ (e1 - e)) in *.
  assert (0 <= q) as Hq0 by (apply Z.div_pos; [lia|]; apply Z.pow_pos_nonneg; lia).
  assert (-1074 <= e1 <= 970) as Hr by (unfold e1; rewrite fexp64_eq; lia).
  assert (q < 2 ^ 53) as Hq53.
  { apply Z.div_lt_upper_bound; [apply Z.pow_pos_nonneg; lia|]. rewrite <- Z.pow_add_r by lia.
    eapply Z.lt_le_trans; [apply Hd2|]. apply Z.pow_le_mono_r; [lia|]. unfold e1. rewrite fexp64_eq. lia. }
  assert (e1 = -1074 \/ 2 ^ 52 <= q) as Hq52.
  { destruct (Z.eq_dec e1 (-1074)); [by left|right]. apply Z.div_le_lower_bound; [apply Z.pow_pos_nonneg; lia|].
    rewrite <- Z.pow_add_r by lia. etrans; [|apply Hd1]. apply Z.pow_le_mono_r; [lia|]. unfold e1 in *. rewrite fexp64_eq in *. lia. }
  unfold binary_round_aux, shr_fexp at 1. fold e1. destruct (shr (shr_record_of_loc m l) e (e1 - e)) as [mrs e2] eqn:Es.
  cbn [fst snd] in Hq, He'. subst e2. replace (e + (e1 - e)) with e1 by lia.
  set (k := round_nearest_even (shr_m mrs) (loc_of_shr_record mrs)).
  exists k. change (packed s k e1 (pack s k e1) /\ q <= k <= q + 1 /\ (e1 = e -> l = loc_Exact -> k = m)).
  assert (k = q \/ k = q + 1) as Hk by (subst k; rewrite Hq; apply round_even_cases).
  split; [apply pack_spec; lia|]. split; [lia|]. intros Ee ->. subst k. rewrite Ee, Z.sub_diag in Es. cbn [shr shr_record_of_loc] in Es.
  by injection Es as <- _.
Qed.

(** The result [y] of an operation whose exact result is [x]. *)
Definition close (y : spec_float) (x : Q) : Prop := fin y /\ (Qabs (value y - x) <= ulp * Qabs x)%Q.

Lemma sign_abs s x : (Qabs (sign s * x) == Qabs x)%Q.
Proof. rewrite Qabs_Qmult. destruct s; change (Qabs (sign _)) with 1%Q; lra. Qed.

Lemma exact_close y x : fin y -> (value y == x)%Q -> close y x.
Proof.
  intros Hf E. split; [done|]. rewrite E. assert (x - x == 0)%Q as -> by lra. change (Qabs 0) with 0%Q.
  apply Qmult_le_0_compat; [discriminate|apply Qabs_nonneg].
Qed.

(** What rounding a mantissa with any location does to a number [x] between the
    mantissa and the next, in the normal range. *)
Lemma round_aux_close s m e l x :
  0 < m -> e <= fexp64 (Zdigits2 m + e) -> -1021 <= Zdigits2 m + e <= 1023 ->
  (inject_Z m * 2 ^ e <= x <= inject_Z (m + 1) * 2 ^ e)%Q ->
  close (binary_round_aux 53 1024 s m e l) (sign s * x).
Proof.
  intros Hm He Hr [Hx1 Hx2]. destruct (round_aux_spec s m e l Hm He ltac:(lia)) as (k & [Hf Hv] & Hk & _).
  destruct (digits_bounds m Hm) as [[Hd1 _] Hd0]. split; [done|].
  set (e1 := fexp64 (Zdigits2 m + e)) in *. set (n := e1 - e) in *. set (q := m / 2 ^ n) in *.
  assert (0 < 2 ^ n) as Hn by (apply Z.pow_pos_nonneg; lia).
  assert (q * 2 ^ n <= m /\ m + 1 <= (q + 1) * 2 ^ n) as [Hq1 Hq2].
  { pose proof (Z.div_mod m (2 ^ n) ltac:(lia)). pose proof (Z.mod_pos_bound m (2 ^ n) Hn). fold q in H. lia. }
  assert (inject_Z q * 2 ^ e1 <= x <= inject_Z (q + 1) * 2 ^ e1)%Q as [Hy1 Hy2].
  { rewrite <- !(scale_down _ e1 n) by lia. replace (e1 - n) with e by lia. rewrite Zle_Qle in Hq1, Hq2.
    pose proof (p2_pos e). split; [eapply Qle_trans; [|apply Hx1]|eapply Qle_trans; [apply Hx2|]]; by apply Qmult_le_r. }
  assert (2 ^ e1 <= ulp * x)%Q as Hu.
  { assert (e1 = -52 + (Zdigits2 m - 1 + e)) as -> by (unfold e1; rewrite fexp64_eq; lia).
    rewrite p2_plus. apply Qmult_le_l; [reflexivity|]. eapply Qle_trans; [|apply Hx1]. rewrite p2_plus, <- p2_Z by lia.
    apply Qmult_le_r; [apply p2_pos|]. by rewrite <- Zle_Qle. }
  rewrite Hv, sign_abs.
  assert (0 <= x)%Q as Hx0.
  { eapply Qle_trans; [|apply Hx1]. apply Qmult_le_0_compat; [change 0%Q with (inject_Z 0); rewrite <- Zle_Qle; lia|].
    apply Qlt_le_weak, p2_pos. }
  assert (sign s * (inject_Z k * 2 ^ e1) - sign s * x == sign s * (inject_Z k * 2 ^ e1 - x))%Q as -> by lra.
  rewrite sign_abs, (Qabs_pos x) by done. eapply Qle_trans; [|apply Hu]. apply Qabs_Qle_condition.
  destruct Hk as [Hk1 Hk2]. rewrite Zle_Qle in Hk1, Hk2. rewrite inject_Z_plus in *. change (inject_Z 1) with 1%Q in *.
  pose proof (p2_pos e1). split; nra.
Qed.

Lemma iter_xO m d : Zpos (Pos.iter xO m d) = Zpos m * 2 ^ Zpos d.
Proof.
  revert m. induction d as [|d IH] using Pos.peano_ind; intros m; [simpl; lia|].
  rewrite Pos.iter_succ, Pos2Z.inj_succ, Z.pow_succ_r by lia. rewrite Pos2Z.inj_xO, IH. lia.
Qed.

Lemma shl_align_value m e e' : e' <= e ->
  (inject_Z (Zpos (shl_align m e e').1) * 2 ^ e' == inject_Z (Zpos m) * 2 ^ e)%Q
  /\ Zpos (shl_align m e e').1 = Zpos m * 2 ^ (e - e').
Proof.
  intros Hle. unfold shl_align. destruct (e' - e) as [|d|d] eqn:E; [|lia|].
  - assert (e' = e) as -> by lia. simpl. rewrite Z.sub_diag. split; [done|lia].
  - cbn [fst]. rewrite iter_xO. replace (e - e') with (Zpos d) by lia. split; [|done].
    replace e' with (e - Zpos d) by lia. by apply scale_down.
Qed.

(** Rounding of an integral mantissa at an exponent no lower than the lowest. *)
Lemma binary_round_spec s m e :
  -1074 <= e -> Zpos (digits2_pos m) + e <= 1023 ->
  close (binary_round 53 1024 s m e) (sign s * (inject_Z (Zpos m) * 2 ^ e))
  /\ (Zpos (digits2_pos m) <= 53 -> (value (binary_round 53 1024 s m e) == sign s * (inject_Z (Zpos m) * 2 ^ e))%Q).
Proof.
  intros He Hov. unfold binary_round. set (d := Zpos (digits2_pos m)) in *. set (e1 := fexp64 (d + e)).
  pose proof (digits_pos m) as Hd. fold d in Hd.
  destruct (Z.le_gt_cases e1 e) as [Hle|Hgt].
  - destruct (shl_align_value m e e1 Hle) as [Hv Hz].
    assert ((shl_align m e e1).2 = e1) as He1.
    { unfold shl_align. destruct (e1 - e) eqn:E; cbn [snd]; lia. }
    destruct (shl_align m e e1) as [mz ez]. cbn [fst snd] in *. subst ez.
    assert (0 <= e - e1) as Hs by lia.
    assert (Zdigits2 (Zpos mz) = d + (e - e1)) as Hdz.
    { apply Z.le_antisymm.
      - apply digits_le; [lia|lia|]. rewrite Hz, Z.pow_add_r by lia. apply Z.mul_lt_mono_pos_r; [apply Z.pow_pos_nonneg; lia|lia].
      - apply digits_ge; [lia|]. rewrite Hz. replace (d + (e - e1) - 1) with ((d - 1) + (e - e1)) by lia.
        rewrite Z.pow_add_r by lia. apply Z.mul_le_mono_nonneg_r; [apply Z.pow_nonneg; lia|lia]. }
    assert (fexp64 (Zdigits2 (Zpos mz) + e1) = e1) as Hf by (rewrite Hdz; unfold e1; f_equal; lia).
    destruct (round_aux_spec s (Zpos mz) e1 loc_Exact ltac:(lia) ltac:(lia) ltac:(lia)) as (k & [Hfin Hval] & _ & Hex).
    rewrite Hf in Hval, Hex. rewrite (Hex eq_refl eq_refl), Hv in Hval. split; [by apply exact_close|done].
  - assert (e1 = d + e - 53) as He1 by (unfold e1 in *; rewrite fexp64_eq in *; lia).
    assert (shl_align m e e1 = (m, e)) as ->.
    { unfold shl_align. destruct (e1 - e) eqn:E; [done|done|lia]. }
    split; [|lia]. apply round_aux_close; [lia|cbn [Zdigits2]; fold d e1; lia|cbn [Zdigits2]; fold d; lia|].
    split; [apply Qle_refl|]. apply Qmult_le_r; [apply p2_pos|]. rewrite <- Zle_Qle. lia.
Qed.

Lemma digits_range m e : (inject_Z (Zpos m) * 2 ^ e <= 2 ^ 1000)%Q -> Zpos (digits2_pos m) + e <= 1001.
Proof.
  intros H. pose proof (digits_pos m) as [Hd _]. set (d := Zpos (digits2_pos m)) in *.
  assert (2 ^ (d - 1 + e) < 2 ^ 1001)%Q as Hlt%p2_lt_inv; [|lia].
  eapply Qle_lt_trans; [|apply (Qle_lt_trans _ _ _ H); reflexivity].
  rewrite p2_plus, <- p2_Z by lia. apply Qmult_le_r; [apply p2_pos|]. by rewrite <- Zle_Qle.
Qed.

Lemma normalize_spec m e sz :
  -1074 <= e -> (Qabs (inject_Z m * 2 ^ e) <= 2 ^ 1000)%Q ->
  close (binary_normalize 53 1024 m e sz) (inject_Z m * 2 ^ e)
  /\ (Z.abs m < 2 ^ 53 -> (value (binary_normalize 53 1024 m e sz) == inject_Z m * 2 ^ e)%Q).
Proof.
  intros He Hr. pose proof (p2_pos e) as Hp.
  assert (forall p, (Qabs (inject_Z (Zpos p) * 2 ^ e) == inject_Z (Zpos p) * 2 ^ e)%Q) as Habs.
  { intros p. apply Qabs_pos, Qmult_le_0_compat; [discriminate|lra]. }
  destruct m as [|p|p]; cbn [binary_normalize].
  - assert (inject_Z 0 * 2 ^ e == 0)%Q as E by (change (inject_Z 0) with 0%Q; lra).
    split; [apply exact_close; [done|by rewrite E]|by rewrite E].
  - rewrite Habs in Hr. apply digits_range in Hr.
    destruct (binary_round_spec false p e He ltac:(lia)) as [[Hf Hc] Hx]. cbn [sign] in *.
    assert (1 * (inject_Z (Zpos p) * 2 ^ e) == inject_Z (Zpos p) * 2 ^ e)%Q as E by lra. rewrite E in Hc, Hx.
    split; [done|]. intros Hm. apply Hx. apply (digits_le (Zpos p)); lia.
  - assert (inject_Z (Zneg p) * 2 ^ e == - (inject_Z (Zpos p) * 2 ^ e))%Q as E0 by (change (inject_Z (Zneg p)) with (- inject_Z (Zpos p))%Q; lra).
    rewrite E0, Qabs_opp, Habs in Hr. apply digits_range in Hr.
    destruct (binary_round_spec true p e He ltac:(lia)) as [[Hf Hc] Hx]. cbn [sign] in *.
    assert (-1 * (inject_Z (Zpos p) * 2 ^ e) == inject_Z (Zneg p) * 2 ^ e)%Q as E by lra. rewrite E in Hc, Hx.
    split; [done|]. intros Hm. apply Hx. apply (digits_le (Zpos p)); lia.
Qed.

(** ** The operations *)

(** The range in which an exact result is rounded with a relative error. *)
Definition normal (x : Q) : Prop := (x == 0 \/ 2 ^ (-1000) <= Qabs x <= 2 ^ 1000)%Q.

Lemma of_Z_exact z :
  Z.abs z < 2 ^ 53 -> fin (binary_normalize 53 1024 z 0 false) /\ (value (binary_normalize 53 1024 z 0 false) == inject_Z z)%Q.
Proof.
  intros Hz. assert (inject_Z z * 2 ^ 0 == inject_Z z)%Q as E by (change (2 ^ 0)%Q with 1%Q; lra).
  destruct (normalize_spec z 0 false) as [[Hf _] Hx]; [lia| |].
  - rewrite E. apply Qabs_Qle_condition. apply Z.abs_lt in Hz as [H1 H2]. rewrite Zlt_Qlt in H1, H2.
    assert (inject_Z (2 ^ 53) < 2 ^ 1000)%Q by reflexivity. rewrite inject_Z_opp in H1. split; lra.
  - split; [done|]. by rewrite <- E, Hx.
Qed.

Lemma fin_finite s m e : fin (S754_finite s m e) -> fexp64 (Zpos (digits2_pos m) + e) = e /\ -1074 <= e <= 971.
Proof. cbn [fin]. rewrite bounded_iff, fexp64_eq. lia. Qed.

(** The signed mantissa, moved to a lower exponent. *)
Lemma aligned s m e e' : e' <= e ->
  (inject_Z (cond_Zopp s (Zpos (shl_align m e e').1)) * 2 ^ e' == value (S754_finite s m e))%Q.
Proof.
  intros Hle. destruct (shl_align_value m e e' Hle) as [Hv _]. cbn [value]. rewrite <- Hv.
  destruct s; cbn [cond_Zopp sign]; [rewrite inject_Z_opp|]; lra.
Qed.

Lemma add_close x y :
  fin x -> fin y -> (Qabs (value x + value y) <= 2 ^ 1000)%Q -> close (SFadd 53 1024 x y) (value x + value y).
Proof.
  intros Hx Hy Hr. destruct x as [sx|sx| |sx mx ex]; try done; destruct y as [sy|sy| |sy my ey]; try done.
  - apply exact_close; [by destruct sx, sy|]. by destruct sx, sy.
  - apply exact_close; [done|]. cbn [SFadd]. cbn [value]. lra.
  - apply exact_close; [done|]. cbn [SFadd]. cbn [value]. lra.
  - apply fin_finite in Hx as [_ Hx], Hy as [_ Hy]. cbn [SFadd]. set (ez := Z.min ex ey).
    assert (inject_Z (cond_Zopp sx (Zpos (shl_align mx ex ez).1) + cond_Zopp sy (Zpos (shl_align my ey ez).1)) * 2 ^ ez
      == value (S754_finite sx mx ex) + value (S754_finite sy my ey))%Q as E.
    { rewrite inject_Z_plus, Qmult_plus_distr_l, !aligned by lia. reflexivity. }
    destruct (normalize_spec (cond_Zopp sx (Zpos (shl_align mx ex ez).1) + cond_Zopp sy (Zpos (shl_align my ey ez).1)) ez false)
      as [[Hf Hc] _]; [lia|by rewrite E|]. rewrite E in Hc. done.
Qed.

Lemma sub_close x y :
  fin x -> fin y -> (Qabs (value x - value y) <= 2 ^ 1000)%Q -> close (SFsub 53 1024 x y) (value x - value y).
Proof.
  intros Hx Hy Hr. destruct x as [sx|sx| |sx mx ex]; try done; destruct y as [sy|sy| |sy my ey]; try done.
  - apply exact_close; [by destruct sx, sy|]. by destruct sx, sy.
  - apply exact_close; [done|]. cbn [SFsub value]. destruct sy; cbn [negb sign]; lra.
  - apply exact_close; [done|]. cbn [SFsub value]. lra.
  - apply fin_finite in Hx as [_ Hx], Hy as [_ Hy]. cbn [SFsub]. set (ez := Z.min ex ey).
    assert (inject_Z (cond_Zopp sx (Zpos (shl_align mx ex ez).1) - cond_Zopp sy (Zpos (shl_align my ey ez).1)) * 2 ^ ez
      == value (S754_finite sx mx ex) - value (S754_finite sy my ey))%Q as E.
    { unfold Z.sub. rewrite inject_Z_plus, inject_Z_opp, Qmult_plus_distr_l, aligned by lia.
      rewrite <- (aligned sy my ey ez) by lia. lra. }
    destruct (normalize_spec (cond_Zopp sx (Zpos (shl_align mx ex ez).1) - cond_Zopp sy (Zpos (shl_align my ey ez).1)) ez false)
      as [[Hf Hc] _]; [lia|by rewrite E|]. rewrite E in Hc. done.
Qed.

Lemma xor_sign s t : (sign (xorb s t) == sign s * sign t)%Q.
Proof. by destruct s, t. Qed.

(** The digits of a mantissa whose number is in the range. *)
Lemma digits_normal m e :
  (2 ^ (-1000) <= inject_Z (Zpos m) * 2 ^ e)%Q -> -1000 < Zpos (digits2_pos m) + e.
Proof.
  intros H. apply p2_lt_inv. eapply Qle_lt_trans; [apply H|]. rewrite p2_plus, <- (p2_Z (Zpos (digits2_pos m))) by lia.
  apply Qmult_lt_r; [apply p2_pos|]. rewrite <- Zlt_Qlt. apply digits_pos.
Qed.

Lemma finite_abs s m e : (Qabs (value (S754_finite s m e)) == inject_Z (Zpos m) * 2 ^ e)%Q.
Proof.
  cbn [value]. rewrite sign_abs. apply Qabs_pos. pose proof (p2_pos e). apply Qmult_le_0_compat; [discriminate|lra].
Qed.

Lemma finite_nonzero s m e : ~ (value (S754_finite s m e) == 0)%Q.
Proof.
  intros E. pose proof (finite_abs s m e) as H. rewrite E in H. change (Qabs 0) with 0%Q in H.
  assert (0 < inject_Z (Zpos m) * 2 ^ e)%Q; [|lra]. apply Qmult_lt_0_compat; [reflexivity|apply p2_pos].
Qed.

Lemma mul_close x y :
  fin x -> fin y -> normal (value x * value y) -> close (SFmul 53 1024 x y) (value x * value y).
Proof.
  intros Hx Hy Hr. destruct x as [sx|sx| |sx mx ex]; try done; destruct y as [sy|sy| |sy my ey]; try done;
    try (apply exact_close; [done|cbn [SFmul value]; lra]).
  destruct Hr as [E|[Hr1 Hr2]]; [apply Qmult_integral in E as [E|E]; by apply finite_nonzero in E|].
  apply fin_finite in Hx as [Fx Hx], Hy as [Fy Hy]. cbn [SFmul].
  assert (inject_Z (Zpos (mx * my)) * 2 ^ (ex + ey) == Qabs (value (S754_finite sx mx ex) * value (S754_finite sy my ey)))%Q as E.
  { rewrite Qabs_Qmult, !finite_abs, p2_plus, Pos2Z.inj_mul, inject_Z_mult. lra. }
  rewrite <- E in Hr1, Hr2. apply digits_normal in Hr1. apply digits_range in Hr2.
  assert (value (S754_finite sx mx ex) * value (S754_finite sy my ey)
    == sign (xorb sx sy) * (inject_Z (Zpos (mx * my)) * 2 ^ (ex + ey)))%Q as Ev.
  { cbn [value]. rewrite xor_sign, p2_plus, Pos2Z.inj_mul, inject_Z_mult. lra. }
  destruct (round_aux_close (xorb sx sy) (Zpos (mx * my)) (ex + ey) loc_Exact (inject_Z (Zpos (mx * my)) * 2 ^ (ex + ey))) as [Hf Hc].
  - lia.
  - cbn [Zdigits2]. rewrite fexp64_eq in *. pose proof (digits_pos mx) as [Dx _]. pose proof (digits_pos my) as [Dy _].
    assert (Zpos (digits2_pos mx) + Zpos (digits2_pos my) - 1 <= Zpos (digits2_pos (mx * my))); [|lia].
    apply (digits_ge (Zpos (mx * my))); [lia|].
    replace (Zpos (digits2_pos mx) + Zpos (digits2_pos my) - 1 - 1) with ((Zpos (digits2_pos mx) - 1) + (Zpos (digits2_pos my) - 1)) by lia.
    rewrite Z.pow_add_r, Pos2Z.inj_mul by lia. apply Z.mul_le_mono_nonneg; try done; apply Z.pow_nonneg; lia.
  - cbn [Zdigits2]. lia.
  - split; [apply Qle_refl|]. apply Qmult_le_r; [apply p2_pos|]. rewrite <- Zle_Qle. lia.
  - split; [done|]. by rewrite Ev.
Qed.

(** The quotient of the mantissas at the exponent [SFdiv_core_binary] chooses:
    at least 53 digits of it, and the quotient lies between it and the next. *)
Lemma div_core mx ex my ey :
  let a := (inject_Z (Zpos mx) * 2 ^ ex)%Q in
  let b := (inject_Z (Zpos my) * 2 ^ ey)%Q in
  (2 ^ (-1000) <= a / b <= 2 ^ 1000)%Q ->
  let '(q, e, l) := SFdiv_core_binary 53 1024 (Zpos mx) ex (Zpos my) ey in
  0 < q /\ e <= fexp64 (Zdigits2 q + e) /\ -1021 <= Zdigits2 q + e <= 1023
  /\ (inject_Z q * 2 ^ e <= a / b <= inject_Z (q + 1) * 2 ^ e)%Q.
Proof.
  intros a b [Hr1 Hr2]. unfold SFdiv_core_binary. cbn [Zdigits2].
  pose proof (digits_pos mx) as [X1 X2]. pose proof (digits_pos my) as [Y1 Y2].
  set (d1 := Zpos (digits2_pos mx)) in *. set (d2 := Zpos (digits2_pos my)) in *.
  set (D := d1 + ex - (d2 + ey)). set (e := Z.min (fexp64 D) (ex - ey)). set (s := ex - ey - e).
  assert (0 < b)%Q as Hb by (apply Qmult_lt_0_compat; [reflexivity|apply p2_pos]).
  assert (2 ^ (d1 - 1 + ex) <= a < 2 ^ (d1 + ex))%Q as [A1 A2].
  { unfold a. rewrite !p2_plus, <- (p2_Z (d1 - 1)), <- (p2_Z d1) by lia. pose proof (p2_pos ex).
    split; [apply Qmult_le_r; [done|]; by rewrite <- Zle_Qle|apply Qmult_lt_r; [done|]; by rewrite <- Zlt_Qlt]. }
  assert (2 ^ (d2 - 1 + ey) <= b < 2 ^ (d2 + ey))%Q as [B1 B2].
  { unfold b. rewrite !p2_plus, <- (p2_Z (d2 - 1)), <- (p2_Z d2) by lia. pose proof (p2_pos ey).
    split; [apply Qmult_le_r; [done|]; by rewrite <- Zle_Qle|apply Qmult_lt_r; [done|]; by rewrite <- Zlt_Qlt]. }
  assert (a / b * b == a)%Q as Eab by (field; lra).
  assert (-1001 < D) as HD1.
  { assert (2 ^ (-1000 + (d2 - 1 + ey)) < 2 ^ (d1 + ex))%Q as H%p2_lt_inv; [|unfold D; lia].
    rewrite p2_plus. pose proof (p2_pos (-1000)). eapply Qle_lt_trans; [apply Qmult_le_l; [done|apply B1]|].
    eapply Qle_lt_trans; [apply Qmult_le_r; [done|apply Hr1]|]. by rewrite Eab. }
  assert (D < 1001) as HD2.
  { assert (2 ^ (d1 - 1 + ex) < 2 ^ (1000 + (d2 + ey)))%Q as H%p2_lt_inv; [|unfold D; lia].
    rewrite (p2_plus 1000). pose proof (p2_pos 1000). eapply Qle_lt_trans; [apply A1|]. rewrite <- Eab.
    eapply Qle_lt_trans; [apply Qmult_le_r; [done|apply Hr2]|]. by apply Qmult_lt_l. }
  assert (e <= D - 53 /\ e <= ex - ey) as [He1 He2] by (unfold e; rewrite fexp64_eq; lia).
  assert ((match s with Z0 => Zpos mx | Zpos _ => Z.shiftl (Zpos mx) s | Zneg _ => 0 end) = Zpos mx * 2 ^ s) as ->.
  { destruct s as [|p|p] eqn:Es; [lia|by rewrite Z.shiftl_mul_pow2|lia]. }
  pose proof (Z_div_mod (Zpos mx * 2 ^ s) (Zpos my) ltac:(lia)) as Hdm.
  destruct (Z.div_eucl (Zpos mx * 2 ^ s) (Zpos my)) as [q r]. destruct Hdm as [Hq Hrem].
  assert (0 < 2 ^ s) as Hs by (apply Z.pow_pos_nonneg; lia).
  assert (2 ^ (D - e - 1) <= q) as Q1.
  { assert (2 ^ (D - e - 1) < q + 1); [|lia]. apply (Z.mul_lt_mono_pos_r (Zpos my)); [lia|].
    assert (2 ^ (D - e - 1) * Zpos my < 2 ^ (D - e - 1) * 2 ^ d2) as H1.
    { apply Z.mul_lt_mono_pos_l; [apply Z.pow_pos_nonneg; lia|done]. }
    rewrite <- Z.pow_add_r in H1 by lia. replace (D - e - 1 + d2) with (d1 - 1 + s) in H1 by lia.
    rewrite Z.pow_add_r in H1 by lia. assert (2 ^ (d1 - 1) * 2 ^ s <= Zpos mx * 2 ^ s) by (apply Z.mul_le_mono_nonneg_r; lia). lia. }
  assert (0 < q) as Hq0 by (eapply Z.lt_le_trans; [|apply Q1]; apply Z.pow_pos_nonneg; lia).
  assert (q < 2 ^ (D - e + 1)) as Q2.
  { apply (Z.mul_lt_mono_pos_r (2 ^ (d2 - 1))); [apply Z.pow_pos_nonneg; lia|]. rewrite <- Z.pow_add_r by lia.
    replace (D - e + 1 + (d2 - 1)) with (d1 + s) by lia. rewrite Z.pow_add_r by lia.
    assert (q * 2 ^ (d2 - 1) <= q * Zpos my) by (apply Z.mul_le_mono_nonneg_l; lia).
    assert (Zpos mx * 2 ^ s < 2 ^ d1 * 2 ^ s) by (apply Z.mul_lt_mono_pos_r; lia). lia. }
  assert (D - e <= Zdigits2 q) as D1 by (apply digits_ge; lia).
  assert (Zdigits2 q <= D - e + 1) as D2 by (apply digits_le; lia).
  split; [done|]. split; [rewrite fexp64_eq; lia|]. split; [lia|].
  assert (inject_Z (Zpos mx * 2 ^ s) * 2 ^ (e + ey) == a)%Q as Ea.
  { unfold a. rewrite <- (scale_down (Zpos mx) ex s) by lia. by replace (ex - s) with (e + ey) by lia. }
  assert (forall k, (inject_Z k * 2 ^ e * b == inject_Z (k * Zpos my) * 2 ^ (e + ey))%Q) as Ek.
  { intros k. unfold b. rewrite inject_Z_mult, p2_plus. lra. }
  pose proof (p2_pos (e + ey)) as Hp.
  split; [apply Qle_shift_div_l|apply Qle_shift_div_r]; try done; rewrite Ek, <- Ea; (apply Qmult_le_r; [done|]); rewrite <- Zle_Qle; lia.
Qed.

Lemma div_close x y :
  fin x -> fin y -> ~ (value y == 0)%Q -> normal (value x / value y) -> close (SFdiv 53 1024 x y) (value x / value y).
Proof.
  intros Hx Hy Hy0 Hr. destruct x as [sx|sx| |sx mx ex]; try done; destruct y as [sy|sy| |sy my ey]; try done.
  set (a := (inject_Z (Zpos mx) * 2 ^ ex)%Q). set (b := (inject_Z (Zpos my) * 2 ^ ey)%Q).
  assert (0 < a)%Q as Ha by (apply Qmult_lt_0_compat; [reflexivity|apply p2_pos]).
  assert (0 < b)%Q as Hb by (apply Qmult_lt_0_compat; [reflexivity|apply p2_pos]).
  assert (value (S754_finite sx mx ex) / value (S754_finite sy my ey) == sign (xorb sx sy) * (a / b))%Q as Ev.
  { cbn [value]. fold a b. rewrite xor_sign. destruct sx, sy; cbn [sign]; field; lra. }
  assert (0 < a / b)%Q as Hab by (apply Qlt_shift_div_l; lra).
  unfold normal in Hr. rewrite Ev in Hr. destruct Hr as [E|Hr].
  { exfalso. apply Qmult_integral in E as [E|E]; [destruct (xorb sx sy); discriminate|lra]. }
  rewrite sign_abs, (Qabs_pos (a / b)) in Hr by lra.
  pose proof (div_core mx ex my ey Hr) as Hc. cbn [SFdiv].
  destruct (SFdiv_core_binary 53 1024 (Zpos mx) ex (Zpos my) ey) as [[q e] l]. destruct Hc as (H1 & H2 & H3 & H4).
  destruct (round_aux_close (xorb sx sy) q e l (a / b) H1 H2 H3 H4) as [Hf Hc]. split; [done|]. by rewrite Ev.
Qed.

(** ** The comparison *)

Lemma exponent_order m1 e1 m2 e2 :
  fexp64 (Zpos (digits2_pos m1) + e1) = e1 -> fexp64 (Zpos (digits2_pos m2) + e2) = e2 -> e1 < e2 ->
  (inject_Z (Zpos m1) * 2 ^ e1 < inject_Z (Zpos m2) * 2 ^ e2)%Q.
Proof.
  rewrite !fexp64_eq. intros F1 F2 Hlt. pose proof (digits_pos m1) as [_ H1]. pose proof (digits_pos m2) as [H2 _].
  apply (Qlt_le_trans _ (2 ^ (53 + e1))).
  - rewrite p2_plus, <- (p2_Z 53) by lia. apply Qmult_lt_r; [apply p2_pos|]. rewrite <- Zlt_Qlt.
    eapply Z.lt_le_trans; [apply H1|]. apply Z.pow_le_mono_r; lia.
  - apply (Qle_trans _ (2 ^ (52 + e2))); [apply p2_le; lia|]. rewrite p2_plus, <- (p2_Z 52) by lia.
    apply Qmult_le_r; [apply p2_pos|]. rewrite <- Zle_Qle. etrans; [|apply H2]. apply Z.pow_le_mono_r; lia.
Qed.

Lemma magnitude_order m1 e1 m2 e2 :
  fexp64 (Zpos (digits2_pos m1) + e1) = e1 -> fexp64 (Zpos (digits2_pos m2) + e2) = e2 ->
  match match e1 ?= e2 with Lt => Lt | Gt => Gt | Eq => Pos.compare_cont Eq m1 m2 end with
  | Lt => (inject_Z (Zpos m1) * 2 ^ e1 < inject_Z (Zpos m2) * 2 ^ e2)%Q
  | Eq => (inject_Z (Zpos m1) * 2 ^ e1 == inject_Z (Zpos m2) * 2 ^ e2)%Q
  | Gt => (inject_Z (Zpos m2) * 2 ^ e2 < inject_Z (Zpos m1) * 2 ^ e1)%Q
  end.
Proof.
  intros F1 F2. destruct (Z.compare_spec e1 e2) as [->|Hlt|Hgt]; [|by apply exponent_order|by apply exponent_order].
  change (Pos.compare_cont Eq m1 m2) with (Pos.compare m1 m2). pose proof (p2_pos e2).
  destruct (Pos.compare_spec m1 m2) as [->|Hm|Hm]; [done|..]; (apply Qmult_lt_r; [done|]); rewrite <- Zlt_Qlt; lia.
Qed.

Lemma ltb_value x y : fin x -> fin y -> SFltb x y = true <-> (value x < value y)%Q.
Proof.
  intros Hx Hy. unfold SFltb.
  assert (forall m e, (0 < inject_Z (Zpos m) * 2 ^ e)%Q) as Hp.
  { intros m e. apply Qmult_lt_0_compat; [reflexivity|apply p2_pos]. }
  destruct x as [sx|sx| |sx mx ex]; try done; destruct y as [sy|sy| |sy my ey]; try done; cbn [SFcompare value].
  - specialize (Hp my ey). destruct sy; cbn [sign]; split; intros; try done; lra.
  - specialize (Hp mx ex). destruct sx; cbn [sign]; split; intros; try done; lra.
  - apply fin_finite in Hx as [Fx _], Hy as [Fy _]. pose proof (magnitude_order mx ex my ey Fx Fy) as Hm.
    pose proof (Hp mx ex). pose proof (Hp my ey).
    destruct sx, sy; cbn [sign]; try (split; intros; try done; lra);
      destruct (ex ?= ey); try destruct (Pos.compare_cont Eq mx my); cbn [CompOpp]; split; intros; try done; lra.
Qed.
