(* ===== verification/Policy.v ===== *)
(** * The policy engine ([internal/policy/policy.go])

    The policy data model, [Validate], the matcher, the process-access gate,
    the multi-hit evaluation [EvaluateAll] and the split of its result into
    audit rules and one response rule ([AggregatedDecision]).

    Strings that the source compares against literals stay strings, so that a
    policy that was not validated can hold any value.  Validation errors are
    constructors of [PolicyErr], one per [fmt.Errorf] of the source.  Of
    [time.Time] the engine reads the hour and the minute ([Clock]). *)

From S2P Require Import Prelude GoStrings.

(** ** Data *)

Record Match := mkMatch {
  m_ProcessName : string; m_ProcessPath : string; m_CmdlineContains : string; m_User : string;
  m_FilePath : string; m_FilePathPrefix : string; m_FileOp : string;
  m_RemoteAddr : string; m_LocalPort : Z; m_Protocol : string;
  m_EnvContains : string; m_MapsContains : string; m_PtraceSelfCheck : option bool;
  m_ParentProcessName : string; m_ProcessUID : string; m_FileContent : string;
  m_FilePathSuffix : string; m_ConnectionFreqMin : Z;
  m_BeaconIntervalMin : Z; m_BeaconIntervalMax : Z; m_ContainerID : string;
}.

Definition emptyMatch : Match :=
  mkMatch "" "" "" "" "" "" "" "" 0 "" "" "" None "" "" "" "" 0 0 0 "".

Record TimeWindow := mkTimeWindow { tw_Start : string; tw_End : string }.

Record Rule := mkRule {
  r_ID : string; r_Description : string; r_Enabled : option bool; r_Category : string;
  r_Severity : string; r_Decision : string; r_Action : string; r_Match : Match;
  r_TimeWindow : option TimeWindow; r_Whitelist : list Match; r_Priority : Z;
  r_Effect : list string;
}.

(** A rule literal of the source that sets only these fields. *)
Definition litRule (id cat sev dec act : string) (m : Match) : Rule :=
  mkRule id "" None cat sev dec act m None [] 0 [].

Definition zeroRule : Rule := litRule "" "" "" "" "" emptyMatch.

Record SelfProtection := mkSelfProtection {
  sp_Enabled : bool; sp_AuditSeverity : string; sp_EnforceMode : string; sp_ShutdownEnabled : bool;
}.

Record ProcessAccess := mkProcessAccess {
  pa_Mode : string; pa_Whitelist : list Match; pa_Blacklist : list Match;
  pa_Action : string; pa_Severity : string;
}.

Record Policy := mkPolicy {
  p_SchemaVersion : string; p_ProcessAccess : ProcessAccess;
  p_SelfProtection : SelfProtection; p_Rules : list Rule;
}.

Record Subject := mkSubject {
  s_ProcessName : string; s_ProcessPath : string; s_Cmdline : string; s_User : string;
  s_Environ : string; s_MapsLibs : string; s_PtraceSelfCheck : bool;
  s_ParentName : string; s_EUID : string; s_ContainerID : string;
}.

Definition emptySubject : Subject := mkSubject "" "" "" "" "" "" false "" "" "".

Record Object := mkObject {
  o_FilePath : string; o_FileOp : string; o_RemoteAddr : string; o_LocalPort : Z;
  o_Protocol : string; o_FileContent : string; o_ConnectionCount : Z;
}.

Definition emptyObject : Object := mkObject "" "" "" 0 "" "" 0.

(** [now.Hour()] and [now.Minute()]. *)
Record Clock := mkClock { Hour : Z; Minute : Z }.

(** ** Defaults *)

Definition AcceptedSchemaVersions : list string := ["v0.1"; "v0.5"].
Definition DefaultPriority : Z := 100.
Definition MinPriority : Z := 0.
Definition MaxPriority : Z := 1000.
Definition EffectAudit : string := "audit".
Definition EffectResponse : string := "response".

Definition EffectivePriority (r : Rule) : Z :=
  if r.(r_Priority) == 0 then DefaultPriority else r.(r_Priority).

Definition EffectiveEffect (r : Rule) : list string :=
  match r.(r_Effect) with [] => [EffectAudit; EffectResponse] | l => l end.

Definition HasEffect (r : Rule) (name : string) : bool :=
  existsb (fun e => e == name) (EffectiveEffect r).

Definition oneOf (v : string) (allowed : list string) : bool :=
  existsb (fun a => v == a) allowed.

Definition acceptedSchemaVersion (v : string) : bool :=
  existsb (fun a => v == a) AcceptedSchemaVersions.

Definition decisionFor (mode : string) : string :=
  if mode == "enforce" then "block" else "alert".

Definition actionFor (mode action : string) : string :=
  if (mode != "enforce") || (action == "") then "none" else action.

Definition severityOr (v fallback : string) : string :=
  if v == "" then fallback else v.

(** ** Clock times and windows *)

(** [time.Parse("15:04", s)]: an hour of one or two digits, a colon, a minute
    of exactly two digits and nothing else; hours below 24, minutes below 60. *)
Definition digit (a : ascii) : option Z :=
  if (48 <=? code a) && (code a <=? 57) then Some (code a - 48) else None.

Definition parse_minute (h : Z) (l : list ascii) : option Z :=
  match l with
  | [c; a; b] =>
      if c == ":"%char then
        match digit a, digit b with
        | Some x, Some y => if (h <? 24) && (10 * x + y <? 60) then Some (h * 60 + (10 * x + y)) else None
        | _, _ => None
        end
      else None
  | _ => None
  end.

Definition parseClock (s : string) : option Z :=
  match bytes s with
  | a :: l =>
      match digit a with
      | None => None
      | Some x =>
          match l with
          | b :: l' =>
              match digit b with
              | Some y => parse_minute (10 * x + y) l'
              | None => parse_minute x l
              end
          | [] => None
          end
      end
  | [] => None
  end.

(** The source overwrites the error of the start by the error of the end, so an
    unparsable start counts as 0. *)
Definition inWindow (now : Clock) (tw : option TimeWindow) : bool :=
  match tw with
  | None => true
  | Some tw =>
      let start := default 0 (parseClock tw.(tw_Start)) in
      match parseClock tw.(tw_End) with
      | None => false
      | Some end_ =>
          let cur := now.(Hour) * 60 + now.(Minute) in
          if start <=? end_ then (start <=? cur) && (cur <=? end_)
          else (start <=? cur) || (cur <=? end_)
      end
  end.

(** ** Matching *)

Section Engine.
Context `{GoUnicode}.

Definition matches (m : Match) (subj : Subject) (obj : Object) : bool :=
  if (m.(m_ProcessName) != "") && negb (equalFold m.(m_ProcessName) subj.(s_ProcessName)) then false else
  if (m.(m_ProcessPath) != "") && (m.(m_ProcessPath) != subj.(s_ProcessPath)) then false else
  if (m.(m_CmdlineContains) != "") && negb (contains subj.(s_Cmdline) m.(m_CmdlineContains)) then false else
  if (m.(m_User) != "") && (m.(m_User) != subj.(s_User)) then false else
  if (m.(m_FilePath) != "") && (m.(m_FilePath) != obj.(o_FilePath)) then false else
  if (m.(m_FilePathPrefix) != "") && negb (hasPrefix obj.(o_FilePath) m.(m_FilePathPrefix)) then false else
  if (m.(m_FileOp) != "") && negb (equalFold m.(m_FileOp) obj.(o_FileOp)) then false else
  if (m.(m_RemoteAddr) != "") && (m.(m_RemoteAddr) != obj.(o_RemoteAddr)) then false else
  if (m.(m_LocalPort) != 0) && (m.(m_LocalPort) != obj.(o_LocalPort)) then false else
  if (m.(m_Protocol) != "") && negb (equalFold m.(m_Protocol) obj.(o_Protocol)) then false else
  if (m.(m_EnvContains) != "") && negb (contains subj.(s_Environ) m.(m_EnvContains)) then false else
  if (m.(m_MapsContains) != "") && negb (contains subj.(s_MapsLibs) m.(m_MapsContains)) then false else
  if match m.(m_PtraceSelfCheck) with Some b => negb (Bool.eqb b subj.(s_PtraceSelfCheck)) | None => false end then false else
  if (m.(m_ParentProcessName) != "") && negb (equalFold m.(m_ParentProcessName) subj.(s_ParentName)) then false else
  if (m.(m_ProcessUID) != "") && (m.(m_ProcessUID) != subj.(s_EUID)) then false else
  if (m.(m_FileContent) != "") && negb (contains obj.(o_FileContent) m.(m_FileContent)) then false else
  if (m.(m_FilePathSuffix) != "") && negb (hasSuffix obj.(o_FilePath) m.(m_FilePathSuffix)) then false else
  if (m.(m_ConnectionFreqMin) != 0) && (obj.(o_ConnectionCount) <? m.(m_ConnectionFreqMin)) then false else
  if (m.(m_ContainerID) != "") && (m.(m_ContainerID) != subj.(s_ContainerID)) then false else
  true.

(** ** Evaluation *)

(** [EvaluateProcessAccess]: [None] is the source's [(Rule{}, false)]. *)
Definition EvaluateProcessAccess (p : Policy) (subj : Subject) : option Rule :=
  let pa := p.(p_ProcessAccess) in
  if (pa.(pa_Mode) == "") && (pa.(pa_Whitelist) == []) && (pa.(pa_Blacklist) == []) then None else
  match find (fun wl => matches wl subj emptyObject) pa.(pa_Whitelist) with
  | Some wl =>
      Some (litRule "process-access-whitelist" "process" (severityOr pa.(pa_Severity) "low") "allow" "none" wl)
  | None =>
      match find (fun bl => matches bl subj emptyObject) pa.(pa_Blacklist) with
      | Some bl =>
          Some (litRule "process-access-blacklist" "process" (severityOr pa.(pa_Severity) "high")
                  (decisionFor pa.(pa_Mode)) (actionFor pa.(pa_Mode) pa.(pa_Action)) bl)
      | None =>
          if (pa.(pa_Mode) == "enforce") && negb (pa.(pa_Whitelist) == []) then
            Some (litRule "process-access-default-deny" "process" (severityOr pa.(pa_Severity) "high")
                    "block" (actionFor pa.(pa_Mode) pa.(pa_Action)) emptyMatch)
          else None
      end
  end.

(** The body of the loop of [evaluateAll] on one rule. *)
Definition evaluateRule (now : Clock) (subj : Subject) (obj : Object) (r : Rule) : option Rule :=
  if match r.(r_Enabled) with Some false => true | _ => false end then None else
  if negb (inWindow now r.(r_TimeWindow)) then None else
  if negb (matches r.(r_Match) subj obj) then None else
  if existsb (fun wl => matches wl subj obj) r.(r_Whitelist)
  then Some (mkRule r.(r_ID) r.(r_Description) r.(r_Enabled) r.(r_Category) r.(r_Severity)
               "allow" "none" r.(r_Match) r.(r_TimeWindow) r.(r_Whitelist) r.(r_Priority) r.(r_Effect))
  else Some r.

Definition EvaluateAll (p : Policy) (now : Clock) (subj : Subject) (obj : Object) : list Rule :=
  omap (evaluateRule now subj obj)
    (sort_stable (fun r r' => EffectivePriority r <? EffectivePriority r') p.(p_Rules)).

Definition Evaluate (p : Policy) (now : Clock) (subj : Subject) (obj : Object) : option Rule :=
  head (EvaluateAll p now subj obj).

End Engine.

(** The loop of [AggregatedDecision], with the response found so far. *)
Fixpoint aggregate (response : option Rule) (audit : list Rule) (l : list Rule) : option Rule * list Rule :=
  match l with
  | [] => (response, audit)
  | r :: l' =>
      let audit := if HasEffect r EffectAudit then audit ++ [r] else audit in
      let response :=
        match response with
        | None =>
            if HasEffect r EffectResponse && (r.(r_Decision) != "allow") && (r.(r_Action) != "none")
            then Some r else None
        | Some _ => response
        end in
      aggregate response audit l'
  end.

Definition AggregatedDecision (l : list Rule) : option Rule * list Rule := aggregate None [] l.

(** ** Validation *)

Inductive PolicyErr :=
| ErrSchemaVersion (v : string)
| ErrPAMode | ErrPAAction | ErrPASeverity
| ErrAuditSeverity | ErrEnforceMode
| ErrRuleIDRequired (i : nat) | ErrDuplicateID (id : string)
| ErrCategory (id c : string) | ErrDecision (id d : string) | ErrAction (id a : string)
| ErrAllowAction (id a : string) | ErrAlertAction (id a : string) | ErrBlockAction (id a : string)
| ErrWindowStart (id : string) | ErrWindowEnd (id : string)
| ErrWindowAlways (id : string) | ErrWindowZero (id s : string)
| ErrPriority (id : string) (p : Z) | ErrEffect (id e : string).

Definition severities : list string := ["low"; "medium"; "high"; "critical"].
Definition allActions : list string :=
  ["none"; "kill"; "quarantine"; "fix_permissions"; "nft_block"; "log"; "fanotify_deny";
   "kill_tree"; "network_isolate"; "process_suspend"].
Definition blockActions : list string :=
  ["kill"; "fix_permissions"; "nft_block"; "quarantine"; "fanotify_deny"; "kill_tree";
   "network_isolate"; "process_suspend"].

(** [ProcessAccess.Validate]; the receiver is a value, so the default action it
    assigns is local to the function. *)
Definition validateProcessAccess (pa : ProcessAccess) : result PolicyErr () :=
  if (pa.(pa_Mode) == "") && (pa.(pa_Whitelist) == []) && (pa.(pa_Blacklist) == []) then Ok () else
  fail_if negb (oneOf pa.(pa_Mode) ["monitor"; "enforce"]) with ErrPAMode;;
  let action := if pa.(pa_Action) == "" then "kill" else pa.(pa_Action) in
  fail_if negb (oneOf action ["none"; "kill"; "kill_tree"]) with ErrPAAction;;
  fail_if (pa.(pa_Severity) != "") && negb (oneOf pa.(pa_Severity) severities) with ErrPASeverity;;
  Ok ().

Definition validateSelfProtection (sp : SelfProtection) : result PolicyErr () :=
  if sp.(sp_Enabled) then
    fail_if (sp.(sp_AuditSeverity) != "") && negb (oneOf sp.(sp_AuditSeverity) severities) with ErrAuditSeverity;;
    fail_if (sp.(sp_EnforceMode) != "") && negb (oneOf sp.(sp_EnforceMode) ["kill"]) with ErrEnforceMode;;
    Ok ()
  else Ok ().

(** The decision-action matrix. *)
Definition validateDecision (r : Rule) : result PolicyErr () :=
  if r.(r_Decision) == "allow" then
    fail_if r.(r_Action) != "none" with ErrAllowAction r.(r_ID) r.(r_Action);; Ok ()
  else if r.(r_Decision) == "alert" then
    fail_if negb (oneOf r.(r_Action) ["none"; "log"]) with ErrAlertAction r.(r_ID) r.(r_Action);; Ok ()
  else if r.(r_Decision) == "block" then
    fail_if negb (oneOf r.(r_Action) blockActions) with ErrBlockAction r.(r_ID) r.(r_Action);; Ok ()
  else Ok ().

Definition validateWindow (r : Rule) : result PolicyErr () :=
  match r.(r_TimeWindow) with
  | None => Ok ()
  | Some tw =>
      fail_if parseClock tw.(tw_Start) == None with ErrWindowStart r.(r_ID);;
      fail_if parseClock tw.(tw_End) == None with ErrWindowEnd r.(r_ID);;
      fail_if (tw.(tw_Start) == "00:00") && (tw.(tw_End) == "23:59") with ErrWindowAlways r.(r_ID);;
      fail_if tw.(tw_Start) == tw.(tw_End) with ErrWindowZero r.(r_ID) tw.(tw_Start);;
      Ok ()
  end.

Fixpoint validateEffects (id : string) (l : list string) : result PolicyErr () :=
  match l with
  | [] => Ok ()
  | e :: l' => fail_if negb (oneOf e [EffectAudit; EffectResponse]) with ErrEffect id e;; validateEffects id l'
  end.

(** One round of the loop of [Validate]; [seen] holds the ids of the earlier rules. *)
Definition validateRule (i : nat) (seen : gset string) (r : Rule) : result PolicyErr () :=
  fail_if trimSpace r.(r_ID) == "" with ErrRuleIDRequired i;;
  fail_if bool_decide (r.(r_ID) ∈ seen) with ErrDuplicateID r.(r_ID);;
  fail_if negb (oneOf r.(r_Category) ["process"; "file"; "network"]) with ErrCategory r.(r_ID) r.(r_Category);;
  fail_if negb (oneOf r.(r_Decision) ["allow"; "alert"; "block"]) with ErrDecision r.(r_ID) r.(r_Decision);;
  fail_if negb (oneOf r.(r_Action) allActions) with ErrAction r.(r_ID) r.(r_Action);;
  let? _ := validateDecision r in
  let? _ := validateWindow r in
  fail_if (r.(r_Priority) <? 0) || (MaxPriority <? r.(r_Priority)) with ErrPriority r.(r_ID) r.(r_Priority);;
  validateEffects r.(r_ID) r.(r_Effect).

(** [prioCount[p]++], for a priority that is not the default. *)
Definition countPriority (m : gmap Z Z) (r : Rule) : gmap Z Z :=
  if EffectivePriority r != DefaultPriority
  then <[EffectivePriority r := default 0 (m !! EffectivePriority r) + 1]> m else m.

Fixpoint validateRules (i : nat) (seen : gset string) (prioCount : gmap Z Z) (l : list Rule)
    : result PolicyErr (gmap Z Z) :=
  match l with
  | [] => Ok prioCount
  | r :: l' =>
      let? _ := validateRule i seen r in
      validateRules (S i) ({[r.(r_ID)]} ∪ seen) (countPriority prioCount r) l'
  end.

(** [Policy.Validate]: the warnings are the priorities shared by several rules
    with their counts, in the unspecified order of the map. *)
Definition Validate (p : Policy) : result PolicyErr (list (Z * Z)) :=
  fail_if negb (acceptedSchemaVersion p.(p_SchemaVersion)) with ErrSchemaVersion p.(p_SchemaVersion);;
  let? _ := validateProcessAccess p.(p_ProcessAccess) in
  let? _ := validateSelfProtection p.(p_SelfProtection) in
  let? prioCount := validateRules 0 ∅ ∅ p.(p_Rules) in
  Ok (filter (fun pc => 1 < pc.2) (map_to_list prioCount)).

(** ** Specifications *)

(** The rule after its own whitelist was consulted. *)
Definition whitelisted `{GoUnicode} (r : Rule) (subj : Subject) (obj : Object) : bool :=
  existsb (fun wl => matches wl subj obj) r.(r_Whitelist).

(** A rule that can drive a response. *)
Definition actionable (r : Rule) : bool :=
  HasEffect r EffectResponse && (r.(r_Decision) != "allow") && (r.(r_Action) != "none").

Definition decision_ok (r : Rule) : Prop :=
  (r.(r_Decision) = "allow" /\ r.(r_Action) = "none")
  \/ (r.(r_Decision) = "alert" /\ r.(r_Action) ∈ ["none"; "log"])
  \/ (r.(r_Decision) = "block" /\ r.(r_Action) ∈ blockActions).

Definition window_ok (tw : option TimeWindow) : Prop :=
  match tw with
  | None => True
  | Some tw =>
      is_Some (parseClock tw.(tw_Start)) /\ is_Some (parseClock tw.(tw_End))
      /\ ~ (tw.(tw_Start) = "00:00" /\ tw.(tw_End) = "23:59") /\ tw.(tw_Start) <> tw.(tw_End)
  end.

Definition rule_ok (r : Rule) : Prop :=
  trimSpace r.(r_ID) <> "" /\ r.(r_Category) ∈ ["process"; "file"; "network"]
  /\ decision_ok r /\ window_ok r.(r_TimeWindow)
  /\ MinPriority <= r.(r_Priority) <= MaxPriority
  /\ Forall (fun e => e = EffectAudit \/ e = EffectResponse) r.(r_Effect).

Definition process_access_ok (pa : ProcessAccess) : Prop :=
  (pa.(pa_Mode) = "" /\ pa.(pa_Whitelist) = [] /\ pa.(pa_Blacklist) = [])
  \/ (pa.(pa_Mode) ∈ ["monitor"; "enforce"] /\ pa.(pa_Action) ∈ [""; "none"; "kill"; "kill_tree"]
      /\ pa.(pa_Severity) ∈ "" :: severities).

Definition self_protection_ok (sp : SelfProtection) : Prop :=
  sp.(sp_Enabled) = true ->
  sp.(sp_AuditSeverity) ∈ "" :: severities /\ sp.(sp_EnforceMode) ∈ [""; "kill"].

(** What a policy accepted by [Validate] satisfies. *)
Definition policy_ok (p : Policy) : Prop :=
  p.(p_SchemaVersion) ∈ AcceptedSchemaVersions
  /\ process_access_ok p.(p_ProcessAccess) /\ self_protection_ok p.(p_SelfProtection)
  /\ NoDup (r_ID <$> p.(p_Rules)) /\ Forall rule_ok p.(p_Rules).

(** ** Lemmas on the engine *)

Lemma oneOf_spec v l : oneOf v l = true <-> v ∈ l.
Proof.
  unfold oneOf. rewrite existsb_exists. setoid_rewrite bool_decide_eq_true.
  rewrite list_elem_of_In. naive_solver.
Qed.

#[global] Arguments oneOf : simpl never.
#[global] Arguments HasEffect : simpl never.

Lemma oneOf_false v l : oneOf v l = false <-> v ∉ l.
Proof. rewrite <- oneOf_spec. by destruct (oneOf v l). Qed.

Lemma HasEffect_spec r e : HasEffect r e = true <-> e ∈ EffectiveEffect r.
Proof.
  unfold HasEffect. rewrite existsb_exists. setoid_rewrite bool_decide_eq_true.
  rewrite list_elem_of_In. naive_solver.
Qed.

Section Facts.
Context `{GoUnicode}.

Lemma evaluateRule_inv now s o r r' :
  evaluateRule now s o r = Some r' <->
  r.(r_Enabled) <> Some false /\ inWindow now r.(r_TimeWindow) = true
  /\ matches r.(r_Match) s o = true
  /\ r' = if whitelisted r s o then
            mkRule r.(r_ID) r.(r_Description) r.(r_Enabled) r.(r_Category) r.(r_Severity)
               "allow" "none" r.(r_Match) r.(r_TimeWindow) r.(r_Whitelist) r.(r_Priority) r.(r_Effect)
          else r.
Proof.
  unfold evaluateRule, whitelisted.
  destruct (r_Enabled r) as [[]|], (inWindow _ _), (matches _ _ _); simpl;
    destruct (existsb _ _); naive_solver.
Qed.

Lemma evaluateRule_priority now s o r r' :
  evaluateRule now s o r = Some r' -> EffectivePriority r' = EffectivePriority r.
Proof. intros (_ & _ & _ & ->)%evaluateRule_inv. by destruct (whitelisted _ _ _). Qed.

End Facts.

(** [omap] by a function that keeps the key commutes with sorting and with the
    selection of one key. *)
Section OmapKey.
Context {A : Type} (key : A -> Z) (f : A -> option A).
Hypothesis f_key : forall x y, f x = Some y -> key y = key x.

Lemma omap_sorted (l : list A) :
  StronglySorted (fun a b => key a <= key b) l ->
  StronglySorted (fun a b => key a <= key b) (omap f l).
Proof.
  induction 1 as [|x l HS IH HF]; simpl; [constructor|].
  destruct (f x) as [y|] eqn:E; [|done]. constructor; [done|].
  apply Forall_forall. intros z (z0 & Hz0 & Ez)%list_elem_of_omap.
  rewrite Forall_forall in HF. rewrite (f_key _ _ E), (f_key _ _ Ez). auto.
Qed.

Lemma omap_filter_key k (l : list A) :
  filter (fun a => key a = k) (omap f l) = omap f (filter (fun a => key a = k) l).
Proof.
  induction l as [|x l IH]; [done|]. rewrite filter_cons. csimpl.
  destruct (f x) as [y|] eqn:E.
  - rewrite filter_cons, (f_key _ _ E), IH. case_decide; csimpl; by rewrite ?E.
  - rewrite IH. case_decide; csimpl; by rewrite ?E.
Qed.
End OmapKey.

Section Evaluation.
Context `{GoUnicode}.

Lemma EvaluateAll_elem p now s o r' :
  r' ∈ EvaluateAll p now s o <-> exists r, r ∈ p.(p_Rules) /\ evaluateRule now s o r = Some r'.
Proof.
  unfold EvaluateAll. rewrite list_elem_of_omap.
  setoid_rewrite (sort_stable_perm _ p.(p_Rules)). done.
Qed.

Lemma EvaluateAll_sorted p now s o :
  StronglySorted (fun a b => EffectivePriority a <= EffectivePriority b) (EvaluateAll p now s o).
Proof. apply omap_sorted; eauto using evaluateRule_priority with edr. Qed.

End Evaluation.

Lemma aggregate_spec resp audit l :
  aggregate resp audit l =
  (match resp with None => List.find actionable l | _ => resp end,
   audit ++ List.filter (fun r => HasEffect r EffectAudit) l).
Proof.
  revert resp audit. induction l as [|r l IH]; intros resp audit; simpl.
  - rewrite app_nil_r. by destruct resp.
  - rewrite IH. unfold actionable at 2.
    destruct resp; destruct (HasEffect r EffectAudit); simpl; rewrite <- ?app_assoc;
      try done; by destruct (HasEffect r EffectResponse && _ && _).
Qed.

Lemma AggregatedDecision_eq l :
  AggregatedDecision l = (List.find actionable l, List.filter (fun r => HasEffect r EffectAudit) l).
Proof. apply (aggregate_spec None []). Qed.

Lemma find_sorted {A} (key : A -> Z) (P : A -> bool) l x y :
  StronglySorted (fun a b => key a <= key b) l ->
  List.find P l = Some x -> y ∈ l -> P y = true -> key x <= key y.
Proof.
  induction 1 as [|z l HS IH HF]; simpl; [done|]. rewrite Forall_forall in HF.
  destruct (P z) eqn:Pz; intros E Hy Py; simplify_eq;
    apply elem_of_cons in Hy as [->|Hy]; auto; [lia|congruence].
Qed.

Lemma find_some_elem {A} (P : A -> bool) l x : List.find P l = Some x -> x ∈ l /\ P x = true.
Proof. intros [? ?]%List.find_some. by rewrite list_elem_of_In. Qed.

Lemma find_none_elem {A} (P : A -> bool) l : List.find P l = None <-> forall x, x ∈ l -> P x = false.
Proof.
  split.
  - intros Hn x Hx. apply (List.find_none _ _ Hn). by apply list_elem_of_In.
  - induction l as [|y l IH]; simpl; [done|]. intros Hx.
    rewrite (Hx y) by apply list_elem_of_here. apply IH. intros x ?. apply Hx. by apply list_elem_of_further.
Qed.

Section Response.
Context `{GoUnicode}.
Implicit Types (p : Policy) (r : Rule).

(** The response rule of an evaluation is an unmodified rule of the policy:
    enabled, inside its window, matching, not overridden by its own whitelist,
    with a response effect and an action; and no other rule that could drive a
    response has a smaller priority. *)
Theorem response_rule_spec p now s o r :
  (AggregatedDecision (EvaluateAll p now s o)).1 = Some r ->
  r ∈ p.(p_Rules) /\ r.(r_Enabled) <> Some false /\ inWindow now r.(r_TimeWindow) = true
  /\ matches r.(r_Match) s o = true /\ whitelisted r s o = false /\ actionable r = true
  /\ forall r', r' ∈ EvaluateAll p now s o -> actionable r' = true ->
     EffectivePriority r <= EffectivePriority r'.
Proof.
  rewrite AggregatedDecision_eq. simpl. intros E.
  destruct (find_some_elem _ _ _ E) as [Hin Hact].
  destruct (proj1 (EvaluateAll_elem _ _ _ _ _) Hin) as (r0 & Hr0 & (He & Hw & Hm & Hr)%evaluateRule_inv).
  destruct (whitelisted r0 s o) eqn:Ewl; subst r.
  - unfold actionable in Hact. simpl in Hact. bool_props. done.
  - repeat split; auto. intros r' Hr' Ha'.
    exact (find_sorted EffectivePriority actionable _ _ _ (EvaluateAll_sorted p now s o) E Hr' Ha').
Qed.

(** When no response rule is chosen, no rule that could drive a response
    matched; and the audit rules are the matches with an audit effect, in
    evaluation order, rules overridden by their whitelist included. *)
Theorem AggregatedDecision_complete p now s o :
  let l := EvaluateAll p now s o in
  ((AggregatedDecision l).1 = None <-> forall r, r ∈ l -> actionable r = false)
  /\ (AggregatedDecision l).2 = List.filter (fun r => HasEffect r EffectAudit) l.
Proof. intros l. rewrite AggregatedDecision_eq. simpl. split; [apply find_none_elem|done]. Qed.

(** [Evaluate] is the first match in precedence order: it returns a rule
    exactly when some rule matches, and then one of least priority. *)
Theorem Evaluate_least p now s o :
  (Evaluate p now s o = None <-> EvaluateAll p now s o = [])
  /\ forall r, Evaluate p now s o = Some r ->
     r ∈ EvaluateAll p now s o
     /\ forall r', r' ∈ EvaluateAll p now s o -> EffectivePriority r <= EffectivePriority r'.
Proof.
  unfold Evaluate. pose proof (EvaluateAll_sorted p now s o) as HS.
  destruct (EvaluateAll p now s o) as [|r l]; simpl; [split; [done|]; by intros|].
  split; [by split|]. intros r' [= <-]. split; [apply list_elem_of_here|].
  inversion_clear HS as [|? ? _ HF]. rewrite Forall_forall in HF.
  intros r' [->|Hr']%elem_of_cons; [lia|auto].
Qed.

(** *** Process access *)

(** The process-access gate decides by whitelist first, then blacklist,
    then the default: a subject on the whitelist is allowed whatever the
    blacklist says; a blacklisted one is blocked in enforce mode and alerted
    otherwise; in enforce mode with a whitelist every other subject is blocked;
    in all other cases the gate has no opinion. *)
Theorem EvaluateProcessAccess_table p subj :
  let pa := p.(p_ProcessAccess) in
  let white := existsb (fun m => matches m subj emptyObject) pa.(pa_Whitelist) in
  let black := existsb (fun m => matches m subj emptyObject) pa.(pa_Blacklist) in
  (fun r => (r.(r_Decision), r.(r_Action))) <$> EvaluateProcessAccess p subj =
  if white then Some ("allow", "none")
  else if black then Some (decisionFor pa.(pa_Mode), actionFor pa.(pa_Mode) pa.(pa_Action))
  else if (pa.(pa_Mode) == "enforce") && negb (pa.(pa_Whitelist) == [])
  then Some ("block", actionFor pa.(pa_Mode) pa.(pa_Action)) else None.
Proof.
  assert (forall {A} (P : A -> bool) l, existsb P l = match List.find P l with Some _ => true | None => false end) as Hex.
  { intros A P l. induction l as [|x l IH]; simpl; [done|]. destruct (P x); [done|exact IH]. }
  intros pa white black. subst white black. rewrite !Hex. unfold EvaluateProcessAccess. fold pa.
  destruct ((pa_Mode pa == "") && (pa_Whitelist pa == []) && (pa_Blacklist pa == [])) eqn:E.
  - bool_props. destruct pa as [mode wl bl act sev]. simpl in *. subst. done.
  - destruct (List.find _ (pa_Whitelist pa)); [done|].
    destruct (List.find _ (pa_Blacklist pa)); [done|]. destruct (bool_decide (pa_Mode pa = "enforce")), (bool_decide (pa_Whitelist pa = [])); reflexivity.
Qed.

(** Enforce mode without an action validates, because [Validate] substitutes
    the default "kill" in its own copy only, and then no process is ever acted
    on: every rule the gate returns carries the action "none". *)
Theorem enforce_without_action_never_acts p :
  pa_Mode (p_ProcessAccess p) = "enforce" -> pa_Action (p_ProcessAccess p) = "" ->
  pa_Severity (p_ProcessAccess p) = "" ->
  validateProcessAccess (p_ProcessAccess p) = Ok ()
  /\ forall subj r, EvaluateProcessAccess p subj = Some r -> r_Action r = "none".
Proof.
  intros Hm Ha Hs. split.
  - unfold validateProcessAccess. by rewrite Hm, Ha, Hs.
  - intros subj r Hr. pose proof (EvaluateProcessAccess_table p subj) as T. simpl in T.
    rewrite Hr in T. simpl in T. rewrite Hm, Ha in T. simpl in T.
    repeat case_match; by simplify_eq.
Qed.

End Response.

Lemma enforce_without_action_never_acts_witness :
  let p := mkPolicy "v0.5" (mkProcessAccess "enforce" [] [emptyMatch] "" "")
             (mkSelfProtection false "" "" false) [] in
  validateProcessAccess (p_ProcessAccess p) = Ok ()
  /\ forall subj r, @EvaluateProcessAccess {| uni_equalFold := String.eqb; uni_toLower := id |} p subj = Some r ->
     r_Action r = "none".
Proof. intros p. apply (enforce_without_action_never_acts p); reflexivity. Defined.

Lemma response_rule_spec_witness :
  let u := {| uni_equalFold := String.eqb; uni_toLower := id |} in
  let r := litRule "r1" "process" "high" "block" "kill" emptyMatch in
  let p := mkPolicy "v0.5" (mkProcessAccess "" [] [] "" "") (mkSelfProtection false "" "" false) [r] in
  EffectivePriority r = 100 /\ @whitelisted u r emptySubject emptyObject = false.
Proof.
  intros u r p.
  destruct (@response_rule_spec u p (mkClock 10 0) emptySubject emptyObject r) as (_ & _ & _ & _ & Hw & _).
  - vm_compute. reflexivity.
  - split; [reflexivity|exact Hw].
Defined.

(** *** Time windows *)

Lemma digit_range a x : digit a = Some x -> 0 <= x <= 9.
Proof. unfold digit. case_match; [|done]. intros [= <-]. bool_props. lia. Qed.

Lemma parse_minute_range h l v : 0 <= h -> parse_minute h l = Some v -> 0 <= v < 1440.
Proof.
  intros Hh. unfold parse_minute.
  destruct l as [|c [|a [|b [|]]]]; try done. case_bool_decide; [|done].
  destruct (digit a) eqn:Ea, (digit b) eqn:Eb; try done.
  apply digit_range in Ea, Eb. case_match; [|done]. intros [= <-]. bool_props. lia.
Qed.

Lemma parseClock_range s v : parseClock s = Some v -> 0 <= v < 1440.
Proof.
  unfold parseClock. destruct (bytes s) as [|a [|b l]]; [done| |]; destruct (digit a) eqn:Ea; try done.
  apply digit_range in Ea.
  destruct (digit b) eqn:Eb; [apply digit_range in Eb|]; apply parse_minute_range; lia.
Qed.

Definition clock_ok (c : Clock) : Prop := 0 <= c.(Hour) < 24 /\ 0 <= c.(Minute) < 60.

(** The two-branch test of [inWindow] on minutes of the day. *)
Lemma arc_test a b cur :
  0 <= a < 1440 -> 0 <= b < 1440 -> 0 <= cur < 1440 ->
  (if a <=? b then (a <=? cur) && (cur <=? b) else (a <=? cur) || (cur <=? b)) = true
  <-> (cur - a) mod 1440 <= (b - a) mod 1440.
Proof.
  intros Ha Hb Hc.
  assert (forall x y, 0 <= x < 1440 -> 0 <= y < 1440 ->
    (x - y) mod 1440 = if y <=? x then x - y else x - y + 1440) as Hmod.
  { intros x y Hx Hy. destruct (Z.leb_spec y x); [apply Z.mod_small; lia|].
    rewrite <- (Z_mod_plus_full (x - y) 1 1440). apply Z.mod_small. lia. }
  rewrite !Hmod by lia.
  destruct (Z.leb_spec a b), (Z.leb_spec a cur), (Z.leb_spec cur b); simpl; split; intros; try done; lia.
Qed.

(** A time window is a closed arc of the 24-hour clock: the current minute
    is inside exactly when its distance from the start, going forward round the
    clock, is at most the length of the window.  Windows that cross midnight
    ([start > end]) are the case the two-branch test of the source is for. *)
Theorem inWindow_cyclic now tw a b :
  parseClock tw.(tw_Start) = Some a -> parseClock tw.(tw_End) = Some b -> clock_ok now ->
  inWindow now (Some tw) = true <->
  (now.(Hour) * 60 + now.(Minute) - a) mod 1440 <= (b - a) mod 1440.
Proof.
  intros Ha Hb [Hh Hm]. unfold inWindow. rewrite Ha, Hb. simpl.
  apply parseClock_range in Ha, Hb. apply arc_test; lia.
Qed.

Lemma inWindow_cyclic_witness :
  inWindow (mkClock 23 30) (Some (mkTimeWindow "22:00" "6:15")) = true <->
  (23 * 60 + 30 - 1320) mod 1440 <= (375 - 1320) mod 1440.
Proof.
  apply (inWindow_cyclic (mkClock 23 30) (mkTimeWindow "22:00" "6:15") 1320 375);
    [reflexivity|reflexivity|split; simpl; lia].
Defined.

(** *** What an evaluation has to return *)

Section EvaluationSpec.
Context `{GoUnicode}.

(** A match applies when each of its fields that is set is met by the subject
    or the object: names, operations and protocols up to case, identifiers and
    paths exactly, texts as parts, prefixes or suffixes, and a count as a lower
    bound. *)
Definition match_applies (m : Match) (s : Subject) (o : Object) : Prop :=
  (m.(m_ProcessName) <> "" -> equalFold m.(m_ProcessName) s.(s_ProcessName) = true)
  /\ (m.(m_ProcessPath) <> "" -> m.(m_ProcessPath) = s.(s_ProcessPath))
  /\ (m.(m_CmdlineContains) <> "" -> contains s.(s_Cmdline) m.(m_CmdlineContains) = true)
  /\ (m.(m_User) <> "" -> m.(m_User) = s.(s_User))
  /\ (m.(m_FilePath) <> "" -> m.(m_FilePath) = o.(o_FilePath))
  /\ (m.(m_FilePathPrefix) <> "" -> hasPrefix o.(o_FilePath) m.(m_FilePathPrefix) = true)
  /\ (m.(m_FileOp) <> "" -> equalFold m.(m_FileOp) o.(o_FileOp) = true)
  /\ (m.(m_RemoteAddr) <> "" -> m.(m_RemoteAddr) = o.(o_RemoteAddr))
  /\ (m.(m_LocalPort) <> 0 -> m.(m_LocalPort) = o.(o_LocalPort))
  /\ (m.(m_Protocol) <> "" -> equalFold m.(m_Protocol) o.(o_Protocol) = true)
  /\ (m.(m_EnvContains) <> "" -> contains s.(s_Environ) m.(m_EnvContains) = true)
  /\ (m.(m_MapsContains) <> "" -> contains s.(s_MapsLibs) m.(m_MapsContains) = true)
  /\ (m.(m_PtraceSelfCheck) <> None -> m.(m_PtraceSelfCheck) = Some s.(s_PtraceSelfCheck))
  /\ (m.(m_ParentProcessName) <> "" -> equalFold m.(m_ParentProcessName) s.(s_ParentName) = true)
  /\ (m.(m_ProcessUID) <> "" -> m.(m_ProcessUID) = s.(s_EUID))
  /\ (m.(m_FileContent) <> "" -> contains o.(o_FileContent) m.(m_FileContent) = true)
  /\ (m.(m_FilePathSuffix) <> "" -> hasSuffix o.(o_FilePath) m.(m_FilePathSuffix) = true)
  /\ (m.(m_ConnectionFreqMin) <> 0 -> m.(m_ConnectionFreqMin) <= o.(o_ConnectionCount))
  /\ (m.(m_ContainerID) <> "" -> m.(m_ContainerID) = s.(s_ContainerID)).

(** The minute of the day lies on the arc of the clock from the start to the
    end; a start that is no clock time counts as midnight, an end that is none
    closes the window for good. *)
Definition window_open (now : Clock) (tw : option TimeWindow) : Prop :=
  match tw with
  | None => True
  | Some tw =>
      let a := default 0 (parseClock tw.(tw_Start)) in
      match parseClock tw.(tw_End) with
      | None => False
      | Some b => (now.(Hour) * 60 + now.(Minute) - a) mod 1440 <= (b - a) mod 1440
      end
  end.

Definition rule_applies (now : Clock) (s : Subject) (o : Object) (r : Rule) : Prop :=
  r.(r_Enabled) <> Some false /\ window_open now r.(r_TimeWindow) /\ match_applies r.(r_Match) s o.

#[export] Instance match_applies_dec m s o : Decision (match_applies m s o).
Proof. unfold match_applies. repeat apply and_dec; apply _. Defined.

#[export] Instance window_open_dec now tw : Decision (window_open now tw).
Proof.
  destruct tw as [tw|]; unfold window_open; [|apply _].
  destruct (parseClock (tw_End tw)); apply _.
Defined.

#[export] Instance rule_applies_dec now s o r : Decision (rule_applies now s o r).
Proof. unfold rule_applies. apply _. Defined.

(** A rule one of whose own exceptions applies is reported as allowed, without
    an action, and is otherwise unchanged. *)
Definition excepted (s : Subject) (o : Object) (r : Rule) : Rule :=
  if decide (Exists (fun wl => match_applies wl s o) r.(r_Whitelist)) then
    mkRule r.(r_ID) r.(r_Description) r.(r_Enabled) r.(r_Category) r.(r_Severity)
      "allow" "none" r.(r_Match) r.(r_TimeWindow) r.(r_Whitelist) r.(r_Priority) r.(r_Effect)
  else r.

(** Zero, the absent priority, ranks as one hundred. *)
Definition rank (r : Rule) : Z := if r.(r_Priority) == 0 then 100 else r.(r_Priority).

(** One guard of [matches]: a field that is set and not met fails the match. *)
Lemma guard_iff (c rest : bool) (P R : Prop) :
  (c = false <-> P) -> (rest = true <-> R) -> (if c then false else rest) = true <-> P /\ R.
Proof. destruct c; naive_solver. Qed.

Lemma guard_last (c : bool) (P : Prop) : (c = false <-> P) -> (if c then false else true) = true <-> P.
Proof. destruct c; naive_solver. Qed.

Lemma set_or_bool (P : Prop) `{!Decision P} (b : bool) :
  negb (bool_decide P) && negb b = false <-> (~ P -> b = true).
Proof. case_bool_decide; destruct b; naive_solver. Qed.

Lemma set_prop (P Q : Prop) `{!Decision P, !Decision Q} :
  negb (bool_decide P) && negb (bool_decide Q) = false <-> (~ P -> Q).
Proof. rewrite set_or_bool. by rewrite bool_decide_eq_true. Qed.

Lemma set_flag (f : option bool) (b : bool) :
  match f with Some x => negb (Bool.eqb x b) | None => false end = false <-> (f <> None -> f = Some b).
Proof. destruct f as [[]|], b; naive_solver. Qed.

Lemma set_count (x y : Z) : (x != 0) && (y <? x) = false <-> (x <> 0 -> x <= y).
Proof. case_bool_decide; destruct (Z.ltb_spec y x); simpl; split; intros; try done; try lia. Qed.

Lemma matches_applies m s o : matches m s o = true <-> match_applies m s o.
Proof.
  unfold matches, match_applies.
  repeat (apply guard_iff; [first [apply set_prop | apply set_or_bool | apply set_flag | apply set_count]|]).
  apply guard_last, set_prop.
Qed.

Lemma inWindow_open now tw : clock_ok now -> inWindow now tw = true <-> window_open now tw.
Proof.
  intros [Hh Hm]. destruct tw as [tw|]; [|done]. unfold inWindow, window_open.
  destruct (parseClock (tw_End tw)) as [b|] eqn:Eb; [|done]. apply parseClock_range in Eb.
  apply arc_test; [|lia..].
  destruct (parseClock (tw_Start tw)) as [a|] eqn:Ea; simpl; [by apply parseClock_range in Ea|lia].
Qed.

Lemma whitelisted_applies r s o :
  whitelisted r s o = true <-> Exists (fun wl => match_applies wl s o) r.(r_Whitelist).
Proof.
  unfold whitelisted. rewrite existsb_exists, Exists_exists.
  by setoid_rewrite matches_applies; setoid_rewrite list_elem_of_In.
Qed.

Lemma evaluateRule_spec now s o r :
  clock_ok now ->
  evaluateRule now s o r = if decide (rule_applies now s o r) then Some (excepted s o r) else None.
Proof.
  intros Hc. apply option_eq. intros r'. rewrite evaluateRule_inv.
  rewrite (inWindow_open _ _ Hc), matches_applies. unfold rule_applies, excepted.
  case_decide as D; [|naive_solver].
  destruct (whitelisted r s o) eqn:E.
  - rewrite decide_True by (by apply whitelisted_applies). naive_solver.
  - rewrite decide_False by (rewrite <- whitelisted_applies; congruence). naive_solver.
Qed.

Lemma omap_guard {A B} (P : A -> Prop) `{!forall x, Decision (P x)} (f : A -> B) (l : list A) :
  omap (fun x => if decide (P x) then Some (f x) else None) l = f <$> filter P l.
Proof.
  induction l as [|x l IH]; [done|]. rewrite filter_cons. csimpl. case_decide; csimpl; by rewrite IH.
Qed.

(** C17. An evaluation at a time of day returns the rules that apply and only
    those, a rule with an exception that applies as allowed and without an
    action and every other rule as it stands; the list is in ascending rank,
    and the part of any rank [k] is in the order of the policy file. *)
Theorem EvaluateAll_spec p now s o :
  clock_ok now ->
  StronglySorted (fun a b => rank a <= rank b) (EvaluateAll p now s o)
  /\ forall k,
     filter (fun r => rank r = k) (EvaluateAll p now s o)
     = excepted s o <$> filter (rule_applies now s o) (filter (fun r => rank r = k) p.(p_Rules)).
Proof.
  intros Hc. change rank with EffectivePriority.
  split; [apply EvaluateAll_sorted|]. intros k. unfold EvaluateAll.
  rewrite omap_filter_key by eauto using evaluateRule_priority.
  rewrite (sort_stable_stable EffectivePriority), <- omap_guard.
  apply list_omap_ext. apply Forall_Forall2_diag, Forall_forall. intros r _.
  by apply evaluateRule_spec.
Qed.

End EvaluationSpec.

Lemma EvaluateAll_spec_witness :
  let u := {| uni_equalFold := String.eqb; uni_toLower := id |} in
  let night := mkRule "night" "" None "process" "high" "block" "kill" emptyMatch
                 (Some (mkTimeWindow "22:00" "6:15")) [] 5 [] in
  let plain := litRule "plain" "process" "low" "block" "kill" emptyMatch in
  let spared := mkRule "spared" "" None "process" "low" "block" "kill" emptyMatch None [emptyMatch] 100 [] in
  let off := mkRule "off" "" (Some false) "process" "low" "block" "kill" emptyMatch None [] 1 [] in
  let p := mkPolicy "v0.5" (mkProcessAccess "" [] [] "" "") (mkSelfProtection false "" "" false)
             [plain; off; spared; night] in
  let got := @EvaluateAll u p (mkClock 23 30) emptySubject emptyObject in
  StronglySorted (fun a b => rank a <= rank b) got
  /\ map r_ID got = ["night"; "plain"; "spared"] /\ map r_Decision got = ["block"; "block"; "allow"]
  /\ map r_ID (filter (fun r => rank r = 100) got) = ["plain"; "spared"].
Proof.
  intros u night plain spared off p got.
  destruct (@EvaluateAll_spec u p (mkClock 23 30) emptySubject emptyObject) as [Hs Hk];
    [split; simpl; lia|].
  split; [exact Hs|]. split; [reflexivity|]. split; [reflexivity|].
  unfold got. rewrite (Hk 100). vm_compute. reflexivity.
Defined.

(** [hh:mm] with two digits each. *)
Definition clockText (h m : Z) : string :=
  text [byte (48 + h / 10); byte (48 + h mod 10); ":"%char; byte (48 + m / 10); byte (48 + m mod 10)].

Lemma digit_byte d : 0 <= d <= 9 -> digit (byte (48 + d)) = Some d.
Proof.
  intros. unfold digit. rewrite code_byte by lia.
  destruct (Z.leb_spec 48 (48 + d)), (Z.leb_spec (48 + d) 57); try lia. cbv [andb]. f_equal. lia.
Qed.

(** Every time of day written as two digits, a colon and two digits is
    accepted by [parseClock] and read back as its minute of the day. *)
Theorem parseClock_clockText h m :
  0 <= h < 24 -> 0 <= m < 60 -> parseClock (clockText h m) = Some (h * 60 + m).
Proof.
  intros Hh Hm. unfold parseClock, clockText. rewrite bytes_text.
  pose proof (Z.div_mod h 10). pose proof (Z.div_mod m 10).
  pose proof (Z.mod_pos_bound h 10). pose proof (Z.mod_pos_bound m 10).
  rewrite !digit_byte by lia. unfold parse_minute. rewrite !digit_byte by lia. simpl.
  replace (10 * (h / 10) + h mod 10) with h by lia. replace (10 * (m / 10) + m mod 10) with m by lia.
  destruct (Z.ltb_spec h 24), (Z.ltb_spec m 60); try lia. done.
Qed.

Lemma parseClock_clockText_witness : parseClock (clockText 7 5) = Some (7 * 60 + 5).
Proof. apply (parseClock_clockText 7 5); lia. Defined.

(** The check against always-true windows compares strings, so the window
    from "0:00" to "23:59" passes validation although every time of day is
    inside it. *)
Theorem always_true_window_accepted :
  let r := mkRule "r" "" None "process" "high" "alert" "log" emptyMatch
             (Some (mkTimeWindow "0:00" "23:59")) [] 0 [] in
  validateRule 0 ∅ r = Ok () /\ forall now, clock_ok now -> inWindow now (r_TimeWindow r) = true.
Proof.
  intros r. split; [vm_compute; reflexivity|]. intros now [Hh Hm]. unfold r, inWindow. cbn [r_TimeWindow tw_Start tw_End].
  change (parseClock "23:59") with (Some 1439). change (parseClock "0:00") with (Some 0).
  cbn -[Z.mul Z.add Z.leb]. change (0 <=? 1439) with true.
  apply andb_true_iff; split; apply Z.leb_le; lia.
Qed.

(** *** Validation *)

Lemma fail_if_ok {E A} (c : bool) (e : E) (k : result E A) a :
  (if c then Err e else k) = Ok a <-> c = false /\ k = Ok a.
Proof. destruct c; naive_solver. Qed.

Lemma validateDecision_ok r :
  oneOf r.(r_Decision) ["allow"; "alert"; "block"] = true /\ oneOf r.(r_Action) allActions = true
  /\ validateDecision r = Ok () <-> decision_ok r.
Proof.
  rewrite !oneOf_spec. unfold validateDecision, decision_ok. split.
  - intros (Hd & Ha & Hv). rewrite !elem_of_cons, elem_of_nil in Hd.
    destruct Hd as [Hd|[Hd|[Hd|[]]]]; rewrite Hd in *; simpl in Hv;
      apply fail_if_ok in Hv as [Hv _]; bool_props.
    + auto.
    + right; left. by apply oneOf_spec in Hv.
    + right; right. by apply oneOf_spec in Hv.
  - intros [[-> ->]|[[-> Ha]|[-> Ha]]]; simpl.
    + split_and!; [set_solver|unfold allActions; set_solver|done].
    + pose proof Ha as ->%oneOf_spec. split_and!; [set_solver|unfold allActions; set_solver|done].
    + pose proof Ha as ->%oneOf_spec. split_and!; [set_solver|unfold allActions, blockActions in *; set_solver|done].
Qed.

Lemma validateWindow_ok r : validateWindow r = Ok () <-> window_ok r.(r_TimeWindow).
Proof.
  unfold validateWindow, window_ok. destruct (r_TimeWindow r) as [tw|]; [|done].
  rewrite !fail_if_ok, !bool_decide_eq_false, !andb_false_iff, !bool_decide_eq_false, !not_eq_None_Some.
  destruct (decide (tw_Start tw = "00:00")), (decide (tw_End tw = "23:59")); naive_solver.
Qed.

Lemma validateEffects_ok id l :
  validateEffects id l = Ok () <-> Forall (fun e => e = EffectAudit \/ e = EffectResponse) l.
Proof.
  induction l as [|e l IH]; simpl; [by split|].
  rewrite fail_if_ok, IH, Forall_cons, negb_false_iff, oneOf_spec, !elem_of_cons, elem_of_nil. naive_solver.
Qed.

Lemma validateRule_ok i seen r : validateRule i seen r = Ok () <-> (r.(r_ID) ∉ seen) /\ rule_ok r.
Proof.
  unfold validateRule, rule_ok.
  rewrite !fail_if_ok, !negb_false_iff, !bool_decide_eq_false, !res_bind_ok.
  rewrite oneOf_spec, <- validateDecision_ok, <- validateEffects_ok, <- validateWindow_ok.
  split.
  - intros (H1 & H2 & H3 & H4 & H5 & [] & H6 & (? & H7 & H8)%res_bind_ok). destruct x.
    apply fail_if_ok in H8 as [H8 H9]. bool_props. unfold MinPriority. naive_solver lia.
  - intros (H1 & H2 & H3 & (H4 & H5 & H6) & H7 & H8 & H9). unfold MinPriority in *.
    split_and!; auto. exists (). split; [done|]. rewrite H7. simpl.
    apply fail_if_ok. split; [|done]. apply orb_false_iff; split; apply Z.ltb_ge; lia.
Qed.

Lemma validateRules_ok i seen m l m' :
  validateRules i seen m l = Ok m' <->
  (Forall (fun r => r.(r_ID) ∉ seen) l /\ NoDup (r_ID <$> l) /\ Forall rule_ok l)
  /\ m' = foldl countPriority m l.
Proof.
  revert i seen m. induction l as [|r l IH]; intros i seen m; simpl.
  - split; [intros [= <-]|intros [_ ->]]; [|done]. repeat split; constructor.
  - rewrite res_bind_ok, NoDup_cons, !Forall_cons. split.
    + intros ([] & [Hs Hr]%validateRule_ok & [(HF & HN & HR) ->]%IH).
      split; [|done]. rewrite !Forall_forall in *. split_and!; auto.
      * intros r' Hr' ?. apply (HF r' Hr'). set_solver.
      * intros (r' & E & Hr')%list_elem_of_fmap. apply (HF r' Hr'). set_solver.
    + intros [([Hs HF] & [Hn HN] & Hr & HR) ->]. exists (). split; [by apply validateRule_ok|].
      apply IH. split; [|done]. rewrite !Forall_forall in *. split_and!; auto.
      intros r' Hr' [E%elem_of_singleton|]%elem_of_union; [|by eapply HF].
      apply Hn. rewrite <- E. by apply list_elem_of_fmap_2.
Qed.

Lemma validateProcessAccess_ok pa : validateProcessAccess pa = Ok () <-> process_access_ok pa.
Proof.
  unfold validateProcessAccess, process_access_ok.
  destruct (_ && _ && _) eqn:E; bool_props; [by split; auto|..];
    rewrite !fail_if_ok, !negb_false_iff, andb_false_iff, !negb_false_iff, bool_decide_eq_true, !oneOf_spec;
    (split;
     [ intros (Hm & Ha & Hs & _); right; split_and!; [done| |];
       [case_bool_decide; [set_solver|by apply list_elem_of_further]|set_solver]
     | intros [(? & ? & ?)|(Hm & Ha & Hs)]; [tauto|]; split_and!; try done;
       [case_bool_decide; [set_solver|set_solver]|apply elem_of_cons in Hs; tauto] ]).
Qed.

Lemma validateSelfProtection_ok sp : validateSelfProtection sp = Ok () <-> self_protection_ok sp.
Proof.
  unfold validateSelfProtection, self_protection_ok. destruct (sp_Enabled sp); [|naive_solver].
  rewrite !fail_if_ok, !andb_false_iff, !negb_false_iff, !bool_decide_eq_true, !oneOf_spec, !elem_of_cons.
  naive_solver.
Qed.

Lemma Validate_ok_iff p : is_ok (Validate p) = true <-> policy_ok p.
Proof.
  assert (is_ok (Validate p) = true <-> exists w, Validate p = Ok w) as ->.
  { destruct (Validate p); simpl; naive_solver. }
  unfold policy_ok. rewrite <- validateProcessAccess_ok, <- validateSelfProtection_ok.
  unfold Validate.
  rewrite <- (oneOf_spec (p_SchemaVersion p)).
  change (acceptedSchemaVersion (p_SchemaVersion p)) with (oneOf (p_SchemaVersion p) AcceptedSchemaVersions).
  setoid_rewrite fail_if_ok. setoid_rewrite negb_false_iff. setoid_rewrite res_bind_ok.
  setoid_rewrite res_bind_ok. setoid_rewrite res_bind_ok. setoid_rewrite validateRules_ok. split.
  - intros (w & Hs & [] & H1 & [] & H2 & m & [(_ & H3 & H4) _] & _). done.
  - intros (Hs & H1 & H2 & H3 & H4). eexists. split; [done|]. exists (). split; [done|].
    exists (). split; [done|]. eexists. split; [|done]. split; [|done].
    split_and!; try done. apply Forall_true. set_solver.
Qed.

(** C26. [Validate] accepts exactly the policies of [policy_ok]: an accepted
    schema version, a sound process-access and self-protection section, unique
    and non-blank rule ids, and for every rule the category, the
    decision-action matrix, the window, the priority range and the effects. *)
Theorem Validate_iff p : is_ok (Validate p) = true <-> policy_ok p.
Proof. apply Validate_ok_iff. Qed.

(** *** Priorities shared by several rules *)

Lemma countPriority_lookup m l k :
  k <> DefaultPriority ->
  default 0 (foldl countPriority m l !! k)
  = default 0 (m !! k) + Z.of_nat (length (filter (fun r => EffectivePriority r = k) l)).
Proof.
  intros Hk. revert m. induction l as [|r l IH]; intros m; simpl; [lia|].
  rewrite IH, filter_cons. unfold countPriority.
  case_bool_decide as Ep; simpl.
  - rewrite decide_False by congruence. done.
  - rewrite lookup_insert. repeat case_decide; simplify_eq; simpl; try lia; congruence.
Qed.

Lemma countPriority_default m l :
  m !! DefaultPriority = None -> foldl countPriority m l !! DefaultPriority = None.
Proof.
  revert m. induction l as [|r l IH]; intros m Hm; simpl; [done|].
  apply IH. unfold countPriority. case_bool_decide; simpl; [done|]. by rewrite lookup_insert_ne.
Qed.

(** The warnings of an accepted policy name exactly the non-default
    priorities that more than one rule has, each with the number of rules. *)
Theorem Validate_warnings p w k n :
  Validate p = Ok w ->
  (k, n) ∈ w <->
  k <> DefaultPriority /\ 1 < n
  /\ n = Z.of_nat (length (filter (fun r => EffectivePriority r = k) p.(p_Rules))).
Proof.
  intros (_ & (? & _ & (? & _ & (m & [_ ->]%validateRules_ok & [= <-])%res_bind_ok)%res_bind_ok)%res_bind_ok)%fail_if_ok.
  rewrite list_elem_of_filter, elem_of_map_to_list. simpl. set (m := foldl _ _ _).
  assert (m !! DefaultPriority = None) as Hd by by apply countPriority_default.
  split.
  - intros [Hn Hl]. assert (k <> DefaultPriority) as Hk by (intros ->; congruence).
    pose proof (countPriority_lookup ∅ (p_Rules p) k Hk) as E. fold m in E.
    rewrite Hl, lookup_empty in E. simpl in E. split_and!; [done|lia|lia].
  - intros (Hk & Hn & ->). split; [done|].
    pose proof (countPriority_lookup ∅ (p_Rules p) k Hk) as E. fold m in E.
    rewrite lookup_empty in E. simpl in E. destruct (m !! k); simpl in E; [f_equal; lia|lia].
Qed.

Lemma Validate_warnings_witness :
  let r id := mkRule id "" None "file" "low" "alert" "log" emptyMatch None [] 7 [] in
  let p := mkPolicy "v0.1" (mkProcessAccess "" [] [] "" "") (mkSelfProtection false "" "" false)
             [r "a"; r "b"] in
  (7, 2) ∈ [(7, 2)] <->
  7 <> DefaultPriority /\ 1 < 2
  /\ 2 = Z.of_nat (length (filter (fun r => EffectivePriority r = 7) p.(p_Rules))).
Proof. intros r p. apply (Validate_warnings p [(7, 2)] 7 2). vm_compute. reflexivity. Defined.

(** In an accepted policy the response rule of any evaluation either blocks
    with one of the blocking actions or alerts with "log". *)
Theorem validated_response_action `{GoUnicode} p w now s o r :
  Validate p = Ok w ->
  (AggregatedDecision (EvaluateAll p now s o)).1 = Some r ->
  (r.(r_Decision) = "block" /\ r.(r_Action) ∈ blockActions)
  \/ (r.(r_Decision) = "alert" /\ r.(r_Action) = "log").
Proof.
  intros Hv Hr.
  assert (policy_ok p) as (_ & _ & _ & _ & HF) by (apply Validate_iff; by rewrite Hv).
  rewrite AggregatedDecision_eq in Hr. simpl in Hr. apply find_some_elem in Hr as [Hin Ha].
  apply EvaluateAll_elem in Hin as (r0 & Hr0 & (_ & _ & _ & E)%evaluateRule_inv).
  unfold actionable in Ha. bool_props. rewrite Forall_forall in HF.
  destruct (HF _ Hr0) as (_ & _ & Hd & _).
  destruct (whitelisted r0 s o); subst r; [done|].
  destruct Hd as [[? ?]|[[? Hd]|?]]; [done| |by left].
  right. split; [done|]. set_solver.
Qed.

Lemma validated_response_action_witness :
  let u := {| uni_equalFold := String.eqb; uni_toLower := id |} in
  let r := litRule "r1" "process" "high" "block" "kill" emptyMatch in
  (r.(r_Decision) = "block" /\ r.(r_Action) ∈ blockActions)
  \/ (r.(r_Decision) = "alert" /\ r.(r_Action) = "log").
Proof.
  intros u r.
  apply (@validated_response_action u
    (mkPolicy "v0.5" (mkProcessAccess "" [] [] "" "") (mkSelfProtection false "" "" false) [r])
    [] (mkClock 1 1) emptySubject emptyObject r); vm_compute; reflexivity.
Defined.
