(* ===== verification/Suppress.v ===== *)
(** * The event suppressor ([internal/control/suppress.go])

    Per-key cooldown and per-rule token buckets, with the sweep that evicts old
    cooldown entries.  [time.Now()] is an argument of [Allow].  The arithmetic
    of the buckets is [float64] in the source; it is an interface here
    ([FloatOps]) whose instance [binary64] is IEEE 754 arithmetic as specified
    by [SpecFloat].  The cooldown theorems hold for every instance, the rate
    bound is that of [binary64], with its rounding errors ([Float64]). *)

From S2P Require Import Prelude GoStrings Float64.
From Stdlib Require Import SpecFloat QArith Qabs Qpower Lqa.
Local Open Scope Z_scope.
Local Open Scope go_scope.

(** ** Floating point *)

Class FloatOps := {
  F : Type;
  f_of_Z : Z -> F;
  f_add : F -> F -> F;
  f_sub : F -> F -> F;
  f_mul : F -> F -> F;
  f_div : F -> F -> F;
  f_ltb : F -> F -> bool;
  f_eqb : F -> F -> bool;
}.

(** [Duration.Seconds]: whole seconds plus the nanoseconds over 1e9. *)
Definition seconds `{FloatOps} (d : Z) : F :=
  f_add (f_of_Z (Z.quot d second)) (f_div (f_of_Z (Z.rem d second)) (f_of_Z second)).

Definition binary64 : FloatOps := {|
  F := spec_float;
  f_of_Z z := binary_normalize 53 1024 z 0 false;
  f_add := SFadd 53 1024;
  f_sub := SFsub 53 1024;
  f_mul := SFmul 53 1024;
  f_div := SFdiv 53 1024;
  f_ltb := SFltb;
  f_eqb := SFeqb;
|}.

(** ** State *)

Section Suppressor.
Context `{FloatOps}.

Record tokenBucket := mkBucket { Tokens : F; Last : Z }.

Record Suppressor := mkSuppressor {
  processCooldown : Z; fileCooldown : Z; networkCooldown : Z;
  ratePerSec : F; burst : F;
  lastSeen : gmap string Z;
  buckets : gmap string tokenBucket;
  evictCounter : Z;
}.

Record SuppressorOptions := mkOptions {
  oProcessCooldown : Z; oFileCooldown : Z; oNetworkCooldown : Z; oRatePerSec : Z; oBurst : Z;
}.

Definition defaultProcessCooldown : Z := 30 * second.
Definition defaultFileCooldown : Z := 60 * second.
Definition defaultNetworkCooldown : Z := 30 * second.

Definition NewSuppressor (opts : SuppressorOptions) : Suppressor :=
  let pc := if opts.(oProcessCooldown) <=? 0 then defaultProcessCooldown else opts.(oProcessCooldown) in
  let fc := if opts.(oFileCooldown) <=? 0 then defaultFileCooldown else opts.(oFileCooldown) in
  let nc := if opts.(oNetworkCooldown) <=? 0 then defaultNetworkCooldown else opts.(oNetworkCooldown) in
  let rate := f_of_Z opts.(oRatePerSec) in
  let b := f_of_Z opts.(oBurst) in
  let b := if f_eqb b (f_of_Z 0) && f_ltb (f_of_Z 0) rate then rate else b in
  mkSuppressor pc fc nc rate b ∅ ∅ 0.

Definition ReasonCooldown : string := "cooldown".
Definition ReasonRateLimit : string := "rate_limit".

Definition cooldownFor (s : Suppressor) (category : string) : Z :=
  if category == "process" then s.(processCooldown)
  else if category == "file" then s.(fileCooldown)
  else if category == "network" then s.(networkCooldown)
  else 0.

(** The refilled bucket of a rule, before a token is taken. *)
Definition refill (s : Suppressor) (ruleID : string) (now : Z) : F :=
  let bucket := default (mkBucket s.(burst) now) (s.(buckets) !! ruleID) in
  let tokens := f_add bucket.(Tokens) (f_mul (seconds (time_sub now bucket.(Last))) s.(ratePerSec)) in
  if f_ltb s.(burst) tokens then s.(burst) else tokens.

Definition with_buckets (s : Suppressor) (b : gmap string tokenBucket) : Suppressor :=
  mkSuppressor s.(processCooldown) s.(fileCooldown) s.(networkCooldown) s.(ratePerSec) s.(burst)
    s.(lastSeen) b s.(evictCounter).

Definition with_lastSeen (s : Suppressor) (l : gmap string Z) : Suppressor :=
  mkSuppressor s.(processCooldown) s.(fileCooldown) s.(networkCooldown) s.(ratePerSec) s.(burst)
    l s.(buckets) s.(evictCounter).

Definition with_evictCounter (s : Suppressor) (n : Z) : Suppressor :=
  mkSuppressor s.(processCooldown) s.(fileCooldown) s.(networkCooldown) s.(ratePerSec) s.(burst)
    s.(lastSeen) s.(buckets) n.

Definition consumeToken (s : Suppressor) (ruleID : string) (now : Z) : bool * Suppressor :=
  let tokens := refill s ruleID now in
  if f_ltb tokens (f_of_Z 1)
  then (false, with_buckets s (<[ruleID := mkBucket tokens now]> s.(buckets)))
  else (true, with_buckets s (<[ruleID := mkBucket (f_sub tokens (f_of_Z 1)) now]> s.(buckets))).

(** The age beyond which the sweep removes an entry; [maxCooldown * 2] is an
    [int64] product. *)
Definition evictThreshold (s : Suppressor) : Z :=
  let m := s.(fileCooldown) in
  let m := if m <? s.(processCooldown) then s.(processCooldown) else m in
  let m := if m <? s.(networkCooldown) then s.(networkCooldown) else m in
  let threshold := wraps 64 (m * 2) in
  if threshold == 0 then 2 * minute else threshold.

(** The loop of [evictStale]: entries older than the threshold are deleted. *)
Definition sweep (threshold now : Z) (l : gmap string Z) : gmap string Z :=
  filter (fun kv => ~ threshold < time_sub now kv.2) l.

Definition evictStale (s : Suppressor) (now : Z) : Suppressor :=
  with_lastSeen s (sweep (evictThreshold s) now s.(lastSeen)).

(** [Allow] on a non-nil receiver: the verdict, the reason and the new state. *)
Definition Allow (s : Suppressor) (category ruleID key : string) (now : Z) : bool * string * Suppressor :=
  let cooldown := cooldownFor s category in
  if (0 <? cooldown) && match s.(lastSeen) !! key with Some last => time_sub now last <? cooldown | None => false end
  then (false, ReasonCooldown, s)
  else
    let '(ok, s1) :=
      if f_ltb (f_of_Z 0) s.(ratePerSec) && (ruleID != "") then consumeToken s ruleID now else (true, s) in
    if negb ok then (false, ReasonRateLimit, s1)
    else
      let s2 := with_lastSeen s1 (<[key := now]> s1.(lastSeen)) in
      let s3 := with_evictCounter s2 (s2.(evictCounter) + 1) in
      if 1000 <=? s3.(evictCounter)
      then (true, "", evictStale (with_evictCounter s3 0) now)
      else (true, "", s3).

(** A nil suppressor lets everything pass. *)
Definition AllowPtr (s : option Suppressor) (category ruleID key : string) (now : Z)
    : bool * string * option Suppressor :=
  match s with
  | None => (true, "", None)
  | Some s => let '(ok, reason, s') := Allow s category ruleID key now in (ok, reason, Some s')
  end.

Definition Stats (s : option Suppressor) : nat * nat :=
  match s with None => (0, 0)%nat | Some s => (size s.(lastSeen), size s.(buckets)) end.

(** The state written to the state file. *)
Record suppressorPersist := mkPersist {
  pLastSeen : option (gmap string Z); pBucketTokens : option (gmap string tokenBucket);
}.

Definition SaveState (s : Suppressor) : suppressorPersist :=
  mkPersist (Some s.(lastSeen)) (Some s.(buckets)).

(** What reading and decoding the state file gave. *)
Inductive stateFile :=
| StateMissing
| StateReadError
| StateCorrupt
| StateDecoded (p : suppressorPersist).

(** [LoadState]: whether an error is returned, and the new state. *)
Definition LoadState (s : Suppressor) (f : stateFile) : bool * Suppressor :=
  match f with
  | StateMissing => (false, s)
  | StateReadError | StateCorrupt => (true, s)
  | StateDecoded p =>
      let s := match p.(pLastSeen) with Some l => with_lastSeen s l | None => s end in
      let s := match p.(pBucketTokens) with Some b => with_buckets s b | None => s end in
      (false, s)
  end.

End Suppressor.

(** [DedupKey]: empty parts are skipped. *)
Definition DedupKey (category ruleID : string) (parts : list string) : string :=
  foldl (fun out p => if p == "" then out else (out +:+ ":" +:+ p)%string)
    (category +:+ ":" +:+ ruleID)%string parts.

(** ** Runs *)

Record call := mkCall { c_category : string; c_rule : string; c_key : string; c_now : Z }.

Section Runs.
Context `{FloatOps}.

Definition do_call (s : Suppressor) (c : call) : bool * string * Suppressor :=
  Allow s c.(c_category) c.(c_rule) c.(c_key) c.(c_now).

Fixpoint run (s : Suppressor) (cs : list call) : list (bool * string) * Suppressor :=
  match cs with
  | [] => ([], s)
  | c :: cs =>
      let '(ok, reason, s1) := do_call s c in
      let '(out, s2) := run s1 cs in ((ok, reason) :: out, s2)
  end.

(** The clock does not go backwards. *)
Definition in_time_order (cs : list call) : Prop :=
  StronglySorted (fun c d => c.(c_now) <= d.(c_now)) cs.

(** Cooldowns as [NewSuppressor] makes them, small enough that doubling one
    does not overflow an [int64]. *)
Definition cooldowns_ok (s : Suppressor) : Prop :=
  0 < s.(processCooldown) < 2 ^ 62 /\ 0 < s.(fileCooldown) < 2 ^ 62 /\ 0 < s.(networkCooldown) < 2 ^ 62.

Definition same_config (s s' : Suppressor) : Prop :=
  s'.(processCooldown) = s.(processCooldown) /\ s'.(fileCooldown) = s.(fileCooldown)
  /\ s'.(networkCooldown) = s.(networkCooldown) /\ s'.(ratePerSec) = s.(ratePerSec)
  /\ s'.(burst) = s.(burst).

(** The reference suppressor: [Allow] without the eviction sweep. *)
Definition AllowRef (s : Suppressor) (category ruleID key : string) (now : Z) : bool * string * Suppressor :=
  let cooldown := cooldownFor s category in
  if (0 <? cooldown) && match s.(lastSeen) !! key with Some last => time_sub now last <? cooldown | None => false end
  then (false, ReasonCooldown, s)
  else
    let '(ok, s1) :=
      if f_ltb (f_of_Z 0) s.(ratePerSec) && (ruleID != "") then consumeToken s ruleID now else (true, s) in
    if ok then (true, "", with_lastSeen s1 (<[key := now]> s1.(lastSeen)))
    else (false, ReasonRateLimit, s1).

Fixpoint runRef (s : Suppressor) (cs : list call) : list (bool * string) :=
  match cs with
  | [] => []
  | c :: cs =>
      let '(ok, reason, s1) := AllowRef s c.(c_category) c.(c_rule) c.(c_key) c.(c_now) in
      (ok, reason) :: runRef s1 cs
  end.

(** *** Lemmas *)

Lemma evictThreshold_eq s :
  cooldowns_ok s ->
  evictThreshold s = 2 * Z.max s.(processCooldown) (Z.max s.(fileCooldown) s.(networkCooldown)).
Proof.
  intros (Hp & Hf & Hn). unfold evictThreshold.
  set (m := if _ <? networkCooldown s then _ else _).
  assert (m = Z.max s.(processCooldown) (Z.max s.(fileCooldown) s.(networkCooldown))) as Hm.
  { subst m. destruct (Z.ltb_spec (fileCooldown s) (processCooldown s));
      case_match; bool_props; lia. }
  rewrite wraps_small by lia. rewrite bool_decide_eq_false_2 by lia. lia.
Qed.

Lemma cooldownFor_bound s cat :
  cooldowns_ok s -> 0 <= cooldownFor s cat < 2 ^ 62 /\ cooldownFor s cat <= evictThreshold s.
Proof.
  intros Hc. pose proof (evictThreshold_eq s Hc). destruct Hc as (? & ? & ?).
  unfold cooldownFor. gosimpl; lia.
Qed.

Lemma same_config_facts s s' :
  same_config s s' -> cooldowns_ok s ->
  cooldowns_ok s' /\ evictThreshold s' = evictThreshold s
  /\ forall cat, cooldownFor s' cat = cooldownFor s cat.
Proof.
  destruct s, s'. unfold same_config, cooldowns_ok, evictThreshold, cooldownFor. simpl.
  intros (-> & -> & -> & -> & ->) ?. done.
Qed.

Lemma same_config_trans s1 s2 s3 : same_config s1 s2 -> same_config s2 s3 -> same_config s1 s3.
Proof. unfold same_config. intuition congruence. Qed.

Lemma consumeToken_frame s r now :
  same_config s (consumeToken s r now).2 /\ lastSeen (consumeToken s r now).2 = lastSeen s.
Proof. unfold consumeToken. by destruct (f_ltb _ _). Qed.

(** What the sweep leaves of [lastSeen]. *)
Definition swept (s : Suppressor) (now : Z) (l l' : gmap string Z) : Prop :=
  l' = l \/ l' = sweep (evictThreshold s) now l.

Lemma do_call_spec s c ok reason s' :
  cooldowns_ok s -> do_call s c = (ok, reason, s') ->
  same_config s s'
  /\ (ok = false -> lastSeen s' = lastSeen s)
  /\ (ok = true ->
      swept s c.(c_now) (<[c.(c_key) := c.(c_now)]> (lastSeen s)) (lastSeen s')
      /\ forall v, lastSeen s !! c.(c_key) = Some v -> 0 < cooldownFor s c.(c_category) ->
         cooldownFor s c.(c_category) <= time_sub c.(c_now) v).
Proof.
  intros Hs. unfold do_call, Allow, swept. destruct (_ && _) eqn:Ecd.
  { intros [= <- <- <-]. split_and!; try done. }
  set (tk := if f_ltb (f_of_Z 0) (ratePerSec s) && (c_rule c != "") then consumeToken s _ _ else (true, s)).
  assert (same_config s tk.2 /\ lastSeen tk.2 = lastSeen s) as [Hcfg Hls].
  { subst tk. destruct (f_ltb (f_of_Z 0) (ratePerSec s) && (c_rule c != "")); [apply consumeToken_frame|done]. }
  destruct tk as [[] s1]; simpl in *.
  2: { intros [= <- <- <-]. by split_and!. }
  assert (forall v, lastSeen s !! c_key c = Some v -> 0 < cooldownFor s (c_category c) ->
    cooldownFor s (c_category c) <= time_sub (c_now c) v) as Hcd.
  { intros v Hv Hpos. rewrite Hv in Ecd. bool_props; lia. }
  assert (evictThreshold s1 = evictThreshold s) as Hthr
    by (by destruct (same_config_facts s s1 Hcfg Hs) as (_ & ? & _)).
  rewrite Hls. destruct (1000 <=? _); intros [= <- <- <-]; (split_and!; [done|done|]);
    intros _; (split; [|done]); [right|by left]. simpl.
  rewrite <- Hthr. done.
Qed.

Lemma swept_lookup s now l l' k :
  swept s now l l' ->
  l' !! k = l !! k
  \/ exists v, l !! k = Some v /\ l' !! k = None /\ evictThreshold s < time_sub now v.
Proof.
  intros [->| ->]; [by left|]. unfold sweep. rewrite map_lookup_filter.
  destruct (l !! k) as [v|] eqn:E; simpl; [|by left].
  case_guard as Hg; simpl; [by left|]. right. exists v. simpl in Hg. split_and!; [done|done|lia].
Qed.

Lemma time_sub_above t u d : 0 <= d -> d < time_sub t u -> u + d < t.
Proof. unfold time_sub, maxInt64, minInt64. lia. Qed.

Lemma time_sub_atleast t u d : 0 < d -> d <= time_sub t u -> u + d <= t.
Proof. unfold time_sub, maxInt64, minInt64. lia. Qed.

(** After an emit of [key] at [t], the entry is still there, or it was swept
    and the clock is past every cooldown. *)
Definition remembered (s : Suppressor) (key : string) (t cur : Z) : Prop :=
  t <= cur /\ match lastSeen s !! key with Some v => t <= v | None => t + evictThreshold s < cur end.

Lemma remembered_step s c ok reason s' key t cur :
  cooldowns_ok s -> cur <= c.(c_now) -> do_call s c = (ok, reason, s') ->
  remembered s key t cur -> remembered s' key t c.(c_now).
Proof.
  intros Hs Hcur Hc [Ht Hr]. pose proof (do_call_spec _ _ _ _ _ Hs Hc) as (Hcfg & Hno & Hyes).
  destruct (same_config_facts _ _ Hcfg Hs) as (_ & Hthr & _).
  pose proof (evictThreshold_eq s Hs) as Hpos.
  assert (0 < evictThreshold s) by (destruct Hs; lia).
  split; [lia|]. rewrite Hthr. destruct ok.
  - destruct (Hyes eq_refl) as [Hsw _]. apply (swept_lookup _ _ _ _ key) in Hsw.
    rewrite lookup_insert in Hsw. destruct Hsw as [->|(v & Hv & -> & Hage)].
    + case_decide; subst; [lia|]. destruct (lastSeen s !! key); lia.
    + apply time_sub_above in Hage; [|lia]. case_decide; simplify_eq; [lia|]. rewrite Hv in Hr. lia.
  - rewrite (Hno eq_refl). destruct (lastSeen s !! key); lia.
Qed.

Lemma remembered_run s cs key t cur :
  cooldowns_ok s -> in_time_order cs -> Forall (fun c => cur <= c.(c_now)) cs ->
  remembered s key t cur ->
  exists cur', (cur' = cur \/ exists c, c ∈ cs /\ cur' = c.(c_now))
    /\ remembered (run s cs).2 key t cur' /\ same_config s (run s cs).2.
Proof.
  revert s cur. induction cs as [|c cs IH]; intros s cur Hs HT HF Hr; simpl.
  { exists cur. split_and!; auto. done. }
  destruct (do_call s c) as [[ok reason] s1] eqn:Hc.
  apply Forall_cons in HF as [Hcur HF]. inversion_clear HT as [|? ? HT' HFc].
  pose proof (remembered_step _ _ _ _ _ _ _ _ Hs Hcur Hc Hr) as Hr1.
  destruct (do_call_spec _ _ _ _ _ Hs Hc) as (Hcfg & _).
  destruct (same_config_facts _ _ Hcfg Hs) as (Hs1 & _).
  destruct (IH s1 (c_now c) Hs1 HT' HFc Hr1) as (cur' & Hcur' & Hrem & Hcfg').
  destruct (run s1 cs) as [out s2]. simpl in *. exists cur'.
  split_and!; [|done|by eapply same_config_trans]. right.
  destruct Hcur' as [->|(d & ? & ->)]; [exists c|exists d]; set_solver.
Qed.

End Runs.

Section Cooldown.
Context `{FloatOps}.

(** Two emits of one key are a cooldown apart. *)
Lemma emits_apart s c mid d :
  cooldowns_ok s -> in_time_order (c :: mid ++ [d]) -> c.(c_key) = d.(c_key) ->
  (do_call s c).1.1 = true ->
  (do_call (run (do_call s c).2 mid).2 d).1.1 = true ->
  0 < cooldownFor s d.(c_category) ->
  c.(c_now) + cooldownFor s d.(c_category) <= d.(c_now).
Proof.
  intros Hs HT Hk Hc0 Hd0 Hpos.
  destruct (do_call s c) as [[okc reason] s1] eqn:Hc. simpl in Hc0, Hd0. subst okc.
  destruct (do_call (run s1 mid).2 d) as [[okd reason'] s3] eqn:Hd. simpl in Hd0. subst okd.
  inversion_clear HT as [|? ? HT' HFc].
  apply Forall_app in HFc as [HFm HFd]. rewrite Forall_singleton in HFd.
  destruct (do_call_spec _ _ _ _ _ Hs Hc) as (Hcfg & _ & Hyes).
  destruct (same_config_facts _ _ Hcfg Hs) as (Hs1 & Hthr & _).
  assert (0 < evictThreshold s) by (rewrite (evictThreshold_eq s Hs); destruct Hs; lia).
  assert (remembered s1 (c_key c) (c_now c) (c_now c)) as Hr.
  { split; [lia|]. destruct (Hyes eq_refl) as [Hsw _]. apply (swept_lookup _ _ _ _ (c_key c)) in Hsw.
    rewrite lookup_insert_eq in Hsw. destruct Hsw as [->|(v & [= <-] & _ & Hage)]; [lia|].
    unfold time_sub, maxInt64, minInt64 in Hage. lia. }
  apply StronglySorted_app in HT' as (Hmd & HTm & _).
  destruct (remembered_run s1 mid _ _ _ Hs1 HTm HFm Hr) as (cur & Hcur & [Hle Hrem] & Hcfg2).
  pose proof (same_config_trans _ _ _ Hcfg Hcfg2) as Hcfg'.
  destruct (same_config_facts _ _ Hcfg' Hs) as (Hs2 & Hthr2 & Hcd2).
  destruct (do_call_spec _ _ _ _ _ Hs2 Hd) as (_ & _ & Hyes2). destruct (Hyes2 eq_refl) as [_ Hsep].
  assert (cur <= c_now d).
  { destruct Hcur as [->|(e & He & ->)]; [exact HFd|]. apply Hmd; [done|by apply list_elem_of_singleton]. }
  destruct (cooldownFor_bound s (c_category d) Hs) as [_ ?].
  rewrite Hk in *. rewrite Hcd2 in Hsep. destruct (lastSeen (run s1 mid).2 !! c_key d) as [v|].
  - specialize (Hsep v eq_refl Hpos). apply time_sub_atleast in Hsep; lia.
  - lia.
Qed.

(** C18. Cooldown: whatever happens in between, sweeps included, two emits of one
    dedup key are at least a cooldown apart.  In any run in time order, if a
    call for [key] is allowed at [c] and a later one at [d], and the category of
    [d] has a cooldown, then [d] comes at least that cooldown after [c]. *)
Theorem cooldown_separation s c mid d :
  cooldowns_ok s -> in_time_order (c :: mid ++ [d]) -> c.(c_key) = d.(c_key) ->
  (do_call s c).1.1 = true ->
  (do_call (run (do_call s c).2 mid).2 d).1.1 = true ->
  0 < cooldownFor s d.(c_category) ->
  c.(c_now) + cooldownFor s d.(c_category) <= d.(c_now).
Proof. apply emits_apart. Qed.

(** *** Eviction is invisible *)

(** The swept state against the reference state at clock time [cur]. *)
Definition simulates (cur : Z) (s r : Suppressor) : Prop :=
  same_config r s /\ buckets s = buckets r
  /\ forall k, lastSeen s !! k = lastSeen r !! k
     \/ exists v, lastSeen s !! k = None /\ lastSeen r !! k = Some v /\ v + evictThreshold s < cur.

Lemma gate_agrees s r cat key cur now :
  cooldowns_ok s -> simulates cur s r -> cur <= now ->
  (0 <? cooldownFor s cat) && match lastSeen s !! key with Some last => time_sub now last <? cooldownFor s cat | None => false end
  = (0 <? cooldownFor r cat) && match lastSeen r !! key with Some last => time_sub now last <? cooldownFor r cat | None => false end.
Proof.
  intros Hs (Hcfg & _ & Hl) Hnow.
  assert (cooldownFor s cat = cooldownFor r cat) as <-.
  { destruct s, r, Hcfg as (? & ? & ? & ? & ?). unfold cooldownFor. simpl in *. by subst. }
  destruct (Hl key) as [->|(v & -> & -> & Hv)]; [done|].
  destruct (cooldownFor_bound s cat Hs) as [? ?].
  rewrite andb_false_r. symmetry. apply andb_false_iff. right. apply Z.ltb_ge. unfold time_sub, maxInt64, minInt64. lia.
Qed.

Lemma consumeToken_agrees cur s r rid now :
  simulates cur s r ->
  (consumeToken s rid now).1 = (consumeToken r rid now).1
  /\ simulates cur (consumeToken s rid now).2 (consumeToken r rid now).2.
Proof.
  intros (Hcfg & Hb & Hl). destruct s, r, Hcfg as (? & ? & ? & ? & ?). simpl in *. subst.
  unfold consumeToken, refill. simpl. by destruct (f_ltb _ _).
Qed.

Lemma simulates_insert cur s r key now l' :
  cooldowns_ok s -> simulates cur s r -> cur <= now ->
  swept s now (<[key := now]> (lastSeen s)) l' ->
  simulates now (with_lastSeen s l') (with_lastSeen r (<[key := now]> (lastSeen r))).
Proof.
  intros Hs (Hcfg & Hb & Hl) Hnow Hsw. split_and!; [done|done|]. intros k. simpl.
  assert (0 < evictThreshold s) by (rewrite (evictThreshold_eq s Hs); destruct Hs; lia).
  apply (swept_lookup _ _ _ _ k) in Hsw. rewrite lookup_insert in Hsw. rewrite lookup_insert.
  change (evictThreshold (with_lastSeen s l')) with (evictThreshold s).
  destruct Hsw as [->|(v & Hv & -> & Hage)].
  - case_decide; [by left|]. destruct (Hl k) as [->|(v & -> & -> & Hv)]; [by left|].
    right. exists v. split_and!; [done|done|lia].
  - apply time_sub_above in Hage; [|lia]. case_decide; simplify_eq; [lia|].
    destruct (Hl k) as [E|(v' & E & _)]; [|congruence].
    right. exists v. rewrite <- E. done.
Qed.

Lemma step_simulates cur s r c :
  cooldowns_ok s -> simulates cur s r -> cur <= c.(c_now) ->
  let a := do_call s c in
  let b := AllowRef r c.(c_category) c.(c_rule) c.(c_key) c.(c_now) in
  a.1 = b.1 /\ simulates c.(c_now) a.2 b.2.
Proof.
  intros Hs Hsim Hnow. unfold do_call, Allow, AllowRef.
  rewrite (gate_agrees _ _ _ _ _ _ Hs Hsim Hnow).
  assert (forall s r, simulates cur s r -> simulates (c_now c) s r) as Hlater.
  { intros s0 r0 (? & ? & Hl0). split_and!; try done. intros k.
    destruct (Hl0 k) as [|(v & ? & ? & ?)]; [by left|right; exists v; split_and!; try done; lia]. }
  assert (ratePerSec s = ratePerSec r) as Hrate by apply Hsim. rewrite Hrate.
  destruct (_ && _); [simpl; auto|].
  set (ts := if f_ltb (f_of_Z 0) _ && _ then consumeToken s _ _ else _).
  set (tr := if f_ltb (f_of_Z 0) _ && _ then consumeToken r _ _ else _).
  assert (ts.1 = tr.1 /\ simulates cur ts.2 tr.2 /\ same_config s ts.2) as (Hok & Hsim1 & Hcfg1).
  { subst ts tr. destruct (f_ltb (f_of_Z 0) _ && _); [|done].
    destruct (consumeToken_agrees cur s r (c_rule c) (c_now c) Hsim). split_and!; try done.
    apply consumeToken_frame. }
  destruct (same_config_facts _ _ Hcfg1 Hs) as (Hs1 & _).
  destruct ts as [ok1 s1], tr as [ok2 r1]. simpl in *. subst ok2.
  destruct ok1; simpl; [|auto].
  destruct (1000 <=? _); (split; [done|]).
  - apply (simulates_insert cur s1 r1 (c_key c) (c_now c) _ Hs1 Hsim1 Hnow). by right.
  - apply (simulates_insert cur s1 r1 (c_key c) (c_now c) _ Hs1 Hsim1 Hnow). by left.
Qed.

Lemma run_simulates cs cur s r :
  in_time_order cs -> cooldowns_ok s -> simulates cur s r -> Forall (fun c => cur <= c.(c_now)) cs ->
  (run s cs).1 = runRef r cs.
Proof.
  intros HT. revert cur s r.
  induction HT as [|c cs HT IH HF]; intros cur s r Hs Hsim HFc; [done|]. simpl.
  apply Forall_cons in HFc as [Hcur _].
  destruct (step_simulates cur s r c Hs Hsim Hcur) as [Eo Hsim'].
  destruct (do_call s c) as [[ok reason] s1] eqn:Hc.
  destruct (AllowRef r _ _ _ _) as [[ok' reason'] r1]. simpl in *. injection Eo as <- <-.
  destruct (do_call_spec _ _ _ _ _ Hs Hc) as (Hcfg & _).
  destruct (same_config_facts _ _ Hcfg Hs) as (Hs1 & _).
  pose proof (IH (c_now c) s1 r1 Hs1 Hsim' HF) as E. destruct (run s1 cs). simpl in *. by rewrite E.
Qed.

Lemma run_reference s r cs :
  cooldowns_ok s -> same_config r s -> buckets s = buckets r -> lastSeen s = lastSeen r ->
  in_time_order cs -> (run s cs).1 = runRef r cs.
Proof.
  intros Hs Hcfg Hb Hl HT. destruct cs as [|c cs]; [done|].
  apply (run_simulates _ (c_now c)); [done|done| |].
  - split_and!; [done|done|]. intros k. left. by rewrite Hl.
  - inversion_clear HT as [|? ? _ HF]. by constructor.
Qed.

(** Eviction transparency: in time order, the suppressor that sweeps its map
    every thousand emits gives the same verdicts and reasons as the reference
    that keeps every entry for ever. *)
Theorem eviction_transparent s cs :
  cooldowns_ok s -> in_time_order cs -> (run s cs).1 = runRef s cs.
Proof. intros. by apply run_reference. Qed.

(** Saving the state and loading it into a freshly configured suppressor with
    the same options loses nothing: the restarted suppressor gives the same
    verdicts and reasons as the one that kept running, although its sweep
    counter starts again. *)
Theorem restart_transparent s opts cs :
  cooldowns_ok s -> same_config s (NewSuppressor opts) -> in_time_order cs ->
  (run (LoadState (NewSuppressor opts) (StateDecoded (SaveState s))).2 cs).1 = (run s cs).1.
Proof.
  intros Hs Hcfg HT.
  rewrite (run_reference s s cs) by done. apply run_reference; try done.
  by destruct (same_config_facts _ _ Hcfg Hs) as (? & _).
Qed.

End Cooldown.

(** *** Witnesses, on IEEE arithmetic *)

Definition sample : @Suppressor binary64 :=
  @NewSuppressor binary64 (mkOptions (30 * second) 0 0 10 0).

Lemma sample_ok : @cooldowns_ok binary64 sample.
Proof. vm_compute. repeat split; reflexivity. Qed.

(** One emit, a blocked repetition, and an emit after the cooldown. *)
Example sample_run :
  (@run binary64 sample [mkCall "process" "r" "k" 0; mkCall "process" "r" "k" second;
                         mkCall "process" "r" "k" (31 * second)]).1
  = [(true, ""); (false, "cooldown"); (true, "")].
Proof. vm_compute. reflexivity. Qed.

Ltac time_order := repeat first [apply SSorted_nil | apply SSorted_cons | apply Forall_nil_2 | apply Forall_cons_2];
  simpl; unfold second; try lia.

Lemma cooldown_separation_witness :
  0 + cooldownFor (H:=binary64) sample "process" <= 31 * second.
Proof.
  apply (@cooldown_separation binary64 sample (mkCall "process" "r" "k" 0)
    [mkCall "process" "r" "k" second] (mkCall "process" "r" "k" (31 * second))).
  - exact sample_ok.
  - time_order.
  - reflexivity.
  - vm_compute. reflexivity.
  - vm_compute. reflexivity.
  - vm_compute. reflexivity.
Defined.

Lemma eviction_transparent_witness :
  let cs := [mkCall "file" "r" "k" 0; mkCall "file" "r" "k" second] in
  (@run binary64 sample cs).1 = @runRef binary64 sample cs.
Proof. intros cs. apply (@eviction_transparent binary64 sample cs); [exact sample_ok|time_order]. Defined.

Lemma restart_transparent_witness :
  let cs := [mkCall "network" "r" "k" 0] in
  (@run binary64 (@LoadState binary64 sample (StateDecoded (@SaveState binary64 sample))).2 cs).1
  = (@run binary64 sample cs).1.
Proof.
  intros cs. apply (@restart_transparent binary64 sample (mkOptions (30 * second) 0 0 10 0) cs);
    [exact sample_ok|vm_compute; auto 10|time_order].
Defined.

(** ** The rate bound *)

Section Buckets.
Context `{FloatOps}.

(** How many calls of a rule are allowed in a run. *)
Fixpoint emits (rid : string) (s : Suppressor) (cs : list call) : nat :=
  match cs with
  | [] => 0
  | c :: cs =>
      let '(ok, _, s1) := do_call s c in
      ((if ok && (c.(c_rule) == rid) then 1 else 0) + emits rid s1 cs)%nat
  end.

(** What a call does to the bucket of [rid]: nothing, a refill, or a refill and
    the removal of a token that was there. *)
Lemma do_call_bucket s c rid ok reason s' :
  f_ltb (f_of_Z 0) (ratePerSec s) = true -> rid <> "" -> do_call s c = (ok, reason, s') ->
  ratePerSec s' = ratePerSec s /\ burst s' = burst s
  /\ ((ok && (c.(c_rule) == rid) = false /\ buckets s' !! rid = buckets s !! rid)
      \/ (ok = false /\ buckets s' !! rid = Some (mkBucket (refill s rid c.(c_now)) c.(c_now)))
      \/ (ok = true /\ c.(c_rule) = rid /\ f_ltb (refill s rid c.(c_now)) (f_of_Z 1) = false
          /\ buckets s' !! rid = Some (mkBucket (f_sub (refill s rid c.(c_now)) (f_of_Z 1)) c.(c_now)))).
Proof.
  intros Hrate Hrid. unfold do_call, Allow. destruct (_ && _); [intros [= <- <- <-]; by auto|].
  rewrite Hrate. destruct (decide (c_rule c = "")) as [E|Hne].
  - rewrite E. simpl. rewrite bool_decide_eq_false_2 by done.
    destruct (1000 <=? _); intros [= <- <- <-]; simpl; auto.
  - rewrite (bool_decide_eq_false_2 _ Hne). unfold consumeToken.
    destruct (decide (c_rule c = rid)) as [->|Hr].
    + destruct (f_ltb (refill s rid _) _) eqn:Ef; simpl.
      * intros [= <- <- <-]. simpl. rewrite lookup_insert_eq. split_and!; [done..|]. by right; left.
      * destruct (1000 <=? _); intros [= <- <- <-]; simpl; rewrite lookup_insert_eq;
          (split_and!; [done..|]); right; right; done.
    + destruct (f_ltb (refill s _ _) _) eqn:Ef; simpl;
        [|destruct (1000 <=? _)]; intros [= <- <- <-]; simpl; rewrite lookup_insert_ne by done;
        rewrite ?(bool_decide_eq_false_2 (c_rule c = rid)) by done; auto.
Qed.

End Buckets.

(** What [float64] makes of the sums and products of a bucket: [y] against the
    exact, non-negative [x]. *)
Lemma close_bounds y x : close y x -> (0 <= x)%Q -> fin y /\ ((1 - ulp) * x <= value y <= (1 + ulp) * x)%Q.
Proof.
  intros [Hf Hc] Hx. rewrite (Qabs_pos x Hx) in Hc. apply Qabs_Qle_condition in Hc as [H1 H2].
  split; [done|]. split; lra.
Qed.

Section Rate.
#[local] Existing Instance binary64.
Local Open Scope Q_scope.
Abbreviation num z := (@f_of_Z binary64 z).
Abbreviation secs d := (@seconds binary64 d).
Abbreviation sec d := (inject_Z d / inject_Z second).

Lemma sec_0 : sec 0 == 0.
Proof. reflexivity. Qed.

Lemma sec_le d e : (d <= e)%Z -> sec d <= sec e.
Proof. intros. apply Qmult_le_compat_r; [by rewrite <- Zle_Qle|discriminate]. Qed.

Lemma sec_sub_plus a b c : sec (a - c) == sec (a - b) + sec (b - c).
Proof. replace (a - c)%Z with ((a - b) + (b - c))%Z by lia. rewrite inject_Z_plus. field. discriminate. Qed.

Lemma int_exact z : (Z.abs z < 2 ^ 53)%Z -> fin (num z) /\ value (num z) == inject_Z z.
Proof. exact (of_Z_exact z). Qed.

Lemma small_range x k : (k <= 1000)%Z -> 0 <= x -> x <= 2 ^ k -> Qabs x <= 2 ^ 1000.
Proof. intros Hk H0 H. rewrite Qabs_pos by done. eapply Qle_trans; [apply H|]. by apply p2_le. Qed.

(** The elapsed seconds. *)
Lemma seconds_bounds d : (0 <= d < 2 ^ 63)%Z ->
  fin (secs d) /\ (1 - ulp) * (1 - ulp) * sec d <= value (secs d) <= (1 + ulp) * (1 + ulp) * sec d.
Proof.
  intros Hd. pose proof (Z.quot_rem' d second) as E. pose proof (Z.rem_bound_pos d second ltac:(lia) ltac:(done)) as Hr.
  assert (0 <= Z.quot d second < 2 ^ 34)%Z as Hq.
  { split; [apply Z.quot_pos; unfold second; lia|apply Z.quot_lt_upper_bound; unfold second; lia]. }
  set (q := Z.quot d second) in *. set (r := Z.rem d second) in *.
  destruct (int_exact q ltac:(lia)) as [Fq Vq]. destruct (int_exact r ltac:(unfold second in *; lia)) as [Fr Vr].
  destruct (int_exact second ltac:(done)) as [Fs Vs].
  assert (value (num r) / value (num second) == sec r) as Vx by (by rewrite Vr, Vs).
  assert (0 <= sec r) as Hx0 by (rewrite <- sec_0; apply sec_le; lia).
  assert (sec r <= 1) as Hx1 by (apply Qle_shift_div_r; [done|]; rewrite Qmult_1_l, <- Zle_Qle; lia).
  destruct (div_close (num r) (num second) Fr Fs) as [Fv Cv].
  { rewrite Vs. discriminate. }
  { unfold normal. rewrite Vx. destruct (Z.eq_dec r 0) as [->|Hr0]; [left; reflexivity|right].
    rewrite Qabs_pos by done. split; [|eapply Qle_trans; [apply Hx1|discriminate]].
    apply (Qle_trans _ (sec 1)); [discriminate|]. apply sec_le. lia. }
  destruct (close_bounds _ _ (conj Fv Cv)) as [_ Bv]; [by rewrite Vx|]. rewrite Vx in Bv.
  change (SFdiv 53 1024 (num r) (num second)) with (f_div (num r) (num second)) in *.
  assert (0 < ulp /\ ulp <= 1 # 4) as [U0 U1] by (split; [reflexivity|discriminate]).
  set (v := value (f_div (num r) (num second))) in *.
  assert (0 <= inject_Z q <= 2 ^ 34) as [Q0 Q1].
  { split; [change 0 with (inject_Z 0)|change (2 ^ 34) with (inject_Z (2 ^ 34))]; rewrite <- Zle_Qle; lia. }
  assert (0 <= v <= 2) as [V0 V1] by (split; nra).
  assert (sec d == inject_Z q + sec r) as Ed.
  { rewrite E, inject_Z_plus, inject_Z_mult. field. discriminate. }
  assert (0 <= inject_Z q + v) as S0 by lra.
  destruct (add_close (num q) (f_div (num r) (num second)) Fq Fv) as [Fw Cw].
  { rewrite Vq. fold v. apply (small_range _ 35); [lia|done|]. eapply Qle_trans; [apply (Qplus_le_compat _ _ _ _ Q1 V1)|discriminate]. }
  destruct (close_bounds _ _ (conj Fw Cw)) as [_ Bw]; [by rewrite Vq|]. rewrite Vq in Bw. fold v in Bw.
  change (SFadd 53 1024 (num q) (f_div (num r) (num second))) with (secs d) in *.
  split; [exact Fw|]. rewrite Ed. clear - Bv Bw U0 U1 Q0 Hx0. set (x := sec r) in *. set (y := inject_Z q) in *.
  destruct Bv as [Bv1 Bv2], Bw as [Bw1 Bw2]. split.
  - eapply Qle_trans; [|apply Bw1]. rewrite <- Qmult_assoc. apply Qmult_le_l; [lra|]. nra.
  - eapply Qle_trans; [apply Bw2|]. rewrite <- Qmult_assoc. apply Qmult_le_l; [lra|]. nra.
Qed.


Variables (s0 : Suppressor) (rid : string) (t0 r b : Z).
Hypothesis rate_is : ratePerSec s0 = num r.
Hypothesis burst_is : burst s0 = num b.
Hypothesis rate_range : (1 <= r < 2 ^ 53)%Z.
Hypothesis burst_range : (0 <= b < 2 ^ 52)%Z.
Hypothesis rid_set : rid <> "".

Abbreviation R := (inject_Z r).
Abbreviation B := (inject_Z b).

(** The part of the elapsed time and of the burst that rounding may add. *)
Definition slack : Q := 2 ^ (-49).

Lemma rate_facts : fin (ratePerSec s0) /\ value (ratePerSec s0) == R /\ 1 <= R <= 2 ^ 53.
Proof.
  rewrite rate_is. destruct (int_exact r ltac:(lia)) as [Hf Hv]. split; [done|]. split; [done|].
  change 1 with (inject_Z 1). change (2 ^ 53) with (inject_Z (2 ^ 53)). rewrite <- !Zle_Qle. lia.
Qed.

Lemma burst_facts : fin (burst s0) /\ value (burst s0) == B /\ 0 <= B <= 2 ^ 52.
Proof.
  rewrite burst_is. destruct (int_exact b ltac:(lia)) as [Hf Hv]. split; [done|]. split; [done|].
  change 0 with (inject_Z 0). change (2 ^ 52) with (inject_Z (2 ^ 52)). rewrite <- !Zle_Qle. lia.
Qed.

(** The tokens a span of [d] nanoseconds brings. *)
Lemma gain_bounds d : (0 <= d < 2 ^ 63)%Z ->
  fin (f_mul (secs d) (ratePerSec s0))
  /\ 0 <= value (f_mul (secs d) (ratePerSec s0)) <= (1 + ulp) * ((1 + ulp) * (1 + ulp) * sec d * R)
  /\ value (f_mul (secs d) (ratePerSec s0)) <= 2 ^ 100.
Proof.
  intros Hd. destruct (seconds_bounds d Hd) as [Fs [S1 S2]]. destruct rate_facts as (Fr & Vr & R1 & R2).
  assert (0 < ulp /\ ulp <= 1 # 4) as [U0 U1] by (split; [reflexivity|discriminate]).
  assert (0 <= sec d) as D0 by (rewrite <- sec_0; apply sec_le; lia).
  assert (sec d <= 2 ^ 34) as D1.
  { apply Qle_shift_div_r; [done|]. change (2 ^ 34 * inject_Z second) with (inject_Z (2 ^ 34 * second)). rewrite <- Zle_Qle. unfold second. lia. }
  set (x := sec d) in *.
  destruct (mul_close (secs d) (ratePerSec s0) Fs Fr) as [Fm Cm].
  { unfold normal. rewrite Vr. destruct (Z.eq_dec d 0) as [E|Hd0].
    - left. assert (x == 0) as Ex by (unfold x; rewrite E; reflexivity). rewrite Ex in S1, S2.
      assert (value (secs d) == 0) as -> by lra. lra.
    - right. assert ((1 # 2) * sec 1 <= value (secs d)) as L.
      { eapply Qle_trans; [|apply S1]. assert (sec 1 <= x) by (apply sec_le; lia).
        assert (0 < sec 1) by reflexivity. nra. }
      assert (value (secs d) <= 2 ^ 36) as L2.
      { eapply Qle_trans; [apply S2|]. change (2 ^ 36) with (4 * 2 ^ 34). nra. }
      assert (2 ^ (-40) <= (1 # 2) * sec 1) by discriminate.
      assert (0 <= value (secs d)) by (eapply Qle_trans; [|apply L]; discriminate).
      rewrite Qabs_pos by nra. split.
      + apply (Qle_trans _ (2 ^ (-40))); [discriminate|]. nra.
      + apply (Qle_trans _ (2 ^ 36 * 2 ^ 53)); [|discriminate]. apply Qmult_le_compat_nonneg; split; lra. }
  assert (0 <= value (secs d)) as V0 by (eapply Qle_trans; [|apply S1]; nra).
  destruct (close_bounds _ _ (conj Fm Cm)) as [_ [M1 M2]]; [rewrite Vr; nra|]. rewrite Vr in M1, M2.
  assert (0 <= value (secs d) * R) as P0 by nra.
  assert (value (secs d) * R <= (1 + ulp) * (1 + ulp) * x * R) as P1 by (apply Qmult_le_compat_r; lra).
  split; [exact Fm|]. split; [split; [eapply Qle_trans; [|apply M1]; nra|]|].
  - eapply Qle_trans; [apply M2|]. apply Qmult_le_l; [lra|]. exact P1.
  - eapply Qle_trans; [apply M2|]. apply (Qle_trans _ (2 * (2 ^ 36 * 2 ^ 53))); [|discriminate].
    apply Qmult_le_compat_nonneg; [split; lra|]. split; [exact P0|].
    apply Qmult_le_compat_nonneg; [split; [lra|]|split; lra]. eapply Qle_trans; [apply S2|].
    change (2 ^ 36) with (4 * 2 ^ 34). nra.
Qed.

(** [n] emits in [k] calls so far are paid for by the burst and the refills, up
    to the rounding of the calls. *)
Definition covered (n k : nat) (v : Q) (t : Z) : Prop :=
  inject_Z (Z.of_nat n) + v <= B + (1 + slack) * (R * sec (t - t0)) + 2 * ulp * (B * inject_Z (Z.of_nat k)).

Definition paid (s : Suppressor) (n k : nat) (cur : Z) : Prop :=
  match buckets s !! rid with
  | None => n = 0%nat
  | Some bk =>
      fin (Tokens bk) /\ 0 <= value (Tokens bk) <= B /\ (t0 <= Last bk <= cur)%Z
      /\ covered n k (value (Tokens bk)) (Last bk)
  end.

(** The sum of a bucket and a gain, cut to the burst. *)
Lemma capped_bounds (tk g : @F binary64) :
  fin tk -> 0 <= value tk <= B -> fin g -> 0 <= value g <= 2 ^ 100 ->
  let c := if f_ltb (burst s0) (f_add tk g) then burst s0 else f_add tk g in
  fin c /\ 0 <= value c <= B /\ value c <= (1 + ulp) * (value tk + value g).
Proof.
  intros Ft [T0 T1] Fg [G0 G1] c. destruct burst_facts as (Fb & Vb & B0 & B1).
  assert (0 < ulp /\ ulp <= 1 # 4) as [U0 U1] by (split; [reflexivity|discriminate]).
  destruct (add_close tk g Ft Fg) as [Fa Ca].
  { apply (small_range _ 101); [lia|lra|]. apply (Qle_trans _ (2 ^ 52 + 2 ^ 100)); [lra|discriminate]. }
  destruct (close_bounds _ _ (conj Fa Ca)) as [_ [A1 A2]]; [lra|]. change (SFadd 53 1024 tk g) with (f_add tk g) in *.
  assert (0 <= value (f_add tk g)) as A0 by (eapply Qle_trans; [|apply A1]; nra).
  pose proof (ltb_value (burst s0) (f_add tk g) Fb Fa) as Hl. change (SFltb (burst s0) (f_add tk g)) with (f_ltb (burst s0) (f_add tk g)) in Hl.
  rewrite Vb in Hl. unfold c. destruct (f_ltb (burst s0) (f_add tk g)).
  - assert (B < value (f_add tk g)) by (by apply Hl). split; [done|]. rewrite Vb. split; lra.
  - assert (~ B < value (f_add tk g)) as Hn by (by intros ?%Hl). apply Qnot_lt_le in Hn. split; [done|]. lra.
Qed.

(** What one refill adds: the gain of the span, and less than an [ulp] of the
    burst. *)
Lemma refill_grows v g c x : 0 <= v <= B -> 0 <= g <= (1 + ulp) * ((1 + ulp) * (1 + ulp) * x * R) -> 0 <= x * R ->
  c <= (1 + ulp) * (v + g) -> c <= v + ulp * B + (1 + slack) * (x * R).
Proof.
  intros [V0 V1] [G0 G1] X0 Hc.
  assert (0 < ulp) as U0 by reflexivity.
  assert ((1 + ulp) * ((1 + ulp) * ((1 + ulp) * (1 + ulp))) <= 1 + slack) as Hs by discriminate.
  assert ((1 + ulp) * g <= (1 + ulp) * ((1 + ulp) * ((1 + ulp) * (1 + ulp))) * (x * R)) as Hg.
  { eapply Qle_trans; [apply Qmult_le_l; [lra|apply G1]|]. apply Qle_lteq. right. ring. }
  assert ((1 + ulp) * ((1 + ulp) * ((1 + ulp) * (1 + ulp))) * (x * R) <= (1 + slack) * (x * R)) as Hg2 by (by apply Qmult_le_compat_r).
  assert (ulp * v <= ulp * B) by (by apply Qmult_le_l). lra.
Qed.

Lemma refill_bounds s n k cur now :
  ratePerSec s = ratePerSec s0 -> burst s = burst s0 -> (t0 <= cur <= now)%Z -> (now - t0 < 2 ^ 63)%Z -> paid s n k cur ->
  fin (refill s rid now) /\ 0 <= value (refill s rid now) <= B
  /\ inject_Z (Z.of_nat n) + value (refill s rid now)
     <= B + (1 + slack) * (R * sec (now - t0)) + 2 * ulp * (B * inject_Z (Z.of_nat k)) + ulp * B.
Proof.
  intros Hr Hb [Ht Hnow] Hspan Hp. unfold paid, refill in *. rewrite Hr, Hb.
  destruct burst_facts as (Fb & Vb & B0 & B1). destruct rate_facts as (_ & _ & R1 & R2).
  assert (0 < ulp) as U0 by reflexivity. assert (0 <= slack) as L0 by discriminate.
  assert (0 <= inject_Z (Z.of_nat k)) as K0 by (change 0 with (inject_Z 0); rewrite <- Zle_Qle; lia).
  assert (0 <= B * inject_Z (Z.of_nat k)) as BK0 by (by apply Qmult_le_0_compat).
  assert (forall l, (t0 <= l <= now)%Z -> (0 <= time_sub now l < 2 ^ 63)%Z /\ time_sub now l = (now - l)%Z) as Hsub.
  { intros l Hl. unfold time_sub, maxInt64, minInt64. lia. }
  destruct (buckets s !! rid) as [bk|]; cbn [default Tokens Last].
  - destruct Hp as (Ft & HT & Hl & Hc). destruct (Hsub (Last bk) ltac:(lia)) as [Hd Ed].
    destruct (gain_bounds _ Hd) as (Fg & Hg & Hg2). destruct (capped_bounds _ _ Ft HT Fg (conj (proj1 Hg) Hg2)) as (Fc & Hcb & Hcv).
    split; [done|]. split; [done|].
    assert (0 <= sec (time_sub now (Last bk)) * R) as X0.
    { apply Qmult_le_0_compat; [rewrite <- sec_0; apply sec_le; lia|lra]. }
    pose proof (refill_grows _ _ _ _ HT Hg X0 Hcv) as Hgrow. unfold covered in Hc.
    rewrite (sec_sub_plus now (Last bk) t0), <- Ed.
    eapply Qle_trans; [apply Qplus_le_compat; [apply Qle_refl|apply Hgrow]|]. clear - Hc. lra.
  - subst n. destruct (Hsub now ltac:(lia)) as [Hd Ed].
    destruct (gain_bounds _ Hd) as (Fg & Hg & Hg2). assert (0 <= value (burst s0) <= B) as HB by (rewrite Vb; lra).
    destruct (capped_bounds _ _ Fb HB Fg (conj (proj1 Hg) Hg2)) as (Fc & Hcb & _).
    split; [done|]. split; [done|]. change (inject_Z (Z.of_nat 0)) with 0.
    assert (0 <= sec (now - t0)) by (rewrite <- sec_0; apply sec_le; lia).
    assert (0 <= R * sec (now - t0)) by (apply Qmult_le_0_compat; lra). nra.
Qed.

(** A token that is taken. *)
Lemma spend_bounds (c : @F binary64) :
  fin c -> 0 <= value c <= B -> f_ltb c (f_of_Z 1) = false ->
  fin (f_sub c (f_of_Z 1)) /\ 0 <= value (f_sub c (f_of_Z 1)) <= B
  /\ 1 + value (f_sub c (f_of_Z 1)) <= value c + ulp * B.
Proof.
  intros Fc [C0 C1] Hl. destruct burst_facts as (_ & _ & B0 & B1). destruct (int_exact 1 ltac:(lia)) as [F1 V1].
  change (inject_Z 1) with 1 in V1. assert (0 < ulp /\ ulp <= 1 # 4) as [U0 U1] by (split; [reflexivity|discriminate]).
  assert (1 <= value c) as C2.
  { apply Qnot_lt_le. rewrite <- V1. intros H%(ltb_value c (num 1) Fc F1). change (SFltb c (num 1)) with (f_ltb c (num 1)) in H. congruence. }
  destruct (sub_close c (num 1) Fc F1) as [Fd Cd].
  { rewrite V1. apply (small_range _ 52); [lia|lra|lra]. }
  destruct (close_bounds _ _ (conj Fd Cd)) as [_ [D1 D2]]; [rewrite V1; lra|]. rewrite V1 in D1, D2.
  change (SFsub 53 1024 c (num 1)) with (f_sub c (num 1)) in *.
  assert (ulp * B <= 1) as UB by (apply (Qle_trans _ (ulp * 2 ^ 52)); [by apply Qmult_le_l|discriminate]).
  assert (ulp * (value c - 1) <= ulp * B) as UC by (apply Qmult_le_l; [done|lra]).
  split; [done|]. split; [split; [eapply Qle_trans; [|apply D1]; nra|]|]; lra.
Qed.

Lemma emits_paid cs s n k cur :
  ratePerSec s = ratePerSec s0 -> burst s = burst s0 -> (t0 <= cur)%Z -> paid s n k cur ->
  in_time_order cs -> Forall (fun c => (cur <= c.(c_now) /\ c.(c_now) - t0 < 2 ^ 63)%Z) cs ->
  exists s' cur', paid s' (n + emits rid s cs) (k + length cs) cur'
    /\ (cur' = cur \/ exists c, c ∈ cs /\ cur' = c.(c_now)).
Proof.
  revert s n k cur. induction cs as [|c cs IH]; intros s n k cur Hr Hb Ht Hp HT HF; cbn [emits length].
  { exists s, cur. rewrite !Nat.add_0_r. auto. }
  apply Forall_cons in HF as [[Hcur Hspan] HF]. inversion_clear HT as [|? ? HT' HFc].
  destruct (do_call s c) as [[ok reason] s1] eqn:Hc.
  assert (f_ltb (f_of_Z 0) (ratePerSec s) = true) as Hpos.
  { rewrite Hr. destruct rate_facts as (Fr & Vr & R1 & _). destruct (int_exact 0 ltac:(lia)) as [F0 V0].
    apply (ltb_value (num 0) (ratePerSec s0) F0 Fr). rewrite V0, Vr. change (inject_Z 0) with 0. lra. }
  destruct (do_call_bucket s c rid ok reason s1 Hpos rid_set Hc) as (Hr1 & Hb1 & Hcase).
  pose proof (refill_bounds s n k cur (c_now c) Hr Hb (conj Ht Hcur) Hspan Hp) as (Rf & R1 & R2).
  assert (paid s1 (n + (if ok && (c_rule c == rid)%go then 1 else 0)) (S k) (c_now c)) as Hp1.
  { destruct burst_facts as (_ & _ & B0 & _). assert (0 < ulp) as U0 by reflexivity.
    assert (inject_Z (Z.of_nat (S k)) == inject_Z (Z.of_nat k) + 1) as EK.
    { rewrite Nat2Z.inj_succ. unfold Z.succ. by rewrite inject_Z_plus. }
    assert (0 <= ulp * B) as UB0 by (apply Qmult_le_0_compat; lra).
    unfold paid, covered in *. destruct Hcase as [[-> ->]|[[-> ->]|(-> & -> & Hf & ->)]]; cbn [andb Tokens Last].
    - rewrite Nat.add_0_r. destruct (buckets s !! rid); [|done]. destruct Hp as (? & ? & [? ?] & ?).
      split; [done|]. split; [done|]. split; [lia|]. rewrite EK. lra.
    - rewrite Nat.add_0_r. split; [done|]. split; [done|]. split; [lia|]. rewrite EK. lra.
    - rewrite bool_decide_eq_true_2 by done. destruct (spend_bounds _ Rf R1 Hf) as (Sf & S1 & S2).
      rewrite Nat2Z.inj_add, inject_Z_plus. change (inject_Z (Z.of_nat 1)) with 1.
      split; [done|]. split; [done|]. split; [lia|]. rewrite EK. lra. }
  destruct (IH s1 _ _ (c_now c) ltac:(congruence) ltac:(congruence) ltac:(lia) Hp1 HT')
    as (s' & cur' & Hp' & Hcur').
  { rewrite Forall_forall in *. intros d Hd. split; [by apply HFc|by apply HF]. }
  exists s', cur'. rewrite Nat.add_assoc, Nat.add_succ_r, <- Nat.add_succ_l. split; [done|].
  destruct Hcur' as [->|(d & ? & ->)]; right; [exists c|exists d]; set_solver.
Qed.

End Rate.

(** C28. Rate limit, in the [float64] arithmetic of the code: with a rate of [r]
    tokens per second and a burst of [b] below [2^52], between [t0] and [t1] and
    starting without a bucket, a rule is allowed at most
    [b + r * (t1 - t0)] emits (the time in seconds), whatever keys and
    categories the calls have, up to a rounding of at most [2^-49] of the
    refilled tokens and of the burst per call. *)
Theorem rate_bound (s : @Suppressor binary64) rid cs t0 t1 r b :
  ratePerSec s = @f_of_Z binary64 r -> burst s = @f_of_Z binary64 b -> 1 <= r < 2 ^ 53 -> 0 <= b < 2 ^ 52 ->
  rid <> "" -> buckets s !! rid = None -> in_time_order cs -> t0 <= t1 -> t1 - t0 < 2 ^ 63 ->
  Forall (fun c => t0 <= c.(c_now) <= t1) cs ->
  let refilled := (inject_Z r * (inject_Z (t1 - t0) / inject_Z second))%Q in
  (inject_Z (Z.of_nat (emits rid s cs))
   <= inject_Z b + refilled + 2 ^ (-49) * (refilled + inject_Z b * inject_Z (Z.of_nat (length cs))))%Q.
Proof.
  intros Er Eb Hr Hb Hrid Hnone HT Ht Hspan HF refilled.
  assert (paid rid t0 r b s 0 0 t0) as Hp by (unfold paid; by rewrite Hnone).
  destruct (emits_paid s rid t0 r b Er Eb Hr Hb Hrid cs s 0 0 t0 eq_refl eq_refl ltac:(lia) Hp HT) as (s' & cur & Hp' & Hcur).
  { eapply Forall_impl; [exact HF|]. simpl. lia. }
  assert (t0 <= cur <= t1) as [_ Hc].
  { destruct Hcur as [->|(c & Hc & ->)]; [lia|]. rewrite Forall_forall in HF. by apply HF. }
  destruct (burst_facts s b Eb Hb) as (_ & _ & B0 & _). destruct (rate_facts s r Er Hr) as (_ & _ & R1 & _).
  assert (0 <= inject_Z b * inject_Z (Z.of_nat (length cs)))%Q as BN.
  { apply Qmult_le_0_compat; [done|]. change 0%Q with (inject_Z 0). rewrite <- Zle_Qle. lia. }
  assert (0 <= refilled)%Q as H0.
  { apply Qmult_le_0_compat; [lra|]. rewrite <- sec_0. apply sec_le. lia. }
  assert (2 * ulp <= 2 ^ (-49))%Q as Hs by discriminate. assert (0 < 2 ^ (-49))%Q as Hs0 by reflexivity.
  assert (2 * ulp * (inject_Z b * inject_Z (Z.of_nat (length cs))) <= 2 ^ (-49) * (inject_Z b * inject_Z (Z.of_nat (length cs))))%Q
    as Hround by (by apply Qmult_le_compat_r).
  unfold paid, covered in Hp'. cbn [Nat.add] in Hp'. destruct (buckets s' !! rid) as [bk|].
  - destruct Hp' as (_ & [T0 _] & [_ H2] & H3).
    assert (inject_Z r * (inject_Z (Last bk - t0) / inject_Z second) <= refilled)%Q as H4.
    { apply Qmult_le_l; [lra|]. apply sec_le. lia. }
    apply (Qmult_le_l _ _ (1 + slack)) in H4; [|reflexivity]. change slack with (2 ^ (-49))%Q in *. lra.
  - rewrite Hp'. change (inject_Z (Z.of_nat 0)) with 0%Q. nra.
Qed.

Lemma rate_bound_witness :
  let s := @NewSuppressor binary64 (mkOptions 0 0 0 1 2) in
  let cs := [mkCall "x" "r" "a" 0; mkCall "x" "r" "b" 0; mkCall "x" "r" "c" 1] in
  let refilled := (inject_Z 1 * (inject_Z (second - 0) / inject_Z second))%Q in
  (inject_Z (Z.of_nat (emits "r" s cs))
   <= inject_Z 2 + refilled + 2 ^ (-49) * (refilled + inject_Z 2 * inject_Z (Z.of_nat (length cs))))%Q.
Proof.
  intros s cs. apply (rate_bound s "r" cs 0 second 1 2).
  - reflexivity.
  - reflexivity.
  - lia.
  - lia.
  - discriminate.
  - reflexivity.
  - time_order.
  - discriminate.
  - vm_compute. reflexivity.
  - repeat constructor; discriminate.
Defined.

(** A burst of [2^53] or more is not covered: taking a token from it changes
    nothing, so the rule is never limited. *)
Example huge_burst_not_spent :
  let s := @NewSuppressor binary64 (mkOptions 0 0 0 1 (2 ^ 54)) in
  Tokens <$> (buckets (consumeToken s "r" 0).2 !! "r") = Some (burst s).
Proof. vm_compute. reflexivity. Qed.
