(* ===== verification/Crypto.v ===== *)
(** * Digests

    The event chain and the signatures use SHA-256 and HMAC-SHA-256 of the
    standard library.  Theorems are stated for any digest function (the class
    [Digest]): what they show of the chain does not depend on SHA-256, and
    tamper evidence is stated by exhibiting the two preimages of an equal
    digest.  [sha256] is FIPS 180-4; examples and witnesses run with a cheap
    checksum instead. *)

From S2P Require Import Prelude GoStrings.

Class Digest := {
  sum256 : list ascii -> list ascii;
  sum256_len : forall m, length (sum256 m) = 32%nat;
}.

(** [hex.EncodeToString] *)
Definition hex_char (z : Z) : ascii := byte (if z <? 10 then 48 + z else 87 + z).
Definition hexEncode (l : list ascii) : string :=
  text (concat (map (fun a => [hex_char (code a / 16); hex_char (code a mod 16)]) l)).

(** [hmac.New(sha256.New, key)], RFC 2104: keys longer than a block are hashed. *)
Definition hmac256 `{Digest} (key m : list ascii) : list ascii :=
  let key := if 64 <? Z.of_nat (length key) then sum256 key else key in
  let key := key ++ replicate (64 - length key) (byte 0) in
  let pad (x : Z) := map (fun a => byte (Z.lxor (code a) x)) key in
  sum256 (pad 0x5C ++ sum256 (pad 0x36 ++ m)).

Lemma hmac256_len `{Digest} key m : length (hmac256 key m) = 32%nat.
Proof. apply sum256_len. Qed.

Lemma hex_char_ascii z : 0 <= z < 16 -> code (hex_char z) < 128.
Proof. intros. unfold hex_char. destruct (Z.ltb_spec z 10); rewrite code_byte; lia. Qed.

Lemma hexEncode_ascii l : Forall (fun a => code a < 128) (bytes (hexEncode l)).
Proof.
  unfold hexEncode. rewrite bytes_text. induction l as [|a l IH]; simpl; [constructor|].
  pose proof (code_range a). pose proof (Z.mod_pos_bound (code a) 16 ltac:(lia)).
  pose proof (Z.div_mod (code a) 16 ltac:(lia)).
  repeat constructor; try (apply hex_char_ascii; lia); done.
Qed.

Lemma hexEncode_nonempty l : l <> [] -> hexEncode l <> "".
Proof. by destruct l. Qed.

(** ** SHA-256 *)

(** The constants are the first 32 bits of the fractional parts of the square
    roots of the first 8 primes and of the cube roots of the first 64. *)
Fixpoint sieve (fuel : nat) (n : Z) (ps : list Z) : list Z :=
  match fuel with
  | O => rev ps
  | S fuel => sieve fuel (n + 1) (if forallb (fun p => negb (n mod p =? 0)) ps then n :: ps else ps)
  end.

(** The largest [x] below [2 ^ n] added to [acc] whose [k]-th power is at most [m]. *)
Fixpoint root (n : nat) (k m acc : Z) : Z :=
  match n with
  | O => acc
  | S n => let x := acc + 2 ^ Z.of_nat n in root n k m (if x ^ k <=? m then x else acc)
  end.

Definition frac_root (k p : Z) : Z := wrapu 32 (root 40 k (p * 2 ^ (32 * k)) 0).
Definition primes : list Z := sieve 310 2 [].
Definition K256 : list Z := Eval vm_compute in map (frac_root 3) primes.
Definition H256 : list Z := Eval vm_compute in map (frac_root 2) (take 8 primes).

Definition add32 (x y : Z) : Z := wrapu 32 (x + y).
Definition rotr (n x : Z) : Z := Z.lor (Z.shiftr x n) (wrapu 32 (Z.shiftl x (32 - n))).
Definition not32 (x : Z) : Z := Z.lxor x (2 ^ 32 - 1).

Definition be32 (l : list ascii) : Z := fold_left (fun acc a => acc * 256 + code a) l 0.
Definition put32 (x : Z) : list ascii :=
  [byte (Z.shiftr x 24); byte (Z.shiftr x 16); byte (Z.shiftr x 8); byte x].

(** The schedule is kept newest first. *)
Fixpoint schedule (n : nat) (w : list Z) : list Z :=
  match n with
  | O => rev w
  | S n =>
      let at_ i := nth i w 0 in
      let s0 := Z.lxor (Z.lxor (rotr 7 (at_ 14%nat)) (rotr 18 (at_ 14%nat))) (Z.shiftr (at_ 14%nat) 3) in
      let s1 := Z.lxor (Z.lxor (rotr 17 (at_ 1%nat)) (rotr 19 (at_ 1%nat))) (Z.shiftr (at_ 1%nat) 10) in
      schedule n (add32 (add32 (at_ 15%nat) s0) (add32 (at_ 6%nat) s1) :: w)
  end.

Definition round256 (st : list Z) (kw : Z * Z) : list Z :=
  match st with
  | [a; b; c; d; e; f; g; h] =>
      let s1 := Z.lxor (Z.lxor (rotr 6 e) (rotr 11 e)) (rotr 25 e) in
      let ch := Z.lxor (Z.land e f) (Z.land (not32 e) g) in
      let t1 := add32 (add32 h s1) (add32 ch (add32 kw.1 kw.2)) in
      let s0 := Z.lxor (Z.lxor (rotr 2 a) (rotr 13 a)) (rotr 22 a) in
      let maj := Z.lxor (Z.lxor (Z.land a b) (Z.land a c)) (Z.land b c) in
      [add32 t1 (add32 s0 maj); a; b; c; add32 d t1; e; f; g]
  | _ => st
  end.

Fixpoint words (n : nat) (l : list ascii) : list Z :=
  match n with O => [] | S n => be32 (take 4 l) :: words n (drop 4 l) end.

Definition block256 (h : list Z) (b : list ascii) : list Z :=
  zip_with add32 h (fold_left round256 (zip K256 (schedule 48 (rev (words 16 b)))) h).

Fixpoint blocks256 (n : nat) (h : list Z) (l : list ascii) : list Z :=
  match n with O => h | S n => blocks256 n (block256 h (take 64 l)) (drop 64 l) end.

Definition sha256 (m : list ascii) : list ascii :=
  let n := Z.of_nat (length m) in
  let padding := byte 128 :: replicate (Z.to_nat ((55 - n) mod 64)) (byte 0)
    ++ put32 (Z.shiftr (8 * n) 32) ++ put32 (8 * n) in
  concat (map put32 (blocks256 (length (m ++ padding) / 64) H256 (m ++ padding))).

Lemma round256_len st kw : length (round256 st kw) = length st.
Proof. by destruct st as [|a [|b [|c [|d [|e [|f [|g [|h []]]]]]]]]. Qed.

Lemma rounds256_len kws st : length (fold_left round256 kws st) = length st.
Proof. revert st. induction kws as [|kw kws IH]; intros st; simpl; [done|]. by rewrite IH, round256_len. Qed.

Lemma blocks256_len n h l : length (blocks256 n h l) = length h.
Proof.
  revert h l. induction n as [|n IH]; intros h l; simpl; [done|]. rewrite IH. unfold block256.
  rewrite length_zip_with, rounds256_len. lia.
Qed.

Lemma sha256_len m : length (sha256 m) = 32%nat.
Proof.
  unfold sha256. set (h := blocks256 _ _ _). assert (length h = 8%nat) as E by apply blocks256_len.
  by destruct h as [|? [|? [|? [|? [|? [|? [|? [|? []]]]]]]]].
Qed.

Definition go_sha256 : Digest := {| sum256 := sha256; sum256_len := sha256_len |}.

Example sha256_abc :
  hexEncode (sha256 (bytes "abc")) = "ba7816bf8f01cfea414140de5dae2223b00361a396177a9cb410ff61f20015ad".
Proof. vm_compute. reflexivity. Qed.

(** A small digest for runs of examples: the bytes of a polynomial checksum. *)
Fixpoint le_bytes (n : nat) (z : Z) : list ascii :=
  match n with O => [] | S n => byte z :: le_bytes n (z / 256) end.
Definition checksum (m : list ascii) : list ascii :=
  le_bytes 32 (fold_left (fun acc a => (acc * 257 + code a + 1) mod 65521) m 7).

Lemma le_bytes_len n z : length (le_bytes n z) = n.
Proof. revert z. induction n as [|n IH]; intros z; simpl; [done|]. by rewrite IH. Qed.

Definition checksum_digest : Digest := {| sum256 := checksum; sum256_len m := le_bytes_len 32 _ |}.
