(* ===== verification/Json.v ===== *)
(** * JSON as [encoding/json] writes and reads it

    The event log, the chain state, the policy file and the control-plane
    answers are JSON texts.  [print] is the compact, HTML-escaping encoder of
    [json.Marshal] on a syntax tree; [value] is the scanner and decoder of
    [json.Unmarshal] and [json.Decoder] up to the tree (numbers stay literals,
    objects keep their members in order).  Byte sequences that are not UTF-8
    are replaced by U+FFFD in both directions, as the library does. *)

From S2P Require Import Prelude GoStrings.
#[local] Set Warnings "-register-all".

Inductive json :=
| JNull
| JBool (b : bool)
| JNum (lit : string)
| JStr (s : string)
| JArr (l : list json)
| JObj (l : list (string * json)).

(** ** UTF-8 *)

Definition between (lo c hi : Z) : bool := (lo <=? c) && (c <=? hi).

(** The length of the well-formed multi-byte sequence at the head of [l]; 0
    when there is none. *)
Definition rune_len (l : list ascii) : nat :=
  match l with
  | a :: b :: l =>
      let c := code a in let d := code b in
      if between 0xC2 c 0xDF && between 0x80 d 0xBF then 2%nat
      else match l with
      | e :: l =>
          let e := code e in
          if between 0x80 e 0xBF && (((c =? 0xE0) && between 0xA0 d 0xBF)
             || ((between 0xE1 c 0xEC || between 0xEE c 0xEF) && between 0x80 d 0xBF)
             || ((c =? 0xED) && between 0x80 d 0x9F)) then 3%nat
          else match l with
          | f :: _ =>
              if between 0x80 e 0xBF && between 0x80 (code f) 0xBF
                 && (((c =? 0xF0) && between 0x90 d 0xBF) || (between 0xF1 c 0xF3 && between 0x80 d 0xBF)
                     || ((c =? 0xF4) && between 0x80 d 0x8F)) then 4%nat
              else 0%nat
          | [] => 0%nat
          end
      | [] => 0%nat
      end
  | _ => 0%nat
  end.

(** A string as its runes: an ASCII byte, a multi-byte sequence, or a byte that
    is not part of one. *)
Inductive chunk := Single (a : ascii) | Multi (l : list ascii) | Bad.

Fixpoint chunks_aux (fuel : nat) (l : list ascii) : list chunk :=
  match fuel, l with
  | O, _ | _, [] => []
  | S fuel, a :: t =>
      if is_ascii a then Single a :: chunks_aux fuel t
      else match rune_len l with
      | O => Bad :: chunks_aux fuel t
      | n => Multi (take n l) :: chunks_aux fuel (drop n l)
      end
  end.
Definition chunks (l : list ascii) : list chunk := chunks_aux (length l) l.

Definition replacement : list ascii := [byte 0xEF; byte 0xBF; byte 0xBD].

Definition valid_utf8 (s : string) : bool :=
  forallb (fun c => match c with Bad => false | _ => true end) (chunks (bytes s)).

(** [utf8.EncodeRune] *)
Definition encodeRune (r : Z) : list ascii :=
  if r <? 0x80 then [byte r]
  else if r <? 0x800 then [byte (0xC0 + Z.shiftr r 6); byte (0x80 + Z.land r 0x3F)]
  else if r <? 0x10000 then
    [byte (0xE0 + Z.shiftr r 12); byte (0x80 + Z.land (Z.shiftr r 6) 0x3F); byte (0x80 + Z.land r 0x3F)]
  else
    [byte (0xF0 + Z.shiftr r 18); byte (0x80 + Z.land (Z.shiftr r 12) 0x3F);
     byte (0x80 + Z.land (Z.shiftr r 6) 0x3F); byte (0x80 + Z.land r 0x3F)].

(** ** The encoder *)

Definition dq : ascii := byte 34.
Definition bs : ascii := byte 92.

Definition hexdigit (z : Z) : ascii := byte (if z <? 10 then 48 + z else 87 + z).
Definition u4 (r : Z) : list ascii :=
  [bs; "u"%char; hexdigit (Z.shiftr r 12); hexdigit (Z.land (Z.shiftr r 8) 15);
   hexdigit (Z.land (Z.shiftr r 4) 15); hexdigit (Z.land r 15)].

Definition esc_chunk (c : chunk) : list ascii :=
  match c with
  | Single a =>
      let c := code a in
      if (c =? 34) || (c =? 92) then [bs; a]
      else if c =? 8 then [bs; "b"%char]
      else if c =? 12 then [bs; "f"%char]
      else if c =? 10 then [bs; "n"%char]
      else if c =? 13 then [bs; "r"%char]
      else if c =? 9 then [bs; "t"%char]
      else if (c <? 32) || (c =? 60) || (c =? 62) || (c =? 38) then u4 c
      else [a]
  | Multi l =>
      if l == encodeRune 0x2028 then u4 0x2028
      else if l == encodeRune 0x2029 then u4 0x2029
      else l
  | Bad => u4 0xFFFD
  end.

Definition esc (l : list ascii) : list ascii := concat (map esc_chunk (chunks l)).
Definition quote (s : string) : list ascii := dq :: esc (bytes s) ++ [dq].

Fixpoint commas (l : list (list ascii)) : list ascii :=
  match l with
  | [] => []
  | [x] => x
  | x :: l => x ++ ","%char :: commas l
  end.

Fixpoint print (j : json) : list ascii :=
  match j with
  | JNull => bytes "null"
  | JBool true => bytes "true"
  | JBool false => bytes "false"
  | JNum lit => bytes lit
  | JStr s => quote s
  | JArr l => "["%char :: commas (map print l) ++ ["]"%char]
  | JObj l => "{"%char :: commas (map (fun kv => quote kv.1 ++ ":"%char :: print kv.2) l) ++ ["}"%char]
  end.

(** ** The decoder *)

Definition hexval (a : ascii) : option Z :=
  match digit_val a with Some d => if d <? 16 then Some d else None | None => None end.

(** [getu4]: a [\uXXXX] escape at the head. *)
Definition getu4 (l : list ascii) : option (Z * list ascii) :=
  match l with
  | b :: u :: w :: x :: y :: z :: t =>
      if (b == bs) && (u == "u"%char) then
        match hexval w, hexval x, hexval y, hexval z with
        | Some w, Some x, Some y, Some z => Some (((w * 16 + x) * 16 + y) * 16 + z, t)
        | _, _, _, _ => None
        end
      else None
  | _ => None
  end.

(** The escape sequence at the head of [l], which starts with a backslash: its
    bytes and the rest. *)
Definition unescape (l : list ascii) : option (list ascii * list ascii) :=
  match l with
  | _ :: e :: t =>
      let c := code e in
      if (c =? 34) || (c =? 92) || (c =? 47) then Some ([e], t)
      else if c =? 98 then Some ([byte 8], t)
      else if c =? 102 then Some ([byte 12], t)
      else if c =? 110 then Some ([byte 10], t)
      else if c =? 114 then Some ([byte 13], t)
      else if c =? 116 then Some ([byte 9], t)
      else match getu4 l with
      | None => None
      | Some (r, t) =>
          if between 0xD800 r 0xDFFF then
            match getu4 t with
            | Some (r2, t2) =>
                if (r <? 0xDC00) && between 0xDC00 r2 0xDFFF
                then Some (encodeRune ((r - 0xD800) * 0x400 + (r2 - 0xDC00) + 0x10000), t2)
                else Some (replacement, t)
            | None => Some (replacement, t)
            end
          else Some (encodeRune r, t)
      end
  | _ => None
  end.

(** The rest of a string literal after its opening quote. *)
Fixpoint unq (fuel : nat) (l : list ascii) : option (list ascii * list ascii) :=
  match fuel, l with
  | O, _ | _, [] => None
  | S fuel, a :: t =>
      let push bs t := match unq fuel t with Some (s, r) => Some (bs ++ s, r) | None => None end in
      if a == dq then Some ([], t)
      else if code a <? 32 then None
      else if a == bs then match unescape l with Some (bs, t) => push bs t | None => None end
      else if is_ascii a then push [a] t
      else match rune_len l with
      | O => push replacement t
      | n => push (take n l) (drop n l)
      end
  end.

Definition is_digit (a : ascii) : bool := between 48 (code a) 57.

Fixpoint span (p : ascii -> bool) (l : list ascii) : list ascii * list ascii :=
  match l with
  | [] => ([], [])
  | a :: t => if p a then let '(x, y) := span p t in (a :: x, y) else ([], l)
  end.

(** One digit or more. *)
Definition digits1 (l : list ascii) : option (list ascii * list ascii) :=
  match span is_digit l with
  | ([], _) => None
  | r => Some r
  end.

(** The stages of a number literal: sign, integer part, fraction, exponent. *)
Definition num_sign (l : list ascii) : list ascii * list ascii :=
  match l with
  | a :: t => if a == "-"%char then ([a], t) else ([], l)
  | [] => ([], [])
  end.

Definition num_int (l : list ascii) : option (list ascii * list ascii) :=
  match l with
  | a :: t => if a == "0"%char then Some ([a], t) else digits1 l
  | [] => None
  end.

Definition num_frac (l : list ascii) : option (list ascii * list ascii) :=
  match l with
  | a :: t =>
      if a == "."%char then match digits1 t with Some (x, y) => Some (a :: x, y) | None => None end
      else Some ([], l)
  | [] => Some ([], [])
  end.

Definition num_exp (l : list ascii) : option (list ascii * list ascii) :=
  match l with
  | a :: t =>
      if (a == "e"%char) || (a == "E"%char) then
        let '(s, u) := match t with
          | b :: u => if (b == "+"%char) || (b == "-"%char) then ([b], u) else ([], t)
          | [] => ([], [])
          end in
        match digits1 u with Some (x, y) => Some (a :: s ++ x, y) | None => None end
      else Some ([], l)
  | [] => Some ([], [])
  end.

Definition number (l : list ascii) : option (list ascii * list ascii) :=
  let '(s, l) := num_sign l in
  match num_int l with
  | None => None
  | Some (i, l) =>
      match num_frac l with
      | None => None
      | Some (f, l) =>
          match num_exp l with
          | None => None
          | Some (e, l) => Some (s ++ i ++ f ++ e, l)
          end
      end
  end.

Definition is_ws (a : ascii) : bool :=
  let c := code a in (c =? 32) || (c =? 9) || (c =? 10) || (c =? 13).
Definition skip_ws (l : list ascii) : list ascii := dropWhile is_ws l.

(** A keyword at the head of [l]. *)
Fixpoint keyword (k l : list ascii) : option (list ascii) :=
  match k, l with
  | [], _ => Some l
  | a :: k, b :: l => if a == b then keyword k l else None
  | _, [] => None
  end.

(** A value at the head of [l]; [d] is how many more levels may be opened.  The
    recursion consumes a byte in every two calls, so twice the length is enough
    fuel. *)
Fixpoint value (fuel d : nat) (l : list ascii) : option (json * list ascii) :=
  match fuel, skip_ws l with
  | O, _ | _, [] => None
  | S fuel, a :: t =>
      if a == dq then
        match unq (length t) t with Some (s, r) => Some (JStr (text s), r) | None => None end
      else if a == "{"%char then
        match d with
        | O => None
        | S d =>
            match skip_ws t with
            | c :: r =>
                if c == "}"%char then Some (JObj [], r)
                else match members fuel d (c :: r) with Some (ms, r) => Some (JObj ms, r) | None => None end
            | [] => None
            end
        end
      else if a == "["%char then
        match d with
        | O => None
        | S d =>
            match skip_ws t with
            | c :: r =>
                if c == "]"%char then Some (JArr [], r)
                else match elements fuel d (c :: r) with Some (vs, r) => Some (JArr vs, r) | None => None end
            | [] => None
            end
        end
      else if a == "n"%char then
        match keyword (bytes "ull") t with Some r => Some (JNull, r) | None => None end
      else if a == "t"%char then
        match keyword (bytes "rue") t with Some r => Some (JBool true, r) | None => None end
      else if a == "f"%char then
        match keyword (bytes "alse") t with Some r => Some (JBool false, r) | None => None end
      else match number (a :: t) with Some (lit, r) => Some (JNum (text lit), r) | None => None end
  end
with members (fuel d : nat) (l : list ascii) : option (list (string * json) * list ascii) :=
  match fuel, l with
  | O, _ | _, [] => None
  | S fuel, a :: t =>
      if a == dq then
        match unq (length t) t with
        | None => None
        | Some (k, r) =>
            match skip_ws r with
            | c :: r =>
                if c == ":"%char then
                  match value fuel d r with
                  | None => None
                  | Some (v, r) =>
                      match skip_ws r with
                      | c :: r =>
                          if c == ","%char then
                            match members fuel d (skip_ws r) with
                            | Some (ms, r) => Some ((text k, v) :: ms, r)
                            | None => None
                            end
                          else if c == "}"%char then Some ([(text k, v)], r)
                          else None
                      | [] => None
                      end
                  end
                else None
            | [] => None
            end
        end
      else None
  end
with elements (fuel d : nat) (l : list ascii) : option (list json * list ascii) :=
  match fuel with
  | O => None
  | S fuel =>
      match value fuel d l with
      | None => None
      | Some (v, r) =>
          match skip_ws r with
          | c :: r =>
              if c == ","%char then
                match elements fuel d r with
                | Some (vs, r) => Some (v :: vs, r)
                | None => None
                end
              else if c == "]"%char then Some ([v], r)
              else None
          | [] => None
          end
      end
  end.

(** [maxNestingDepth] *)
Definition max_depth : nat := Z.to_nat 10000.

(** The next value of a stream ([Decoder.Decode]). *)
Definition next_value (l : list ascii) : option (json * list ascii) := value (2 * length l) max_depth l.

(** [json.Unmarshal] up to the tree: one value and nothing but white space
    after it. *)
Definition parse (l : list ascii) : option json :=
  match next_value l with
  | Some (j, r) => match skip_ws r with [] => Some j | _ => None end
  | None => None
  end.

(** JSON texts of the examples are written with single quotes. *)
Definition jtext (s : string) : list ascii := map (fun a => if a == "'"%char then dq else a) (bytes s).

Example parse_1 :
  parse (jtext " {'a':[1,-2.5e3,true,null], 'b' : {}}")
  = Some (JObj [("a", JArr [JNum "1"; JNum "-2.5e3"; JBool true; JNull]); ("b", JObj [])]).
Proof. vm_compute. reflexivity. Qed.

Example print_1 :
  print (JObj [("p", JStr "<a>"); ("q", JArr [JNull; JNum "7"])])
  = jtext "{'p':'\u003ca\u003e','q':[null,7]}".
Proof. vm_compute. reflexivity. Qed.

(** ** The round trip *)

(** Trees the encoder writes without loss: UTF-8 strings, number literals of
    the grammar, at most [d] levels. *)
Fixpoint json_ok (d : nat) (j : json) {struct j} : bool :=
  match j with
  | JNull | JBool _ => true
  | JNum lit => number (bytes lit) == Some (bytes lit, [])
  | JStr s => valid_utf8 s
  | JArr l => match d with O => false | S d => forallb (json_ok d) l end
  | JObj l => match d with O => false | S d => forallb (fun kv => valid_utf8 kv.1 && json_ok d kv.2) l end
  end.

(** Induction with hypotheses for the elements and the members. *)
Lemma json_ind' (P : json -> Prop) :
  P JNull -> (forall b, P (JBool b)) -> (forall s, P (JNum s)) -> (forall s, P (JStr s)) ->
  (forall l, Forall P l -> P (JArr l)) -> (forall l, Forall (fun kv => P kv.2) l -> P (JObj l)) ->
  forall j, P j.
Proof.
  intros H1 H2 H3 H4 H5 H6. fix IH 1. intros [| | | |l|l]; [done|apply H2|apply H3|apply H4|apply H5|apply H6].
  - induction l; constructor; [apply IH|done].
  - induction l; constructor; [apply IH|done].
Qed.

(** *** Strings *)

#[local] Arguments rune_len : simpl never.
#[local] Arguments is_ascii : simpl never.

Definition chunk_bytes (c : chunk) : list ascii :=
  match c with Single a => [a] | Multi l => l | Bad => replacement end.

Definition chunk_ok (c : chunk) : Prop :=
  match c with
  | Single a => is_ascii a = true
  | Multi l => rune_len l = length l /\ (exists a t, l = a :: t /\ 128 <= code a)
  | Bad => True
  end.

Lemma between_spec lo c hi : between lo c hi = true <-> lo <= c <= hi.
Proof. unfold between. rewrite andb_true_iff, !Z.leb_le. done. Qed.

(** A sequence is recognised whatever follows it. *)
Lemma rune_len_take l n r :
  rune_len l = S n -> rune_len (take (S n) l ++ r) = S n /\ length (take (S n) l) = S n.
Proof.
  destruct l as [|a [|b l]]; [done..|]. unfold rune_len.
  destruct (between 0xC2 _ _ && _) eqn:E2.
  { intros [= <-]. simpl. by rewrite E2. }
  destruct l as [|e l]; [done|]. destruct (between 0x80 (code e) _ && (_ || _)) eqn:E3.
  { intros [= <-]. simpl. by rewrite E2, E3. }
  destruct l as [|f l]; [done|]. destruct (_ && _ && _) eqn:E4; [|done].
  intros [= <-]. simpl. by rewrite E2, E3, E4.
Qed.

Lemma rune_len_head a t n : rune_len (a :: t) = S n -> 128 <= code a.
Proof.
  unfold rune_len. intros Hr. destruct (Z.ltb_spec (code a) 128) as [Hlt|]; [|done].
  assert (forall lo hi, 128 <= lo -> between lo (code a) hi = false) as Hb.
  { intros lo hi ?. apply not_true_iff_false. rewrite between_spec. lia. }
  assert (forall v, 128 <= v -> (code a =? v) = false) as He by (intros; apply Z.eqb_neq; lia).
  rewrite !Hb, !He in Hr by lia. simpl in Hr.
  destruct t as [|b [|e [|f t]]]; rewrite ?andb_false_r in Hr; done.
Qed.

Lemma chunks_ok fuel l : Forall chunk_ok (chunks_aux fuel l).
Proof.
  revert l. induction fuel as [|fuel IH]; intros [|a t]; try constructor.
  simpl. destruct (is_ascii a) eqn:Ea; [by constructor|].
  destruct (rune_len (a :: t)) as [|n] eqn:Er; [by constructor|].
  constructor; [|apply IH]. simpl.
  destruct (rune_len_take _ _ [] Er) as [H1 H2]. rewrite app_nil_r in H1. simpl in H1, H2.
  split; [congruence|]. exists a, (take n t). split; [done|]. by apply rune_len_head in Er.
Qed.

Lemma chunks_bytes fuel l :
  (length l <= fuel)%nat ->
  forallb (fun c => match c with Bad => false | _ => true end) (chunks_aux fuel l) = true ->
  concat (map chunk_bytes (chunks_aux fuel l)) = l.
Proof.
  revert l. induction fuel as [|fuel IH]; intros [|a t]; simpl; try done; [lia|]. intros Hl.
  destruct (is_ascii a); simpl.
  { intros ?. rewrite IH; [done|lia|done]. }
  destruct (rune_len _) as [|n] eqn:Er; simpl; [done|]. intros ?.
  rewrite IH; [by rewrite take_drop| |done]. rewrite length_drop. lia.
Qed.

(** Texts of runes can be put together. *)
Lemma chunks_app f1 f2 l r :
  (length l <= f1)%nat -> (length l + length r <= f2)%nat ->
  forallb (fun c => match c with Bad => false | _ => true end) (chunks_aux f1 l) = true ->
  chunks_aux f2 (l ++ r) = chunks_aux f1 l ++ chunks_aux (f2 - length (chunks_aux f1 l)) r
  /\ (length (chunks_aux f1 l) <= length l)%nat.
Proof.
  revert f2 l. induction f1 as [|f1 IH]; intros f2 [|a t] Hl Hf; simpl; try (simpl in Hl; lia).
  { by rewrite Nat.sub_0_r. } { by rewrite Nat.sub_0_r. }
  simpl in Hl, Hf. destruct f2 as [|f2]; [lia|]. cbn [chunks_aux app].
  destruct (is_ascii a) eqn:Ea; simpl.
  - intros Hv. destruct (IH f2 t ltac:(lia) ltac:(lia) Hv) as [-> Hn]. split; [done|lia].
  - destruct (rune_len (a :: t)) as [|n] eqn:Er; [done|]. simpl. intros Hv.
    destruct (rune_len_take (a :: t) n (drop n t ++ r) Er) as [H1 H2]. simpl in H1, H2.
    assert (length (drop n t) = length t - n)%nat as Hd by apply length_drop.
    assert (n <= length t)%nat as Hn by (rewrite length_take in H2; lia).
    rewrite app_assoc, take_drop in H1. rewrite H1. simpl.
    rewrite take_app_le, drop_app_le by done.
    destruct (IH f2 (drop n t) ltac:(lia) ltac:(lia) Hv) as [-> Hk]. split; [done|lia].
Qed.

Lemma chunks_fuel f g l : (length l <= f)%nat -> (length l <= g)%nat -> chunks_aux f l = chunks_aux g l.
Proof.
  revert g l. induction f as [|f IH]; intros [|g] [|a t]; simpl; intros; try done; try lia.
  destruct (is_ascii a); [f_equal; apply IH; lia|]. destruct (rune_len (a :: t)) as [|n]; [f_equal; apply IH; lia|].
  f_equal. simpl. apply IH; rewrite length_drop; lia.
Qed.

Lemma valid_utf8_app s t : valid_utf8 s = true -> valid_utf8 t = true -> valid_utf8 (s +:+ t) = true.
Proof.
  unfold valid_utf8, chunks.
  rewrite bytes_app.
  intros Hs Ht. rewrite length_app.
  destruct (chunks_app _ _ (bytes s) (bytes t) (le_n _) (le_n _) Hs) as [-> Hn].
  rewrite forallb_app, Hs. simpl. by rewrite (chunks_fuel _ (length (bytes t))) by lia.
Qed.

Lemma unq_single fuel a r :
  is_ascii a = true ->
  unq (S fuel) (esc_chunk (Single a) ++ r)
  = match unq fuel r with Some (s, r') => Some (a :: s, r') | None => None end.
Proof.
  destruct a as [[] [] [] [] [] [] [] []]; intros Ha; first [discriminate Ha | reflexivity].
Qed.

Lemma unq_chunk fuel c r :
  chunk_ok c ->
  unq (S fuel) (esc_chunk c ++ r)
  = match unq fuel r with Some (s, r') => Some (chunk_bytes c ++ s, r') | None => None end.
Proof.
  destruct c as [a|l|]; [apply unq_single| |done]. intros [Hl (a & t & -> & Ha)].
  unfold esc_chunk. case_bool_decide as H1; [rewrite H1; reflexivity|].
  case_bool_decide as H2; [rewrite H2; reflexivity|]. clear H1 H2. simpl in Hl.
  assert (rune_len ((a :: t) ++ r) = S (length t)) as Hr.
  { destruct (rune_len_take (a :: t) (length t) r Hl) as [H1 _]. by rewrite take_ge in H1 by (simpl; lia). }
  cbn [unq app].
  rewrite (bool_decide_eq_false_2 (a = dq)) by (intros ->; compute in Ha; done).
  rewrite (bool_decide_eq_false_2 (a = bs)) by (intros ->; compute in Ha; done).
  unfold is_ascii. destruct (Z.ltb_spec (code a) 32); [lia|]. destruct (Z.ltb_spec (code a) 128); [lia|].
  simpl in Hr. rewrite Hr. simpl. rewrite firstn_app, firstn_all, Nat.sub_diag.
  rewrite skipn_app, skipn_all, Nat.sub_diag. simpl. by rewrite app_nil_r.
Qed.

Lemma unq_chunks cs fuel r :
  Forall chunk_ok cs -> (length cs < fuel)%nat ->
  unq fuel (concat (map esc_chunk cs) ++ dq :: r) = Some (concat (map chunk_bytes cs), r).
Proof.
  intros Hcs. revert fuel. induction Hcs as [|c cs Hc _ IH]; intros [|fuel] Hf; cbn [map concat length] in *;
    try lia; [done|].
  rewrite <- app_assoc, unq_chunk, IH by (done || lia). done.
Qed.


Lemma esc_chunk_nonempty c : chunk_ok c -> (1 <= length (esc_chunk c))%nat.
Proof.
  destruct c as [a|l|]; simpl; [|intros [_ (a & t & -> & _)]|lia]; repeat case_match; simpl; lia.
Qed.

Lemma esc_length cs : Forall chunk_ok cs -> (length cs <= length (concat (map esc_chunk cs)))%nat.
Proof.
  induction 1 as [|c cs Hc _ IH]; simpl; [lia|]. rewrite length_app.
  pose proof (esc_chunk_nonempty c Hc). lia.
Qed.

(** A quoted string is read back. *)
Lemma unq_quote s r :
  valid_utf8 s = true ->
  let t := esc (bytes s) ++ dq :: r in unq (length t) t = Some (bytes s, r).
Proof.
  intros Hs t. subst t. unfold esc. rewrite unq_chunks; [|apply chunks_ok|].
  - unfold chunks. by rewrite chunks_bytes.
  - rewrite length_app. simpl. pose proof (esc_length (chunks (bytes s)) (chunks_ok _ _)). lia.
Qed.

(** *** Numbers *)

Definition num_char (a : ascii) : bool :=
  is_digit a || (a == "."%char) || (a == "e"%char) || (a == "E"%char) || (a == "+"%char) || (a == "-"%char).

(** What may follow a number. *)
Definition delim (r : list ascii) : Prop :=
  match r with [] => True | c :: _ => num_char c = false end.

Lemma delim_not r c : delim r -> num_char c = true -> match r with a :: _ => a <> c | [] => True end.
Proof. destruct r; simpl; [done|]. congruence. Qed.

Lemma span_app p l a b r :
  match r with [] => True | c :: _ => p c = false end ->
  span p l = (a, b) -> span p (l ++ r) = (a, b ++ r).
Proof.
  intros Hr. revert a b. induction l as [|c l IH]; simpl; intros a b.
  - intros [= <- <-]. destruct r as [|c r]; simpl; [done|]. by rewrite Hr.
  - destruct (p c); [|by intros [= <- <-]]. destruct (span p l) as [x y].
    intros [= <- <-]. by rewrite (IH x y).
Qed.

Lemma digits1_app l a b r : delim r -> digits1 l = Some (a, b) -> digits1 (l ++ r) = Some (a, b ++ r).
Proof.
  intros Hr. unfold digits1. destruct (span is_digit l) as [x y] eqn:E.
  rewrite (span_app is_digit l x y r) by
    (done || (destruct r; [done|]; simpl in Hr; unfold num_char in Hr; bool_props; done)).
  destruct x; [done|]. by intros [= <- <-].
Qed.

Ltac no_head Hr c := destruct c; [done|]; simpl in Hr; unfold num_char in Hr; bool_props;
  rewrite ?bool_decide_eq_false_2 by done.

Lemma num_sign_app l a b r : l <> [] -> num_sign l = (a, b) -> num_sign (l ++ r) = (a, b ++ r).
Proof. destruct l as [|c l]; [done|]. simpl. case_bool_decide; by intros _ [= <- <-]. Qed.

Lemma num_int_app l a b r : delim r -> num_int l = Some (a, b) -> num_int (l ++ r) = Some (a, b ++ r).
Proof.
  intros Hr. destruct l as [|c l]; [done|]. unfold num_int. cbn [app].
  case_bool_decide; [by intros [= <- <-]|]. by apply (digits1_app (c :: l)).
Qed.

Lemma num_frac_app l a b r : delim r -> num_frac l = Some (a, b) -> num_frac (l ++ r) = Some (a, b ++ r).
Proof.
  intros Hr. destruct l as [|c l]; simpl.
  - intros [= <- <-]. unfold num_frac. no_head Hr r. done.
  - case_bool_decide; [|by intros [= <- <-]]. destruct (digits1 l) as [[x y]|] eqn:E; [|done].
    rewrite (digits1_app _ _ _ _ Hr E). by intros [= <- <-].
Qed.

Lemma num_exp_app l a b r : delim r -> num_exp l = Some (a, b) -> num_exp (l ++ r) = Some (a, b ++ r).
Proof.
  intros Hr. destruct l as [|c l]; simpl.
  - intros [= <- <-]. unfold num_exp. no_head Hr r. done.
  - destruct (_ || _); [|by intros [= <- <-]]. destruct l as [|d l]; [done|]. simpl.
    destruct (_ || _); simpl.
    + destruct (digits1 l) as [[x y]|] eqn:E; [|done].
      rewrite (digits1_app _ _ _ _ Hr E). by intros [= <- <-].
    + destruct (digits1 (d :: l)) as [[x y]|] eqn:E; [|done].
      apply (digits1_app _ _ _ _ Hr) in E. simpl in E. rewrite E. by intros [= <- <-].
Qed.

Lemma number_app l a b r : delim r -> number l = Some (a, b) -> number (l ++ r) = Some (a, b ++ r).
Proof.
  intros Hr. unfold number. destruct (num_sign l) as [s l1] eqn:Es.
  destruct (num_int l1) as [[i l2]|] eqn:Ei; [|done].
  rewrite (num_sign_app _ _ _ r) with (2 := Es) by (intros ->; injection Es as <- <-; done).
  rewrite (num_int_app _ _ _ _ Hr Ei).
  destruct (num_frac l2) as [[f l3]|] eqn:Ef; [|done]. rewrite (num_frac_app _ _ _ _ Hr Ef).
  destruct (num_exp l3) as [[e l4]|] eqn:Ee; [|done]. rewrite (num_exp_app _ _ _ _ Hr Ee).
  by intros [= <- <-].
Qed.

Lemma number_head l x : number l = Some x -> exists a t, l = a :: t /\ (a = "-"%char \/ is_digit a = true).
Proof.
  destruct l as [|a t]; [done|]. unfold number. cbn [num_sign]. case_bool_decide; [by eauto|].
  intros Hx. exists a, t. split; [done|]. right. destruct (is_digit a) eqn:Ea; [done|].
  unfold num_int, digits1 in Hx. simpl in Hx. rewrite Ea in Hx.
  case_bool_decide; [by subst|]. done.
Qed.

(** *** Values *)

Lemma skip_ws_id l : match l with [] => True | a :: _ => is_ws a = false end -> skip_ws l = l.
Proof. destruct l; [done|]. unfold skip_ws. simpl. by intros ->. Qed.

(** The first byte of a value. *)
Definition starts (a : ascii) : Prop := is_ws a = false /\ a <> "]"%char.

Lemma number_start a : a = "-"%char \/ is_digit a = true ->
  starts a /\ a <> dq /\ a <> "{"%char /\ a <> "["%char /\ a <> "n"%char /\ a <> "t"%char /\ a <> "f"%char.
Proof.
  intros [->|Ha]; [vm_compute; intuition congruence|].
  destruct a as [[] [] [] [] [] [] [] []]; first [discriminate Ha | vm_compute; intuition congruence].
Qed.

Lemma print_start d j : json_ok d j = true -> exists a t, print j = a :: t /\ starts a.
Proof.
  destruct j as [|[]|lit|s|l|l]; simpl; intros Hok;
    try (eexists _, _; split; [reflexivity|by vm_compute]; fail).
  bool_props. apply number_head in Hok as (a & t & -> & Ha). exists a, t.
  split; [done|]. by apply number_start.
Qed.

Lemma commas_cons x y l : commas (x :: y :: l) = x ++ ","%char :: commas (y :: l).
Proof. done. Qed.

Lemma delim_comma r : delim (","%char :: r).
Proof. done. Qed.
Lemma delim_bracket r : delim ("]"%char :: r).
Proof. done. Qed.
Lemma delim_brace r : delim ("}"%char :: r).
Proof. done. Qed.
#[local] Hint Resolve delim_comma delim_bracket delim_brace : core.

(** [j] is read back by the parser whatever follows. *)
Definition reads (j : json) : Prop := forall d r fuel,
  json_ok d j = true -> delim r -> (2 * length (print j) <= fuel)%nat ->
  value fuel d (print j ++ r) = Some (j, r).

Lemma elements_print l d r fuel :
  l <> [] -> Forall reads l -> forallb (json_ok d) l = true ->
  (2 * length (commas (map print l)) + 1 <= fuel)%nat ->
  elements fuel d (commas (map print l) ++ "]"%char :: r) = Some (l, r).
Proof.
  intros Hne HF. revert fuel. induction HF as [|j l Hj HF IH]; [done|].
  intros [|fuel] Hok Hf; [lia|]. simpl in Hok. bool_props. cbn [elements].
  destruct l as [|j2 l].
  - simpl in *. rewrite Hj by (done || lia). done.
  - cbn [map] in *. rewrite commas_cons, <- app_assoc in *. rewrite length_app in Hf. cbn [length] in Hf.
    rewrite Hj by (done || lia). cbn [app]. rewrite skip_ws_id by done. cbv beta iota.
    rewrite (bool_decide_eq_true_2 (","%char = ","%char)) by done.
    rewrite IH by (done || lia). done.
Qed.

Definition member (kv : string * json) : list ascii := quote kv.1 ++ ":"%char :: print kv.2.

Lemma members_print l d r fuel :
  l <> [] -> Forall (fun kv => reads kv.2) l ->
  forallb (fun kv => valid_utf8 kv.1 && json_ok d kv.2) l = true ->
  (2 * length (commas (map member l)) <= fuel)%nat ->
  members fuel d (commas (map member l) ++ "}"%char :: r) = Some (l, r).
Proof.
  intros Hne HF. revert fuel. induction HF as [|[k j] l Hj HF IH]; [done|].
  intros fuel Hok Hf. simpl in Hok, Hj. bool_props.
  assert (exists tail, commas (map member ((k, j) :: l)) ++ "}"%char :: r
    = dq :: esc (bytes k) ++ dq :: ":"%char :: print j ++ tail
    /\ (2 * length (print j) + 2 <= fuel)%nat
    /\ delim tail
    /\ forall fuel', (S fuel' = fuel)%nat ->
       match tail with
       | c :: r' => is_ws c = false /\
          (if c == ","%char then
             match members fuel' d (skip_ws r') with
             | Some (ms, r) => Some ((k, j) :: ms, r) | None => None end
           else if c == "}"%char then Some ([(k, j)], r') else None) = Some ((k, j) :: l, r)
       | [] => False end) as (tail & Htext & Hfuel & Hdel & Htail).
  { destruct l as [|[k2 j2] l].
    - exists ("}"%char :: r). simpl in *. unfold member, quote in *. simpl in *.
      rewrite ?length_app in Hf. simpl in Hf. rewrite <- !app_assoc. simpl. split_and!; try done. lia.
    - exists (","%char :: commas (map member ((k2, j2) :: l)) ++ "}"%char :: r).
      cbn [map] in *. rewrite commas_cons in *. rewrite length_app in Hf. unfold member at 1 in Hf.
      rewrite length_app in Hf. cbn [length] in Hf.
      split_and!.
      + unfold member at 1, quote. simpl. rewrite <- !app_assoc. simpl. rewrite <- ?app_assoc. done.
      + simpl in Hf. lia.
      + done.
      + intros fuel' <-. split; [done|]. rewrite (bool_decide_eq_true_2 (","%char = ","%char)) by done.
        rewrite skip_ws_id; [|unfold member at 1, quote; by destruct l].
        rewrite IH by (done || lia). done. }
  rewrite Htext. destruct fuel as [|fuel]; [lia|]. cbn [members].
  rewrite (bool_decide_eq_true_2 (dq = dq)) by done. rewrite unq_quote by done.
  rewrite skip_ws_id by done. rewrite (bool_decide_eq_true_2 (":"%char = ":"%char)) by done.
  rewrite Hj by (done || lia). specialize (Htail fuel eq_refl).
  destruct tail as [|c tail]; [done|]. destruct Htail as [Hws Htail].
  rewrite skip_ws_id by done. rewrite text_bytes. done.
Qed.

#[local] Hint Resolve unq_quote : core.

(** Reading back what was printed. *)
Lemma value_print j : reads j.
Proof.
  induction j as [|b|lit|s|l IH|l IH] using json_ind'; intros d r fuel Hok Hr Hf;
    (destruct fuel as [|fuel]; [destruct (print_start d _ Hok) as (? & ? & E & _); rewrite E in Hf; simpl in Hf; lia|]).
  - done.
  - by destruct b.
  - simpl in Hok. bool_props. destruct (number_head _ _ Hok) as (a & t & E & Ha).
    pose proof (number_app _ _ _ _ Hr Hok) as Hn. destruct (number_start a Ha) as ([Hws _] & Hne).
    simpl print. rewrite E in *. destruct Hne as (? & ? & ? & ? & ? & ?).
    cbn [value app]. rewrite (skip_ws_id (a :: t ++ r)) by done.
    rewrite !bool_decide_eq_false_2 by done. cbn [app] in Hn. rewrite Hn.
    rewrite <- E, text_bytes. done.
  - simpl in Hok. cbn [print quote]. unfold quote. cbn [app value]. rewrite skip_ws_id by done.
    rewrite bool_decide_eq_true_2 by done. rewrite <- app_assoc. cbn [app].
    rewrite unq_quote, text_bytes by done. done.
  - simpl in Hok. destruct d as [|d]; [done|]. simpl print. cbn [app value]. rewrite skip_ws_id by done.
    rewrite <- app_assoc. cbn [app]. destruct l as [|j l]; [done|].
    pose proof Hok as Hj. simpl in Hj. bool_props.
    destruct (print_start d j) as (a & t & Ea & [Hws Hnb]); [done|].
    assert (exists t', commas (map print (j :: l)) ++ "]"%char :: r = a :: t') as [t' Et].
    { simpl. rewrite Ea. destruct (map print l); simpl; eauto. }
    rewrite Et, skip_ws_id by done. rewrite (bool_decide_eq_false_2 (a = "]"%char)) by done.
    rewrite <- Et. rewrite elements_print; [done|done|done|done|].
    cbn [print length] in Hf. rewrite length_app in Hf. cbn [length] in Hf. lia.
  - simpl in Hok. destruct d as [|d]; [done|].
    change (print (JObj l)) with ("{"%char :: commas (map member l) ++ ["}"%char]) in *.
    cbn [app value]. rewrite skip_ws_id by done.
    rewrite <- app_assoc. cbn [app]. destruct l as [|kj l]; [done|].
    assert (exists t', commas (map member (kj :: l)) ++ "}"%char :: r = dq :: t') as [t' Et].
    { simpl. unfold member, quote. destruct l; simpl; eauto. }
    rewrite Et, skip_ws_id by done. rewrite (bool_decide_eq_false_2 (dq = "}"%char)) by done.
    rewrite <- Et. rewrite members_print; [done|done|done|done|].
    cbn [length] in Hf. rewrite length_app in Hf. cbn [length] in Hf. lia.
Qed.

(** [parse] inverts [print] on the trees [print] writes without loss, and so
    [print] is injective on them. *)
Lemma parse_print j r :
  json_ok max_depth j = true -> Forall (fun a => is_ws a = true) r -> parse (print j ++ r) = Some j.
Proof.
  intros Hok Hr. unfold parse, next_value. rewrite value_print; [|done| |rewrite length_app; lia].
  - unfold skip_ws. induction Hr as [|a r Ha Hr IH]; [done|]. simpl. by rewrite Ha.
  - destruct Hr as [|a r Ha]; [done|]. destruct a as [[] [] [] [] [] [] [] []]; first [discriminate Ha | done].
Qed.

(** A stream of values, each followed by white space. *)
Lemma next_value_print j a r :
  json_ok max_depth j = true -> is_ws a = true -> next_value (print j ++ a :: r) = Some (j, a :: r).
Proof.
  intros Hok Ha. unfold next_value. apply value_print; [done| |rewrite length_app; lia].
  destruct a as [[] [] [] [] [] [] [] []]; first [discriminate Ha | done].
Qed.

Lemma print_inj j k :
  json_ok max_depth j = true -> json_ok max_depth k = true -> print j = print k -> j = k.
Proof.
  intros Hj Hk E. apply (parse_print j []) in Hj; [|constructor]. apply (parse_print k []) in Hk; [|constructor].
  rewrite app_nil_r in *. congruence.
Qed.

(** ** Progress: a value takes at least a byte *)

Lemma getu4_shorter l z r : getu4 l = Some (z, r) -> (length r < length l)%nat.
Proof.
  unfold getu4. destruct l as [|b [|u [|w [|x [|y [|c t]]]]]]; try done. intros Hg.
  repeat case_match; simplify_eq. simpl. lia.
Qed.

Lemma unescape_shorter l s r : unescape l = Some (s, r) -> (length r < length l)%nat.
Proof.
  destruct l as [|a [|e t]]; try done. cbn [unescape].
  repeat (case_match; [intros; simplify_eq; simpl; lia|]).
  destruct (getu4 (a :: e :: t)) as [[z u]|] eqn:E; [|done]. apply getu4_shorter in E.
  destruct (between _ _ _); [|intros; simplify_eq; done].
  destruct (getu4 u) as [[z2 u2]|] eqn:E2; [apply getu4_shorter in E2; case_match|];
    intros; simplify_eq; lia.
Qed.

Lemma unq_shorter fuel l s r : unq fuel l = Some (s, r) -> (length r < length l)%nat.
Proof.
  revert l s r. induction fuel as [|fuel IH]; intros [|a t] s r; try done. cbn [unq].
  assert (forall x u, (length u < length (a :: t))%nat ->
    match unq fuel u with Some (s, r) => Some (x ++ s, r) | None => None end = Some (s, r) ->
    (length r < length (a :: t))%nat) as Hpush.
  { intros x u Hu. destruct (unq fuel u) as [[s' r']|] eqn:E; [|done]. apply IH in E. intros; simplify_eq. lia. }
  case_bool_decide; [intros; simplify_eq; simpl; lia|]. case_match; [done|].
  case_bool_decide.
  { destruct (unescape _) as [[x u]|] eqn:E; [|done]. apply Hpush. by apply unescape_shorter in E. }
  case_match; [apply Hpush; simpl; lia|].
  destruct (rune_len _) as [|n]; [apply Hpush; simpl; lia|]. apply Hpush. rewrite length_drop. simpl. lia.
Qed.

Lemma span_length p l a b : span p l = (a, b) -> (length a + length b = length l)%nat.
Proof.
  revert a b. induction l as [|c l IH]; simpl; intros a b; [by intros [= <- <-]|].
  destruct (p c); [|by intros [= <- <-]]. destruct (span p l) as [x y]. intros [= <- <-].
  simpl. by rewrite (IH x y).
Qed.

Lemma digits1_shorter l a b : digits1 l = Some (a, b) -> (length b < length l)%nat.
Proof.
  unfold digits1. destruct (span is_digit l) as [[|x a'] y] eqn:E; [done|]. intros [= <- <-].
  apply span_length in E. simpl in E. lia.
Qed.

Lemma number_shorter l x r : number l = Some (x, r) -> (length r < length l)%nat.
Proof.
  unfold number. destruct (num_sign l) as [s l1] eqn:Es.
  assert (length l1 <= length l)%nat.
  { destruct l; simpl in Es; [by simplify_eq|]. case_bool_decide; simplify_eq; simpl; lia. }
  destruct (num_int l1) as [[i l2]|] eqn:Ei; [|done].
  assert (length l2 < length l1)%nat.
  { destruct l1; simpl in Ei; [done|]. case_bool_decide; [simplify_eq; simpl; lia|]. by apply digits1_shorter in Ei. }
  destruct (num_frac l2) as [[f l3]|] eqn:Ef; [|done].
  assert (length l3 <= length l2)%nat.
  { destruct l2 as [|c l2]; simpl in Ef; [by simplify_eq|]. case_bool_decide; [|by simplify_eq].
    destruct (digits1 l2) as [[? ?]|] eqn:E; [|done]. apply digits1_shorter in E. simplify_eq. simpl. lia. }
  destruct (num_exp l3) as [[e l4]|] eqn:Ee; [|done].
  assert (length l4 <= length l3)%nat; [|intros; simplify_eq; lia].
  destruct l3 as [|c l3]; simpl in Ee; [by simplify_eq|]. destruct (_ || _); [|by simplify_eq].
  destruct l3 as [|d l3]; simpl in Ee; [done|]. destruct (_ || _).
  - destruct (digits1 l3) as [[? ?]|] eqn:E; [|done]. apply digits1_shorter in E. simplify_eq. simpl. lia.
  - destruct (digits1 (d :: l3)) as [[? ?]|] eqn:E; [|done]. apply digits1_shorter in E. simplify_eq. simpl in *. lia.
Qed.

Lemma keyword_shorter k l r : keyword k l = Some r -> (length r <= length l)%nat.
Proof.
  revert l. induction k as [|a k IH]; intros [|b l]; simpl; try (intros; by simplify_eq).
  case_bool_decide; [|done]. intros ?%IH. lia.
Qed.

Lemma skip_ws_shorter l : (length (skip_ws l) <= length l)%nat.
Proof. induction l as [|a l IH]; simpl; [done|]. unfold skip_ws in *. simpl. case_match; simpl; lia. Qed.

(** Rewrites the length facts of a failed or finished sub-parse. *)
Ltac shorter :=
  repeat match goal with
  | H : unq _ _ = Some _ |- _ => apply unq_shorter in H
  | H : keyword _ _ = Some _ |- _ => apply keyword_shorter in H
  | H : number _ = Some _ |- _ => apply number_shorter in H
  | H : skip_ws ?l = _ |- _ =>
      let E := fresh in pose proof (skip_ws_shorter l) as E; rewrite H in E; clear H
  end; simpl in *.

Lemma value_shorter fuel :
  (forall d l j r, value fuel d l = Some (j, r) -> (length r < length l)%nat)
  /\ (forall d l ms r, members fuel d l = Some (ms, r) -> (length r < length l)%nat)
  /\ (forall d l vs r, elements fuel d l = Some (vs, r) -> (length r < length l)%nat).
Proof.
  induction fuel as [|fuel (IHv & IHm & IHe)]; [done|].
  split_and!; intros d l x r Hp.
  - cbn [value] in Hp. destruct (skip_ws l) as [|a t] eqn:Ew; [done|].
    repeat case_match; simplify_eq; shorter; try lia;
      try match goal with H : members _ _ _ = _ |- _ => apply IHm in H end;
      try match goal with H : elements _ _ _ = _ |- _ => apply IHe in H end; simpl in *; lia.
  - cbn [members] in Hp. destruct l as [|a t]; [done|].
    repeat case_match; simplify_eq;
      try match goal with H : members _ _ _ = _ |- _ => apply IHm in H end;
      match goal with H : value _ _ _ = _ |- _ => apply IHv in H end;
      try match goal with H : context [skip_ws ?l] |- _ =>
        lazymatch type of H with (_ < _)%nat => pose proof (skip_ws_shorter l) end end;
      shorter; lia.
  - cbn [elements] in Hp.
    repeat case_match; simplify_eq;
      try match goal with H : elements _ _ _ = _ |- _ => apply IHe in H end;
      match goal with H : value _ _ _ = _ |- _ => apply IHv in H end; shorter; lia.
Qed.

Lemma next_value_shorter l j r : next_value l = Some (j, r) -> (length r < length l)%nat.
Proof. apply value_shorter. Qed.

(** The fuel of [next_value] is enough: more of it changes nothing. *)
Lemma value_fuel f :
  (forall f' d l, (2 * length l <= f)%nat -> (f <= f')%nat -> value f' d l = value f d l)
  /\ (forall f' d l, (2 * length l <= f)%nat -> (f <= f')%nat -> members f' d l = members f d l)
  /\ (forall f' d l, (2 * length l + 1 <= f)%nat -> (f <= f')%nat -> elements f' d l = elements f d l).
Proof.
  induction f as [|f (IHv & IHm & IHe)]; split_and!; intros f' d l Hl Hf;
    try (destruct l; simpl in Hl; [|lia]; destruct f'; done); try lia;
    (destruct f' as [|f']; [lia|]).
  - cbn [value]. pose proof (skip_ws_shorter l) as Hw. destruct (skip_ws l) as [|a t]; [done|].
    simpl in Hw. pose proof (skip_ws_shorter t) as Ht.
    destruct (skip_ws t) as [|c u]; [done|]. simpl in Ht.
    destruct d as [|d]; [done|]. by rewrite (IHm f' d (c :: u)), (IHe f' d (c :: u)) by (simpl; lia).
  - cbn [members]. destruct l as [|a t]; [done|]. case_bool_decide; [|done]. simpl in Hl.
    destruct (unq _ t) as [[k r]|] eqn:Eu; [|done]. apply unq_shorter in Eu.
    pose proof (skip_ws_shorter r). destruct (skip_ws r) as [|c u]; [done|]. simpl in *.
    case_bool_decide; [|done]. rewrite (IHv f') by lia.
    destruct (value f d u) as [[v w]|] eqn:Ev; [|done]. apply value_shorter in Ev.
    pose proof (skip_ws_shorter w). destruct (skip_ws w) as [|c2 x]; [done|]. simpl in *.
    pose proof (skip_ws_shorter x). by rewrite (IHm f') by lia.
  - cbn [elements]. rewrite (IHv f') by lia. destruct (value f d l) as [[v w]|] eqn:Ev; [|done].
    apply value_shorter in Ev. pose proof (skip_ws_shorter w). destruct (skip_ws w) as [|c2 x]; [done|]. simpl in *.
    by rewrite (IHe f') by lia.
Qed.

(** ** The text of a value has no control characters *)

Definition printable (a : ascii) : Prop := 32 <= code a.

Lemma printable_text l : forallb (fun a => 32 <=? code a) l = true -> Forall printable l.
Proof.
  induction l as [|a l IH]; simpl; [constructor|]. intros [Ha Hl]%andb_true_iff.
  constructor; [by apply Z.leb_le|auto].
Qed.

#[local] Ltac plain_text := apply printable_text; vm_compute; reflexivity.

Lemma rune_len_high l : rune_len l = length l -> Forall printable l.
Proof.
  unfold rune_len, printable. destruct l as [|a [|b l]]; [constructor|done|]. intros Hr.
  repeat case_match; try discriminate; simplify_eq/=;
    repeat match goal with
    | H : (_ && _)%bool = true |- _ => apply andb_true_iff in H as [? ?]
    | H : (_ || _)%bool = true |- _ => apply orb_true_iff in H as [?|?]
    | H : between _ _ _ = true |- _ => apply between_spec in H
    | H : (_ =? _) = true |- _ => apply Z.eqb_eq in H
    end;
    repeat match goal with l : list ascii |- _ => destruct l; simplify_eq/= end;
    repeat constructor; lia.
Qed.

Lemma esc_chunk_printable c : chunk_ok c -> Forall printable (esc_chunk c).
Proof.
  destruct c as [a|l|]; simpl.
  - intros _. change (Forall printable (esc_chunk (Single a))). apply printable_text.
    destruct a as [[] [] [] [] [] [] [] []]; vm_compute; reflexivity.
  - intros [Hl _]. case_bool_decide; [plain_text|]. case_bool_decide; [plain_text|]. by apply rune_len_high.
  - intros _. plain_text.
Qed.

Lemma quote_printable s : Forall printable (quote s).
Proof.
  unfold quote, esc. constructor; [vm_compute; discriminate|]. apply Forall_app_2.
  - apply Forall_concat, Forall_map. eapply Forall_impl; [apply chunks_ok|]. apply esc_chunk_printable.
  - repeat constructor. vm_compute. discriminate.
Qed.

Lemma span_forall p l a b : span p l = (a, b) -> Forall (fun c => p c = true) a.
Proof.
  revert a b. induction l as [|c l IH]; simpl; intros a b; [by intros [= <- <-]|].
  destruct (p c) eqn:E; [|by intros [= <- <-]]. destruct (span p l) as [x y]. intros [= <- <-].
  constructor; [done|]. by eapply IH.
Qed.

Lemma is_digit_printable a : is_digit a = true -> printable a.
Proof. unfold is_digit, printable. rewrite between_spec. lia. Qed.

Lemma digits1_printable l a b : digits1 l = Some (a, b) -> Forall printable a.
Proof.
  unfold digits1. destruct (span is_digit l) as [[|x a'] y] eqn:E; [done|]. intros [= <- <-].
  apply span_forall in E. eapply Forall_impl; [exact E|]. apply is_digit_printable.
Qed.

Lemma char_printable a c : a = c -> (32 <=? code c) = true -> printable a.
Proof. intros ->. unfold printable. lia. Qed.

Lemma number_printable l x r : number l = Some (x, r) -> Forall printable x.
Proof.
  unfold number. destruct (num_sign l) as [s l1] eqn:Es.
  assert (Forall printable s).
  { destruct l; simpl in Es; [by simplify_eq|]. case_bool_decide; simplify_eq; repeat constructor. by eapply char_printable. }
  destruct (num_int l1) as [[i l2]|] eqn:Ei; [|done].
  assert (Forall printable i).
  { destruct l1; simpl in Ei; [done|]. case_bool_decide; [|by eapply digits1_printable].
    simplify_eq; repeat constructor. by eapply char_printable. }
  destruct (num_frac l2) as [[f l3]|] eqn:Ef; [|done].
  assert (Forall printable f).
  { destruct l2 as [|c l2]; simpl in Ef; [by simplify_eq|]. case_bool_decide; [|by simplify_eq].
    destruct (digits1 l2) as [[? ?]|] eqn:E; [|done]. apply digits1_printable in E. simplify_eq.
    constructor; [by eapply char_printable|done]. }
  destruct (num_exp l3) as [[e l4]|] eqn:Ee; [|done].
  assert (Forall printable e); [|intros; simplify_eq; repeat apply Forall_app_2; done].
  destruct l3 as [|c l3]; simpl in Ee; [by simplify_eq|].
  destruct (_ || _) eqn:Hc; [|by simplify_eq].
  assert (printable c) by (apply orb_true_iff in Hc as [?|?]; bool_props; by eapply char_printable).
  destruct l3 as [|d l3]; simpl in Ee; [done|]. destruct ((d == _) || _) eqn:Hd.
  - assert (printable d) by (apply orb_true_iff in Hd as [?|?]; bool_props; by eapply char_printable).
    destruct (digits1 l3) as [[? ?]|] eqn:E; [|done]. apply digits1_printable in E. simplify_eq.
    by repeat constructor.
  - destruct (digits1 (d :: l3)) as [[? ?]|] eqn:E; [|done]. apply digits1_printable in E. simplify_eq.
    by constructor.
Qed.

Lemma commas_printable ls : Forall (Forall printable) ls -> Forall printable (commas ls).
Proof.
  induction 1 as [|x [|y ls] Hx _ IH]; simpl; [constructor|done|]. apply Forall_app_2; [done|].
  constructor; [vm_compute; discriminate|done].
Qed.

Lemma print_printable j d : json_ok d j = true -> Forall printable (print j).
Proof.
  revert d. induction j as [|[]|lit|s|l IH|l IH] using json_ind'; intros d Hok; [plain_text..| | | |]; simpl in Hok |- *.
  - bool_props. by eapply number_printable.
  - apply quote_printable.
  - destruct d as [|d]; [done|]. constructor; [vm_compute; discriminate|].
    apply Forall_app_2; [|repeat constructor; vm_compute; discriminate].
    apply commas_printable, Forall_map. rewrite forallb_forall in Hok. rewrite Forall_forall in IH |- *.
    intros x Hx. apply (IH x Hx d). apply Hok. by apply list_elem_of_In.
  - destruct d as [|d]; [done|]. constructor; [vm_compute; discriminate|].
    apply Forall_app_2; [|repeat constructor; vm_compute; discriminate].
    apply commas_printable, Forall_map. rewrite forallb_forall in Hok. rewrite Forall_forall in IH |- *.
    intros x Hx. apply (Forall_app_2 _ (quote x.1)); [apply quote_printable|]. constructor; [vm_compute; discriminate|].
    apply (IH x Hx d). apply list_elem_of_In, Hok in Hx. by apply andb_true_iff in Hx as [_ ?].
Qed.
