(* ===== verification/JsonIndent.v ===== *)
(** * Indented JSON

    [json.MarshalIndent] with an empty prefix and two blanks per level, and the
    proof that the parser reads its text back. *)

From S2P Require Import Prelude GoStrings Json.

Definition newline (n : nat) : list ascii := byte 10 :: replicate (2 * n) " "%char.

(** Texts separated by a comma and white space. *)
Fixpoint joined (ind : list ascii) (l : list (list ascii)) : list ascii :=
  match l with
  | [] => []
  | [x] => x
  | x :: l => x ++ ","%char :: ind ++ joined ind l
  end.

(** [j] at nesting level [n]. *)
Fixpoint pretty (n : nat) (j : json) {struct j} : list ascii :=
  match j with
  | JArr [] => bytes "[]"
  | JArr l => "["%char :: newline (S n) ++ joined (newline (S n)) (map (pretty (S n)) l) ++ newline n ++ ["]"%char]
  | JObj [] => bytes "{}"
  | JObj l =>
      "{"%char :: newline (S n)
      ++ joined (newline (S n)) (map (fun kv => quote kv.1 ++ ":"%char :: " "%char :: pretty (S n) kv.2) l)
      ++ newline n ++ ["}"%char]
  | _ => print j
  end.

Definition marshalIndent (j : json) : list ascii := pretty 0 j.

Example pretty_1 :
  text (marshalIndent (JObj [("a", JArr [JNum "1"; JNull]); ("b", JObj [])]))
  = text (jtext ("{" +:+ nl +:+ "  'a': [" +:+ nl +:+ "    1," +:+ nl +:+ "    null" +:+ nl +:+ "  ]," +:+ nl +:+ "  'b': {}" +:+ nl +:+ "}")).
Proof. vm_compute. reflexivity. Qed.

(** ** Reading back *)

Definition blank (l : list ascii) : Prop := Forall (fun a => is_ws a = true) l.

Lemma newline_blank n : blank (newline n).
Proof. constructor; [done|]. by apply Forall_replicate. Qed.

Lemma skip_ws_blank l r : blank l -> skip_ws (l ++ r) = skip_ws r.
Proof. unfold skip_ws. induction 1 as [|a l Ha _ IH]; simpl; [done|]. by rewrite Ha. Qed.

Lemma value_blank fuel d l r : blank l -> value fuel d (l ++ r) = value fuel d r.
Proof. intros Hl. destruct fuel; cbn [value]; [done|]. by rewrite skip_ws_blank. Qed.

Lemma elements_blank fuel d l r : blank l -> elements fuel d (l ++ r) = elements fuel d r.
Proof. intros Hl. destruct fuel; cbn [elements]; [done|]. by rewrite value_blank. Qed.

Lemma delim_blank l r : blank l -> delim r -> delim (l ++ r).
Proof.
  intros Hl Hr. destruct Hl as [|a l Ha _]; [done|]. destruct a as [[] [] [] [] [] [] [] []]; first [discriminate Ha | done].
Qed.

(** [x] is a text of [j]. *)
Definition reads_as (x : list ascii) (j : json) : Prop := forall d r fuel,
  json_ok d j = true -> delim r -> (2 * length x <= fuel)%nat -> value fuel d (x ++ r) = Some (j, r).

Lemma joined_cons ind x y l : joined ind (x :: y :: l) = x ++ ","%char :: ind ++ joined ind (y :: l).
Proof. done. Qed.

Lemma elements_joined ind ws xs l d r fuel :
  blank ind -> blank ws -> l <> [] -> Forall2 reads_as xs l -> forallb (json_ok d) l = true ->
  (2 * length (joined ind xs) + 1 <= fuel)%nat ->
  elements fuel d (joined ind xs ++ ws ++ "]"%char :: r) = Some (l, r).
Proof.
  intros Hi Hw Hne HF. revert fuel. induction HF as [|x j xs l Hj HF IH]; [done|].
  intros [|fuel] Hok Hf; [lia|]. simpl in Hok. bool_props. cbn [elements].
  destruct HF as [|x2 j2 xs l Hj2 HF].
  - simpl in *. rewrite Hj by (done || lia || by apply delim_blank). by rewrite skip_ws_blank.
  - rewrite joined_cons in *. rewrite <- app_assoc. rewrite length_app in Hf. cbn [length] in Hf. rewrite length_app in Hf.
    rewrite Hj by (done || lia). cbn [app]. rewrite skip_ws_id by done. cbv beta iota.
    rewrite (bool_decide_eq_true_2 (","%char = ","%char)) by done. rewrite <- app_assoc, elements_blank by done.
    rewrite IH by (done || lia). done.
Qed.

(** A member: its name, a colon, white space and a text of its value. *)
Definition member_as (x : list ascii) (kv : string * json) : Prop :=
  exists ws y, blank ws /\ x = quote kv.1 ++ ":"%char :: ws ++ y /\ reads_as y kv.2.

Lemma member_head x kv : member_as x kv -> exists t, x = dq :: t.
Proof. intros (ws & y & _ & -> & _). unfold quote. simpl. eauto. Qed.

(** A member and what the parser does with what follows it. *)
Lemma members_one x k j d tail fuel :
  member_as x (k, j) -> valid_utf8 k = true -> json_ok d j = true -> delim tail -> (2 * length x <= S fuel)%nat ->
  members (S fuel) d (x ++ tail)
  = match skip_ws tail with
    | c :: r =>
        if c == ","%char then
          match members fuel d (skip_ws r) with Some (ms, r) => Some ((k, j) :: ms, r) | None => None end
        else if c == "}"%char then Some ([(k, j)], r) else None
    | [] => None
    end.
Proof.
  intros (ws & y & Hw & -> & Hy) Hk Hj Ht Hf. unfold quote in *. simpl in Hf. rewrite !length_app in Hf. simpl in Hf.
  rewrite length_app in Hf. rewrite <- !app_assoc. cbn [app fst snd]. rewrite <- !app_assoc. cbn [app members].
  rewrite (bool_decide_eq_true_2 (dq = dq)) by done. rewrite unq_quote by done.
  rewrite skip_ws_id by done. rewrite (bool_decide_eq_true_2 (":"%char = ":"%char)) by done.
  rewrite value_blank by done. rewrite Hy by (done || lia). by rewrite text_bytes.
Qed.

Lemma members_joined ind ws xs l d r fuel :
  blank ind -> blank ws -> l <> [] -> Forall2 member_as xs l ->
  forallb (fun kv => valid_utf8 kv.1 && json_ok d kv.2) l = true ->
  (2 * length (joined ind xs) <= fuel)%nat ->
  members fuel d (joined ind xs ++ ws ++ "}"%char :: r) = Some (l, r).
Proof.
  intros Hi Hw Hne HF. revert fuel. induction HF as [|x [k j] xs l Hx HF IH]; [done|].
  intros fuel Hok Hf. simpl in Hok. bool_props. destruct (member_head _ _ Hx) as [t Et].
  destruct fuel as [|fuel].
  { destruct HF; [|rewrite joined_cons in Hf]; rewrite Et in Hf; simpl in Hf; lia. }
  destruct HF as [|x2 kj2 xs l Hx2 HF].
  - cbn [joined] in *. rewrite (members_one _ k j) by (done || lia || by apply delim_blank). by rewrite skip_ws_blank.
  - rewrite joined_cons in *. rewrite <- app_assoc. rewrite length_app in Hf. cbn [length] in Hf. rewrite length_app in Hf.
    rewrite (members_one _ k j) by (done || lia). cbn [app]. rewrite skip_ws_id by done. cbv beta iota.
    rewrite (bool_decide_eq_true_2 (","%char = ","%char)) by done. rewrite <- app_assoc, skip_ws_blank by done.
    destruct (member_head _ _ Hx2) as [t2 Et2]. rewrite skip_ws_id by (destruct xs; [|rewrite joined_cons]; by rewrite Et2).
    rewrite IH by (done || lia). done.
Qed.

Lemma pretty_start d n j : json_ok d j = true -> exists a t, pretty n j = a :: t /\ starts a.
Proof.
  intros Hok. destruct j as [|b|lit|s|[|j l]|[|kj l]]; try (by apply (print_start d)); simpl;
    (eexists _, _; split; [reflexivity|by vm_compute]).
Qed.

Lemma reads_as_print j : reads_as (print j) j.
Proof. exact (value_print j). Qed.

Lemma pretty_reads j : forall n, reads_as (pretty n j) j.
Proof.
  induction j as [|b|lit|s|l IH|l IH] using json_ind'; intros n; try apply reads_as_print; intros d r fuel Hok Hr Hf.
  - destruct l as [|j l]; [exact (reads_as_print (JArr []) d r fuel Hok Hr Hf)|].
    destruct d as [|d]; [done|]. cbn [json_ok] in Hok.
    cbn [pretty] in *. set (xs := map (pretty (S n)) (j :: l)) in *. destruct fuel as [|fuel]; [simpl in Hf; lia|].
    cbn [app value]. rewrite skip_ws_id by done. cbn iota. rewrite <- !app_assoc.
    destruct (pretty_start d (S n) j) as (a & t & Ea & [Hws Hnb]); [simpl in Hok; by bool_props|].
    assert (exists t', joined (newline (S n)) xs = a :: t') as [t' Et].
    { subst xs. cbn [map]. destruct (map (pretty (S n)) l); [|rewrite joined_cons]; rewrite Ea; eauto. }
    rewrite skip_ws_blank by apply newline_blank. rewrite Et. cbn [app]. rewrite skip_ws_id by done.
    rewrite (bool_decide_eq_false_2 (a = "]"%char)) by done. rewrite app_comm_cons, <- Et. cbn [app].
    rewrite elements_joined with (l := j :: l); [done|apply newline_blank|apply newline_blank|done| |done|].
    + subst xs. apply Forall2_fmap_l, Forall_Forall2_diag. eapply Forall_impl; [exact IH|]. intros j' Hj'. apply Hj'.
    + cbn [length] in Hf. rewrite !length_app in Hf. cbn [length] in Hf. lia.
  - destruct l as [|kj l]; [exact (reads_as_print (JObj []) d r fuel Hok Hr Hf)|].
    destruct d as [|d]; [done|]. cbn [json_ok] in Hok.
    cbn [pretty] in *. set (xs := map (fun kv => quote kv.1 ++ ":"%char :: " "%char :: pretty (S n) kv.2) (kj :: l)) in *.
    destruct fuel as [|fuel]; [simpl in Hf; lia|].
    cbn [app value]. rewrite skip_ws_id by done. cbn iota. rewrite <- !app_assoc.
    assert (exists t', joined (newline (S n)) xs = dq :: t') as [t' Et].
    { subst xs. cbn [map]. unfold quote at 1.
      destruct (map (fun kv => quote kv.1 ++ ":"%char :: " "%char :: pretty (S n) kv.2) l); [|rewrite joined_cons]; simpl; eauto. }
    rewrite skip_ws_blank by apply newline_blank. rewrite Et. cbn [app]. rewrite skip_ws_id by done.
    rewrite (bool_decide_eq_false_2 (dq = "}"%char)) by done. rewrite app_comm_cons, <- Et. cbn [app].
    rewrite members_joined with (l := kj :: l); [done|apply newline_blank|apply newline_blank|done| |done|].
    + subst xs. apply Forall2_fmap_l, Forall_Forall2_diag. eapply Forall_impl; [exact IH|]. intros [k j'] Hj'.
      exists [" "%char], (pretty (S n) j'). split; [by repeat constructor|]. split; [done|apply Hj'].
    + cbn [length] in Hf. rewrite !length_app in Hf. cbn [length] in Hf. lia.
Qed.

Lemma parse_marshalIndent j r :
  json_ok max_depth j = true -> blank r -> parse (marshalIndent j ++ r) = Some j.
Proof.
  intros Hok Hr. unfold parse, next_value, marshalIndent.
  rewrite pretty_reads; [|done| |rewrite length_app; lia].
  - pose proof (skip_ws_blank r [] Hr) as E. rewrite app_nil_r in E. by rewrite E.
  - rewrite <- (app_nil_r r). by apply delim_blank.
Qed.
