(* ===== verification/GoTime.v ===== *)
(** * Time stamps in JSON

    [time.Time] values reach the log as RFC 3339 texts with nanoseconds
    ([Time.MarshalJSON], [Time.UnmarshalJSON]).  A time is its civil fields and
    its zone offset, which is what those two functions write and read. *)

From S2P Require Import Prelude GoStrings.

Record Time := mkTime {
  t_year : Z; t_month : Z; t_day : Z; t_hour : Z; t_min : Z; t_sec : Z; t_nsec : Z; t_off : Z;
}.

#[global] Instance Time_eq_dec : EqDecision Time.
Proof. solve_decision. Defined.

(** The zero [time.Time]. *)
Definition timeZero : Time := mkTime 1 1 1 0 0 0 0 0.

Definition is_leap (y : Z) : bool := (y mod 4 =? 0) && ((y mod 100 != 0) || (y mod 400 =? 0)).
Definition days_in (m y : Z) : Z :=
  if m =? 2 then (if is_leap y then 29 else 28)
  else if (m =? 4) || (m =? 6) || (m =? 9) || (m =? 11) then 30 else 31.

(** The civil fields are in range; the offset (minutes) is less than a day. *)
Definition time_ok (t : Time) : bool :=
  (0 <=? t_year t) && (t_year t <=? 9999) && (1 <=? t_month t) && (t_month t <=? 12)
  && (1 <=? t_day t) && (t_day t <=? days_in (t_month t) (t_year t))
  && (0 <=? t_hour t) && (t_hour t <=? 23) && (0 <=? t_min t) && (t_min t <=? 59)
  && (0 <=? t_sec t) && (t_sec t <=? 59) && (0 <=? t_nsec t) && (t_nsec t <? 1000000000)
  && (-1440 <? t_off t) && (t_off t <? 1440).

(** [n] decimal digits, most significant first. *)
Fixpoint digits (n : nat) (z : Z) : list ascii :=
  match n with
  | O => []
  | S n => digits n (z / 10) ++ [byte (48 + z mod 10)]
  end.

(** Removes trailing zeros. *)
Fixpoint strip_zeros (l : list ascii) : list ascii :=
  match l with
  | [] => []
  | a :: l =>
      match strip_zeros l with
      | [] => if a == "0"%char then [] else [a]
      | l' => a :: l'
      end
  end.

(** [AppendFormat] with [RFC3339Nano]. *)
Definition time_print (t : Time) : list ascii :=
  digits 4 (t_year t) ++ "-"%char :: digits 2 (t_month t) ++ "-"%char :: digits 2 (t_day t)
  ++ "T"%char :: digits 2 (t_hour t) ++ ":"%char :: digits 2 (t_min t) ++ ":"%char :: digits 2 (t_sec t)
  ++ (if t_nsec t == 0 then [] else "."%char :: strip_zeros (digits 9 (t_nsec t)))
  ++ (if t_off t == 0 then ["Z"%char]
      else (if t_off t <? 0 then "-"%char else "+"%char)
           :: digits 2 (Z.abs (t_off t) / 60) ++ ":"%char :: digits 2 (Z.abs (t_off t) mod 60)).

(** Exactly [n] digits. *)
Fixpoint num (n : nat) (acc : Z) (l : list ascii) : option (Z * list ascii) :=
  match n, l with
  | O, _ => Some (acc, l)
  | S n, a :: l =>
      if (48 <=? code a) && (code a <=? 57) then num n (acc * 10 + (code a - 48)) l else None
  | _, [] => None
  end.

Definition char (c : ascii) (l : list ascii) : option (list ascii) :=
  match l with a :: l => if a == c then Some l else None | [] => None end.

(** The digits of a fraction: the value of the first nine, scaled to
    nanoseconds, and what follows all of them. *)
Fixpoint frac (k : nat) (acc : Z) (l : list ascii) : Z * list ascii :=
  match l with
  | a :: t =>
      if (48 <=? code a) && (code a <=? 57) then
        match k with
        | O => frac O acc t
        | S k => frac k (acc * 10 + (code a - 48)) t
        end
      else (acc * 10 ^ Z.of_nat k, l)
  | [] => (acc * 10 ^ Z.of_nat k, [])
  end.

Definition parse_frac (l : list ascii) : Z * list ascii :=
  match l with
  | a :: b :: t =>
      if (a == "."%char) && ((48 <=? code b) && (code b <=? 57)) then frac 9 0 (b :: t) else (0, l)
  | _ => (0, l)
  end.

Definition parse_zone (l : list ascii) : option Z :=
  match l with
  | [z] => if z == "Z"%char then Some 0 else None
  | s :: l =>
      if (s == "+"%char) || (s == "-"%char) then
        match num 2 0 l with
        | Some (h, l) =>
            match char ":"%char l with
            | Some l =>
                match num 2 0 l with
                | Some (m, []) =>
                    if (h <=? 23) && (m <=? 59)
                    then Some (if s == "-"%char then - (h * 60 + m) else h * 60 + m) else None
                | _ => None
                end
            | None => None
            end
        | None => None
        end
      else None
  | [] => None
  end.

(** [parseStrictRFC3339] *)
Definition time_parse (l : list ascii) : option Time :=
  '(y, l) ← num 4 0 l; l ← char "-"%char l;
  '(mo, l) ← num 2 0 l; l ← char "-"%char l;
  '(d, l) ← num 2 0 l; l ← char "T"%char l;
  '(h, l) ← num 2 0 l; l ← char ":"%char l;
  '(mi, l) ← num 2 0 l; l ← char ":"%char l;
  '(s, l) ← num 2 0 l;
  let '(ns, l) := parse_frac l in
  off ← parse_zone l;
  let t := mkTime y mo d h mi s ns off in
  if time_ok t then Some t else None.

Example time_1 :
  time_parse (bytes "2024-02-29T07:08:09.05+01:30") = Some (mkTime 2024 2 29 7 8 9 50000000 90).
Proof. vm_compute. reflexivity. Qed.
Example time_2 : text (time_print (mkTime 2024 2 29 7 8 9 50000000 90)) = "2024-02-29T07:08:09.05+01:30".
Proof. vm_compute. reflexivity. Qed.

(** ** The round trip *)

Lemma code_digit z : code (byte (48 + z mod 10)) = 48 + z mod 10.
Proof. apply code_byte. pose proof (Z.mod_pos_bound z 10). lia. Qed.

Lemma num_digits n acc z l :
  0 <= z < 10 ^ Z.of_nat n -> num n acc (digits n z ++ l) = Some (acc * 10 ^ Z.of_nat n + z, l).
Proof.
  assert (forall m k acc l z, 0 <= z < 10 ^ Z.of_nat m ->
    num (m + k) acc (digits m z ++ l) = num k (acc * 10 ^ Z.of_nat m + z) l) as H.
  { induction m as [|m IH]; intros k a l' y Hy.
    - simpl in *. f_equal. lia.
    - rewrite Nat2Z.inj_succ, Z.pow_succ_r in * by lia. cbn [digits]. rewrite <- app_assoc.
      replace (S m + k)%nat with (m + S k)%nat by lia.
      rewrite IH by (split; [apply Z.div_pos; lia|apply Z.div_lt_upper_bound; lia]).
      cbn [app num]. rewrite code_digit. pose proof (Z.mod_pos_bound y 10).
      rewrite (proj2 (Z.leb_le 48 _)), (proj2 (Z.leb_le _ 57)) by lia. simpl.
      f_equal. pose proof (Z.div_mod y 10). lia. }
  intros Hz. replace n with (n + 0)%nat at 1 by lia. by rewrite H.
Qed.

Lemma char_here c l : char c (c :: l) = Some l.
Proof. unfold char. by rewrite bool_decide_eq_true_2. Qed.

(** A list of digits as a number, and how [frac] reads a stripped list. *)
Definition is_dig (a : ascii) : Prop := 48 <= code a <= 57.
Definition stops (l : list ascii) : Prop := match l with [] => True | a :: _ => ~ is_dig a end.

Lemma digits_dig n z : Forall is_dig (digits n z).
Proof.
  revert z. induction n as [|n IH]; intros z; simpl; [constructor|].
  apply Forall_app. split; [done|]. repeat constructor; unfold is_dig; rewrite code_digit;
    pose proof (Z.mod_pos_bound z 10); lia.
Qed.

Lemma length_digits n z : length (digits n z) = n.
Proof. revert z. induction n as [|n IH]; intros z; simpl; [done|]. rewrite length_app, IH. simpl. lia. Qed.

Lemma frac_nil k acc l : stops l -> frac k acc l = (acc * 10 ^ Z.of_nat k, l).
Proof.
  destruct l as [|a l]; simpl; [done|]. intros Ha. unfold is_dig in Ha.
  destruct (Z.leb_spec 48 (code a)), (Z.leb_spec (code a) 57); simpl; try done. lia.
Qed.

Lemma frac_strip k acc l r :
  Forall is_dig l -> (length l <= k)%nat -> stops r ->
  frac k acc (strip_zeros l ++ r) = ((frac k acc (l ++ r)).1, r).
Proof.
  intros Hl. revert k acc. induction Hl as [|a l Ha Hl IH]; intros k acc Hk Hr; simpl.
  - by rewrite frac_nil.
  - destruct k as [|k]; simpl in Hk; [lia|].
    specialize (IH k (acc * 10 + (code a - 48)) ltac:(lia) Hr).
    assert ((48 <=? code a) && (code a <=? 57) = true) as E by (unfold is_dig in Ha; lia).
    rewrite E. destruct (strip_zeros l) as [|b l'] eqn:Es.
    + case_bool_decide as Hz; simpl; [|by rewrite E].
      subst a. simpl in IH. rewrite <- IH, !frac_nil by done.
      rewrite Nat2Z.inj_succ, Z.pow_succ_r by lia. replace (code "0"%char) with 48 by done. simpl. f_equal. lia.
    + cbn [app frac]. by rewrite E.
Qed.

Lemma frac_digits n k acc z r :
  0 <= z < 10 ^ Z.of_nat n -> stops r ->
  frac (n + k) acc (digits n z ++ r) = ((acc * 10 ^ Z.of_nat n + z) * 10 ^ Z.of_nat k, r).
Proof.
  assert (forall n k acc z r, 0 <= z < 10 ^ Z.of_nat n ->
    frac (n + k) acc (digits n z ++ r) = frac k (acc * 10 ^ Z.of_nat n + z) r) as H.
  { clear. induction n as [|n IH]; intros k acc z r Hz.
    - simpl in *. f_equal. lia.
    - rewrite Nat2Z.inj_succ, Z.pow_succ_r in * by lia. cbn [digits]. rewrite <- app_assoc.
      replace (S n + k)%nat with (n + S k)%nat by lia.
      rewrite IH by (split; [apply Z.div_pos; lia|apply Z.div_lt_upper_bound; lia]).
      cbn [app frac]. rewrite code_digit. pose proof (Z.mod_pos_bound z 10).
      rewrite (proj2 (Z.leb_le 48 _)), (proj2 (Z.leb_le _ 57)) by lia. simpl.
      f_equal. pose proof (Z.div_mod z 10). lia. }
  intros Hz Hr. by rewrite H, frac_nil.
Qed.

Lemma strip_zeros_nonzero l : Forall is_dig l -> strip_zeros l <> [] \/ forall r k acc, (length l <= k)%nat -> stops r ->
  (frac k acc (l ++ r)).1 = acc * 10 ^ Z.of_nat k.
Proof.
  induction 1 as [|a l Ha Hl IH]; simpl; [right; intros; by rewrite frac_nil|].
  destruct (strip_zeros l) eqn:Es; [|by left]. case_bool_decide as Hz; [|by left].
  right. intros r [|k] acc Hk Hr; [lia|]. subst a. simpl.
  destruct IH as [|IH]; [done|]. rewrite IH by (done || lia).
  replace (code "0"%char) with 48 by done. rewrite Nat2Z.inj_succ, Z.pow_succ_r by lia. lia.
Qed.

Lemma strip_zeros_dig l : Forall is_dig l -> Forall is_dig (strip_zeros l).
Proof.
  induction 1 as [|a l Ha Hl IH]; simpl; [constructor|].
  destruct (strip_zeros l); [case_bool_decide; auto|]. by constructor.
Qed.

Lemma parse_frac_print ns r :
  0 <= ns < 10 ^ 9 -> stops r -> match r with a :: _ => a <> "."%char | [] => True end ->
  parse_frac ((if ns == 0 then [] else "."%char :: strip_zeros (digits 9 ns)) ++ r) = (ns, r).
Proof.
  intros Hns Hr Hdot. case_bool_decide as E.
  - subst. destruct r as [|a [|b r]]; try done. unfold parse_frac. simpl.
    by rewrite (bool_decide_eq_false_2 (a = _)).
  - pose proof (digits_dig 9 ns) as Hd. pose proof (length_digits 9 ns) as Hlen.
    pose proof (frac_digits 9 0 0 ns r ltac:(simpl Z.of_nat; lia) Hr) as Hv. rewrite Nat.add_0_r in Hv.
    assert (frac 9 0 (strip_zeros (digits 9 ns) ++ r) = (ns, r)) as Hf.
    { rewrite frac_strip by (done || lia). rewrite Hv. simpl. f_equal. lia. }
    pose proof (strip_zeros_dig _ Hd) as Hs.
    destruct (strip_zeros_nonzero _ Hd) as [Hne|Hz].
    + destruct (strip_zeros (digits 9 ns)) as [|b t] eqn:Es; [done|]. inversion_clear Hs as [|? ? Hb _].
      unfold parse_frac. cbn [app]. rewrite bool_decide_eq_true_2 by done. unfold is_dig in Hb.
      rewrite (proj2 (Z.leb_le 48 _)), (proj2 (Z.leb_le _ 57)) by lia. done.
    + specialize (Hz r 9%nat 0 ltac:(lia) Hr). rewrite Hv in Hz. simpl in Hz. lia.
Qed.

#[local] Ltac not_dig := intros [Hlo Hhi]; vm_compute in Hlo, Hhi; congruence.

Lemma parse_zone_print off :
  -1440 < off < 1440 ->
  let z := if off == 0 then ["Z"%char]
      else (if off <? 0 then "-"%char else "+"%char)
           :: digits 2 (Z.abs off / 60) ++ ":"%char :: digits 2 (Z.abs off mod 60) in
  parse_zone z = Some off
  /\ stops z /\ match z with a :: _ => a <> "."%char | [] => True end.
Proof.
  intros Ho z. subst z. case_bool_decide as E; [subst; split_and!; [done|not_dig|done]|].
  pose proof (Z.mod_pos_bound (Z.abs off) 60). pose proof (Z.div_mod (Z.abs off) 60).
  assert (0 <= Z.abs off / 60 <= 23)
    by (split; [apply Z.div_pos; lia|apply Z.lt_succ_r, Z.div_lt_upper_bound; lia]).
  split.
  - unfold parse_zone. rewrite num_digits by (simpl; lia). rewrite char_here.
    rewrite <- (app_nil_r (digits 2 (Z.abs off mod 60))), num_digits by (simpl; lia).
    simpl (0 * _ + _). rewrite (proj2 (Z.leb_le _ 23)), (proj2 (Z.leb_le _ 59)) by lia.
    destruct (Z.ltb_spec off 0); simpl; f_equal; lia.
  - destruct (Z.ltb_spec off 0); split; try done; not_dig.
Qed.

(** The time stamp of a record is read back as it was written. *)
Lemma time_parse_print t : time_ok t = true -> time_parse (time_print t) = Some t.
Proof.
  intros Hok. pose proof Hok as H. unfold time_ok in H. bool_props.
  assert (days_in (t_month t) (t_year t) <= 31) by (unfold days_in; repeat case_match; lia).
  destruct (parse_zone_print (t_off t) ltac:(lia)) as (Hz & Hs & Hd). cbv zeta in Hz, Hs, Hd.
  unfold time_parse, time_print.
  repeat (rewrite <- ?app_assoc; cbn [app]; rewrite num_digits by (simpl; lia); cbn [mbind option_bind]; 
    rewrite ?char_here; cbn [mbind option_bind]).
  rewrite parse_frac_print by (done || lia). rewrite Hz. cbn [mbind option_bind].
  rewrite !Z.mul_0_l, !Z.add_0_l. destruct t; simpl in *. by rewrite Hok.
Qed.

(** The text of a time stamp is ASCII. *)
Lemma time_print_ascii t : Forall (fun a => code a < 128) (time_print t).
Proof.
  assert (forall l, Forall is_dig l -> Forall (fun a => code a < 128) l) as Hd.
  { intros l Hl. eapply Forall_impl; [exact Hl|]. unfold is_dig. lia. }
  unfold time_print.
  destruct (t_nsec t == 0), (t_off t == 0), (t_off t <? 0);
    repeat first [apply Hd, digits_dig | apply Hd, strip_zeros_dig, digits_dig
      | apply Forall_app_2 | apply Forall_cons_2 | apply Forall_nil_2 | reflexivity].
Qed.
