(* ===== verification/GoJson.v ===== *)
(** * Go values and JSON

    The dynamically typed values the agent puts in an event ([map[string]any]
    and what it holds), their encoding by [json.Marshal] (map keys sorted,
    struct fields in declaration order) and their decoding by [json.Unmarshal]
    into [any] (objects become maps, numbers become [float64]).  [stable] says
    which values are encoded to the same text again after a decode; the event
    hash chain depends on it. *)

From S2P Require Import Prelude GoStrings Json.
#[local] Set Warnings "-register-all".

(** ** String order *)

Fixpoint slt (s t : string) : bool :=
  match s, t with
  | "", "" => false
  | "", _ => true
  | _, "" => false
  | String a s, String b t =>
      if code a <? code b then true else if code b <? code a then false else slt s t
  end.

Lemma slt_irrefl s : slt s s = false.
Proof. induction s; simpl; [done|]. by rewrite Z.ltb_irrefl. Qed.

Lemma slt_trans s t u : slt s t = true -> slt t u = true -> slt s u = true.
Proof.
  revert t u. induction s as [|a s IH]; intros [|b t] [|c u]; simpl; try done.
  repeat case_match; bool_props; try done; try lia. by apply IH.
Qed.

Lemma slt_total s t : slt s t = false -> slt t s = false -> s = t.
Proof.
  revert t. induction s as [|a s IH]; intros [|b t]; simpl; try done.
  repeat case_match; bool_props; try done. intros. f_equal; [apply code_inj; lia|auto].
Qed.

(** ** Maps *)

Section Members.
Context {A : Type}.
Implicit Types l : list (string * A).

(** The members of a map in the order [Marshal] writes them. *)
Definition msort l : list (string * A) := sort_stable (fun x y => slt x.1 y.1) l.

Definition key_sorted l : Prop := StronglySorted (fun x y => slt x.1 y.1 = true) l.

Lemma msort_perm l : msort l ≡ₚ l.
Proof. apply sort_stable_perm. Qed.

Lemma insert_key_sorted x l :
  key_sorted l -> x.1 ∉ map fst l -> key_sorted (insert_stable (fun x y => slt x.1 y.1) x l).
Proof.
  induction 1 as [|y l Hs IH HF]; simpl; intros Hx; [repeat constructor|].
  rewrite not_elem_of_cons in Hx. destruct Hx as [Hxy Hx]. destruct (slt y.1 x.1) eqn:E.
  - constructor; [by apply IH|]. rewrite insert_stable_perm. by constructor.
  - assert (slt x.1 y.1 = true) as E2.
    { destruct (slt x.1 y.1) eqn:E2; [done|]. by apply slt_total in E2. }
    constructor; [by constructor|]. constructor; [done|].
    eapply Forall_impl; [exact HF|]. intros z. by apply slt_trans.
Qed.

Lemma msort_sorted l : NoDup (map fst l) -> key_sorted (msort l).
Proof.
  induction l as [|x l IH]; simpl; [constructor|]. intros [Hx Hl]%NoDup_cons.
  apply insert_key_sorted; [by apply IH|]. by rewrite (Permutation_map fst (msort_perm l)).
Qed.

Lemma msort_id l : key_sorted l -> msort l = l.
Proof.
  induction 1 as [|x l Hs IH HF]; simpl; [done|]. unfold msort in *. simpl. rewrite IH.
  destruct HF as [|y l Hy _]; [done|]. simpl.
  destruct (slt y.1 x.1) eqn:E; [|done]. exfalso.
  pose proof (slt_trans _ _ _ E Hy) as C. by rewrite slt_irrefl in C.
Qed.

Lemma key_sorted_nodup l : key_sorted l -> NoDup (map fst l).
Proof.
  induction 1 as [|x l Hs IH HF]; simpl; constructor; [|done].
  rewrite list_elem_of_fmap. intros (y & E & Hy). rewrite Forall_forall in HF. specialize (HF y Hy).
  rewrite E, slt_irrefl in HF. done.
Qed.

(** [m[k] = v] on the member list. *)
Fixpoint put (k : string) (v : A) (l : list (string * A)) : list (string * A) :=
  match l with
  | [] => [(k, v)]
  | kv :: l => if kv.1 == k then (k, v) :: l else kv :: put k v l
  end.

(** The map after the members of an object were stored one after the other. *)
Definition put_all (l m : list (string * A)) : list (string * A) :=
  foldl (fun m kv => put kv.1 kv.2 m) m l.

Lemma put_fresh k v l : k ∉ map fst l -> put k v l = l ++ [(k, v)].
Proof.
  induction l as [|x l IH]; simpl; [done|]. intros [Hx Hl]%not_elem_of_cons.
  rewrite bool_decide_eq_false_2 by congruence. by rewrite IH.
Qed.

Lemma put_all_nodup l m : NoDup (map fst (m ++ l)) -> put_all l m = m ++ l.
Proof.
  revert m. induction l as [|[k v] l IH]; intros m Hnd; simpl; [by rewrite app_nil_r|].
  rewrite put_fresh.
  - unfold put_all in *. rewrite IH by (by rewrite <- app_assoc). by rewrite <- app_assoc.
  - rewrite map_app in Hnd. simpl in Hnd. apply NoDup_app in Hnd as (_ & Hd & _). intros Hk.
    apply (Hd k Hk). by left.
Qed.

Lemma put_keys k v l x : x ∈ map fst (put k v l) -> x = k \/ x ∈ map fst l.
Proof. induction l as [|y l IH]; simpl; [set_solver|]. case_bool_decide; set_solver. Qed.

Lemma put_nodup k v l : NoDup (map fst l) -> NoDup (map fst (put k v l)).
Proof.
  induction l as [|y l IH]; simpl; [intros; apply NoDup_singleton|]. intros [Hy Hnd]%NoDup_cons.
  case_bool_decide as E; simpl; constructor; subst; auto. intros [|]%put_keys; done.
Qed.

Lemma put_all_keys l m : NoDup (map fst m) -> NoDup (map fst (put_all l m)).
Proof.
  revert m. induction l as [|[k v] l IH]; intros m Hnd; simpl; [done|]. by apply IH, put_nodup.
Qed.

End Members.

(** ** Values *)

Inductive gval :=
| GNil
| GBool (b : bool)
| GInt (z : Z)
| GFloat (lit : string)     (** a [float64], as the text [Marshal] writes for it *)
| GStr (s : string)
| GSlice (l : list gval)
| GMap (l : list (string * gval))      (** a map; the keys are distinct *)
| GStruct (l : list (string * gval)).  (** the encoded fields, in declaration order *)

(** The [float64] of a literal that is not a small integer, as the text
    [Marshal] writes for it ([strconv.ParseFloat] and the shortest form);
    [None] when it is out of range. *)
Class FloatText := { float_text : string -> option string }.

(** Integers up to [2 ^ 53] are exact and are written in full. *)
Definition small_int (lit : string) : bool :=
  match atoi lit with
  | (z, None) => (Z.abs z <=? 2 ^ 53) && (itoa z == lit)
  | _ => false
  end.

Definition float_canon `{FloatText} (lit : string) : option string :=
  if small_int lit then Some lit else float_text lit.

Fixpoint marshal (v : gval) : json :=
  match v with
  | GNil => JNull
  | GBool b => JBool b
  | GInt z => JNum (itoa z)
  | GFloat lit => JNum lit
  | GStr s => JStr s
  | GSlice l => JArr (map marshal l)
  | GMap l => JObj (msort (map (fun kv => (kv.1, marshal kv.2)) l))
  | GStruct l => JObj (map (fun kv => (kv.1, marshal kv.2)) l)
  end.

(** [Unmarshal] into an [any]. *)
Fixpoint decode `{FloatText} (j : json) : option gval :=
  match j with
  | JNull => Some GNil
  | JBool b => Some (GBool b)
  | JNum lit => GFloat <$> float_canon lit
  | JStr s => Some (GStr s)
  | JArr l => GSlice <$> mapM decode l
  | JObj l => (fun l => GMap (put_all l [])) <$> mapM (fun kv => pair kv.1 <$> decode kv.2) l
  end.

Lemma gval_ind' (P : gval -> Prop) :
  P GNil -> (forall b, P (GBool b)) -> (forall z, P (GInt z)) -> (forall s, P (GFloat s)) ->
  (forall s, P (GStr s)) -> (forall l, Forall P l -> P (GSlice l)) ->
  (forall l, Forall (fun kv => P kv.2) l -> P (GMap l)) ->
  (forall l, Forall (fun kv => P kv.2) l -> P (GStruct l)) -> forall v, P v.
Proof.
  intros H1 H2 H3 H4 H5 H6 H7 H8. fix IH 1.
  intros [| | | | |l|l|l]; [done|apply H2|apply H3|apply H4|apply H5|apply H6|apply H7|apply H8];
    (induction l; constructor; [apply IH|done]).
Qed.

(** ** Stable values *)

(** Strictly increasing keys. *)
Fixpoint in_order (ks : list string) : bool :=
  match ks with
  | a :: ((b :: _) as t) => slt a b && in_order t
  | _ => true
  end.

(** Values of at most [d] levels whose text survives a decode: valid UTF-8,
    numbers a [float64] holds, distinct keys, and structs whose fields are
    declared in key order. *)
Fixpoint stable `{FloatText} (d : nat) (v : gval) {struct v} : bool :=
  match v with
  | GNil | GBool _ => true
  | GInt z => Z.abs z <=? 2 ^ 53
  | GFloat lit => (number (bytes lit) == Some (bytes lit, [])) && (float_canon lit == Some lit)
  | GStr s => valid_utf8 s
  | GSlice l => match d with O => false | S d => forallb (stable d) l end
  | GMap l =>
      match d with
      | O => false
      | S d => bool_decide (NoDup (map fst l)) && forallb (fun kv => valid_utf8 kv.1 && stable d kv.2) l
      end
  | GStruct l =>
      match d with
      | O => false
      | S d => in_order (map fst l) && forallb (fun kv => valid_utf8 kv.1 && stable d kv.2) l
      end
  end.

Lemma in_order_sorted {A} (l : list (string * A)) : in_order (map fst l) = true -> key_sorted l.
Proof.
  intros Ho. apply Sorted_StronglySorted; [intros x y z; apply slt_trans|].
  induction l as [|x [|y l] IH]; [constructor|by repeat constructor|]. simpl in Ho. bool_props.
  constructor; [by apply IH|]. by constructor.
Qed.

Lemma forallb_Forall {A} (f : A -> bool) l : forallb f l = true <-> Forall (fun x => f x = true) l.
Proof.
  induction l as [|x l IH]; simpl; [split; [constructor|done]|].
  rewrite andb_true_iff, IH, Forall_cons. done.
Qed.

Lemma digit_char_is_digit a : digit_char a = is_digit a.
Proof. done. Qed.

Lemma span_all l : forallb digit_char l = true -> span is_digit l = (l, []).
Proof.
  induction l as [|a l IH]; simpl; [done|]. intros Hl. bool_props. rewrite digit_char_is_digit in *.
  rewrite H, IH by done. done.
Qed.

Lemma number_itoa z : number (bytes (itoa z)) = Some (bytes (itoa z), []).
Proof.
  unfold itoa. rewrite bytes_text.
  assert (forall y, 0 <= y -> num_int (udec y) = Some (udec y, []) /\ exists a t, udec y = a :: t /\ a <> "-"%char) as Hu.
  { intros y Hy. destruct (udec_aux_head _ _ (udec_fuel y Hy)) as (Hd & a & t & E & H0).
    unfold udec. rewrite E in *. split.
    - unfold num_int. case_bool_decide as Ea; [by rewrite H0|]. unfold digits1. by rewrite span_all.
    - exists a, t. split; [done|]. intros ->. simpl in Hd. bool_props. done. }
  destruct (Z.ltb_spec z 0).
  - destruct (Hu (- z) ltac:(lia)) as [Hi _]. unfold number. cbn [num_sign].
    rewrite bool_decide_eq_true_2 by done. rewrite Hi. simpl. by rewrite app_nil_r.
  - destruct (Hu z ltac:(lia)) as (Hi & a & t & E & Ha). unfold number. rewrite E in *. cbn [num_sign].
    rewrite bool_decide_eq_false_2 by done. rewrite Hi. simpl. by rewrite app_nil_r.
Qed.

Lemma small_int_itoa z : Z.abs z <= 2 ^ 53 -> small_int (itoa z) = true.
Proof.
  intros Hz. unfold small_int. rewrite atoi_itoa by lia.
  rewrite (proj2 (Z.leb_le _ (2 ^ 53))), bool_decide_eq_true_2 by done. done.
Qed.

Section Stable.
Context `{FloatText}.

(** [j] decodes to a value that is encoded as [j] again. *)
Definition again (j : json) : Prop := exists v, decode j = Some v /\ marshal v = j.

Lemma again_elements js :
  Forall again js -> exists vs, mapM decode js = Some vs /\ map marshal vs = js.
Proof.
  induction 1 as [|j js (v & Hv & Ej) _ (vs & Hvs & E)]; [by exists []|].
  exists (v :: vs). simpl. rewrite Hv. simpl. rewrite Hvs. simpl. by rewrite Ej, E.
Qed.

Lemma again_members ms :
  Forall (fun kv => again kv.2) ms ->
  exists vs, mapM (fun kv : string * json => pair kv.1 <$> decode kv.2) ms = Some vs
    /\ map (fun kv => (kv.1, marshal kv.2)) vs = ms.
Proof.
  induction 1 as [|[k j] ms (v & Hv & Ej) _ (vs & Hvs & E)]; [by exists []|].
  exists ((k, v) :: vs). simpl in *. rewrite Hv. simpl. rewrite Hvs. simpl. by rewrite Ej, E.
Qed.

Lemma again_object ms :
  Forall (fun kv => again kv.2) ms -> key_sorted ms -> again (JObj ms).
Proof.
  intros Hms Hs. destruct (again_members ms Hms) as (vs & Hvs & E).
  exists (GMap vs). simpl. rewrite Hvs, E, msort_id by done. split; [|done]. simpl. do 2 f_equal.
  apply (put_all_nodup vs []). simpl.
  replace (map fst vs) with (map fst ms); [by apply key_sorted_nodup|]. by rewrite <- E, map_map.
Qed.

(** The text of a stable value is a well-formed tree that decodes to a value
    with the same text. *)
Lemma marshal_stable v d : stable d v = true -> json_ok d (marshal v) = true /\ again (marshal v).
Proof.
  revert d. induction v as [|b|z|lit|s|l IH|l IH|l IH] using gval_ind'; intros d Hs; simpl in Hs.
  - split; [done|by exists GNil].
  - split; [done|by exists (GBool b)].
  - bool_props. split; simpl; [by rewrite number_itoa, bool_decide_eq_true_2|].
    exists (GFloat (itoa z)). simpl. unfold float_canon. by rewrite small_int_itoa.
  - bool_props. split; simpl; [by apply bool_decide_eq_true|]. exists (GFloat lit). simpl. by rewrite H1.
  - split; [done|by exists (GStr s)].
  - destruct d as [|d]; [done|]. rewrite forallb_Forall in Hs. simpl. rewrite forallb_Forall.
    assert (Forall (fun v => json_ok d (marshal v) = true /\ again (marshal v)) l) as Ha.
    { eapply Forall_impl; [apply (proj2 (Forall_and _ _) (conj IH Hs))|]. intros v [Hv1 Hv2]. auto. }
    apply Forall_and in Ha as [H1 H2]. split; [by rewrite Forall_map|].
    destruct (again_elements (map marshal l)) as (vs & Hvs & E); [by rewrite Forall_map|].
    exists (GSlice vs). simpl. by rewrite Hvs, E.
  - destruct d as [|d]; [done|]. bool_props. rewrite forallb_Forall in H1.
    assert (Forall (fun kv => valid_utf8 kv.1 && json_ok d kv.2 = true /\ again kv.2)
      (msort (map (fun kv => (kv.1, marshal kv.2)) l))) as Ha.
    { rewrite msort_perm, Forall_map. eapply Forall_impl; [apply (proj2 (Forall_and _ _) (conj IH H1))|].
      intros v [Hv1 Hv2]. simpl. bool_props. rewrite H2. by apply Hv1. }
    apply Forall_and in Ha as [Ha1 Ha2]. split; [simpl; by rewrite forallb_Forall|].
    apply again_object; [done|]. apply msort_sorted. by rewrite map_map.
  - destruct d as [|d]; [done|]. bool_props. rewrite forallb_Forall in H1.
    assert (Forall (fun kv => valid_utf8 kv.1 && json_ok d kv.2 = true /\ again kv.2)
      (map (fun kv => (kv.1, marshal kv.2)) l)) as Ha.
    { rewrite Forall_map. eapply Forall_impl; [apply (proj2 (Forall_and _ _) (conj IH H1))|].
      intros v [Hv1 Hv2]. simpl. bool_props. rewrite H2. by apply Hv1. }
    apply Forall_and in Ha as [Ha1 Ha2]. split; [simpl; by rewrite forallb_Forall|].
    apply again_object; [done|]. apply in_order_sorted. by rewrite map_map.
Qed.

End Stable.
