(* ===== verification/EventLog.v ===== *)
(** * The event log and its hash chain
    ([internal/eventlog/event.go], [internal/eventlog/integrity.go])

    Records, their JSON form, the chain writer ([Seal], state file, recovery),
    the logger with its rotation, and the verifier.  Files are a map from path
    to content; what the operating system can refuse during a call is an
    explicit argument ([faults]).  [time.Now], the random chain id and the host
    name are arguments.  Error texts ([Detail]) and the [OnError] callback,
    which only reports, are not modelled.  Inside a JSON text an escaped time
    stamp, which [Time.UnmarshalJSON] refuses, is accepted here. *)

From S2P Require Import Prelude GoStrings Json GoJson GoTime Crypto.

(** ** Decoding into structs *)

Section Fields.
Context {FT : FloatText} {UC : GoUnicode}.

(** The struct field a key is stored to: an exact match first, else a match
    under case folding. *)
Definition field_of (names : list string) (k : string) : option string :=
  if bool_decide (k ∈ names) then Some k else List.find (equalFold k) names.

(** A field after all members of the object were decoded, in order. *)
Definition get_field {A} (set : A -> json -> option A) (names : list string) (name : string)
    (init : A) (ms : list (string * json)) : option A :=
  foldl (fun acc kv => if field_of names kv.1 == Some name then acc ≫= fun a => set a kv.2 else acc)
    (Some init) ms.

Definition set_string (old : string) (j : json) : option string :=
  match j with JStr s => Some s | JNull => Some old | _ => None end.

Definition set_bool (old : bool) (j : json) : option bool :=
  match j with JBool b => Some b | JNull => Some old | _ => None end.

Definition set_uint64 (old : Z) (j : json) : option Z :=
  match j with
  | JNum lit => match parseUint 10 64 lit with (z, None) => Some z | _ => None end
  | JNull => Some old
  | _ => None
  end.

(** An [int] or [int64] field. *)
Definition set_int (old : Z) (j : json) : option Z :=
  match j with
  | JNum lit => match parseInt 10 64 lit with (z, None) => Some z | _ => None end
  | JNull => Some old
  | _ => None
  end.

Definition set_time (old : Time) (j : json) : option Time :=
  match j with JStr s => time_parse (bytes s) | JNull => Some old | _ => None end.

(** A [map[string]any]: the members are added to the map that is there. *)
Definition set_map (old : list (string * gval)) (j : json) : option (list (string * gval)) :=
  match j with
  | JObj ms => (fun l => put_all l old) <$> mapM (fun kv : string * json => pair kv.1 <$> decode kv.2) ms
  | JNull => Some []
  | _ => None
  end.

End Fields.

(** The fields of a struct in declaration order: whether the field is written
    ([omitempty] leaves out empty ones), its name and its value. *)
Definition piece : Type := bool * string * json.
Definition members_of (ps : list piece) : list (string * json) :=
  concat (map (fun '(c, name, j) => if (c : bool) then [(name, j)] else []) ps).

(** ** Events *)

Definition SchemaVersion : string := "v0.15".
Definition IntegrityVersion : string := "v0.15".

Record Event := mkEvent {
  e_SchemaVersion : string; e_IntegrityVersion : string; e_ChainID : string; e_Seq : Z;
  e_PrevHash : string; e_Hash : string; e_HMAC : string; e_Timestamp : Time; e_EventID : string;
  e_Host : string; e_Category : string; e_Severity : string; e_Subject : list (string * gval);
  e_Object : list (string * gval); e_Action : string; e_Decision : string; e_RuleID : string;
  e_Evidence : list (string * gval);
}.

Definition zeroEvent : Event :=
  mkEvent "" "" "" 0 "" "" "" timeZero "" "" "" "" [] [] "" "" "" [].

Definition event_names : list string :=
  ["schema_version"; "integrity_version"; "chain_id"; "seq"; "prev_hash"; "hash"; "hmac"; "timestamp";
   "event_id"; "host"; "category"; "severity"; "subject"; "object"; "action"; "decision"; "rule_id"; "evidence"].

Definition nonempty (s : string) : bool := s != "".
Definition present {A} (l : list A) : bool := match l with [] => false | _ => true end.

Definition event_pieces (e : Event) : list piece :=
  [(true, "schema_version", JStr e.(e_SchemaVersion));
   (nonempty e.(e_IntegrityVersion), "integrity_version", JStr e.(e_IntegrityVersion));
   (nonempty e.(e_ChainID), "chain_id", JStr e.(e_ChainID));
   (e.(e_Seq) != 0, "seq", JNum (itoa e.(e_Seq)));
   (nonempty e.(e_PrevHash), "prev_hash", JStr e.(e_PrevHash));
   (nonempty e.(e_Hash), "hash", JStr e.(e_Hash));
   (nonempty e.(e_HMAC), "hmac", JStr e.(e_HMAC));
   (true, "timestamp", JStr (text (time_print e.(e_Timestamp))));
   (true, "event_id", JStr e.(e_EventID));
   (true, "host", JStr e.(e_Host));
   (true, "category", JStr e.(e_Category));
   (true, "severity", JStr e.(e_Severity));
   (present e.(e_Subject), "subject", marshal (GMap e.(e_Subject)));
   (present e.(e_Object), "object", marshal (GMap e.(e_Object)));
   (true, "action", JStr e.(e_Action));
   (true, "decision", JStr e.(e_Decision));
   (nonempty e.(e_RuleID), "rule_id", JStr e.(e_RuleID));
   (present e.(e_Evidence), "evidence", marshal (GMap e.(e_Evidence)))].

Definition event_members (e : Event) : list (string * json) := members_of (event_pieces e).

(** [json.Marshal] of an event. *)
Definition event_text (e : Event) : list ascii := print (JObj (event_members e)).

(** [json.Unmarshal] into an event, from the tree. *)
Definition event_decode `{FloatText} `{GoUnicode} (j : json) : option Event :=
  match j with
  | JObj ms =>
      let str name := get_field set_string event_names name "" ms in
      let map_ name := get_field set_map event_names name [] ms in
      sv ← str "schema_version"; iv ← str "integrity_version"; ci ← str "chain_id";
      sq ← get_field set_uint64 event_names "seq" 0 ms; ph ← str "prev_hash"; h ← str "hash"; hm ← str "hmac";
      ts ← get_field set_time event_names "timestamp" timeZero ms; id ← str "event_id"; ho ← str "host";
      ca ← str "category"; se ← str "severity"; su ← map_ "subject"; ob ← map_ "object"; ac ← str "action";
      de ← str "decision"; ru ← str "rule_id"; ev ← map_ "evidence";
      Some (mkEvent sv iv ci sq ph h hm ts id ho ca se su ob ac de ru ev)
  | JNull => Some zeroEvent
  | _ => None
  end.

Definition event_unmarshal `{FloatText} `{GoUnicode} (l : list ascii) : option Event :=
  parse l ≫= event_decode.

(** Field updates. *)
Definition set_head (e : Event) (iv ci : string) (sq : Z) (ph : string) : Event :=
  mkEvent e.(e_SchemaVersion) iv ci sq ph e.(e_Hash) e.(e_HMAC) e.(e_Timestamp) e.(e_EventID) e.(e_Host)
    e.(e_Category) e.(e_Severity) e.(e_Subject) e.(e_Object) e.(e_Action) e.(e_Decision) e.(e_RuleID) e.(e_Evidence).

Definition set_digests (e : Event) (h hm : string) : Event :=
  mkEvent e.(e_SchemaVersion) e.(e_IntegrityVersion) e.(e_ChainID) e.(e_Seq) e.(e_PrevHash) h hm e.(e_Timestamp)
    e.(e_EventID) e.(e_Host) e.(e_Category) e.(e_Severity) e.(e_Subject) e.(e_Object) e.(e_Action) e.(e_Decision)
    e.(e_RuleID) e.(e_Evidence).

Definition set_defaults (e : Event) (sv : string) (ts : Time) (ho : string) : Event :=
  mkEvent sv e.(e_IntegrityVersion) e.(e_ChainID) e.(e_Seq) e.(e_PrevHash) e.(e_Hash) e.(e_HMAC) ts
    e.(e_EventID) ho e.(e_Category) e.(e_Severity) e.(e_Subject) e.(e_Object) e.(e_Action) e.(e_Decision)
    e.(e_RuleID) e.(e_Evidence).

Definition stripIntegrity (e : Event) : Event := set_digests e "" "".
Definition stripHash (e : Event) : Event := set_digests e "" "".

Definition chainEventBytes (e : Event) : list ascii := event_text (stripIntegrity e).

(** ** The chain writer *)

Record ChainState := mkChainState {
  ChainID : string; LastSeq : Z; LastHash : string; LastHMAC : string;
  Algorithm : string; LegacyAck : bool; HasHMACKey : bool;
}.

Definition zeroState : ChainState := mkChainState "" 0 "" "" "" false false.

Definition state_names : list string :=
  ["chain_id"; "last_seq"; "last_hash"; "last_hmac"; "algorithm"; "legacy_acked"; "has_hmac_key"].

Definition state_pieces (s : ChainState) : list piece :=
  [(true, "chain_id", JStr s.(ChainID));
   (true, "last_seq", JNum (itoa s.(LastSeq)));
   (true, "last_hash", JStr s.(LastHash));
   (nonempty s.(LastHMAC), "last_hmac", JStr s.(LastHMAC));
   (true, "algorithm", JStr s.(Algorithm));
   (true, "legacy_acked", JBool s.(LegacyAck));
   (s.(HasHMACKey), "has_hmac_key", JBool s.(HasHMACKey))].

Definition state_members (s : ChainState) : list (string * json) := members_of (state_pieces s).

Definition state_decode `{GoUnicode} (j : json) : option ChainState :=
  match j with
  | JObj ms =>
      let str name := get_field set_string state_names name "" ms in
      ci ← str "chain_id"; sq ← get_field set_uint64 state_names "last_seq" 0 ms; h ← str "last_hash";
      hm ← str "last_hmac"; al ← str "algorithm"; la ← get_field set_bool state_names "legacy_acked" false ms;
      hk ← get_field set_bool state_names "has_hmac_key" false ms;
      Some (mkChainState ci sq h hm al la hk)
  | JNull => Some zeroState
  | _ => None
  end.

Abbreviation files := (gmap string (list ascii)).

(** [loadState]: a missing or empty file is an empty state; [None] is an error. *)
Definition loadState `{GoUnicode} (fs : files) (path : string) : option ChainState :=
  match fs !! path with
  | None | Some [] => Some zeroState
  | Some b => parse b ≫= state_decode
  end.

(** [saveState], when the operating system does not refuse. *)
Definition saveState (fs : files) (path : string) (s : ChainState) : files :=
  <[path := print (JObj (state_members s))]> fs.

Fixpoint parentDir_rev (l : list ascii) : option (list ascii) :=
  match l with [] => None | a :: l => if a == "/"%char then Some l else parentDir_rev l end.
Definition parentDir (p : string) : string :=
  match parentDir_rev (rev (bytes p)) with Some l => text (rev l) | None => "." end.

Definition newHasher (algo : string) : bool := (algo == "") || (algo == "sha256").

Section Chain.
Context {DG : Digest} {FT : FloatText} {UC : GoUnicode}.

(** The digest that links an event to its predecessor. *)
Definition recomputeHash (e : Event) (prevHash : string) : string :=
  hexEncode (sum256 (bytes prevHash ++ chainEventBytes e)).

Definition macOf (key : list ascii) (digest : string) : string := hexEncode (hmac256 key (bytes digest)).

(** [newChainID] over the sixteen random bytes, when they could be read. *)
Definition newChainID (random : option (list ascii)) : string :=
  match random with None => "edr-chain-fallback" | Some b => ("edr-" +:+ hexEncode b)%string end.

(** [sealChain]: [None] is the unsupported-algorithm error; otherwise the bytes
    to write, the next state and the completed event.  [freshID] is what
    [newChainID] returns. *)
Definition sealChain (state : ChainState) (e : Event) (key : list ascii) (algo freshID : string)
    : option (list ascii * ChainState * Event) :=
  if negb (newHasher algo) then None
  else
    let chain := if state.(ChainID) == "" then freshID else state.(ChainID) in
    let alg := if state.(Algorithm) == "" then algo else state.(Algorithm) in
    let seq := wrapu 64 (state.(LastSeq) + 1) in
    let e := set_head e IntegrityVersion chain seq state.(LastHash) in
    let digest := hexEncode (sum256 (bytes state.(LastHash) ++ chainEventBytes e)) in
    let keyed := present key in
    let mac := if keyed then macOf key digest else e.(e_HMAC) in
    let e := set_digests e digest mac in
    Some (event_text e ++ [byte 10],
          mkChainState chain seq digest (if keyed then mac else state.(LastHMAC)) alg state.(LegacyAck)
            (keyed || state.(HasHMACKey)),
          e).

Record chainWriter := mkChainWriter {
  cw_enabled : bool; cw_key : list ascii; cw_algo : string; cw_state : ChainState; cw_statePth : string;
}.

Record IntegrityOptions := mkIntegrityOptions {
  EnableChain : bool; io_Algorithm : string; io_Key : list ascii; io_StatePath : string;
}.

Definition algorithm (o : IntegrityOptions) : string :=
  if o.(io_Algorithm) == "" then "sha256" else o.(io_Algorithm).
Definition statePathFor (o : IntegrityOptions) (eventPath : string) : string :=
  if o.(io_StatePath) != "" then o.(io_StatePath) else (eventPath +:+ ".state")%string.

(** *** The files of a log *)

(** The names in a directory. *)
Definition entry_name (dir k : string) : option string :=
  let rest := if dir == "." then Some k
              else if hasPrefix k (dir +:+ "/")%string then Some (from (S (String.length dir)) k) else None in
  rest ≫= fun n => if contains n "/" then None else Some n.

Definition readDir (fs : files) (dir : string) : list string :=
  if dir == "" then [] else omap (fun kv : string * list ascii => entry_name dir kv.1) (map_to_list fs).

(** The number of a rotated file's name. *)
Definition rotated_num (base name : string) : option Z :=
  if negb (hasPrefix name (base +:+ ".")%string) || (name == base) then None
  else match atoi (from (S (String.length base)) name) with
  | (n, None) => if 0 <? n then Some n else None
  | _ => None
  end.

Definition numbered (path : string) (n : Z) : string := (path +:+ "." +:+ itoa n)%string.

(** Oldest first, the current file last. *)
Definition rotatedFiles (fs : files) (path : string) : list string :=
  let dir := parentDir path in
  let base := if dir == "." then path else from (S (String.length dir)) path in
  if dir == "" then []
  else
    let nums := sort_stable (fun x y => y <? x) (omap (rotated_num base) (readDir fs dir)) in
    map (numbered path) nums ++ (if bool_decide (is_Some (fs !! path)) then [path] else []).

(** *** Recovery of the state from the log *)

(** [bufio.Scanner] with a 1 MiB buffer: the lines up to the first that does
    not fit, a trailing carriage return removed. *)
Definition maxLine : Z := 2 ^ 20.

Fixpoint split_lines (l cur : list ascii) : list (list ascii) :=
  match l with
  | [] => match cur with [] => [] | _ => [rev cur] end
  | a :: l => if a == byte 10 then rev cur :: split_lines l [] else split_lines l (a :: cur)
  end.

Definition drop_cr (l : list ascii) : list ascii :=
  match rev l with a :: t => if a == byte 13 then rev t else l | [] => l end.

Fixpoint fitting (ls : list (list ascii)) : list (list ascii) :=
  match ls with
  | [] => []
  | l :: ls => if Z.of_nat (length l) <? maxLine then drop_cr l :: fitting ls else []
  end.

Definition scanLines (b : list ascii) : list (list ascii) := fitting (split_lines b []).

(** The state a chain event stands for. *)
Definition recoverLine (algo : string) (hasKey : bool) (st : option ChainState) (line : list ascii)
    : option ChainState :=
  match event_unmarshal line with
  | None => st
  | Some ev =>
      if ev.(e_IntegrityVersion) != IntegrityVersion then st
      else if (ev.(e_Hash) == "") || (ev.(e_ChainID) == "") then st
      else Some (mkChainState ev.(e_ChainID) ev.(e_Seq) ev.(e_Hash) ev.(e_HMAC) algo false hasKey)
  end.

Definition recoverFromLog (fs : files) (algo : string) (key : list ascii) (logPath : string) : option ChainState :=
  foldl (fun st fpath =>
      match fs !! fpath with
      | None => st
      | Some b => foldl (recoverLine algo (present key)) st (scanLines b)
      end)
    None (rotatedFiles fs logPath ++ [logPath]).

Definition newChainWriter (fs : files) (path : string) (opts : IntegrityOptions) : chainWriter :=
  if negb opts.(EnableChain) then mkChainWriter false [] "" zeroState ""
  else
    let pth := statePathFor opts path in
    let s := default zeroState (loadState fs pth) in
    let s := if (s.(ChainID) == "") || (s.(LastHash) == "")
             then default s (recoverFromLog fs (algorithm opts) opts.(io_Key) path) else s in
    mkChainWriter true opts.(io_Key) (algorithm opts) s pth.

Definition with_state (c : chainWriter) (s : ChainState) : chainWriter :=
  mkChainWriter c.(cw_enabled) c.(cw_key) c.(cw_algo) s c.(cw_statePth).

(** [Seal]: the bytes, the completed event, the writer and the files; [save]
    is whether the state file could be written. *)
Definition Seal (c : chainWriter) (fs : files) (e : Event) (freshID : string) (save : bool)
    : option (list ascii * Event * chainWriter * files) :=
  if negb c.(cw_enabled) then None
  else match sealChain c.(cw_state) e c.(cw_key) c.(cw_algo) freshID with
  | None => None
  | Some (raw, next, e) =>
      Some (raw, e, with_state c next, if save then saveState fs c.(cw_statePth) next else fs)
  end.

End Chain.

(** ** The logger *)

Record RemoteSyslogConfig := mkRemoteCfg {
  rs_Enabled : bool; rs_Host : string; rs_Port : Z; rs_Protocol : string; rs_Facility : Z; rs_AppName : string;
}.
Definition noRemote : RemoteSyslogConfig := mkRemoteCfg false "" 0 "" 0 "".

(** [l_remote] is the network and the address of the open connection. *)
Record Logger := mkLogger {
  l_path : string; l_host : string; l_syslog : bool; l_maxBytes : Z; l_maxBackups : Z;
  l_chain : chainWriter; l_remote : option (string * string); l_remoteCfg : RemoteSyslogConfig;
}.

Record Options := mkLogOptions {
  lo_Syslog : bool; lo_MaxBytes : Z; lo_MaxBackups : Z; lo_Integrity : IntegrityOptions;
  lo_Remote : RemoteSyslogConfig;
}.

(** What the system answers when a logger is made: the error of [MkdirAll], the
    host name, whether the local syslog can be opened and which addresses can
    be dialled. *)
Record LogEnv := mkLogEnv {
  le_mkdir : option string; le_host : string; le_syslog : bool; le_dial : string -> string -> bool;
}.

(** The network and the address that are dialled. *)
Definition remoteTarget (cfg : RemoteSyslogConfig) : option (string * string) :=
  if cfg.(rs_Enabled) && (cfg.(rs_Host) != "") then
    let proto := if cfg.(rs_Protocol) != "tcp" then "udp" else cfg.(rs_Protocol) in
    let port := if cfg.(rs_Port) <=? 0 then 514 else cfg.(rs_Port) in
    Some (proto, (cfg.(rs_Host) +:+ ":" +:+ itoa port)%string)
  else None.

(** The logger once the directory is there. *)
Definition openLogger `{FloatText} `{GoUnicode} (fs : files) (env : LogEnv) (path : string) (opts : Options) : Logger :=
  let l := mkLogger path env.(le_host) (opts.(lo_Syslog) && env.(le_syslog)) opts.(lo_MaxBytes) opts.(lo_MaxBackups)
             (newChainWriter fs path opts.(lo_Integrity)) in
  match remoteTarget opts.(lo_Remote) with
  | Some (proto, addr) =>
      if env.(le_dial) proto addr then l (Some (proto, addr)) opts.(lo_Remote) else l None noRemote
  | None => l None noRemote
  end.

Definition NewWithOptions `{FloatText} `{GoUnicode} (fs : files) (env : LogEnv) (path : string) (opts : Options)
    : result string Logger :=
  match env.(le_mkdir) with Some e => Err e | None => Ok (openLogger fs env path opts) end.

Example remote_targets :
  map remoteTarget
    [mkRemoteCfg true "siem" 0 "" 0 ""; mkRemoteCfg true "siem" 6514 "tcp" 0 ""; mkRemoteCfg true "siem" (-1) "TCP" 0 "";
     mkRemoteCfg true "" 514 "udp" 0 ""; mkRemoteCfg false "siem" 514 "udp" 0 ""]
  = [Some ("udp", "siem:514"); Some ("tcp", "siem:6514"); Some ("udp", "siem:514"); None; None].
Proof. vm_compute. reflexivity. Qed.

Inductive log_err := ErrAlgorithm | ErrRotate | ErrOpen | ErrWrite.

(** What the operating system refuses during one call of [Write]. *)
Record faults := mkFaults {
  f_saveState : bool; f_stat : bool; f_rename : bool; f_open : bool; f_write : bool;
}.
Definition no_faults : faults := mkFaults false false false false false.

Definition rename (src dst : string) (fs : files) : files :=
  match fs !! src with
  | Some c => <[dst := c]> (delete src fs)
  | None => fs
  end.

(** The loop [for i := n; i >= 1; i--] that moves [path.i] to [path.(i+1)]. *)
Fixpoint shift (n : nat) (path : string) (fs : files) : files :=
  match n with
  | O => fs
  | S n => shift n path (rename (numbered path (Z.of_nat (S n))) (numbered path (Z.of_nat (S n) + 1)) fs)
  end.

Definition with_maxBackups (l : Logger) (n : Z) : Logger :=
  mkLogger l.(l_path) l.(l_host) l.(l_syslog) l.(l_maxBytes) n l.(l_chain) l.(l_remote) l.(l_remoteCfg).
Definition with_chain (l : Logger) (c : chainWriter) : Logger :=
  mkLogger l.(l_path) l.(l_host) l.(l_syslog) l.(l_maxBytes) l.(l_maxBackups) c l.(l_remote) l.(l_remoteCfg).

(** [rotateIfNeeded]: whether it failed, the logger and the files. *)
Definition rotateIfNeeded (l : Logger) (fs : files) (f : faults) (incoming : Z) : bool * Logger * files :=
  if l.(l_maxBytes) <=? 0 then (false, l, fs)
  else if f.(f_stat) then (true, l, fs)
  else match fs !! l.(l_path) with
  | None => (false, l, fs)
  | Some b =>
      if wraps 64 (Z.of_nat (length b) + incoming) <=? l.(l_maxBytes) then (false, l, fs)
      else
        let l := if l.(l_maxBackups) <=? 0 then with_maxBackups l 1 else l in
        let fs := delete (numbered l.(l_path) l.(l_maxBackups)) fs in
        let fs := shift (Z.to_nat (l.(l_maxBackups) - 1)) l.(l_path) fs in
        if f.(f_rename) then (true, l, fs)
        else (false, l, rename l.(l_path) (numbered l.(l_path) 1) fs)
  end.

Definition append (path : string) (raw : list ascii) (fs : files) : files :=
  <[path := default [] (fs !! path) ++ raw]> fs.

(** A line for the remote syslog (RFC 5424). *)
Definition writeRemote (l : Logger) (now : Time) (msg : list ascii) : list ascii :=
  let cfg := l.(l_remoteCfg) in
  let severity := 6 in
  let facility := wraps 64 (Z.shiftl cfg.(rs_Facility) 3) in
  let facility := if facility == 0 then Z.shiftl 3 3 else facility in
  let appName := if cfg.(rs_AppName) == "" then "edr-agent" else cfg.(rs_AppName) in
  let ts := time_print (mkTime (t_year now) (t_month now) (t_day now) (t_hour now) (t_min now) (t_sec now) 0 (t_off now)) in
  let hostname := if l.(l_host) == "" then "-" else l.(l_host) in
  bytes ("<" +:+ itoa (Z.lor facility severity) +:+ ">1 ")%string ++ ts
  ++ bytes (" " +:+ hostname +:+ " " +:+ appName +:+ " - - - ")%string ++ msg ++ [byte 10].

(** What one call hands to the local and to the remote syslog. *)
Record outputs := mkOutputs { out_syslog : list (list ascii); out_remote : list (list ascii) }.

(** The defaults [Write] fills in. *)
Definition fill (l : Logger) (now : Time) (hostname : string) (e : Event) : Event :=
  set_defaults e
    (if e.(e_SchemaVersion) == "" then SchemaVersion else e.(e_SchemaVersion))
    (if e.(e_Timestamp) == timeZero then now else e.(e_Timestamp))
    (if e.(e_Host) == "" then if l.(l_host) != "" then l.(l_host) else hostname else e.(e_Host)).

(** [Write]: the error, the logger, the files and the copies sent on.
    [hostname] is what [os.Hostname] returns now, empty when it fails. *)
Definition Write `{Digest} (l : Logger) (fs : files) (f : faults) (now : Time) (hostname freshID : string) (e : Event)
    : option log_err * Logger * files * outputs :=
  let none := mkOutputs [] [] in
  let e := fill l now hostname e in
  let sealed :=
    if l.(l_chain).(cw_enabled) then
      match Seal l.(l_chain) fs e freshID (negb f.(f_saveState)) with
      | None => None
      | Some (raw, e, c, fs) => Some (raw, e, with_chain l c, fs)
      end
    else Some (event_text e ++ [byte 10], e, l, fs) in
  match sealed with
  | None => (Some ErrAlgorithm, l, fs, none)
  | Some (raw, e, l, fs) =>
      let '(failed, l, fs) := rotateIfNeeded l fs f (Z.of_nat (length raw)) in
      if failed then (Some ErrRotate, l, fs, none)
      else if f.(f_open) then (Some ErrOpen, l, fs, none)
      else if f.(f_write) then (Some ErrWrite, l, fs, none)
      else
        let plain := event_text (stripHash e) in
        (None, l, append l.(l_path) raw fs,
         mkOutputs (if l.(l_syslog) then [plain] else [])
           (match l.(l_remote) with Some _ => [writeRemote l now plain] | None => [] end))
  end.

(** [Close]: the logger without its connections, and whether closing the one to
    the local syslog failed. *)
Definition Close (l : Logger) (refused : bool) : bool * Logger :=
  (l.(l_syslog) && refused,
   mkLogger l.(l_path) l.(l_host) false l.(l_maxBytes) l.(l_maxBackups) l.(l_chain) None l.(l_remoteCfg)).

(** [ChainSnapshot] of a pointer: the zero state without a logger. *)
Definition ChainSnapshot (l : option Logger) : ChainState :=
  match l with None => zeroState | Some l => l.(l_chain).(cw_state) end.

(** ** The verifier *)

Record IntegrityIssue := mkIssue {
  i_Line : Z; i_Seq : Z; i_Kind : string; i_Expected : string; i_Actual : string;
}.
Record LegacySegment := mkSegment { FromLine : Z; ToLine : Z; Count : Z }.

Record VerifyResult := mkResult {
  v_OK : bool; v_LastSeq : Z; v_LastHash : string; v_Algorithm : string; v_HasHMACKey : bool;
  v_LinesScanned : Z; v_ChainLines : Z; v_LegacyLines : Z; v_LegacySegment : list LegacySegment;
  v_Issues : list IntegrityIssue;
}.

(** The variables of the scan. *)
Record scan := mkScan {
  s_prev : string; s_seq : Z; s_open : bool; s_legacy : option LegacySegment; s_line : Z;
  s_scanned : Z; s_chainLines : Z; s_legacyLines : Z; s_segments : list LegacySegment;
  s_algorithm : string; s_issues : list IntegrityIssue;
}.

Definition scan0 : scan := mkScan "" 0 false None 0 0 0 0 [] "" [].

Definition add_issue (s : scan) (i : IntegrityIssue) : scan :=
  mkScan s.(s_prev) s.(s_seq) s.(s_open) s.(s_legacy) s.(s_line) s.(s_scanned) s.(s_chainLines)
    s.(s_legacyLines) s.(s_segments) s.(s_algorithm) (s.(s_issues) ++ [i]).

Definition malformed (line : Z) : IntegrityIssue := mkIssue line 0 "malformed" "" "".

(** The open legacy segment with one more line. *)
Definition extend (seg : option LegacySegment) (line : Z) : LegacySegment :=
  match seg with
  | Some g => mkSegment g.(FromLine) line (g.(Count) + 1)
  | None => mkSegment line line 1
  end.

Section Verify.
Context {DG : Digest} {FT : FloatText} {UC : GoUnicode}.
Variable key : list ascii.

(** The checks of one chain event against the running head. *)
Definition chain_issues (line : Z) (prevHash : string) (e : Event) : list IntegrityIssue :=
  let expected := recomputeHash e prevHash in
  let want := macOf key e.(e_Hash) in
  (if e.(e_PrevHash) != prevHash
   then [mkIssue line e.(e_Seq) "prev_hash_break" prevHash e.(e_PrevHash)] else [])
  ++ (if expected != e.(e_Hash) then [mkIssue line e.(e_Seq) "hash_mismatch" expected e.(e_Hash)] else [])
  ++ (if present key && (want != e.(e_HMAC))
      then [mkIssue line e.(e_Seq) "hmac_mismatch" want e.(e_HMAC)] else []).

(** The body of the loop of [verifyOneFile], on one value of the stream. *)
Definition verify_value (s : scan) (j : json) : scan :=
  let line := s.(s_line) + 1 in
  let scanned := s.(s_scanned) + 1 in
  match event_decode j with
  | None =>
      mkScan s.(s_prev) s.(s_seq) s.(s_open) (Some (extend s.(s_legacy) line)) line scanned s.(s_chainLines)
        s.(s_legacyLines) s.(s_segments) s.(s_algorithm) (s.(s_issues) ++ [malformed line])
  | Some e =>
      if e.(e_IntegrityVersion) != IntegrityVersion then
        mkScan s.(s_prev) s.(s_seq) false (Some (extend s.(s_legacy) line)) line scanned s.(s_chainLines)
          (s.(s_legacyLines) + 1) s.(s_segments) s.(s_algorithm) s.(s_issues)
      else
        mkScan e.(e_Hash) e.(e_Seq) true None line scanned (s.(s_chainLines) + 1) s.(s_legacyLines)
          (s.(s_segments) ++ match s.(s_legacy) with Some g => [g] | None => [] end)
          e.(e_IntegrityVersion) (s.(s_issues) ++ chain_issues line s.(s_prev) e)
  end.

(** The loop; a value takes at least a byte, so the length is enough fuel. *)
Fixpoint verify_stream (fuel : nat) (s : scan) (l : list ascii) : scan :=
  match fuel, skip_ws l with
  | O, _ | _, [] => s
  | S fuel, l =>
      match next_value l with
      | None => add_issue s (malformed (s.(s_line) + 1))
      | Some (j, l) => verify_stream fuel (verify_value s j) l
      end
  end.

Definition verifyOneFile (fs : files) (s : scan) (fpath : string) : scan :=
  match fs !! fpath with
  | None => add_issue s (malformed (s.(s_line) + 1))
  | Some b => verify_stream (length b) s b
  end.

Definition Verify (fs : files) (path : string) : VerifyResult :=
  match rotatedFiles fs path with
  | [] => mkResult true 0 "" "" (present key) 0 0 0 [] []
  | fpaths =>
      let s := foldl (verifyOneFile fs) scan0 fpaths in
      mkResult (negb (present s.(s_issues))) s.(s_seq) s.(s_prev) s.(s_algorithm) (present key)
        s.(s_scanned) s.(s_chainLines) s.(s_legacyLines)
        (s.(s_segments) ++ match s.(s_legacy) with Some g => [g] | None => [] end) s.(s_issues)
  end.

(** [VerifyOne]: ok, seq, hashMatch, hmacMatch. *)
Definition VerifyOne (line : list ascii) : bool * Z * bool * bool :=
  match line with
  | [] => (true, 0, true, true)
  | _ =>
      match event_unmarshal line with
      | None => (false, 0, false, false)
      | Some e =>
          if e.(e_IntegrityVersion) != IntegrityVersion then (true, e.(e_Seq), true, true)
          else
            let hashMatch := recomputeHash e e.(e_PrevHash) == e.(e_Hash) in
            let hmacMatch := if present key then macOf key e.(e_Hash) == e.(e_HMAC) else true in
            (hashMatch && hmacMatch, e.(e_Seq), hashMatch, hmacMatch)
      end
  end.

End Verify.
