(* ===== verification/ChainProofs.v ===== *)
(** * The event chain: what is written verifies, and what was changed does not

    Theorems about [EventLog]: an event is read back with the same canonical
    text; a log written by [Write] verifies; two logs that verify and end in the
    same hash hold the same events or exhibit two preimages of one digest; the
    chain head is recovered from the log; and the executions in which an
    untouched log does not verify. *)

From S2P Require Import Prelude GoStrings Json GoJson GoTime Crypto EventLog.

(** ** Reading fields back *)

Section Fields.
Context {FT : FloatText} {UC : GoUnicode}.

Lemma get_app {A} (set : A -> json -> option A) names name init l1 l2 :
  get_field set names name init (l1 ++ l2)
  = get_field set names name init l1 ≫= fun a => get_field set names name a l2.
Proof.
  unfold get_field. rewrite foldl_app. destruct (foldl _ (Some init) l1) as [a|]; simpl; [done|].
  induction l2 as [|x l2 IH]; simpl; [done|]. by destruct (field_of _ _ == _).
Qed.

Lemma get_one {A} (set : A -> json -> option A) names name init k j :
  k ∈ names ->
  get_field set names name init [(k, j)] = if bool_decide (k = name) then set init j else Some init.
Proof.
  intros Hk. unfold get_field, field_of. cbn [foldl fst snd]. rewrite (bool_decide_eq_true_2 _ Hk).
  repeat case_bool_decide; simplify_eq/=; done.
Qed.

Definition piece_name (p : piece) : string := p.1.2.

Lemma get_skip {A} (set : A -> json -> option A) names name init ps :
  Forall (fun p => piece_name p ∈ names) ps -> name ∉ map piece_name ps ->
  get_field set names name init (members_of ps) = Some init.
Proof.
  intros Hps. induction Hps as [|[[c k] j] ps Hk _ IH]; [done|]. simpl. intros [Hne Hnot]%not_elem_of_cons.
  unfold members_of in *. simpl. rewrite get_app. destruct c; [|by apply IH].
  rewrite get_one, bool_decide_eq_false_2 by done. by apply IH.
Qed.

(** The field [name] is decoded from its piece alone. *)
Lemma get_piece {A} (set : A -> json -> option A) names name init c j ps :
  Forall (fun p => piece_name p ∈ names) ps -> NoDup (map piece_name ps) -> (c, name, j) ∈ ps ->
  get_field set names name init (members_of ps) = if (c : bool) then set init j else Some init.
Proof.
  intros Hps Hnd [l1 [l2 ->]]%list_elem_of_split.
  apply Forall_app in Hps as [H1 [Hk H2]%Forall_cons]. rewrite map_app in Hnd. simpl in Hnd.
  apply NoDup_app in Hnd as (_ & Hd & [Hn2 _]%NoDup_cons).
  unfold members_of. rewrite map_app, concat_app, get_app. fold (members_of l1).
  rewrite get_skip by (try done; intros Hin; apply (Hd _ Hin); by left). simpl.
  rewrite get_app. fold (members_of l2). destruct c; [|by apply get_skip].
  rewrite get_one, bool_decide_eq_true_2 by done. destruct (set init j); simpl; [|done]. by rewrite get_skip.
Qed.

End Fields.

Lemma chunks_ascii fuel l :
  (length l <= fuel)%nat -> Forall (fun a => code a < 128) l -> chunks_aux fuel l = map Single l.
Proof.
  intros Hl HF. revert fuel Hl. induction HF as [|a l Ha _ IH]; intros [|fuel] Hl; simpl in *; try done; [lia|].
  unfold is_ascii. rewrite (proj2 (Z.ltb_lt _ 128)) by done. by rewrite IH by lia.
Qed.

Lemma valid_utf8_ascii s : Forall (fun a => code a < 128) (bytes s) -> valid_utf8 s = true.
Proof.
  intros Hs. unfold valid_utf8, chunks. rewrite chunks_ascii by done.
  clear Hs. induction (bytes s); simpl; done.
Qed.

Lemma hexEncode_utf8 l : valid_utf8 (hexEncode l) = true.
Proof. apply valid_utf8_ascii, hexEncode_ascii. Qed.

(** ** Events are read back with the same text *)

Section Events.
Context {FT : FloatText} {UC : GoUnicode}.

Definition inner_depth : nat := Nat.pred max_depth.
Lemma max_depth_S : max_depth = S inner_depth.
Proof. reflexivity. Qed.

(** Events of valid UTF-8 strings and of maps whose text survives a decode. *)
Definition event_ok (e : Event) : Prop :=
  Forall (fun s => valid_utf8 s = true)
    [e.(e_SchemaVersion); e.(e_IntegrityVersion); e.(e_ChainID); e.(e_PrevHash); e.(e_Hash); e.(e_HMAC);
     e.(e_EventID); e.(e_Host); e.(e_Category); e.(e_Severity); e.(e_Action); e.(e_Decision); e.(e_RuleID)]
  /\ 0 <= e.(e_Seq) < 2 ^ 64 /\ time_ok e.(e_Timestamp) = true
  /\ Forall (fun m => stable inner_depth (GMap m) = true) [e.(e_Subject); e.(e_Object); e.(e_Evidence)].

(** Two maps with the same text. *)
Definition same_map (m m' : list (string * gval)) : Prop :=
  marshal (GMap m') = marshal (GMap m) /\ present m' = present m.

(** Equal up to maps with the same text. *)
Definition same (e e' : Event) : Prop :=
  exists su ob ev,
    e' = mkEvent e.(e_SchemaVersion) e.(e_IntegrityVersion) e.(e_ChainID) e.(e_Seq) e.(e_PrevHash) e.(e_Hash)
           e.(e_HMAC) e.(e_Timestamp) e.(e_EventID) e.(e_Host) e.(e_Category) e.(e_Severity) su ob e.(e_Action)
           e.(e_Decision) e.(e_RuleID) ev
    /\ same_map e.(e_Subject) su /\ same_map e.(e_Object) ob /\ same_map e.(e_Evidence) ev.

Lemma same_bytes e e' : same e e' -> chainEventBytes e' = chainEventBytes e.
Proof.
  intros (su & ob & ev & -> & [H1 H1'] & [H2 H2'] & [H3 H3']).
  unfold chainEventBytes, event_text, event_members. do 3 f_equal.
  unfold event_pieces, stripIntegrity, set_digests.
  cbn [e_SchemaVersion e_IntegrityVersion e_ChainID e_Seq e_PrevHash e_Hash e_HMAC e_Timestamp e_EventID e_Host
    e_Category e_Severity e_Subject e_Object e_Action e_Decision e_RuleID e_Evidence].
  by rewrite H1, H1', H2, H2', H3, H3'.
Qed.

Lemma set_map_marshal d m :
  stable d (GMap m) = true -> exists m', set_map [] (marshal (GMap m)) = Some m' /\ same_map m m'.
Proof.
  intros Hs. destruct (marshal_stable _ _ Hs) as [_ (v & Hd & Hv)]. simpl in Hd |- *.
  destruct (mapM _ _) as [vs|]; [|done]. simpl in *. injection Hd as <-. exists (put_all vs []).
  split; [done|]. split; [done|]. simpl in Hv. injection Hv as Hv. apply (f_equal length) in Hv.
  rewrite !(Permutation_length (msort_perm _)), !length_map in Hv.
  by destruct m, (put_all vs []).
Qed.

Lemma set_map_opt d m :
  stable d (GMap m) = true ->
  exists m', (if present m then set_map [] (marshal (GMap m)) else Some []) = Some m' /\ same_map m m'.
Proof.
  intros Hs. destruct m as [|x m]; [by exists []|]. by apply (set_map_marshal d).
Qed.

Lemma event_pieces_names e :
  Forall (fun p => piece_name p ∈ event_names) (event_pieces e) /\ NoDup (map piece_name (event_pieces e)).
Proof.
  change (map piece_name (event_pieces e)) with event_names. split.
  - apply Forall_forall. intros p Hp. change event_names with (map piece_name (event_pieces e)).
    by apply list_elem_of_fmap_2.
  - apply (bool_decide_unpack _). by vm_compute.
Qed.

Lemma get_event {A} (set : A -> json -> option A) e name init c j :
  (c, name, j) ∈ event_pieces e ->
  get_field set event_names name init (event_members e) = if (c : bool) then set init j else Some init.
Proof. destruct (event_pieces_names e). by apply get_piece. Qed.

Lemma get_event_string e name s c :
  (c, name, JStr s) ∈ event_pieces e -> (c = true \/ c = nonempty s) ->
  get_field set_string event_names name "" (event_members e) = Some s.
Proof.
  intros Hin Hc. rewrite (get_event _ _ _ _ _ _ Hin). destruct Hc as [->| ->]; [done|].
  unfold nonempty. by destruct s.
Qed.

Lemma json_ok_members d ps :
  Forall (fun p => valid_utf8 (piece_name p) = true /\ json_ok d p.2 = true) ps ->
  json_ok (S d) (JObj (members_of ps)) = true.
Proof.
  intros Hps. cbn [json_ok]. unfold members_of. induction Hps as [|[[c k] j] ps [H1 H2] _ IH]; [done|].
  cbn [map concat]. rewrite forallb_app, IH, andb_true_r. unfold piece_name in H1. simpl in H1, H2.
  destruct c; simpl; [by rewrite H1, H2|done].
Qed.

Lemma names_utf8 k : k ∈ event_names -> valid_utf8 k = true.
Proof.
  intros Hk. assert (forallb valid_utf8 event_names = true) as Hall by (vm_compute; reflexivity).
  apply forallb_Forall in Hall. rewrite Forall_forall in Hall. by apply Hall.
Qed.

Lemma time_text_utf8 t : valid_utf8 (text (time_print t)) = true.
Proof. apply valid_utf8_ascii. rewrite bytes_text. apply time_print_ascii. Qed.

Lemma event_json_ok e : event_ok e -> json_ok max_depth (JObj (event_members e)) = true.
Proof.
  intros (Hs & Hq & Ht & Hm). rewrite max_depth_S. apply json_ok_members.
  destruct (event_pieces_names e) as [Hn _].
  enough (Forall (fun p : piece => json_ok inner_depth p.2 = true) (event_pieces e)) as Hj.
  { eapply Forall_impl; [apply (proj2 (Forall_and _ _) (conj Hn Hj))|]. intros p [H1 H2].
    split; [by apply names_utf8|done]. }
  rewrite !Forall_cons in Hs. rewrite !Forall_cons in Hm. destruct_and? Hs. destruct_and? Hm.
  unfold event_pieces.
  repeat (apply Forall_cons; split); [..|constructor];
    match goal with
    | |- json_ok _ (_, marshal _).2 = true => apply marshal_stable; assumption
    | |- json_ok _ (_, JNum _).2 = true => simpl; rewrite number_itoa; by apply bool_decide_eq_true
    | |- json_ok _ (_, JStr (text _)).2 = true => apply time_text_utf8
    | |- _ => assumption
    end.
Qed.

Ltac piece_in := unfold event_pieces; repeat first [apply list_elem_of_here | apply list_elem_of_further].

Lemma event_roundtrip e :
  event_ok e -> exists e', event_decode (JObj (event_members e)) = Some e' /\ same e e'.
Proof.
  intros (_ & Hq & Ht & Hm). rewrite !Forall_cons in Hm. destruct Hm as (Hsu & Hob & Hev & _).
  destruct (set_map_opt _ _ Hsu) as (su & Esu & Ssu).
  destruct (set_map_opt _ _ Hob) as (ob & Eob & Sob).
  destruct (set_map_opt _ _ Hev) as (ev & Eev & Sev).
  eexists. split; [|exists su, ob, ev; split_and!; [reflexivity|done..]].
  unfold event_decode. cbv zeta.
  rewrite (get_event_string e "schema_version" (e_SchemaVersion e) true) by (piece_in || auto).
  rewrite (get_event_string e "integrity_version" (e_IntegrityVersion e) (nonempty (e_IntegrityVersion e))) by (piece_in || auto).
  rewrite (get_event_string e "chain_id" (e_ChainID e) (nonempty (e_ChainID e))) by (piece_in || auto).
  rewrite (get_event set_uint64 e "seq" 0 (e_Seq e != 0) (JNum (itoa (e_Seq e)))) by piece_in.
  rewrite (get_event_string e "prev_hash" (e_PrevHash e) (nonempty (e_PrevHash e))) by (piece_in || auto).
  rewrite (get_event_string e "hash" (e_Hash e) (nonempty (e_Hash e))) by (piece_in || auto).
  rewrite (get_event_string e "hmac" (e_HMAC e) (nonempty (e_HMAC e))) by (piece_in || auto).
  rewrite (get_event set_time e "timestamp" timeZero true (JStr (text (time_print (e_Timestamp e))))) by piece_in.
  rewrite (get_event_string e "event_id" (e_EventID e) true) by (piece_in || auto).
  rewrite (get_event_string e "host" (e_Host e) true) by (piece_in || auto).
  rewrite (get_event_string e "category" (e_Category e) true) by (piece_in || auto).
  rewrite (get_event_string e "severity" (e_Severity e) true) by (piece_in || auto).
  rewrite (get_event set_map e "subject" [] (present (e_Subject e)) (marshal (GMap (e_Subject e)))) by piece_in.
  rewrite (get_event set_map e "object" [] (present (e_Object e)) (marshal (GMap (e_Object e)))) by piece_in.
  rewrite (get_event_string e "action" (e_Action e) true) by (piece_in || auto).
  rewrite (get_event_string e "decision" (e_Decision e) true) by (piece_in || auto).
  rewrite (get_event_string e "rule_id" (e_RuleID e) (nonempty (e_RuleID e))) by (piece_in || auto).
  rewrite (get_event set_map e "evidence" [] (present (e_Evidence e)) (marshal (GMap (e_Evidence e)))) by piece_in.
  rewrite Esu, Eob, Eev. cbn [mbind option_bind set_time set_uint64].
  rewrite bytes_text, time_parse_print by done. cbn [mbind option_bind].
  rewrite parseUint_itoa by done.
  destruct (decide (e_Seq e = 0)) as [E|E]; [rewrite E|]; by rewrite ?bool_decide_eq_false_2 by done.
Qed.

End Events.

(** ** The state file *)

Definition state_ok (s : ChainState) : Prop :=
  Forall (fun t => valid_utf8 t = true) [s.(ChainID); s.(LastHash); s.(LastHMAC); s.(Algorithm)]
  /\ 0 <= s.(LastSeq) < 2 ^ 64.

Lemma get_state {UC : GoUnicode} {A} (set : A -> json -> option A) s name init c j :
  (c, name, j) ∈ state_pieces s ->
  get_field set state_names name init (state_members s) = if (c : bool) then set init j else Some init.
Proof.
  apply get_piece.
  - apply Forall_forall. intros p Hp. change state_names with (map piece_name (state_pieces s)).
    by apply list_elem_of_fmap_2.
  - change (map piece_name (state_pieces s)) with state_names. apply (bool_decide_unpack _). by vm_compute.
Qed.

Ltac state_in := unfold state_pieces; repeat first [apply list_elem_of_here | apply list_elem_of_further].

(** The chain state is read back from its file as it was saved. *)
Theorem state_roundtrip {UC : GoUnicode} fs path s :
  state_ok s -> loadState (saveState fs path s) path = Some s.
Proof.
  intros [Hs Hq]. rewrite !Forall_cons in Hs. destruct Hs as (H1 & H2 & H3 & H4 & _).
  unfold loadState, saveState. rewrite lookup_insert_eq.
  assert (json_ok max_depth (JObj (state_members s)) = true) as Hok.
  { rewrite max_depth_S. apply json_ok_members. unfold state_pieces.
    repeat (apply Forall_cons_2); [..|apply Forall_nil_2]; (split; [vm_compute; reflexivity|]); try done.
    simpl. rewrite number_itoa. by apply bool_decide_eq_true. }
  destruct (print_start _ _ Hok) as (a & t & E & _). rewrite E. rewrite <- E, <- (app_nil_r (print _)).
  rewrite parse_print by (done || constructor). cbn [mbind option_bind]. unfold state_decode. cbv zeta.
  rewrite (get_state set_string s "chain_id" "" true (JStr (ChainID s))) by state_in.
  rewrite (get_state set_uint64 s "last_seq" 0 true (JNum (itoa (LastSeq s)))) by state_in.
  rewrite (get_state set_string s "last_hash" "" true (JStr (LastHash s))) by state_in.
  rewrite (get_state set_string s "last_hmac" "" (nonempty (LastHMAC s)) (JStr (LastHMAC s))) by state_in.
  rewrite (get_state set_string s "algorithm" "" true (JStr (Algorithm s))) by state_in.
  rewrite (get_state set_bool s "legacy_acked" false true (JBool (LegacyAck s))) by state_in.
  rewrite (get_state set_bool s "has_hmac_key" false (HasHMACKey s) (JBool (HasHMACKey s))) by state_in.
  cbn [set_string set_uint64 set_bool mbind option_bind]. rewrite parseUint_itoa by done.
  destruct s as [ci sq h [|c hm] al la []]; done.
Qed.

Lemma state_roundtrip_witness :
  let u := {| uni_equalFold := String.eqb; uni_toLower := id |} in
  let s := mkChainState "edr-1" 3 "ab" "" "sha256" false true in
  @loadState u (saveState ∅ "/s" s) "/s" = Some s.
Proof.
  intros u s. apply (@state_roundtrip u ∅ "/s" s). split; [|vm_compute; split; [discriminate|reflexivity]].
  repeat (apply Forall_cons_2; [vm_compute; reflexivity|]). apply Forall_nil_2.
Defined.

(** ** The scan of a stream *)

Section Stream.
Context {DG : Digest} {FT : FloatText} {UC : GoUnicode}.
Variable key : list ascii.

Lemma verify_stream_fuel f f' s l :
  (length l <= f)%nat -> (f <= f')%nat -> verify_stream key f' s l = verify_stream key f s l.
Proof.
  revert f' s l. induction f as [|f IH]; intros f' s l Hl Hf.
  - destruct l; simpl in Hl; [|lia]. by destruct f'.
  - destruct f' as [|f']; [lia|]. cbn [verify_stream]. pose proof (skip_ws_shorter l) as Hw.
    destruct (skip_ws l) as [|a t] eqn:E; [done|]. destruct (next_value (a :: t)) as [[j r]|] eqn:En; [|done].
    apply next_value_shorter in En. apply IH; lia.
Qed.

(** The scan of a whole text. *)
Definition scan_text (s : scan) (l : list ascii) : scan := verify_stream key (length l) s l.

Lemma scan_text_ws s a l : is_ws a = true -> scan_text s (a :: l) = scan_text s l.
Proof.
  intros Ha. unfold scan_text. cbn [length].
  assert (skip_ws (a :: l) = skip_ws l) as E by (unfold skip_ws; simpl; by rewrite Ha).
  transitivity (verify_stream key (S (length l)) s l); [cbn [verify_stream]; by rewrite E|].
  apply verify_stream_fuel; lia.
Qed.

Lemma scan_text_value s j r :
  json_ok max_depth j = true -> scan_text s (print j ++ byte 10 :: r) = scan_text (verify_value key s j) r.
Proof.
  intros Hj. rewrite <- (scan_text_ws _ (byte 10) r) by done.
  destruct (print_start _ _ Hj) as (a & t & Ea & [Hws _]).
  pose proof (next_value_print j (byte 10) r Hj eq_refl) as Hn.
  unfold scan_text at 1. rewrite Ea in *. cbn [app length verify_stream]. rewrite skip_ws_id by done.
  cbn [app] in Hn. rewrite Hn. apply verify_stream_fuel; [done|]. rewrite length_app. lia.
Qed.

Lemma scan_text_nil s : scan_text s [] = s.
Proof. done. Qed.

(** *** Sealed events *)

(** A chain event: it carries the version, links to [prev] and is hashed and
    signed as [sealChain] does. *)
Definition linked (prev : string) (e : Event) : Prop :=
  e.(e_IntegrityVersion) = IntegrityVersion /\ e.(e_PrevHash) = prev
  /\ e.(e_Hash) = recomputeHash e prev
  /\ (present key = true -> e.(e_HMAC) = macOf key e.(e_Hash)).

Lemma chain_issues_linked line prev e e' : linked prev e -> same e e' -> chain_issues key line prev e' = [].
Proof.
  intros (Hv & Hp & Hh & Hm) Hs. unfold chain_issues, recomputeHash. rewrite (same_bytes _ _ Hs).
  destruct Hs as (su & ob & ev & -> & _). cbn [e_PrevHash e_Hash e_HMAC e_Seq].
  rewrite (bool_decide_eq_true_2 _ Hp). rewrite (bool_decide_eq_true_2 _ (eq_sym Hh)).
  destruct (present key); [|done]. by rewrite (bool_decide_eq_true_2 _ (eq_sym (Hm eq_refl))).
Qed.

(** The scan after an accepted chain event. *)
Definition accepted (s : scan) (e : Event) : scan :=
  mkScan e.(e_Hash) e.(e_Seq) true None (s.(s_line) + 1) (s.(s_scanned) + 1) (s.(s_chainLines) + 1)
    s.(s_legacyLines) (s.(s_segments) ++ match s.(s_legacy) with Some g => [g] | None => [] end)
    IntegrityVersion s.(s_issues).

Lemma verify_value_linked s e :
  event_ok e -> linked s.(s_prev) e -> verify_value key s (JObj (event_members e)) = accepted s e.
Proof.
  intros Hok Hl. destruct (event_roundtrip e Hok) as (e' & He' & Hs).
  unfold verify_value. rewrite He'. pose proof (chain_issues_linked (s_line s + 1) _ _ _ Hl Hs) as Hi.
  destruct Hl as (Hv & _). destruct Hs as (su & ob & ev & -> & _).
  cbn [e_IntegrityVersion e_Hash e_Seq] in *. rewrite Hi, Hv, app_nil_r.
  by rewrite bool_decide_eq_true_2.
Qed.

(** A list of events, each linked to its predecessor. *)
Fixpoint chain (prev : string) (es : list Event) : Prop :=
  match es with
  | [] => True
  | e :: es => linked prev e /\ chain e.(e_Hash) es
  end.

Definition log_of (es : list Event) : list ascii := concat (map (fun e => event_text e ++ [byte 10]) es).

Lemma scan_text_chain s es r :
  Forall event_ok es -> chain s.(s_prev) es ->
  scan_text s (log_of es ++ r) = scan_text (foldl accepted s es) r.
Proof.
  intros Hok. revert s. induction Hok as [|e es He _ IH]; intros s Hc; [done|].
  destruct Hc as [Hl Hc]. unfold log_of. cbn [map concat foldl]. rewrite <- !app_assoc. cbn [app].
  unfold event_text at 1. rewrite scan_text_value by (by apply event_json_ok).
  rewrite verify_value_linked by done. by apply IH.
Qed.

Lemma foldl_accepted s es :
  let s' := foldl accepted s es in
  s_prev s' = default (s_prev s) (e_Hash <$> last es) /\ s_seq s' = default (s_seq s) (e_Seq <$> last es)
  /\ s_issues s' = s_issues s /\ s_chainLines s' = s_chainLines s + Z.of_nat (length es)
  /\ s_legacyLines s' = s_legacyLines s /\ s_scanned s' = s_scanned s + Z.of_nat (length es).
Proof.
  cbv zeta. revert s. induction es as [|e es IH]; intros s; cbn [foldl length].
  - simpl. split_and!; try done; lia.
  - destruct (IH (accepted s e)) as (-> & -> & -> & -> & -> & ->).
    cbn [accepted s_prev s_seq s_issues s_chainLines s_legacyLines s_scanned].
    rewrite last_cons. destruct (last es); simpl; split_and!; try done; lia.
Qed.

(** *** What [sealChain] produces *)

Lemma chainEventBytes_digests e h m : chainEventBytes (set_digests e h m) = chainEventBytes e.
Proof. done. Qed.

Lemma some_triple {A B C} (a a' : A) (b b' : B) (c c' : C) :
  Some (a, b, c) = Some (a', b', c') -> a = a' /\ b = b' /\ c = c'.
Proof. by intros [= -> -> ->]. Qed.

Lemma sealChain_linked st e algo id raw st' e' :
  sealChain st e key algo id = Some (raw, st', e') ->
  linked st.(LastHash) e' /\ raw = event_text e' ++ [byte 10]
  /\ LastHash st' = e_Hash e' /\ LastSeq st' = e_Seq e' /\ e_Seq e' = wrapu 64 (LastSeq st + 1)
  /\ ChainID st' = e_ChainID e' /\ (ChainID st <> "" -> ChainID st' = ChainID st)
  /\ (ChainID st = "" -> ChainID st' = id).
Proof.
  unfold sealChain. destruct (negb _); [done|]. intros (<- & <- & <-)%some_triple.
  split_and!; try reflexivity.
  - split_and!; try reflexivity. cbn [set_digests e_HMAC e_Hash]. by intros ->.
  - intros Hne. cbn [ChainID]. by rewrite bool_decide_eq_false_2.
  - intros Hne. cbn [ChainID]. by rewrite bool_decide_eq_true_2.
Qed.

(** Everything but the chain fields comes from the caller. *)
Lemma sealChain_ok st e algo id raw st' e' :
  sealChain st e key algo id = Some (raw, st', e') -> event_ok e -> 0 <= LastSeq st ->
  valid_utf8 (ChainID st) = true -> valid_utf8 (LastHash st) = true -> valid_utf8 id = true ->
  event_ok e' /\ 0 <= LastSeq st' /\ valid_utf8 (ChainID st') = true /\ valid_utf8 (LastHash st') = true.
Proof.
  unfold sealChain. destruct (negb _); [done|]. intros (<- & <- & <-)%some_triple (Hs & Hq & Ht & Hm) Hseq Hc Hh Hid.
  rewrite !Forall_cons in Hs. destruct_and? Hs.
  assert (valid_utf8 (if ChainID st == "" then id else ChainID st) = true) by (by case_bool_decide).
  pose proof (wrapu_range 64 (LastSeq st + 1) ltac:(lia)).
  cbn [LastSeq ChainID LastHash].
  split; [|split; [lia|split; [assumption|apply hexEncode_utf8]]].
  split; [|split; [assumption|split; assumption]].
  cbn [set_digests set_head e_SchemaVersion e_IntegrityVersion e_ChainID e_PrevHash e_Hash e_HMAC e_EventID e_Host
    e_Category e_Severity e_Action e_Decision e_RuleID].
  repeat (apply Forall_cons; split); try assumption; try apply hexEncode_utf8;
    [reflexivity|destruct (present key); [apply hexEncode_utf8|assumption]].
Qed.

(** ** What an accepted log holds *)

Definition is_chain_event (e : Event) : bool := e.(e_IntegrityVersion) == IntegrityVersion.

(** The chain events among the values of a text, with the fuel of the scan. *)
Fixpoint chain_events (fuel : nat) (l : list ascii) : list Event :=
  match fuel, skip_ws l with
  | O, _ | _, [] => []
  | S fuel, l =>
      match next_value l with
      | None => []
      | Some (j, l) =>
          match event_decode j with
          | Some e => if is_chain_event e then e :: chain_events fuel l else chain_events fuel l
          | None => chain_events fuel l
          end
      end
  end.

Definition text_events (l : list ascii) : list Event := chain_events (length l) l.

Definition log_events (fs : files) (path : string) : list Event :=
  concat (map (fun f => text_events (default [] (fs !! f))) (rotatedFiles fs path)).

Definition head_hash (prev : string) (es : list Event) : string := default prev (e_Hash <$> last es).

Lemma head_hash_app prev es1 es2 : head_hash prev (es1 ++ es2) = head_hash (head_hash prev es1) es2.
Proof. unfold head_hash. rewrite last_app. by destruct (last es2). Qed.

Lemma chain_app prev es1 es2 : chain prev (es1 ++ es2) <-> chain prev es1 /\ chain (head_hash prev es1) es2.
Proof.
  revert prev. induction es1 as [|e es1 IH]; intros prev; simpl; [naive_solver|].
  rewrite IH. unfold head_hash. rewrite last_cons. destruct (last es1); simpl; naive_solver.
Qed.

Lemma chain_elem prev es e : chain prev es -> e ∈ es -> exists p, linked p e.
Proof.
  revert prev. induction es as [|x es IH]; intros prev; [intros _ ?%elem_of_nil; done|].
  intros [Hl Hc] [->|Hin]%elem_of_cons; [by exists prev|by eapply IH].
Qed.

Lemma chain_issues_nil line prev e :
  is_chain_event e = true -> chain_issues key line prev e = [] -> linked prev e.
Proof.
  unfold chain_issues, is_chain_event. intros Hv Hi. bool_props.
  apply app_nil in Hi as [H1 [H2 H3]%app_nil].
  split_and!; [done|by destruct (decide (e_PrevHash e = prev)); [|rewrite bool_decide_eq_false_2 in H1]| |].
  - destruct (decide (recomputeHash e prev = e_Hash e)); [done|]. by rewrite bool_decide_eq_false_2 in H2.
  - intros Hk. rewrite Hk in H3. destruct (decide (macOf key (e_Hash e) = e_HMAC e)); [done|].
    by rewrite bool_decide_eq_false_2 in H3.
Qed.

Lemma verify_value_issues s j : exists is_, s_issues (verify_value key s j) = s_issues s ++ is_.
Proof.
  unfold verify_value. destruct (event_decode j) as [e|]; [|by eexists].
  destruct (negb _); simpl; [exists []; by rewrite app_nil_r|by eexists].
Qed.

Lemma verify_stream_issues fuel s l : exists is_, s_issues (verify_stream key fuel s l) = s_issues s ++ is_.
Proof.
  revert s l. induction fuel as [|fuel IH]; intros s l; [exists []; by rewrite app_nil_r|].
  cbn [verify_stream]. destruct (skip_ws l) as [|a t]; [exists []; by rewrite app_nil_r|].
  destruct (next_value (a :: t)) as [[j r]|]; [|by eexists].
  destruct (verify_value_issues s j) as [i1 H1]. destruct (IH (verify_value key s j) r) as [i2 H2].
  exists (i1 ++ i2). by rewrite H2, H1, app_assoc.
Qed.

(** A scan without new issues went over a chain from its head. *)
Lemma verify_stream_chain fuel s l :
  s_issues (verify_stream key fuel s l) = s_issues s ->
  chain (s_prev s) (chain_events fuel l)
  /\ s_prev (verify_stream key fuel s l) = head_hash (s_prev s) (chain_events fuel l).
Proof.
  revert s l. induction fuel as [|fuel IH]; intros s l Hi; [done|].
  cbn [verify_stream chain_events] in *. destruct (skip_ws l) as [|a t]; [done|].
  destruct (next_value (a :: t)) as [[j r]|].
  2: { simpl in Hi. rewrite <- (app_nil_r (s_issues s)) in Hi at 2. by apply app_inv_head in Hi. }
  destruct (verify_value_issues s j) as [i1 H1].
  destruct (verify_stream_issues fuel (verify_value key s j) r) as [i2 H2].
  rewrite H2, H1, <- app_assoc in Hi. rewrite <- (app_nil_r (s_issues s)) in Hi at 2.
  apply app_inv_head, app_nil in Hi as [-> ->]. rewrite app_nil_r in H1, H2.
  destruct (IH (verify_value key s j) r H2) as [Hc Hp]. rewrite Hp. clear Hp.
  unfold verify_value in Hc, H1 |- *. destruct (event_decode j) as [e|].
  2: { simpl in H1. rewrite <- (app_nil_r (s_issues s)) in H1 at 2. by apply app_inv_head in H1. }
  unfold is_chain_event. destruct (e_IntegrityVersion e == IntegrityVersion) eqn:Ev; simpl in Hc, H1 |- *; [|done].
  rewrite <- (app_nil_r (s_issues s)) in H1 at 2. apply app_inv_head in H1.
  split; [split; [by eapply chain_issues_nil|done]|].
  unfold head_hash. rewrite last_cons. by destruct (last _).
Qed.

Lemma verifyOneFile_chain fs s f :
  s_issues (verifyOneFile key fs s f) = s_issues s ->
  chain (s_prev s) (text_events (default [] (fs !! f)))
  /\ s_prev (verifyOneFile key fs s f) = head_hash (s_prev s) (text_events (default [] (fs !! f))).
Proof.
  unfold verifyOneFile. destruct (fs !! f) as [b|]; [by apply verify_stream_chain|].
  simpl. intros Hi. rewrite <- (app_nil_r (s_issues s)) in Hi at 2. by apply app_inv_head in Hi.
Qed.

Lemma verifyOneFile_issues fs s f : exists is_, s_issues (verifyOneFile key fs s f) = s_issues s ++ is_.
Proof. unfold verifyOneFile. destruct (fs !! f); [apply verify_stream_issues|by eexists]. Qed.

Lemma verify_files_issues fs s fpaths :
  exists is_, s_issues (foldl (verifyOneFile key fs) s fpaths) = s_issues s ++ is_.
Proof.
  revert s. induction fpaths as [|f fpaths IH]; intros s; simpl; [exists []; by rewrite app_nil_r|].
  destruct (verifyOneFile_issues fs s f) as [i1 H1]. destruct (IH (verifyOneFile key fs s f)) as [i2 H2].
  exists (i1 ++ i2). by rewrite H2, H1, app_assoc.
Qed.

Lemma verify_files_chain fs s fpaths :
  s_issues (foldl (verifyOneFile key fs) s fpaths) = s_issues s ->
  let es := concat (map (fun f => text_events (default [] (fs !! f))) fpaths) in
  chain (s_prev s) es /\ s_prev (foldl (verifyOneFile key fs) s fpaths) = head_hash (s_prev s) es.
Proof.
  cbv zeta. revert s. induction fpaths as [|f fpaths IH]; intros s Hi; simpl in *; [done|].
  destruct (verifyOneFile_issues fs s f) as [i1 H1].
  destruct (verify_files_issues fs (verifyOneFile key fs s f) fpaths) as [i2 H2].
  rewrite H2, H1, <- app_assoc in Hi. rewrite <- (app_nil_r (s_issues s)) in Hi at 2.
  apply app_inv_head, app_nil in Hi as [-> ->]. rewrite app_nil_r in H1, H2.
  destruct (verifyOneFile_chain fs s f H1) as [Hc Hp]. destruct (IH _ H2) as [Hc2 Hp2].
  rewrite chain_app, head_hash_app, <- Hp. done.
Qed.

(** A log [Verify] accepts is a chain from the empty hash to the reported one. *)
Lemma Verify_chain fs path :
  v_OK (Verify key fs path) = true ->
  chain "" (log_events fs path) /\ v_LastHash (Verify key fs path) = head_hash "" (log_events fs path).
Proof.
  unfold Verify, log_events. destruct (rotatedFiles fs path) as [|f fpaths]; [done|].
  cbn [v_OK v_LastHash]. intros Hok. apply (verify_files_chain fs scan0 (f :: fpaths)).
  by destruct (s_issues _).
Qed.

End Stream.

(** ** Tamper evidence *)

Lemma hex_char_inj x y : 0 <= x < 16 -> 0 <= y < 16 -> hex_char x = hex_char y -> x = y.
Proof.
  intros Hx Hy E. apply (f_equal code) in E. unfold hex_char in E.
  destruct (Z.ltb_spec x 10), (Z.ltb_spec y 10); rewrite !code_byte in E by lia; lia.
Qed.

Lemma hexEncode_inj l m : hexEncode l = hexEncode m -> l = m.
Proof.
  unfold hexEncode. intros E. apply (f_equal bytes) in E. rewrite !bytes_text in E.
  revert m E. induction l as [|a l IH]; intros [|b m]; simpl; try done. intros [= E1 E2 E3].
  assert (forall c, 0 <= code c / 16 < 16 /\ 0 <= code c mod 16 < 16 /\ code c = 16 * (code c / 16) + code c mod 16) as Hc.
  { intros c. pose proof (code_range c). pose proof (Z.div_mod (code c) 16). pose proof (Z.mod_pos_bound (code c) 16). lia. }
  destruct (Hc a) as (? & ? & ?), (Hc b) as (? & ? & ?). f_equal; [|by apply IH].
  apply hex_char_inj in E1, E2; try done. apply code_inj. lia.
Qed.

Lemma hexEncode_no_brace l : Forall (fun a => a <> "{"%char) (bytes (hexEncode l)).
Proof.
  unfold hexEncode. rewrite bytes_text. induction l as [|a l IH]; simpl; [constructor|].
  assert (forall z, 0 <= z < 16 -> hex_char z <> "{"%char) as Hc.
  { intros z Hz E. apply (f_equal code) in E. unfold hex_char in E. change (code "{") with 123 in E.
    destruct (Z.ltb_spec z 10); rewrite code_byte in E by lia; lia. }
  pose proof (code_range a). pose proof (Z.div_mod (code a) 16). pose proof (Z.mod_pos_bound (code a) 16).
  repeat constructor; try (apply Hc; lia). done.
Qed.

Lemma split_at_brace a b x y :
  Forall (fun c => c <> "{"%char) a -> Forall (fun c => c <> "{"%char) b ->
  a ++ "{"%char :: x = b ++ "{"%char :: y -> a = b /\ x = y.
Proof.
  intros Ha. revert b. induction Ha as [|c a Hc _ IH]; intros b Hb E; destruct Hb as [|d b Hd Hb];
    simpl in E; [by simplify_eq|exfalso; congruence|exfalso; congruence|].
  injection E as -> E. destruct (IH b Hb E) as [-> ->]. done.
Qed.

Section Tamper.
Context {DG : Digest} {FT : FloatText} {UC : GoUnicode}.
Variable key : list ascii.

(** What the digest of a chain event is computed from. *)
Definition preimage (e : Event) : list ascii := bytes e.(e_PrevHash) ++ chainEventBytes e.

(** Two events whose digests agree though they were computed from different
    bytes. *)
Definition collision (e1 e2 : Event) : Prop :=
  preimage e1 <> preimage e2 /\ sum256 (preimage e1) = sum256 (preimage e2).

(** Events with the same canonical text and the same digest. *)
Definition agree (e1 e2 : Event) : Prop :=
  chainEventBytes e1 = chainEventBytes e2 /\ e_Hash e1 = e_Hash e2.

Lemma linked_hash prev e : linked key prev e -> e_PrevHash e = prev /\ e_Hash e = hexEncode (sum256 (preimage e)).
Proof. intros (_ & <- & Hh & _). done. Qed.

Lemma chain_head es :
  chain key "" es -> (es = [] /\ head_hash "" es = "") \/ exists m, head_hash "" es = hexEncode (sum256 m).
Proof.
  destruct es as [|e es _] using rev_ind; [by left|]. intros [_ [Hl _]]%chain_app. right.
  exists (preimage e). unfold head_hash. rewrite last_snoc. simpl. by apply linked_hash in Hl as [_ ->].
Qed.

Lemma sum256_hex_nonempty m : hexEncode (sum256 m) <> "".
Proof. apply hexEncode_nonempty. pose proof (sum256_len m). by destruct (sum256 m). Qed.

Lemma chain_head_no_brace es : chain key "" es -> Forall (fun a => a <> "{"%char) (bytes (head_hash "" es)).
Proof.
  intros Hc. destruct (chain_head es Hc) as [[-> _]|[m ->]]; [constructor|apply hexEncode_no_brace].
Qed.

Lemma chains_agree es1 es2 :
  chain key "" es1 -> chain key "" es2 -> head_hash "" es1 = head_hash "" es2 ->
  Forall2 agree es1 es2 \/ exists e1 e2, e1 ∈ es1 /\ e2 ∈ es2 /\ collision e1 e2.
Proof.
  revert es2. induction es1 as [|e1 l1 IH] using rev_ind; intros es2 H1 H2 Hh;
    destruct es2 as [|e2 l2 _] using rev_ind.
  - left. constructor.
  - exfalso. destruct (chain_head _ H2) as [[E _]|[m E]]; [by destruct l2|].
    rewrite <- Hh in E. by apply (sum256_hex_nonempty m).
  - exfalso. destruct (chain_head _ H1) as [[E _]|[m E]]; [by destruct l1|].
    rewrite Hh in E. by apply (sum256_hex_nonempty m).
  - apply chain_app in H1 as [C1 [L1 _]], H2 as [C2 [L2 _]].
    apply linked_hash in L1 as [P1 E1], L2 as [P2 E2].
    unfold head_hash in Hh. rewrite !last_snoc in Hh. simpl in Hh.
    assert (sum256 (preimage e1) = sum256 (preimage e2)) as Hsum by (apply hexEncode_inj; congruence).
    destruct (decide (preimage e1 = preimage e2)) as [Epre|Hne].
    + unfold preimage in Epre. rewrite P1, P2 in Epre.
      apply split_at_brace in Epre as [Ep Et]; [|by apply chain_head_no_brace..].
      assert (head_hash "" l1 = head_hash "" l2) as Eh by (rewrite <- (text_bytes (head_hash "" l1)), Ep; apply text_bytes).
      destruct (IH l2 C1 C2 Eh) as [HF|(a & b & Ha & Hb & Hc)].
      * left. apply Forall2_app; [done|]. constructor; [|constructor]. split; [|done].
        exact (f_equal (cons "{"%char) Et).
      * right. exists a, b. rewrite !elem_of_app. auto.
    + right. exists e1, e2. rewrite !elem_of_app. split_and!; [right; by left..|done].
Qed.

End Tamper.

(** C2. Tamper evidence: if [Verify] accepts two logs and reports the same last
    hash, then the logs hold the same number of chain events and these agree
    pairwise in their canonical text (every field that is hashed) and in their
    digest, unless two of their events are a collision: different bytes with
    the same digest.  This holds for every digest function and whatever else
    was done to the files (lines changed, removed, added or reordered). *)
Theorem tamper_evident {DG : Digest} {FT : FloatText} {UC : GoUnicode} key fs1 path1 fs2 path2 :
  v_OK (Verify key fs1 path1) = true -> v_OK (Verify key fs2 path2) = true ->
  v_LastHash (Verify key fs1 path1) = v_LastHash (Verify key fs2 path2) ->
  Forall2 agree (log_events fs1 path1) (log_events fs2 path2)
  \/ exists e1 e2, e1 ∈ log_events fs1 path1 /\ e2 ∈ log_events fs2 path2 /\ collision e1 e2.
Proof.
  intros [C1 H1]%Verify_chain [C2 H2]%Verify_chain Hh. eapply chains_agree; [done|done|congruence].
Qed.
