(* ===== verification/LogRun.v ===== *)
(** * Runs of the logger

    The files of a log, its rotation, and the theorem that what [Write] wrote
    is accepted by [Verify] across rotated files; recovery of the chain head
    from the log; and the executions in which an untouched log is rejected. *)

From S2P Require Import Prelude GoStrings Json GoJson GoTime Crypto EventLog ChainProofs.

(** ** Names *)

Lemma length_bytes s : length (bytes s) = String.length s.
Proof. unfold bytes. induction s; simpl; auto. Qed.

Lemma from_app s t : from (String.length s) (s +:+ t)%string = t.
Proof.
  unfold from. rewrite bytes_app, <- length_bytes, drop_app_length. apply text_bytes.
Qed.

Lemma string_length_app s t : String.length (s +:+ t)%string = (String.length s + String.length t)%nat.
Proof. rewrite <- !length_bytes, bytes_app. apply length_app. Qed.

Lemma from_app_sep s t : from (S (String.length s)) (s +:+ "/" +:+ t)%string = t.
Proof.
  rewrite <- string_app_assoc. replace (S (String.length s)) with (String.length (s +:+ "/")%string).
  - apply from_app.
  - rewrite string_length_app. simpl. lia.
Qed.

Lemma contains_slash s : contains s "/" = true <-> "/"%char ∈ bytes s.
Proof.
  induction s as [|a s IH].
  - split; [done|]. by intros ?%elem_of_nil.
  - rewrite contains_unfold, orb_true_iff, IH. change (bytes (String a s)) with (a :: bytes s). rewrite elem_of_cons.
    split; (intros [H|H]; [left|by right]).
    + apply prefix_spec in H as [t E]. injection E. congruence.
    + subst. apply prefix_spec. by exists s.
Qed.

Lemma itoa_inj x y : - 2 ^ 63 <= x < 2 ^ 63 -> - 2 ^ 63 <= y < 2 ^ 63 -> itoa x = itoa y -> x = y.
Proof. intros Hx Hy E. apply (f_equal atoi) in E. rewrite !atoi_itoa in E by done. congruence. Qed.

Lemma itoa_no_slash n : 0 <= n -> "/"%char ∉ bytes (itoa n).
Proof.
  intros Hn. unfold itoa. rewrite (proj2 (Z.ltb_ge n 0)), bytes_text by lia.
  destruct (udec_aux_head _ _ (udec_fuel n Hn)) as [Hd _]. apply forallb_Forall in Hd.
  rewrite Forall_forall in Hd. intros Hin. by specialize (Hd _ Hin).
Qed.

(** ** The files of a log in a directory *)

Section Dir.
Variables dir base : string.
Hypothesis dir_ne : dir <> "".
Hypothesis dir_dot : dir <> ".".
Hypothesis base_slash : "/"%char ∉ bytes base.
Definition log_path : string := (dir +:+ "/" +:+ base)%string.
Abbreviation path := log_path.

Lemma parentDir_path : parentDir path = dir.
Proof.
  unfold parentDir, path. rewrite !bytes_app. simpl (bytes "/"). rewrite !rev_app_distr.
  rewrite <- app_assoc. simpl (rev ["/"%char]).
  assert ("/"%char ∉ rev (bytes base)) as Hr by (by rewrite <- Permutation_rev).
  clear base_slash. induction (rev (bytes base)) as [|a l IH]; simpl.
  - rewrite rev_involutive. apply text_bytes.
  - rewrite not_elem_of_cons in Hr. destruct Hr as [Ha Hr].
    rewrite bool_decide_eq_false_2 by congruence. auto.
Qed.

(** The number of a rotated file of this log. *)
Definition rkey (k : string) : option Z := entry_name dir k ≫= rotated_num base.

Lemma rkey_numbered n : 0 < n < 2 ^ 63 -> rkey (numbered path n) = Some n.
Proof.
  intros Hn. unfold rkey, numbered, path.
  replace ((dir +:+ "/" +:+ base) +:+ "." +:+ itoa n)%string
    with (dir +:+ "/" +:+ (base +:+ "." +:+ itoa n))%string by (by rewrite !string_app_assoc).
  unfold entry_name. rewrite bool_decide_eq_false_2 by done.
  unfold hasPrefix. rewrite <- string_app_assoc, prefix_app. rewrite string_app_assoc, from_app_sep. simpl.
  destruct (contains _ "/") eqn:Ec.
  { apply contains_slash in Ec. rewrite !bytes_app, !elem_of_app in Ec. exfalso.
    destruct Ec as [?|[Hd|?]]; [done|by apply list_elem_of_singleton in Hd|by apply (itoa_no_slash n); [lia|]]. }
  simpl. unfold rotated_num, hasPrefix. rewrite <- string_app_assoc, prefix_app. simpl.
  rewrite bool_decide_eq_false_2.
  2: { intros E. apply (f_equal String.length) in E. rewrite !string_length_app in E. simpl in E. lia. }
  replace (S (String.length base)) with (String.length (base +:+ ".")%string)
    by (rewrite string_length_app; simpl; lia).
  rewrite from_app, atoi_itoa by lia. by rewrite (proj2 (Z.ltb_lt 0 n)) by lia.
Qed.

Lemma numbered_inj i j : 0 < i < 2 ^ 63 -> 0 < j < 2 ^ 63 -> numbered path i = numbered path j -> i = j.
Proof. intros Hi Hj E. apply (f_equal rkey) in E. rewrite !rkey_numbered in E by done. congruence. Qed.

Lemma numbered_not_path n : numbered path n <> path.
Proof.
  unfold numbered. intros E. apply (f_equal String.length) in E. rewrite !string_length_app in E. simpl in E. lia.
Qed.

(** The rotated files are exactly [path.1] to [path.k]. *)
Definition backups (fs : files) (k : nat) : Prop :=
  Z.of_nat k < 2 ^ 62
  /\ (forall key n, is_Some (fs !! key) -> rkey key = Some n -> key = numbered path n /\ 0 < n <= Z.of_nat k)
  /\ (forall n, 0 < n <= Z.of_nat k -> is_Some (fs !! numbered path n)).

Fixpoint down (k : nat) : list Z :=
  match k with O => [] | S k => Z.of_nat (S k) :: down k end.

Lemma elem_of_down k n : n ∈ down k <-> 0 < n <= Z.of_nat k.
Proof.
  induction k as [|k IH]; cbn [down]; [rewrite elem_of_nil; lia|]. rewrite elem_of_cons, IH. lia.
Qed.

Lemma down_sorted k : StronglySorted (fun a b => - a <= - b) (down k).
Proof.
  induction k as [|k IH]; cbn [down]; constructor; [done|]. apply Forall_forall. intros n Hn%elem_of_down. lia.
Qed.

Lemma down_nodup k : NoDup (down k).
Proof. induction k as [|k IH]; cbn [down]; constructor; [|done]. rewrite elem_of_down. lia. Qed.

Lemma omap_nodup {A B} (f : A -> option B) l :
  NoDup l -> (forall x y b, x ∈ l -> y ∈ l -> f x = Some b -> f y = Some b -> x = y) -> NoDup (omap f l).
Proof.
  induction 1 as [|x l Hx Hl IH]; intros Hinj; csimpl; [constructor|].
  assert (NoDup (omap f l)) by (apply IH; intros; eapply Hinj; [by right|by right|done..]).
  destruct (f x) as [b|] eqn:E; [|done]. constructor; [|done].
  rewrite list_elem_of_omap. intros (y & Hy & Ey). apply Hx.
  by rewrite (Hinj x y b) by (done || by left || by right).
Qed.

Lemma sort_desc l : sort_stable (fun x y => y <? x) l = sort_stable (fun x y => - x <? - y) l.
Proof.
  assert (forall x l, insert_stable (fun x y => y <? x) x l = insert_stable (fun x y => - x <? - y) x l) as Hi.
  { intros x k. induction k as [|y k IH]; simpl; [done|]. rewrite IH.
    destruct (Z.ltb_spec x y), (Z.ltb_spec (- y) (- x)); try done; lia. }
  induction l as [|x l IH]; simpl; [done|]. by rewrite IH, Hi.
Qed.

Lemma rotatedFiles_backups fs k :
  backups fs k ->
  rotatedFiles fs path = map (numbered path) (down k) ++ (if bool_decide (is_Some (fs !! path)) then [path] else []).
Proof.
  intros (Hk & Hclean & Hall). unfold rotatedFiles. rewrite parentDir_path.
  rewrite (bool_decide_eq_false_2 (dir = ".")), (bool_decide_eq_false_2 (dir = "")) by done.
  assert (from (S (String.length dir)) path = base) as -> by apply from_app_sep. do 2 f_equal. unfold readDir. rewrite (bool_decide_eq_false_2 (dir = "")) by done.
  set (l := omap _ (omap _ _)).
  assert (l = omap (fun kv : string * list ascii => rkey kv.1) (map_to_list fs)) as ->.
  { subst l. induction (map_to_list fs) as [|[k0 v0] m IH]; csimpl; [done|]. unfold rkey at 1.
    destruct (entry_name dir k0) as [nm|]; csimpl; [|done]. destruct (rotated_num base nm); by rewrite IH. }
  rewrite sort_desc. apply (StronglySorted_unique_strong (fun a b => - a <= - b)).
  - intros. lia.
  - apply (sort_stable_sorted Z.opp).
  - apply down_sorted.
  - rewrite sort_stable_perm. apply NoDup_Permutation; [|apply down_nodup|].
    + apply omap_nodup; [apply NoDup_map_to_list|]. intros [k1 v1] [k2 v2] n H1 H2 E1 E2. simpl in *.
      apply elem_of_map_to_list in H1, H2.
      destruct (Hclean k1 n) as [-> _]; [by eexists|done|]. destruct (Hclean k2 n) as [-> _]; [by eexists|done|].
      congruence.
    + intros n. rewrite elem_of_down, list_elem_of_omap. split.
      * intros ([k1 v1] & H1%elem_of_map_to_list & E1). by destruct (Hclean k1 n); [eexists|..].
      * intros Hn. destruct (Hall n Hn) as [v Hv]. exists (numbered path n, v).
        split; [by apply elem_of_map_to_list|]. apply rkey_numbered. lia.
Qed.

(** ** Rotation *)

Lemma rename_lookup src dst fs k :
  src <> dst ->
  rename src dst fs !! k
  = match fs !! src with
    | None => fs !! k
    | Some c => if decide (k = dst) then Some c else if decide (k = src) then None else fs !! k
    end.
Proof.
  intros Hne. unfold rename. destruct (fs !! src) as [c|]; [|done].
  destruct (decide (k = dst)) as [->|]; [by rewrite lookup_insert_eq|].
  rewrite lookup_insert_ne by done. destruct (decide (k = src)) as [->|]; [by rewrite lookup_delete_eq|].
  by rewrite lookup_delete_ne.
Qed.

Lemma shift_spec n fs :
  Z.of_nat n + 1 < 2 ^ 62 -> fs !! numbered path (Z.of_nat n + 1) = None ->
  (forall j, 1 <= j <= Z.of_nat n + 1 ->
     shift n path fs !! numbered path j = if decide (j = 1) then None else fs !! numbered path (j - 1))
  /\ (forall k, (forall j, 1 <= j <= Z.of_nat n + 1 -> k <> numbered path j) -> shift n path fs !! k = fs !! k).
Proof.
  revert fs. induction n as [|n IH]; intros fs Hn Hfree.
  { split; [|done]. intros j Hj. simpl in *. assert (j = 1) as -> by lia. by rewrite decide_True. }
  cbn [shift]. set (src := numbered path (Z.of_nat (S n))). set (dst := numbered path (Z.of_nat (S n) + 1)).
  assert (forall i j, 1 <= i <= Z.of_nat n + 2 -> 1 <= j <= Z.of_nat n + 2 -> i <> j ->
    numbered path i <> numbered path j) as Hinj by (intros i j ? ? Hij E; apply Hij, numbered_inj; (done || lia)).
  assert (src <> dst) as Hsd by (apply Hinj; lia).
  destruct (IH (rename src dst fs)) as [IH1 IH2]; [lia| |].
  { rewrite rename_lookup by done. replace (Z.of_nat n + 1) with (Z.of_nat (S n)) by lia. fold src.
    destruct (fs !! src) eqn:E; [|done]. by rewrite decide_False, decide_True. }
  assert (rename src dst fs !! dst = fs !! src) as Hdst.
  { rewrite rename_lookup by done. destruct (fs !! src); [by rewrite decide_True|done]. }
  split.
  - intros j Hj. destruct (decide (j = Z.of_nat (S n) + 1)) as [->|Hlt].
    + fold dst. rewrite IH2; [|intros i Hi; apply Hinj; lia].
      rewrite decide_False by lia. rewrite Hdst. subst src. f_equal. f_equal. lia.
    + rewrite IH1 by lia. destruct (decide (j = 1)) as [|Hj1]; [done|].
      rewrite rename_lookup by done. destruct (fs !! src); [|done].
      by rewrite !decide_False by (apply Hinj; lia).
  - intros k Hk. rewrite IH2 by (intros j Hj; apply Hk; lia). rewrite rename_lookup by done.
    destruct (fs !! src); [|done]. rewrite !decide_False; [done|apply Hk; lia|apply Hk; lia].
Qed.

(** The events in the rotated files (newest first) and in the current one. *)
Definition segs_on (fs : files) (segs : list (list Event)) (cur : option (list Event)) : Prop :=
  backups fs (length segs)
  /\ (forall i es, segs !! i = Some es -> fs !! numbered path (Z.of_nat i + 1) = Some (log_of es))
  /\ fs !! path = log_of <$> cur.

Lemma path_not_rotated : rkey path = None.
Proof.
  unfold rkey, entry_name, path. rewrite bool_decide_eq_false_2 by done. unfold hasPrefix.
  rewrite <- string_app_assoc, prefix_app, string_app_assoc, from_app_sep. simpl.
  destruct (contains base "/"); [done|]. simpl. unfold rotated_num.
  by rewrite (bool_decide_eq_true_2 (base = base)), orb_true_r.
Qed.

(** A rotation with a free slot keeps every file's content and order. *)
Lemma rotate_segs fs segs cur mb :
  segs_on fs segs (Some cur) -> Z.of_nat (length segs) < mb < 2 ^ 62 ->
  segs_on (rename path (numbered path 1) (shift (Z.to_nat (mb - 1)) path (delete (numbered path mb) fs)))
    (cur :: segs) None.
Proof.
  intros ((Hk & Hclean & Hall) & Hsegs & Hcur) Hmb.
  assert (forall j, Z.of_nat (length segs) < j < 2 ^ 63 -> fs !! numbered path j = None) as Hnone.
  { intros j Hj. destruct (fs !! numbered path j) eqn:E; [|done].
    destruct (Hclean (numbered path j) j); [by eexists|apply rkey_numbered; lia|lia]. }
  rewrite delete_id by (apply Hnone; lia).
  destruct (shift_spec (Z.to_nat (mb - 1)) fs) as [S1 S2]; [lia|apply Hnone; lia|].
  rewrite Z2Nat.id in S1, S2 by lia. replace (mb - 1 + 1) with mb in S1, S2 by lia.
  set (sh := shift _ _ _) in *.
  assert (sh !! path = Some (log_of cur)) as Hp.
  { rewrite S2; [by rewrite Hcur|]. intros j _ E. by apply (numbered_not_path j). }
  assert (forall k, rename path (numbered path 1) sh !! k
    = if decide (k = numbered path 1) then Some (log_of cur) else if decide (k = path) then None else sh !! k) as HR.
  { intros k. rewrite rename_lookup by (intros E; by apply (numbered_not_path 1)). by rewrite Hp. }
  assert (forall j, 2 <= j < 2 ^ 63 -> rename path (numbered path 1) sh !! numbered path j = sh !! numbered path j) as HR2.
  { intros j Hj. rewrite HR, !decide_False; [done|apply numbered_not_path|].
    intros E%numbered_inj; lia. }
  split_and!.
  - split_and!; [simpl; lia| |].
    + intros k n Hsome Hn. rewrite HR in Hsome. destruct (decide (k = numbered path 1)) as [->|Hk1].
      { rewrite rkey_numbered in Hn by lia. injection Hn as <-. split; [done|simpl; lia]. }
      destruct (decide (k = path)); [by destruct Hsome|].
      destruct (decide (k = numbered path n /\ 1 <= n <= mb)) as [[-> Hn1]|Hno].
      { rewrite S1 in Hsome by lia. destruct (decide (n = 1)) as [->|]; [by destruct Hsome|].
        split; [done|]. destruct (Hclean (numbered path (n - 1)) (n - 1) Hsome); [apply rkey_numbered; lia|]. simpl. lia. }
      rewrite S2 in Hsome.
      2: { intros j Hj ->. apply Hno. rewrite rkey_numbered in Hn by lia. naive_solver. }
      destruct (Hclean k n Hsome Hn) as [-> ?]. exfalso. apply Hno. split; [done|lia].
    + intros n Hn. simpl in Hn. destruct (decide (n = 1)) as [->|]; [rewrite HR, decide_True; [by eexists|done]|].
      rewrite HR2, S1, decide_False by lia. apply Hall. lia.
  - intros [|i] es Hi; simpl in Hi.
    { injection Hi as <-. by rewrite HR, decide_True. }
    pose proof (lookup_lt_Some _ _ _ Hi). rewrite HR2, S1, decide_False by lia.
    rewrite <- (Hsegs _ _ Hi). do 2 f_equal. lia.
  - rewrite HR, decide_False, decide_True; [done|done|]. intros E. by apply (numbered_not_path 1).
Qed.

(** ** Writing and verifying *)

Context {DG : Digest} {FT : FloatText} {UC : GoUnicode}.
Variable key : list ascii.

Lemma verify_segs fs segs s :
  (forall i es, segs !! i = Some es -> fs !! numbered path (Z.of_nat i + 1) = Some (log_of es)) ->
  Forall event_ok (concat (rev segs)) -> chain key (s_prev s) (concat (rev segs)) ->
  foldl (verifyOneFile key fs) s (map (numbered path) (down (length segs))) = foldl accepted s (concat (rev segs)).
Proof.
  revert s. induction segs as [|es segs IH] using rev_ind; intros s Hs Hok Hc; [done|].
  rewrite length_app, Nat.add_1_r. cbn [down map foldl]. rewrite rev_app_distr in *. simpl in Hok, Hc |- *.
  apply Forall_app in Hok as [Hok1 Hok2]. apply chain_app in Hc as [Hc1 Hc2].
  rewrite foldl_app. unfold verifyOneFile at 2.
  replace (Z.of_nat (S (length segs))) with (Z.of_nat (length segs) + 1) by lia.
  rewrite (Hs (length segs) es) by (rewrite lookup_app_r, Nat.sub_diag by lia; done).
  fold (scan_text key s (log_of es)). rewrite <- (app_nil_r (log_of es)).
  rewrite scan_text_chain by done. rewrite scan_text_nil. apply IH.
  - intros i es' Hi. apply Hs. by rewrite lookup_app_l by (by eapply lookup_lt_Some).
  - done.
  - destruct (foldl_accepted s es) as (-> & _). done.
Qed.

(** The log of [fs] holds exactly the events [es], in order, and the head of
    the writer is their head. *)
Definition log_inv (l : Logger) (fs : files) (es : list Event) : Prop :=
  (l_path l = path /\ l_maxBackups l < 2 ^ 62
   /\ cw_enabled (l_chain l) = true /\ newHasher (cw_algo (l_chain l)) = true /\ cw_key (l_chain l) = key
   /\ rkey (cw_statePth (l_chain l)) = None /\ cw_statePth (l_chain l) <> path)
  /\ (exists segs cur, segs_on fs segs cur /\ es = concat (rev segs) ++ default [] cur)
  /\ Forall event_ok es /\ chain key "" es
  /\ LastHash (cw_state (l_chain l)) = head_hash "" es
  /\ LastSeq (cw_state (l_chain l)) = wrapu 64 (Z.of_nat (length es))
  /\ (es <> [] -> default 0 (e_Seq <$> last es) = wrapu 64 (Z.of_nat (length es)))
  /\ valid_utf8 (ChainID (cw_state (l_chain l))) = true
  /\ Forall (fun e => e_ChainID e = ChainID (cw_state (l_chain l)) /\ e_ChainID e <> "") es.

Lemma log_inv_verifies l fs es :
  log_inv l fs es -> es <> [] ->
  Verify key fs path
  = mkResult true (wrapu 64 (Z.of_nat (length es))) (LastHash (cw_state (l_chain l))) IntegrityVersion (present key)
      (Z.of_nat (length es)) (Z.of_nat (length es)) 0 [] [].
Proof.
  intros (_ & (segs & cur & (Hb & Hs & Hcur) & ->) & Hok & Hc & Hh & _ & Hseq & _) Hne.
  specialize (Hseq Hne). apply Forall_app in Hok as [Ho1 Ho2]. pose proof Hc as Hc0. apply chain_app in Hc as [Hc1 Hc2].
  set (es := concat (rev segs) ++ default [] cur) in *.
  assert (foldl (verifyOneFile key fs) scan0 (rotatedFiles fs path) = foldl accepted scan0 es) as Hscan.
  { rewrite (rotatedFiles_backups fs _ Hb), foldl_app, verify_segs by done.
    subst es. rewrite foldl_app. rewrite Hcur. destruct cur as [c|]; cbn [fmap option_fmap option_map].
    - rewrite bool_decide_eq_true_2 by (by eexists). cbn [foldl default]. unfold verifyOneFile. rewrite Hcur.
      cbn [fmap option_fmap option_map]. fold (scan_text key (foldl accepted scan0 (concat (rev segs))) (log_of c)).
      rewrite <- (app_nil_r (log_of c)), scan_text_chain; [done|done|].
      destruct (foldl_accepted scan0 (concat (rev segs))) as (-> & _). done.
    - rewrite bool_decide_eq_false_2 by (by intros [? ?]). done. }
  unfold Verify. assert (rotatedFiles fs path <> []) as Hrf.
  { intros E. rewrite E in Hscan. simpl in Hscan. apply (f_equal s_chainLines) in Hscan.
    destruct (foldl_accepted scan0 es) as (_ & _ & _ & E2 & _). rewrite E2 in Hscan. simpl in Hscan.
    destruct es; [done|simpl in Hscan; lia]. }
  destruct (rotatedFiles fs path) as [|f fps] eqn:Erf; [done|]. rewrite Hscan.
  destruct (foldl_accepted scan0 es) as (E1 & E2 & E3 & E4 & E5 & E6).
  assert (s_legacy (foldl accepted scan0 es) = None /\ s_segments (foldl accepted scan0 es) = []
    /\ s_algorithm (foldl accepted scan0 es) = IntegrityVersion) as (-> & -> & ->).
  { clear -Hne. assert (forall es s, s_legacy s = None -> s_segments s = [] -> es <> [] ->
      s_legacy (foldl accepted s es) = None /\ s_segments (foldl accepted s es) = []
      /\ s_algorithm (foldl accepted s es) = IntegrityVersion) as Hgen.
    { clear. induction es as [|e es IH]; intros s Hl Hg Hn; [done|]. cbn [foldl].
      destruct es as [|e2 es]; [simpl; by rewrite Hl, Hg|]. apply IH; simpl; [done|by rewrite Hl, Hg|done]. }
    by apply Hgen. }
  rewrite E1, E2, E3, E4, E5, E6, Hh. cbn [scan0 s_prev s_seq s_issues s_chainLines s_legacyLines s_scanned].
  rewrite Hseq. done.
Qed.

(** The files of the log: the current one and those with a number. *)
Definition of_log (k : string) : Prop := k = path \/ is_Some (rkey k).

Lemma numbered_of_log n : 0 < n < 2 ^ 63 -> of_log (numbered path n).
Proof. intros Hn. right. rewrite rkey_numbered by done. by eexists. Qed.

(** Only the files of the log matter to it. *)
Lemma segs_on_agree fs fs' segs cur :
  (forall k, of_log k -> fs' !! k = fs !! k) -> segs_on fs segs cur -> segs_on fs' segs cur.
Proof.
  intros Heq ((H1 & H2 & H3) & Hs & Hc). split_and!.
  - split_and!; [done| |].
    + intros k n Hsome Hr. rewrite Heq in Hsome by (right; by rewrite Hr). by apply H2.
    + intros n Hn. rewrite Heq by (apply numbered_of_log; lia). by apply H3.
  - intros i es Hi. pose proof (lookup_lt_Some _ _ _ Hi). rewrite Heq by (apply numbered_of_log; lia). by apply Hs.
  - rewrite Heq by (by left). done.
Qed.

Lemma segs_on_ext fs fs' segs cur k :
  rkey k = None -> k <> path -> (forall k', k' <> k -> fs' !! k' = fs !! k') ->
  segs_on fs segs cur -> segs_on fs' segs cur.
Proof.
  intros Hk Hp Heq. apply segs_on_agree. intros k' Hk'. apply Heq. intros ->.
  destruct Hk' as [->|[n Hn]]; [done|congruence].
Qed.

Lemma segs_on_insert fs segs cur k v :
  rkey k = None -> k <> path -> segs_on fs segs cur -> segs_on (<[k := v]> fs) segs cur.
Proof. intros Hk Hp. apply (segs_on_ext _ _ _ _ k); [done|done|]. intros k' ?. by apply lookup_insert_ne. Qed.

Lemma log_of_snoc es e : log_of (es ++ [e]) = log_of es ++ event_text e ++ [byte 10].
Proof. unfold log_of. rewrite map_app, concat_app. cbn [map concat]. by rewrite app_nil_r. Qed.

Lemma segs_on_append fs segs cur e :
  segs_on fs segs cur ->
  segs_on (append path (event_text e ++ [byte 10]) fs) segs (Some (default [] cur ++ [e])).
Proof.
  intros ((H1 & H2 & H3) & Hs & Hc). unfold append.
  assert (default [] (fs !! path) = log_of (default [] cur)) as -> by (rewrite Hc; by destruct cur).
  assert (forall n v, <[path := v]> fs !! numbered path n = fs !! numbered path n) as Hn.
  { intros n v. apply lookup_insert_ne. intros E. by apply (numbered_not_path n). }
  split_and!.
  - split_and!; [done| |].
    + intros k' n Hsome Hr. destruct (decide (k' = path)) as [->|]; [by rewrite path_not_rotated in Hr|].
      rewrite lookup_insert_ne in Hsome by done. by apply H2.
    + intros n Hn'. rewrite Hn. by apply H3.
  - intros i es Hi. rewrite Hn. by apply Hs.
  - rewrite lookup_insert_eq. cbn [fmap option_fmap option_map]. by rewrite log_of_snoc.
Qed.

(** The slot the next rotation would empty is free, or there is no rotation. *)
Definition room (l : Logger) (fs : files) : Prop :=
  l_maxBytes l <= 0 \/ fs !! numbered path (if l_maxBackups l <=? 0 then 1 else l_maxBackups l) = None.

(** The operating system lets the call through; only the state file may fail. *)
Definition quiet (f : faults) : Prop :=
  f_stat f = false /\ f_rename f = false /\ f_open f = false /\ f_write f = false.

Lemma rotate_keeps l fs f n segs cur :
  segs_on fs segs cur -> l_path l = path -> l_maxBackups l < 2 ^ 62 -> room l fs -> quiet f ->
  exists l' fs' segs' cur',
    rotateIfNeeded l fs f n = (false, l', fs') /\ segs_on fs' segs' cur'
    /\ concat (rev segs') ++ default [] cur' = concat (rev segs) ++ default [] cur
    /\ (l' = l \/ l' = with_maxBackups l 1).
Proof.
  intros Hs Hp Hmb Hroom (Q1 & Q2 & _). unfold rotateIfNeeded. rewrite Q1, Hp.
  destruct (Z.leb_spec (l_maxBytes l) 0); [by exists l, fs, segs, cur; auto|].
  pose proof Hs as Hs0. destruct Hs0 as ((Hk & Hclean & Hall) & _ & Hc). rewrite Hc.
  destruct cur as [c|]; cbn [fmap option_fmap option_map]; [|by exists l, fs, segs, None; auto].
  destruct (_ <=? l_maxBytes l); [by exists l, fs, segs, (Some c); auto|]. rewrite Q2.
  destruct Hroom as [|Hroom]; [lia|].
  set (mb := if l_maxBackups l <=? 0 then 1 else l_maxBackups l) in *.
  assert (1 <= mb < 2 ^ 62) as Hmb1 by (subst mb; destruct (Z.leb_spec (l_maxBackups l) 0); lia).
  assert (Z.of_nat (length segs) < mb) as Hlt.
  { destruct (Z.lt_ge_cases (Z.of_nat (length segs)) mb); [done|].
    destruct (Hall mb) as [v Hv]; [lia|congruence]. }
  pose proof (rotate_segs fs segs c mb Hs ltac:(lia)) as Hr.
  exists (if l_maxBackups l <=? 0 then with_maxBackups l 1 else l). eexists _, (c :: segs), None.
  split_and!; [|exact Hr|simpl; by rewrite concat_app; simpl; rewrite !app_nil_r|destruct (l_maxBackups l <=? 0); auto].
  subst mb. destruct (l_maxBackups l <=? 0); simpl; by rewrite ?Hp.
Qed.

(** What the caller supplied of an event. *)
Definition caller_part (e : Event) : Event := set_digests (set_head e "" "" 0 "") "" "".

Lemma Write_step l fs es f now hostname id e :
  log_inv l fs es -> room l fs -> quiet f -> event_ok (fill l now hostname e) -> valid_utf8 id = true -> id <> "" ->
  exists l' fs' out e',
    Write l fs f now hostname id e = (None, l', fs', out) /\ log_inv l' fs' (es ++ [e'])
    /\ caller_part e' = caller_part (fill l now hostname e) /\ l_host l' = l_host l.
Proof.
  intros ((Hp & Hmb & He & Ha & Hkey & Hst & Hst') & (segs & cur & Hsegs & ->) & Hok & Hc & Hh & Hq & Hqs & Hci & Hids)
    Hroom Hquiet Hev Hid Hidne.
  set (es := concat (rev segs) ++ default [] cur) in *.
  unfold Write, Seal. rewrite He. cbn [negb].
  set (e0 := fill l now hostname e) in *. rewrite Hkey.
  destruct (sealChain (cw_state (l_chain l)) e0 key (cw_algo (l_chain l)) id) as [[[raw st] e']|] eqn:Es.
  2: { exfalso. unfold sealChain in Es. by rewrite Ha in Es. }
  destruct (sealChain_linked key _ _ _ _ _ _ _ Es) as (Hl & -> & Hlh & Hls & Hsq & Hcid & Hcsame & Hcnew).
  assert (valid_utf8 (LastHash (cw_state (l_chain l))) = true) as Hvh.
  { rewrite Hh. destruct (chain_head key es Hc) as [[-> _]|[m ->]]; [done|apply hexEncode_utf8]. }
  destruct (sealChain_ok key _ _ _ _ _ _ _ Es Hev) as (Hoke & _ & Hvc & _);
    [rewrite Hq; by apply wrapu_range|done|done|done|].
  assert (caller_part e' = caller_part e0) as Hcaller.
  { unfold sealChain in Es. destruct (negb _); [done|]. apply some_triple in Es as (_ & _ & <-). reflexivity. }
  set (l1 := with_chain l (with_state (l_chain l) st)).
  set (fs1 := if negb (f_saveState f) then saveState fs (cw_statePth (l_chain l)) st else fs).
  assert (segs_on fs1 segs cur) as Hsegs1.
  { subst fs1. destruct (negb _); [|done]. by apply segs_on_insert. }
  assert (room l1 fs1) as Hroom1.
  { destruct Hroom as [|Hr]; [by left|]. right. subst fs1. destruct (negb _); [|done].
    unfold saveState. cbn [l1 with_chain l_maxBackups]. rewrite lookup_insert_ne; [done|].
    intros E. rewrite E, rkey_numbered in Hst; [done|]. destruct (Z.leb_spec (l_maxBackups l) 0); lia. }
  destruct (rotate_keeps l1 fs1 f (Z.of_nat (length (event_text e' ++ [byte 10]))) segs cur Hsegs1 Hp Hmb Hroom1 Hquiet)
    as (l2 & fs2 & segs' & cur' & -> & Hsegs2 & Hsame & Hl2).
  destruct Hquiet as (_ & _ & -> & ->). eexists _, _, _, e'. split; [reflexivity|].
  assert (l_path l2 = path /\ l_maxBackups l2 < 2 ^ 62 /\ l_chain l2 = with_state (l_chain l) st /\ l_host l2 = l_host l)
    as (Hp2 & Hmb2 & Hc2 & Hh2).
  { destruct Hl2 as [->| ->]; simpl; split_and!; done. }
  split_and!; [|done|done]. rewrite Hp2.
  unfold log_inv. rewrite Hc2. cbn [with_state cw_enabled cw_algo cw_key cw_state cw_statePth].
  split_and!; try done.
  - exists segs', (Some (default [] cur' ++ [e'])). split; [by apply segs_on_append|].
    simpl. by rewrite app_assoc, Hsame.
  - apply Forall_app. split; [done|]. by constructor.
  - apply chain_app. split; [done|]. rewrite <- Hh. done.
  - rewrite head_hash_app. unfold head_hash. simpl. done.
  - rewrite Hls, Hsq, Hq, length_app. unfold wrapu. rewrite Zplus_mod_idemp_l. f_equal. simpl. lia.
  - intros _. rewrite last_snoc. simpl. rewrite Hsq, Hq, length_app. unfold wrapu. rewrite Zplus_mod_idemp_l. f_equal. simpl. lia.
  - assert (ChainID st <> "") as Hne.
    { destruct (decide (ChainID (cw_state (l_chain l)) = "")) as [E|E]; [by rewrite Hcnew|by rewrite Hcsame]. }
    apply Forall_app_2; [|repeat constructor; congruence].
    destruct (decide (ChainID (cw_state (l_chain l)) = "")) as [E|E]; [|by rewrite Hcsame].
    eapply Forall_impl; [exact Hids|]. simpl. intros x [E1 E2]. congruence.
Qed.

(** *** Runs *)

(** A call of [Write] and what its environment does during it. *)
Record request := mkRequest {
  rq_faults : faults; rq_now : Time; rq_hostname : string; rq_freshID : string; rq_event : Event;
}.

Definition do_write (l : Logger) (fs : files) (r : request) : option log_err * Logger * files * outputs :=
  Write l fs r.(rq_faults) r.(rq_now) r.(rq_hostname) r.(rq_freshID) r.(rq_event).

Fixpoint write_all (l : Logger) (fs : files) (rs : list request) : list (option log_err) * Logger * files :=
  match rs with
  | [] => ([], l, fs)
  | r :: rs =>
      let '(err, l1, fs1, _) := do_write l fs r in
      let '(errs, l2, fs2) := write_all l1 fs1 rs in (err :: errs, l2, fs2)
  end.

(** No rotation of the run has to discard a file. *)
Fixpoint room_along (l : Logger) (fs : files) (rs : list request) : Prop :=
  match rs with
  | [] => True
  | r :: rs => room l fs /\ room_along (do_write l fs r).1.1.2 (do_write l fs r).1.2 rs
  end.

Definition request_ok (host : string) (r : request) : Prop :=
  quiet r.(rq_faults) /\ valid_utf8 r.(rq_freshID) = true /\ r.(rq_freshID) <> ""
  /\ event_ok (fill (mkLogger "" host false 0 0 (mkChainWriter false [] "" zeroState "") None noRemote)
                 r.(rq_now) r.(rq_hostname) r.(rq_event)).

Lemma fill_host l l' now h e : l_host l = l_host l' -> fill l now h e = fill l' now h e.
Proof. unfold fill. by intros ->. Qed.

Lemma write_all_inv l fs es rs :
  log_inv l fs es -> Forall (request_ok (l_host l)) rs -> room_along l fs rs ->
  exists errs l' fs' es',
    write_all l fs rs = (errs, l', fs') /\ Forall (fun e => e = None) errs /\ log_inv l' fs' (es ++ es')
    /\ length es' = length rs /\ l_host l' = l_host l.
Proof.
  revert l fs es. induction rs as [|r rs IH]; intros l fs es Hinv Hrs Hroom.
  { exists [], l, fs, []. rewrite app_nil_r. by split_and!. }
  apply Forall_cons in Hrs as [(Hq & Hid & Hidne & Hev) Hrs]. destruct Hroom as [Hr Hroom].
  rewrite (fill_host _ l) in Hev by done.
  destruct (Write_step l fs es _ _ _ _ _ Hinv Hr Hq Hev Hid Hidne) as (l1 & fs1 & out & e' & Hw & Hinv1 & _ & Hh).
  cbn [write_all room_along] in *. unfold do_write in *. rewrite Hw in Hroom |- *. cbn [fst snd] in Hroom.
  destruct (IH l1 fs1 _ Hinv1) as (errs & l2 & fs2 & es' & -> & He & Hinv2 & Hlen & Hh2); [by rewrite Hh|done|].
  exists (None :: errs), l2, fs2, (e' :: es'). rewrite <- app_assoc in Hinv2.
  split_and!; [done|by constructor|done|simpl; lia|congruence].
Qed.

(** A logger with an enabled chain and no log on disk yet. *)
Definition fresh_log (l : Logger) (fs : files) : Prop :=
  (l_path l = path /\ l_maxBackups l < 2 ^ 62
   /\ cw_enabled (l_chain l) = true /\ newHasher (cw_algo (l_chain l)) = true /\ cw_key (l_chain l) = key
   /\ rkey (cw_statePth (l_chain l)) = None /\ cw_statePth (l_chain l) <> path)
  /\ cw_state (l_chain l) = zeroState /\ backups fs 0 /\ fs !! path = None.

Lemma fresh_log_inv l fs : fresh_log l fs -> log_inv l fs [].
Proof.
  intros (Hcfg & Hst & Hb & Hp). unfold log_inv. rewrite Hst. split; [exact Hcfg|]. split.
  { exists [], None. split; [|done]. by split_and!. }
  by split_and!.
Qed.

End Dir.

(** ** Recovery of the chain head *)

(** A line of the log without its end is an event text. *)
Lemma event_text_line {FT : FloatText} e :
  event_ok e -> Forall (fun a => a <> byte 10) (event_text e) /\ drop_cr (event_text e) = event_text e.
Proof.
  intros Hok. pose proof (print_printable _ _ (event_json_ok e Hok)) as Hp. split.
  - eapply Forall_impl; [exact Hp|]. unfold printable. intros a Ha ->. by vm_compute in Ha.
  - unfold drop_cr, event_text.
    change (print (JObj (event_members e)))
      with (("{"%char :: commas (map (fun kv => quote kv.1 ++ ":"%char :: print kv.2) (event_members e))) ++ ["}"%char]).
    by rewrite rev_app_distr.
Qed.

Lemma split_lines_app l r cur :
  Forall (fun a => a <> byte 10) l -> split_lines (l ++ byte 10 :: r) cur = (rev cur ++ l) :: split_lines r [].
Proof.
  intros Hl. revert cur. induction Hl as [|a l Ha _ IH]; intros cur; cbn [app split_lines].
  - rewrite bool_decide_eq_true_2 by done. by rewrite app_nil_r.
  - rewrite bool_decide_eq_false_2 by done. rewrite IH. simpl. by rewrite <- app_assoc.
Qed.

Definition short (e : Event) : Prop := Z.of_nat (length (event_text e)) < maxLine.

Lemma scanLines_log {FT : FloatText} es : Forall event_ok es -> Forall short es -> scanLines (log_of es) = map event_text es.
Proof.
  intros Hok Hs. unfold scanLines. induction Hok as [|e es He _ IH]; [done|].
  apply Forall_cons in Hs as [Hs1 Hs2]. unfold log_of. cbn [map concat]. rewrite <- app_assoc. cbn [app].
  destruct (event_text_line e He) as [Hl Hcr]. rewrite split_lines_app by done. cbn [rev app fitting].
  rewrite (proj2 (Z.ltb_lt _ maxLine)) by done. rewrite Hcr. f_equal. by apply IH.
Qed.

Section Recover.
Context {DG : Digest} {FT : FloatText} {UC : GoUnicode}.
Variables (key : list ascii) (algo : string) (hasKey : bool).

(** The state an event of the chain stands for. *)
Definition state_of (e : Event) : ChainState :=
  mkChainState e.(e_ChainID) e.(e_Seq) e.(e_Hash) e.(e_HMAC) algo false hasKey.

Definition recoverable (e : Event) : Prop :=
  event_ok e /\ short e /\ e_IntegrityVersion e = IntegrityVersion /\ e_Hash e <> "" /\ e_ChainID e <> "".

Lemma recoverLine_event st e : recoverable e -> recoverLine algo hasKey st (event_text e) = Some (state_of e).
Proof.
  intros (Hok & _ & Hv & Hh & Hc). destruct (event_roundtrip e Hok) as (e' & He' & Hs).
  unfold recoverLine, event_unmarshal, event_text. rewrite <- (app_nil_r (print _)).
  rewrite parse_print by (constructor || by apply event_json_ok). cbn [mbind option_bind]. rewrite He'.
  destruct Hs as (su & ob & ev & -> & _). cbn [e_IntegrityVersion e_Hash e_ChainID]. rewrite Hv.
  rewrite bool_decide_eq_true_2 by done. by rewrite !bool_decide_eq_false_2 by done.
Qed.

Lemma recover_lines st es :
  Forall recoverable es ->
  foldl (recoverLine algo hasKey) st (scanLines (log_of es)) = default st (Some <$> (state_of <$> last es)).
Proof.
  intros Hes. rewrite scanLines_log by (eapply Forall_impl; [exact Hes|]; intros e He; apply He).
  revert st. induction Hes as [|e es He _ IH]; intros st; [done|]. cbn [map foldl].
  rewrite recoverLine_event, IH by done. rewrite last_cons. by destruct (last es).
Qed.

(** The fold over the files of a log. *)
Definition recover_file (fs : files) (st : option ChainState) (fpath : string) : option ChainState :=
  match fs !! fpath with None => st | Some b => foldl (recoverLine algo hasKey) st (scanLines b) end.

Lemma recover_segs dir base fs segs st :
  (forall i es, segs !! i = Some es -> fs !! numbered (log_path dir base) (Z.of_nat i + 1) = Some (log_of es)) ->
  Forall recoverable (concat (rev segs)) ->
  foldl (recover_file fs) st (map (numbered (log_path dir base)) (down (length segs)))
  = default st (Some <$> (state_of <$> last (concat (rev segs)))).
Proof.
  revert st. induction segs as [|es segs IH] using rev_ind; intros st Hs Hok; [done|].
  rewrite length_app, Nat.add_1_r. cbn [down map foldl]. rewrite rev_app_distr in *. simpl in Hok |- *.
  apply Forall_app in Hok as [Hok1 Hok2]. unfold recover_file at 2.
  replace (Z.of_nat (S (length segs))) with (Z.of_nat (length segs) + 1) by lia.
  rewrite (Hs (length segs) es) by (rewrite lookup_app_r, Nat.sub_diag by lia; done).
  rewrite recover_lines by done. rewrite IH; [|intros i es' Hi; apply Hs; by rewrite lookup_app_l by (by eapply lookup_lt_Some)|done].
  rewrite last_app. destruct (last (concat (rev segs))); [done|]. by destruct (last es).
Qed.

End Recover.

Lemma recoverFromLog_inv {DG : Digest} {FT : FloatText} {UC : GoUnicode} dir base key l fs es e algo hk :
  dir <> "" -> dir <> "." -> "/"%char ∉ bytes base ->
  log_inv dir base key l fs (es ++ [e]) -> Forall short (es ++ [e]) ->
  recoverFromLog fs algo hk (log_path dir base) = Some (state_of algo (present hk) e).
Proof.
  intros H1 H2 H3 (_ & (segs & cur & (Hb & Hs & Hcur) & E) & Hok & Hc & _ & _ & _ & _ & Hids) Hshort.
  assert (Forall recoverable (es ++ [e])) as Hrec.
  { rewrite Forall_forall in *. intros x Hx. split; [by apply Hok|]. split; [by apply Hshort|].
    destruct (chain_elem key _ _ _ Hc Hx) as (p & Hv & _ & Hh & _). split; [done|]. split; [|by apply Hids].
    rewrite Hh. apply sum256_hex_nonempty. }
  rewrite E in Hrec. apply Forall_app in Hrec as [Hr1 Hr2].
  unfold recoverFromLog. change (foldl _ None ?l) with (foldl (recover_file algo (present hk) fs) None l).
  rewrite (rotatedFiles_backups dir base H1 H2 H3 fs _ Hb), !foldl_app, recover_segs by done.
  rewrite Hcur. destruct cur as [c|]; simpl in E; cbn [fmap option_fmap option_map] in *.
  - rewrite bool_decide_eq_true_2 by (by eexists). cbn [foldl]. unfold recover_file. rewrite Hcur.
    cbn [fmap option_fmap option_map]. rewrite !recover_lines by done.
    destruct (last c) as [x|] eqn:El.
    + assert (last (es ++ [e]) = Some x) as Ex by (by rewrite E, last_app, El).
      rewrite last_snoc in Ex. by injection Ex as <-.
    + apply last_None in El as ->. rewrite app_nil_r in E. rewrite <- E, last_snoc. done.
  - rewrite bool_decide_eq_false_2 by (by intros [? ?]). cbn [foldl]. unfold recover_file. rewrite Hcur.
    cbn [fmap option_fmap option_map]. rewrite app_nil_r in E. by rewrite <- E, last_snoc.
Qed.

(** C1. What is written verifies: a run of [Write] calls that starts without a
    log, in which the system refuses at most the writing of the state file and
    no rotation has to discard a backup, reports no error, and then [Verify],
    with the writer's key, accepts the log over all rotated files: as many
    chain events as there were calls, no legacy lines, no issues, and the
    writer's own sequence number and hash as the head.  The events have valid
    UTF-8 strings and attributes whose JSON text survives a decode: maps and
    plain values, but no structs, which the evidence of a response holds
    ([struct_attribute_rejected]). *)
Theorem written_log_verifies {DG : Digest} {FT : FloatText} {UC : GoUnicode} dir base key l fs rs errs l' fs' :
  dir <> "" -> dir <> "." -> "/"%char ∉ bytes base ->
  fresh_log dir base key l fs -> rs <> [] -> Forall (request_ok (l_host l)) rs -> room_along dir base l fs rs ->
  write_all l fs rs = (errs, l', fs') ->
  Forall (fun e => e = None) errs
  /\ LastSeq (cw_state (l_chain l')) = wrapu 64 (Z.of_nat (length rs))
  /\ Verify key fs' (log_path dir base)
     = mkResult true (LastSeq (cw_state (l_chain l'))) (LastHash (cw_state (l_chain l'))) IntegrityVersion
         (present key) (Z.of_nat (length rs)) (Z.of_nat (length rs)) 0 [] [].
Proof.
  intros H1 H2 H3 Hf Hne Hrs Hroom Hw. pose proof (fresh_log_inv _ _ _ _ _ Hf) as Hinv0.
  edestruct (write_all_inv dir base) as (errs2 & l2 & fs2 & es & Hw2 & He & Hinv & Hlen & _);
    [done..|exact Hinv0|exact Hrs|exact Hroom|].
  rewrite Hw in Hw2. injection Hw2 as <- <- <-. split; [done|]. simpl in Hinv. rewrite <- Hlen in *.
  assert (LastSeq (cw_state (l_chain l')) = wrapu 64 (Z.of_nat (length es))) as Hs by apply Hinv.
  split; [done|]. rewrite Hs. eapply log_inv_verifies; [done..|]. intros ->. by destruct rs.
Qed.

Lemma split_lines_log {FT : FloatText} es : Forall event_ok es -> split_lines (log_of es) [] = map event_text es.
Proof.
  induction 1 as [|e es He _ IH]; [done|]. unfold log_of. cbn [map concat]. rewrite <- app_assoc. cbn [app].
  rewrite split_lines_app by (by apply event_text_line). by f_equal.
Qed.

(** Every line of the log fits the buffer of the recovery's line scanner. *)
Definition lines_fit (fs : files) (path : string) : Prop :=
  Forall (fun f => Forall (fun ln => Z.of_nat (length ln) < maxLine) (split_lines (default [] (fs !! f)) []))
    (rotatedFiles fs path).

Lemma lines_fit_true fs path :
  forallb (fun f => forallb (fun ln => Z.of_nat (length ln) <? maxLine) (split_lines (default [] (fs !! f)) []))
    (rotatedFiles fs path) = true -> lines_fit fs path.
Proof.
  intros Hall. apply forallb_Forall in Hall. eapply Forall_impl; [exact Hall|]. intros f Hf.
  apply forallb_Forall in Hf. eapply Forall_impl; [exact Hf|]. intros ln. apply Z.ltb_lt.
Qed.

Lemma lines_fit_short {DG : Digest} {FT : FloatText} {UC : GoUnicode} dir base key l fs es :
  dir <> "" -> dir <> "." -> "/"%char ∉ bytes base ->
  log_inv dir base key l fs es -> lines_fit fs (log_path dir base) -> Forall short es.
Proof.
  intros H1 H2 H3 (_ & (segs & cur & (Hb & Hs & Hcur) & ->) & Hok & _) Hfit.
  unfold lines_fit in Hfit. rewrite (rotatedFiles_backups dir base H1 H2 H3 fs _ Hb) in Hfit.
  apply Forall_app in Hok as [Hok1 Hok2]. apply Forall_app in Hfit as [Hf1 Hf2].
  assert (forall es, Forall event_ok es -> Forall (fun ln => Z.of_nat (length ln) < maxLine) (split_lines (log_of es) []) ->
    Forall short es) as Hline.
  { intros es Hes Hl. by rewrite split_lines_log, Forall_map in Hl. }
  apply Forall_app_2.
  - apply Forall_concat in Hok1. rewrite Forall_forall in Hok1. rewrite Forall_map, Forall_forall in Hf1.
    apply Forall_concat. rewrite Forall_forall. intros es Hes. apply Hline; [by apply Hok1|].
    rewrite <- Permutation_rev in Hes. apply list_elem_of_lookup in Hes as [i Hi].
    pose proof (lookup_lt_Some _ _ _ Hi). specialize (Hf1 (Z.of_nat i + 1)). rewrite elem_of_down in Hf1.
    specialize (Hf1 ltac:(lia)). by rewrite (Hs _ _ Hi) in Hf1.
  - rewrite Hcur in Hf2. destruct cur as [c|]; [|done]. simpl in Hf2.
    rewrite Forall_singleton, Hcur in Hf2. simpl in Hf2. by apply Hline.
Qed.

(** A writer made over a log whose state file says nothing has the head of the
    log. *)
Lemma newChainWriter_recovers {DG : Digest} {FT : FloatText} {UC : GoUnicode} dir base key l fs es opts :
  dir <> "" -> dir <> "." -> "/"%char ∉ bytes base -> log_inv dir base key l fs es -> es <> [] -> Forall short es ->
  EnableChain opts = true -> default zeroState (loadState fs (statePathFor opts (log_path dir base))) = zeroState ->
  let st := cw_state (newChainWriter fs (log_path dir base) opts) in
  ChainID st = ChainID (cw_state (l_chain l)) /\ LastSeq st = LastSeq (cw_state (l_chain l))
  /\ LastHash st = LastHash (cw_state (l_chain l)).
Proof.
  intros H1 H2 H3 Hinv Hne Hshort Hen Hlost. destruct es as [|e es _] using rev_ind; [done|].
  unfold newChainWriter. rewrite Hen. cbn [negb]. rewrite Hlost. cbn [zeroState ChainID LastHash].
  rewrite bool_decide_eq_true_2 by done. cbn [orb].
  rewrite (recoverFromLog_inv dir base key l fs es e) by done. cbn [cw_state default state_of ChainID LastSeq LastHash].
  destruct Hinv as (_ & _ & _ & _ & Hh & Hq & Hqs & _ & Hids).
  rewrite Hh, Hq, <- Hqs by (by destruct es). rewrite head_hash_app, last_snoc.
  apply Forall_app in Hids as [_ [[Hid _] _]%Forall_cons]. simpl. by rewrite Hid.
Qed.

(** C25. The chain survives the loss of its state file: after a run of [Write]
    calls, when the state file is gone, empty or corrupt (and no other file
    changed), the writer that [newChainWriter] makes at the next start has
    recovered from the log the chain id, sequence number and hash the old
    writer had, so the next event continues the chain. *)
Theorem head_recovered {DG : Digest} {FT : FloatText} {UC : GoUnicode} dir base key l fs rs errs l' fs' fs'' opts :
  dir <> "" -> dir <> "." -> "/"%char ∉ bytes base ->
  fresh_log dir base key l fs -> rs <> [] -> Forall (request_ok (l_host l)) rs -> room_along dir base l fs rs ->
  write_all l fs rs = (errs, l', fs') -> lines_fit fs' (log_path dir base) ->
  let sp := cw_statePth (l_chain l') in
  EnableChain opts = true -> statePathFor opts (log_path dir base) = sp ->
  (forall k, k <> sp -> fs'' !! k = fs' !! k) -> default zeroState (loadState fs'' sp) = zeroState ->
  let st := cw_state (newChainWriter fs'' (log_path dir base) opts) in
  ChainID st = ChainID (cw_state (l_chain l')) /\ LastSeq st = LastSeq (cw_state (l_chain l'))
  /\ LastHash st = LastHash (cw_state (l_chain l')).
Proof.
  intros H1 H2 H3 Hf Hne Hrs Hroom Hw Hfit sp Hen Hsp Heq Hlost. pose proof (fresh_log_inv _ _ _ _ _ Hf) as Hinv0.
  edestruct (write_all_inv dir base) as (errs2 & l2 & fs2 & es & Hw2 & He & Hinv & Hlen & _);
    [done..|exact Hinv0|exact Hrs|exact Hroom|].
  rewrite Hw in Hw2. injection Hw2 as <- <- <-. simpl in Hinv.
  pose proof (lines_fit_short _ _ _ _ _ _ H1 H2 H3 Hinv Hfit) as Hshort.
  assert (log_inv dir base key l' fs'' es) as Hinv'.
  { destruct Hinv as (Hcfg & (segs & cur & Hsegs & E) & Hrest). split; [exact Hcfg|]. split; [|exact Hrest].
    exists segs, cur. split; [|done]. destruct Hcfg as (_ & _ & _ & _ & _ & Hr & Hp).
    by eapply (segs_on_ext dir base) with (k := sp) (fs := fs'). }
  apply (newChainWriter_recovers dir base key l' fs'' es); try done; [|by rewrite Hsp].
  intros ->. by destruct rs.
Qed.

(** ** Concrete runs *)

Module Sample.

(** Byte equality stands in for the Unicode tables, and no literal needs a
    rounded [float64]: enough to run the examples, which are plain ASCII. *)
#[local] Instance unicode : GoUnicode := {| uni_equalFold := String.eqb; uni_toLower := id |}.
#[local] Instance floats : FloatText := {| float_text _ := None |}.
#[local] Existing Instance checksum_digest.

Definition now : Time := mkTime 2024 5 1 12 0 0 0 0.
Definition key : list ascii := bytes "k".
Definition fs0 : files := ∅.
Definition path : string := log_path "/var" "e".

Definition env : LogEnv := mkLogEnv None "h" false (fun _ _ => false).

Definition logger (maxBytes maxBackups : Z) : Logger :=
  openLogger fs0 env path (mkLogOptions false maxBytes maxBackups (mkIntegrityOptions true "" key "") noRemote).

Definition event (evidence : list (string * gval)) : Event :=
  mkEvent "" "" "" 0 "" "" "" timeZero "id" "" "file" "high" [("pid", GInt 7)] [] "none" "alert" "r1" evidence.

Definition req (f : faults) (evidence : list (string * gval)) : request :=
  mkRequest f now "h" "edr-1" (event evidence).
Definition plain : request := req no_faults [].

(** What [Verify] reports after a run. *)
Definition verdict (l : Logger) (rs : list request) : bool * list string :=
  let v := Verify key (write_all l fs0 rs).2 path in (v_OK v, map i_Kind (v_Issues v)).

(** *** The theorems at concrete logs *)

Definition run3 (l : Logger) := write_all l fs0 [plain; plain; plain].

Lemma plain_ok : Forall (request_ok "h") [plain; plain; plain].
Proof.
  assert (request_ok "h" plain) as Hp; [|by repeat constructor].
  split; [by repeat split|]. split; [vm_compute; reflexivity|]. split; [discriminate|].
  split; [repeat (apply Forall_cons_2; [vm_compute; reflexivity|]); apply Forall_nil_2|].
  split; [vm_compute; split; [discriminate|reflexivity]|]. split; [vm_compute; reflexivity|].
  repeat (apply Forall_cons_2; [vm_compute; reflexivity|]). apply Forall_nil_2.
Qed.

Lemma fresh : fresh_log "/var" "e" key (logger 500 2) fs0.
Proof.
  split; [|split; [vm_compute; reflexivity|]].
  - split_and!; try (vm_compute; reflexivity). discriminate.
  - split; [|reflexivity]. split; [done|]. split.
    + intros k n [x Hx]. unfold fs0 in Hx. by rewrite lookup_empty in Hx.
    + simpl. intros n Hn. lia.
Qed.

Lemma rooms : room_along "/var" "e" (logger 500 2) fs0 [plain; plain; plain].
Proof. cbn [room_along]. split_and!; [right; vm_compute; reflexivity..|exact I]. Qed.

Lemma slash : "/"%char ∉ bytes "e".
Proof. apply (bool_decide_unpack _). vm_compute. done. Qed.

Lemma written_log_verifies_witness :
  let '(errs, l, fs) := run3 (logger 500 2) in
  Forall (fun e => e = None) errs
  /\ LastSeq (cw_state (l_chain l)) = wrapu 64 3
  /\ Verify key fs path
     = mkResult true (LastSeq (cw_state (l_chain l))) (LastHash (cw_state (l_chain l))) IntegrityVersion
         true 3 3 0 [] [].
Proof.
  destruct (run3 (logger 500 2)) as [[errs l] fs] eqn:E.
  apply (written_log_verifies "/var" "e" key (logger 500 2) fs0 [plain; plain; plain] errs l fs);
    [discriminate|discriminate|exact slash|exact fresh|discriminate|exact plain_ok|exact rooms|exact E].
Defined.

Lemma head_recovered_witness :
  let '(_, l, fs) := run3 (logger 500 2) in
  let st := cw_state (newChainWriter (delete (path +:+ ".state")%string fs) path (mkIntegrityOptions true "" key "")) in
  ChainID st = ChainID (cw_state (l_chain l)) /\ LastSeq st = LastSeq (cw_state (l_chain l))
  /\ LastHash st = LastHash (cw_state (l_chain l)).
Proof.
  destruct (run3 (logger 500 2)) as [[errs l] fs] eqn:E.
  assert (cw_statePth (l_chain l) = (path +:+ ".state")%string) as Hsp.
  { replace l with (run3 (logger 500 2)).1.2 by (by rewrite E). vm_compute. reflexivity. }
  apply (head_recovered "/var" "e" key (logger 500 2) fs0 [plain; plain; plain] errs l fs);
    [discriminate|discriminate|exact slash|exact fresh|discriminate|exact plain_ok|exact rooms|exact E|..].
  - replace fs with (run3 (logger 500 2)).2 by (by rewrite E). apply lines_fit_true. vm_compute. reflexivity.
  - reflexivity.
  - by rewrite Hsp.
  - rewrite Hsp. intros k Hk. by apply lookup_delete_ne.
  - rewrite Hsp. unfold loadState. by rewrite lookup_delete_eq.
Defined.

Lemma tamper_evident_witness :
  let fs1 := (run3 (logger 0 0)).2 in
  let fs2 := (run3 (logger 500 2)).2 in
  Forall2 agree (log_events fs1 path) (log_events fs2 path)
  \/ exists e1 e2, e1 ∈ log_events fs1 path /\ e2 ∈ log_events fs2 path /\ collision e1 e2.
Proof.
  intros fs1 fs2. apply (tamper_evident key fs1 path fs2 path); vm_compute; reflexivity.
Defined.

(** *** Untouched logs that are rejected *)

(** The rotation that discards the oldest file leaves a log whose first event
    refers to a hash that is no longer there. *)
Example discarded_backup_rejected :
  verdict (logger 500 2) [plain; plain; plain; plain; plain] = (false, ["prev_hash_break"; "hash_mismatch"]).
Proof. vm_compute. reflexivity. Qed.

(** [Seal] advances the chain before the line is appended: a failed append
    leaves a gap. *)
Example failed_append_rejected :
  verdict (logger 0 0) [req (mkFaults false false false true false) []; plain]
  = (false, ["prev_hash_break"; "hash_mismatch"]).
Proof. vm_compute. reflexivity. Qed.

(** An attribute that is a struct whose fields are not declared in key order,
    as [response.Result] is, is encoded in another order after a decode. *)
Example struct_attribute_rejected :
  verdict (logger 0 0)
    [req no_faults [("response", GStruct [("action", GStr "kill"); ("success", GBool true); ("detail", GStr "ok")])]]
  = (false, ["hash_mismatch"]).
Proof. vm_compute. reflexivity. Qed.

(** A byte that is not UTF-8, which a file name may hold, is written as an
    escape and hashed as the decoded rune when it is read. *)
Example invalid_utf8_rejected :
  verdict (logger 0 0) [req no_faults [("path", GStr (text [byte 47; byte 255]))]] = (false, ["hash_mismatch"]).
Proof. vm_compute. reflexivity. Qed.

(** A state file that could not be written stays behind the log, and the next
    start trusts it. *)
Example stale_state_rejected :
  let fs := (write_all (logger 0 0) fs0 [plain; req (mkFaults true false false false false) []]).2 in
  let l := openLogger fs env path (mkLogOptions false 0 0 (mkIntegrityOptions true "" key "") noRemote) in
  let v := Verify key (write_all l fs [plain]).2 path in
  (v_OK v, map i_Kind (v_Issues v)) = (false, ["prev_hash_break"; "hash_mismatch"]).
Proof. vm_compute. reflexivity. Qed.

End Sample.
