(* ===== verification/Anchor.v ===== *)
(** * The remote anchor of the chain head ([internal/eventlog/anchor.go])

    The anchor stores the chain head outside the log (an HTTP endpoint, a mirror
    file) so that removing the end of the log can be noticed.  The endpoint is
    not part of the program: what it answers is an argument.  [Start], which
    only calls [Push] on a timer, is the repetition of [Push] in [pushes]. *)

From S2P Require Import Prelude GoStrings Json GoJson GoTime Crypto EventLog ChainProofs.

Record AnchorRecord := mkAnchorRecord {
  ar_ChainID : string; ar_Seq : Z; ar_Hash : string; ar_HMAC : string; ar_PushedAt : Time;
  ar_Hostname : string; ar_BootID : string;
}.

Definition zeroRecord : AnchorRecord := mkAnchorRecord "" 0 "" "" timeZero "" "".

Definition anchor_names : list string := ["chain_id"; "seq"; "hash"; "hmac"; "pushed_at"; "hostname"; "boot_id"].

Definition anchor_pieces (r : AnchorRecord) : list piece :=
  [(true, "chain_id", JStr r.(ar_ChainID));
   (true, "seq", JNum (itoa r.(ar_Seq)));
   (true, "hash", JStr r.(ar_Hash));
   (nonempty r.(ar_HMAC), "hmac", JStr r.(ar_HMAC));
   (true, "pushed_at", JStr (text (time_print r.(ar_PushedAt))));
   (true, "hostname", JStr r.(ar_Hostname));
   (true, "boot_id", JStr r.(ar_BootID))].

Definition anchor_members (r : AnchorRecord) : list (string * json) := members_of (anchor_pieces r).
Definition anchor_text (r : AnchorRecord) : list ascii := print (JObj (anchor_members r)).

Record Anchor := mkAnchor {
  a_url : string; a_filePath : string; a_hostname : string; a_bootID : string; a_lastSeq : Z;
}.

Record AnchorOptions := mkAnchorOptions {
  ao_URL : string; ao_FilePath : string; ao_Interval : Z; ao_Hostname : string; ao_BootID : string;
}.

(** [NewAnchor]; a nil anchor is [None]. *)
Definition NewAnchor (opts : AnchorOptions) : option Anchor :=
  if (opts.(ao_URL) == "") && (opts.(ao_FilePath) == "") then None
  else Some (mkAnchor opts.(ao_URL) opts.(ao_FilePath) opts.(ao_Hostname) opts.(ao_BootID) 0).

Inductive anchor_err := ErrPush | ErrStatus (code : Z) | ErrFile | ErrFetch | ErrDecode.

(** What the environment does during a push: the answer to the POST (a status,
    or none when the request failed) and whether the mirror can be written. *)
Record push_env := mkPushEnv { pe_post : option Z; pe_file : bool }.

Definition good_status (code : Z) : bool := negb ((code <? 200) || (300 <=? code)).

Definition pushHTTP (env : push_env) : option anchor_err :=
  match env.(pe_post) with
  | None => Some ErrPush
  | Some code => if good_status code then None else Some (ErrStatus code)
  end.

Definition pushFile (a : Anchor) (env : push_env) (fs : files) (r : AnchorRecord) : option anchor_err * files :=
  if env.(pe_file) then (None, <[a.(a_filePath) := anchor_text r]> fs) else (Some ErrFile, fs).

(** [Push] on a non-nil anchor: the error, the anchor, the files, and the record
    sent to the endpoint when there is one. *)
Definition Push (a : Anchor) (env : push_env) (fs : files) (now : Time) (chainID : string) (seq : Z) (hash hmac : string)
    : option anchor_err * Anchor * files * option AnchorRecord :=
  if seq == 0 then (None, a, fs, None)
  else if seq <=? a.(a_lastSeq) then (None, a, fs, None)
  else
    let a := mkAnchor a.(a_url) a.(a_filePath) a.(a_hostname) a.(a_bootID) seq in
    let rec := mkAnchorRecord chainID seq hash hmac now a.(a_hostname) a.(a_bootID) in
    let err1 := if a.(a_url) != "" then pushHTTP env else None in
    let '(err2, fs) := if a.(a_filePath) != "" then pushFile a env fs rec else (None, fs) in
    (match err1 with Some e => Some e | None => err2 end, a, fs,
     if a.(a_url) != "" then Some rec else None).

(** [json.Unmarshal] into a record. *)
Definition anchor_decode `{GoUnicode} (j : json) : option AnchorRecord :=
  match j with
  | JObj ms =>
      let str name := get_field set_string anchor_names name "" ms in
      ci ← str "chain_id"; sq ← get_field set_uint64 anchor_names "seq" 0 ms; h ← str "hash"; hm ← str "hmac";
      ts ← get_field set_time anchor_names "pushed_at" timeZero ms; ho ← str "hostname"; bo ← str "boot_id";
      Some (mkAnchorRecord ci sq h hm ts ho bo)
  | JNull => Some zeroRecord
  | _ => None
  end.

(** What the endpoint answers to a GET: nothing, or a status and a body. *)
Definition fetchHTTP `{GoUnicode} (answer : option (Z * list ascii)) : result anchor_err (option AnchorRecord) :=
  match answer with
  | None => Err ErrFetch
  | Some (code, body) =>
      if code == 404 then Ok None
      else if good_status code then
        match next_value (take (Z.to_nat (2 ^ 16)) body) ≫= fun jr => anchor_decode jr.1 with
        | Some r => Ok (Some r)
        | None => Err ErrDecode
        end
      else Err (ErrStatus code)
  end.

Definition fetchFile `{GoUnicode} (a : Anchor) (fs : files) : result anchor_err (option AnchorRecord) :=
  match fs !! a.(a_filePath) with
  | None => Ok None
  | Some b => match parse b ≫= anchor_decode with Some r => Ok (Some r) | None => Err ErrDecode end
  end.

Definition Fetch `{GoUnicode} (a : Anchor) (fs : files) (answer : option (Z * list ascii))
    : result anchor_err (option AnchorRecord) :=
  if a.(a_url) != "" then fetchHTTP answer
  else if a.(a_filePath) != "" then fetchFile a fs
  else Ok None.

Inductive anchor_issue :=
| ChainMismatch (local_ anchor : string)
| Truncation (anchor_seq local_seq : Z)
| HashMismatch (anchor_hash local_hash : string) (seq : Z).

Definition CrossVerify `{GoUnicode} (a : option Anchor) (fs : files) (answer : option (Z * list ascii))
    (localChainID : string) (localSeq : Z) (localHash : string) : list anchor_issue :=
  match a with
  | None => []
  | Some a =>
      match Fetch a fs answer with
      | Ok (Some r) =>
          (if r.(ar_ChainID) != localChainID then [ChainMismatch localChainID r.(ar_ChainID)] else [])
          ++ (if localSeq <? r.(ar_Seq) then [Truncation r.(ar_Seq) localSeq] else [])
          ++ (if (r.(ar_Seq) == localSeq) && nonempty r.(ar_Hash) && nonempty localHash && (r.(ar_Hash) != localHash)
              then [HashMismatch r.(ar_Hash) localHash r.(ar_Seq)] else [])
      | _ => []
      end
  end.

(** ** Pushes in sequence *)

Record head := mkHead { h_chain : string; h_seq : Z; h_hash : string; h_hmac : string; h_now : Time; h_env : push_env }.

Definition do_push (a : Anchor) (fs : files) (h : head) :=
  Push a h.(h_env) fs h.(h_now) h.(h_chain) h.(h_seq) h.(h_hash) h.(h_hmac).

(** The anchor, the files and the records sent, in order. *)
Fixpoint pushes (a : Anchor) (fs : files) (hs : list head) : Anchor * files * list AnchorRecord :=
  match hs with
  | [] => (a, fs, [])
  | h :: hs =>
      let '(_, a1, fs1, sent) := do_push a fs h in
      let '(a2, fs2, out) := pushes a1 fs1 hs in
      (a2, fs2, match sent with Some r => r :: out | None => out end)
  end.

Definition record_ok (r : AnchorRecord) : Prop :=
  Forall (fun t => valid_utf8 t = true) [r.(ar_ChainID); r.(ar_Hash); r.(ar_HMAC); r.(ar_Hostname); r.(ar_BootID)]
  /\ 0 <= r.(ar_Seq) < 2 ^ 64 /\ time_ok r.(ar_PushedAt) = true.

Section Records.
Context {UC : GoUnicode}.

Lemma get_anchor {A} (set : A -> json -> option A) r name init c j :
  (c, name, j) ∈ anchor_pieces r ->
  get_field set anchor_names name init (anchor_members r) = if (c : bool) then set init j else Some init.
Proof.
  apply get_piece.
  - apply Forall_forall. intros p Hp. change anchor_names with (map piece_name (anchor_pieces r)).
    by apply list_elem_of_fmap_2.
  - change (map piece_name (anchor_pieces r)) with anchor_names. apply (bool_decide_unpack _). by vm_compute.
Qed.

#[local] Ltac anchor_in := unfold anchor_pieces; repeat first [apply list_elem_of_here | apply list_elem_of_further].

Lemma anchor_json_ok r : record_ok r -> json_ok max_depth (JObj (anchor_members r)) = true.
Proof.
  intros (Hs & _ & _). rewrite !Forall_cons in Hs. destruct Hs as (H1 & H2 & H3 & H4 & H5 & _).
  rewrite max_depth_S. apply json_ok_members. unfold anchor_pieces.
  repeat (apply Forall_cons_2); [..|apply Forall_nil_2]; (split; [vm_compute; reflexivity|]); try done.
  - simpl. rewrite number_itoa. by apply bool_decide_eq_true.
  - apply time_text_utf8.
Qed.

(** The mirror file holds the record that was pushed. *)
Lemma anchor_roundtrip r : record_ok r -> parse (anchor_text r) ≫= anchor_decode = Some r.
Proof.
  intros Hok. pose proof Hok as (_ & Hq & Ht). unfold anchor_text. rewrite <- (app_nil_r (print _)).
  rewrite parse_print by (constructor || by apply anchor_json_ok). cbn [mbind option_bind].
  unfold anchor_decode. cbv zeta.
  rewrite (get_anchor set_string r "chain_id" "" true (JStr (ar_ChainID r))) by anchor_in.
  rewrite (get_anchor set_uint64 r "seq" 0 true (JNum (itoa (ar_Seq r)))) by anchor_in.
  rewrite (get_anchor set_string r "hash" "" true (JStr (ar_Hash r))) by anchor_in.
  rewrite (get_anchor set_string r "hmac" "" (nonempty (ar_HMAC r)) (JStr (ar_HMAC r))) by anchor_in.
  rewrite (get_anchor set_time r "pushed_at" timeZero true (JStr (text (time_print (ar_PushedAt r))))) by anchor_in.
  rewrite (get_anchor set_string r "hostname" "" true (JStr (ar_Hostname r))) by anchor_in.
  rewrite (get_anchor set_string r "boot_id" "" true (JStr (ar_BootID r))) by anchor_in.
  cbn [set_string set_uint64 set_time mbind option_bind].
  rewrite parseUint_itoa, bytes_text, time_parse_print by done. by destruct r as [? ? ? [|] ? ? ?].
Qed.

End Records.

(** Pushes are strictly increasing: whatever heads are offered and whatever
    the endpoint and the mirror answer, the records sent to the endpoint have
    strictly increasing sequence numbers, all above what was pushed before. *)
Theorem pushes_increasing a fs hs a' fs' out :
  0 <= a_lastSeq a -> Forall (fun h => 0 <= h_seq h) hs -> pushes a fs hs = (a', fs', out) ->
  StronglySorted (fun r s => ar_Seq r < ar_Seq s) out
  /\ Forall (fun r => a_lastSeq a < ar_Seq r <= a_lastSeq a') out /\ a_lastSeq a <= a_lastSeq a'.
Proof.
  revert a fs a' fs' out. induction hs as [|h hs IH]; intros a fs a' fs' out Ha Hhs; cbn [pushes].
  { intros [= <- <- <-]. split_and!; [constructor|constructor|lia]. }
  apply Forall_cons in Hhs as [Hh Hhs]. unfold do_push, Push.
  destruct (h_seq h == 0) eqn:E0; [|destruct (Z.leb_spec (h_seq h) (a_lastSeq a)) as [Hle|Hgt]].
  1,2: destruct (pushes a fs hs) as [[a2 fs2] o2] eqn:E; intros [= <- <- <-]; by eapply IH.
  set (a1 := mkAnchor _ _ _ _ _). destruct (if a_filePath a1 != "" then _ else _) as [err2 fs1].
  destruct (pushes a1 fs1 hs) as [[a2 fs2] o2] eqn:E. intros [= <- <- <-].
  destruct (IH a1 fs1 a2 fs2 o2 ltac:(simpl; lia) Hhs E) as (H1 & H2 & H3). simpl in H2, H3.
  destruct (_ != ""); simpl; (split_and!; [| |lia]).
  - constructor; [done|]. eapply Forall_impl; [exact H2|]. simpl. lia.
  - constructor; [simpl; lia|]. eapply Forall_impl; [exact H2|]. simpl. lia.
  - done.
  - eapply Forall_impl; [exact H2|]. simpl. lia.
Qed.

Lemma pushes_increasing_witness :
  let ok := mkPushEnv (Some 200) true in
  let hd n := mkHead "c" n "h" "" timeZero ok in
  let '(a, _, out) := pushes (mkAnchor "u" "" "" "" 0) ∅ [hd 2; hd 2; hd 5] in
  StronglySorted (fun r s => ar_Seq r < ar_Seq s) out
  /\ Forall (fun r => 0 < ar_Seq r <= a_lastSeq a) out /\ 0 <= a_lastSeq a.
Proof.
  intros ok hd. destruct (pushes _ _ _) as [[a fs] out] eqn:E.
  apply (pushes_increasing (mkAnchor "u" "" "" "" 0) ∅ [hd 2; hd 2; hd 5] a fs out);
    [simpl; lia|repeat constructor; simpl; lia|exact E].
Defined.

(** A removed tail is noticed: once the head of the log was pushed to the
    mirror file, [CrossVerify] of a log of the same chain with a smaller
    sequence number reports exactly the truncation, with the same number and
    another hash exactly the mismatch, and with the head that was pushed
    nothing. *)
Theorem truncation_detected {UC : GoUnicode} a env fs now cid seq hash hmac a' fs' err sent answer seq' hash' :
  Push a env fs now cid seq hash hmac = (err, a', fs', sent) ->
  a_url a = "" -> a_filePath a <> "" -> pe_file env = true -> a_lastSeq a < seq -> seq <> 0 -> hash <> "" ->
  record_ok (mkAnchorRecord cid seq hash hmac now (a_hostname a) (a_bootID a)) ->
  err = None /\
  CrossVerify (Some a') fs' answer cid seq' hash'
  = if seq' <? seq then [Truncation seq seq']
    else if (seq' == seq) && nonempty hash' && (hash' != hash) then [HashMismatch hash hash' seq] else [].
Proof.
  intros Hp Hu Hf He Hlt Hnz Hh Hok. unfold Push in Hp.
  rewrite bool_decide_eq_false_2 in Hp by done. rewrite (proj2 (Z.leb_gt _ _)) in Hp by done.
  cbn [a_url a_filePath a_hostname a_bootID] in Hp. rewrite Hu in Hp.
  rewrite (bool_decide_eq_true_2 ("" = "")) in Hp by done.
  rewrite (bool_decide_eq_false_2 (a_filePath a = "")) in Hp by done. cbn [negb] in Hp.
  unfold pushFile in Hp. rewrite He in Hp. injection Hp as <- <- <- <-. split; [done|].
  unfold CrossVerify, Fetch. cbn [a_url a_filePath]. rewrite (bool_decide_eq_true_2 ("" = "")) by done.
  rewrite (bool_decide_eq_false_2 (a_filePath a = "")) by done. cbn [negb].
  unfold fetchFile. cbn [a_filePath]. rewrite lookup_insert_eq, anchor_roundtrip by done.
  cbn [ar_ChainID ar_Seq ar_Hash]. rewrite (bool_decide_eq_true_2 (cid = cid)) by done. cbn [negb app].
  unfold nonempty at 1. rewrite (bool_decide_eq_false_2 (hash = "")) by done. cbn [negb]. rewrite andb_true_r.
  destruct (Z.ltb_spec seq' seq).
  - by rewrite (bool_decide_eq_false_2 (seq = seq')) by lia.
  - rewrite (bool_decide_ext (seq = seq') (seq' = seq)) by done.
    by rewrite (bool_decide_ext (hash = hash') (hash' = hash)) by done.
Qed.

Lemma truncation_detected_witness :
  let u := {| uni_equalFold := String.eqb; uni_toLower := id |} in
  let a := mkAnchor "" "/m" "h" "b" 0 in
  let '(_, a', fs', _) := Push a (mkPushEnv None true) ∅ timeZero "c" 5 "ab" "" in
  @CrossVerify u (Some a') fs' None "c" 3 "cd" = [Truncation 5 3].
Proof.
  intros u a. destruct (Push _ _ _ _ _ _ _ _) as [[[err a'] fs'] sent] eqn:E.
  apply (@truncation_detected u a (mkPushEnv None true) ∅ timeZero "c" 5 "ab" "" a' fs' err sent None 3 "cd");
    try exact E; try reflexivity; try discriminate.
  split; [repeat (apply Forall_cons_2; [vm_compute; reflexivity|]); apply Forall_nil_2|].
  split; [vm_compute; split; [discriminate|reflexivity]|vm_compute; reflexivity].
Defined.

(** A push the endpoint refused is not repeated: the sequence number was
    already recorded. *)
Example refused_push_not_repeated :
  let a := mkAnchor "u" "" "" "" 0 in
  let '(err, a1, _, _) := Push a (mkPushEnv (Some 503) true) ∅ timeZero "c" 5 "ab" "" in
  let '(err2, _, _, sent) := Push a1 (mkPushEnv (Some 200) true) ∅ timeZero "c" 5 "ab" "" in
  (err, err2, sent) = (Some (ErrStatus 503), None, None).
Proof. reflexivity. Qed.

(** ** The goroutine of [Start]

    A ticker with a period of a minute and a channel of one place, a goroutine
    that takes a tick, asks the callback for the head and pushes it, and the
    function [Start] returns, which closes [done].  When a tick waits and [done] is
    closed, the select may take either. *)

Module Ticker.

Definition period : Z := 60 * second.

Record state := mkState {
  t_anchor : Anchor; t_files : files; t_sent : list AnchorRecord;
  clock : Z; waiting : bool; busy : bool; stopped : bool; gone : bool; panicked : bool;
}.

(** [Start] of a non-nil anchor with a callback. *)
Definition Start (a : Anchor) (fs : files) : state := mkState a fs [] 0 false false false false false.

(** [Take] is the receive of a tick, [Serve] the push of the head the callback
    returned. *)
Inductive op := Tick | Take | Serve (h : head) | Quit | Stop.

Definition with_push (s : state) (a : Anchor) (fs : files) (sent : list AnchorRecord) : state :=
  mkState a fs (s.(t_sent) ++ sent) s.(clock) s.(waiting) false s.(stopped) s.(gone) s.(panicked).

(** One event; [None] when it is not possible. A tick that finds the place of
    the channel taken is dropped; closing [done] twice panics. *)
Definition step (s : state) (o : op) : option state :=
  let '(mkState a fs sent clock waiting busy stopped gone panicked) := s in
  match o with
  | Tick => Some (mkState a fs sent (clock + period) (negb gone) busy stopped gone panicked)
  | Take => if waiting && negb busy && negb gone
            then Some (mkState a fs sent clock false true stopped gone panicked) else None
  | Serve h => if busy then let '(_, a', fs', out) := do_push a fs h in Some (with_push s a' fs' (option_list out)) else None
  | Quit => if stopped && negb busy && negb gone
            then Some (mkState a fs sent clock false busy stopped true panicked) else None
  | Stop => Some (mkState a fs sent clock waiting busy true gone (panicked || stopped))
  end.

Fixpoint run (s : state) (ops : list op) : option state :=
  match ops with [] => Some s | o :: ops => s ← step s o; run s ops end.

(** The heads that were offered to [Push], in order. *)
Definition served (ops : list op) : list head := omap (fun o => match o with Serve h => Some h | _ => None end) ops.

(** The highest sequence number among some heads. *)
Definition highest (hs : list head) : Z := foldr (fun h m => Z.max (h_seq h) m) 0 hs.
End Ticker.

Lemma pushes_snoc a fs hs h :
  pushes a fs (hs ++ [h]) =
  let '(a1, fs1, out) := pushes a fs hs in
  let '(_, a2, fs2, sent) := do_push a1 fs1 h in (a2, fs2, out ++ option_list sent).
Proof.
  revert a fs. induction hs as [|h' hs IH]; intros a fs; cbn [app pushes].
  - by destruct (do_push a fs h) as [[[? ?] ?] [?|]].
  - destruct (do_push a fs h') as [[[? a1] fs1] sent]. rewrite IH. destruct (pushes a1 fs1 hs) as [[a2 fs2] out].
    destruct (do_push a2 fs2 h) as [[[? ?] ?] ?]. by destruct sent.
Qed.

Lemma run_snoc s ops o : Ticker.run s (ops ++ [o]) = Ticker.run s ops ≫= fun s => Ticker.step s o.
Proof.
  revert s. induction ops as [|o' ops IH]; intros s; simpl; [by destruct (Ticker.step s o)|].
  destruct (Ticker.step s o'); [apply IH|done].
Qed.

Lemma served_snoc ops o :
  Ticker.served (ops ++ [o]) = Ticker.served ops ++ match o with Ticker.Serve h => [h] | _ => [] end.
Proof. unfold Ticker.served. rewrite omap_app. by destruct o. Qed.

(** The goroutine makes exactly the pushes of the heads it was given, at most
    one a minute. *)
Lemma ticker_inv a fs ops s :
  Ticker.run (Ticker.Start a fs) ops = Some s ->
  pushes a fs (Ticker.served ops) = (Ticker.t_anchor s, Ticker.t_files s, Ticker.t_sent s)
  /\ (Z.of_nat (length (Ticker.served ops)) + (if Ticker.busy s then 1 else 0) + (if Ticker.waiting s then 1 else 0)) * Ticker.period
     <= Ticker.clock s.
Proof.
  revert s. induction ops as [|o ops IH] using rev_ind; intros s.
  { intros [= <-]. split; [done|]. simpl. lia. }
  rewrite run_snoc. destruct (Ticker.run _ ops) as [s1|]; [|done]. destruct (IH s1 eq_refl) as [Hp Hc]. cbn [mbind option_bind].
  rewrite served_snoc, length_app. assert (0 < Ticker.period) by done.
  destruct s1 as [a1 fs1 sent1 c1 w1 b1 st1 g1 p1]. cbn [Ticker.t_anchor Ticker.t_files Ticker.t_sent Ticker.clock Ticker.waiting Ticker.busy] in *.
  destruct o as [| |h| |]; cbn [Ticker.step].
  - intros [= <-]. rewrite app_nil_r. split; [done|]. simpl. destruct b1, w1, (negb g1); lia.
  - destruct (w1 && negb b1 && negb g1) eqn:E; [|done]. destruct w1, b1; try done. intros [= <-]. rewrite app_nil_r. split; [done|]. simpl in *. lia.
  - destruct b1; [|done]. destruct (do_push a1 fs1 h) as [[[? a2] fs2] sent] eqn:Ed. intros [= <-]. rewrite pushes_snoc, Hp, Ed.
    split; [done|]. simpl in *. destruct w1; lia.
  - destruct (st1 && negb b1 && negb g1); [|done]. intros [= <-]. rewrite app_nil_r. split; [done|]. simpl in *. destruct b1, w1; lia.
  - intros [= <-]. rewrite app_nil_r. split; [done|]. simpl in *. lia.
Qed.

(** A head of the chain [cid] whose hashes are [hash_of], pushed to a mirror
    that can be written. *)
Definition head_of (a : Anchor) (cid : string) (hash_of : Z -> string) (h : head) : Prop :=
  pe_file (h_env h) = true /\ h_chain h = cid /\ h_hash h = hash_of (h_seq h) /\ 0 <= h_seq h
  /\ record_ok (mkAnchorRecord (h_chain h) (h_seq h) (h_hash h) (h_hmac h) (h_now h) (a_hostname a) (a_bootID a)).

(** The mirror holds the head with the highest number. *)
Definition mirrors (cid : string) (hash_of : Z -> string) (m : Z) (path : string) (fs : files) : Prop :=
  if m == 0 then fs !! path = None
  else exists r, fs !! path = Some (anchor_text r) /\ record_ok r /\ ar_ChainID r = cid /\ ar_Seq r = m /\ ar_Hash r = hash_of m.

Lemma highest_snoc hs h : Ticker.highest (hs ++ [h]) = Z.max (Ticker.highest hs) (Z.max (h_seq h) 0).
Proof. unfold Ticker.highest. induction hs as [|h' hs IH]; simpl; [lia|]. rewrite IH. lia. Qed.
Lemma highest_nonneg hs : 0 <= Ticker.highest hs.
Proof. unfold Ticker.highest. induction hs; simpl; lia. Qed.

Lemma pushes_mirror a fs hs cid hash_of :
  a_url a = "" -> a_filePath a <> "" -> a_lastSeq a = 0 -> fs !! a_filePath a = None ->
  Forall (head_of a cid hash_of) hs ->
  let '(a', fs', _) := pushes a fs hs in
  a' = mkAnchor (a_url a) (a_filePath a) (a_hostname a) (a_bootID a) (Ticker.highest hs)
  /\ mirrors cid hash_of (Ticker.highest hs) (a_filePath a) fs'.
Proof.
  intros Hu Hp Hl Hf. induction hs as [|h hs IH] using rev_ind; intros Hhs.
  { cbn. split; [rewrite <- Hl; by destruct a|exact Hf]. }
  apply Forall_app in Hhs as [Hhs (He & Hc & Hh & H0 & Hok)%Forall_singleton]. rewrite pushes_snoc. specialize (IH Hhs).
  destruct (pushes a fs hs) as [[a1 fs1] out]. destruct IH as [-> Hm]. pose proof (highest_nonneg hs).
  unfold do_push, Push. rewrite highest_snoc.
  destruct (bool_decide_reflect (h_seq h = 0)) as [E|E]; [rewrite E, Z.max_l by lia; done|].
  cbn [a_lastSeq a_url a_filePath a_hostname a_bootID].
  destruct (Z.leb_spec (h_seq h) (Ticker.highest hs)).
  { by replace (Z.max (Ticker.highest hs) (Z.max (h_seq h) 0)) with (Ticker.highest hs) by lia. }
  rewrite (bool_decide_true (a_url a = "")), (bool_decide_false (a_filePath a = "")) by done. cbn [negb]. unfold pushFile. rewrite He.
  replace (Z.max (Ticker.highest hs) (Z.max (h_seq h) 0)) with (h_seq h) by lia. split; [done|]. unfold mirrors. rewrite bool_decide_false by done.
  eexists. split; [apply lookup_insert_eq|]. split_and!; done.
Qed.

(** What [CrossVerify] reports when the mirror holds a record. *)
Lemma crossverify_mirror {UC : GoUnicode} a fs answer cid hash_of m seq' hash' :
  a_url a = "" -> a_filePath a <> "" -> mirrors cid hash_of m (a_filePath a) fs -> 0 <= m -> hash_of m <> "" ->
  CrossVerify (Some a) fs answer cid seq' hash'
  = if m == 0 then []
    else if seq' <? m then [Truncation m seq']
    else if (seq' == m) && nonempty hash' && (hash' != hash_of m) then [HashMismatch (hash_of m) hash' m] else [].
Proof.
  intros Hu Hp Hm Hm0 Hh. unfold CrossVerify, Fetch. rewrite Hu, (bool_decide_true ("" = "")) by done.
  rewrite (bool_decide_false (a_filePath a = "")) by done. cbn [negb]. unfold fetchFile, mirrors in *.
  destruct (bool_decide_reflect (m = 0)) as [E|E]; [by rewrite Hm|].
  destruct Hm as (r & -> & Hok & Hc & Hs & Hr). rewrite anchor_roundtrip by done. rewrite Hc, Hs, Hr.
  rewrite (bool_decide_true (cid = cid)) by done. cbn [negb app].
  unfold nonempty at 1. rewrite (bool_decide_false (hash_of m = "")) by done. cbn [negb]. rewrite andb_true_r.
  destruct (Z.ltb_spec seq' m).
  - by rewrite (bool_decide_false (m = seq')) by lia.
  - rewrite (bool_decide_ext (m = seq') (seq' = m)) by done.
    by rewrite (bool_decide_ext (hash_of m = hash') (hash' = hash_of m)) by done.
Qed.

(** The anchor over a whole run: whatever the interleaving of ticks, pushes and
    stops, with a mirror that can be written and heads of one chain, a later
    check of a log reports a truncation exactly when its last number is below
    the highest that was pushed, a mismatch exactly when it has that number and
    another hash, and nothing else; at most one head a minute is pushed. *)
Theorem anchor_watches {UC : GoUnicode} a fs ops s cid hash_of answer seq' hash' :
  Ticker.run (Ticker.Start a fs) ops = Some s ->
  a_url a = "" -> a_filePath a <> "" -> a_lastSeq a = 0 -> fs !! a_filePath a = None ->
  Forall (head_of a cid hash_of) (Ticker.served ops) -> (forall n, hash_of n <> "") ->
  let m := Ticker.highest (Ticker.served ops) in
  CrossVerify (Some (Ticker.t_anchor s)) (Ticker.t_files s) answer cid seq' hash'
  = (if m == 0 then []
     else if seq' <? m then [Truncation m seq']
     else if (seq' == m) && nonempty hash' && (hash' != hash_of m) then [HashMismatch (hash_of m) hash' m] else [])
  /\ Z.of_nat (length (Ticker.served ops)) * Ticker.period <= Ticker.clock s.
Proof.
  intros Hr Hu Hp Hl Hf Hhs Hh m. destruct (ticker_inv a fs ops s Hr) as [E Hc].
  pose proof (pushes_mirror a fs _ cid hash_of Hu Hp Hl Hf Hhs) as Hm. rewrite E in Hm. destruct Hm as [-> Hm]. split.
  - apply crossverify_mirror; try done. apply highest_nonneg.
  - assert (0 < Ticker.period) by done. destruct (Ticker.busy s), (Ticker.waiting s); lia.
Qed.

Lemma anchor_watches_witness :
  let u := {| uni_equalFold := String.eqb; uni_toLower := id |} in
  let a := mkAnchor "" "/m" "h" "b" 0 in
  let hd n := mkHead "c" n "ab" "" timeZero (mkPushEnv None true) in
  exists s, Ticker.run (Ticker.Start a ∅) [Ticker.Tick; Ticker.Take; Ticker.Serve (hd 5); Ticker.Tick; Ticker.Take; Ticker.Serve (hd 9); Ticker.Stop; Ticker.Quit] = Some s
  /\ @CrossVerify u (Some (Ticker.t_anchor s)) (Ticker.t_files s) None "c" 7 "cd" = [Truncation 9 7].
Proof.
  intros u a hd. set (ops := [_; _; _; _; _; _; _; _]).
  destruct (Ticker.run (Ticker.Start a ∅) ops) as [s|] eqn:E; [|vm_compute in E; discriminate E].
  exists s. split; [reflexivity|].
  refine (proj1 (@anchor_watches u a ∅ ops s "c" (fun _ => "ab") None 7 "cd" E eq_refl _ eq_refl eq_refl _ _)); [discriminate| |discriminate].
  assert (forall n, 0 <= n < 2 ^ 64 -> head_of a "c" (fun _ => "ab") (hd n)) as Hd.
  { intros n Hn. split; [reflexivity|]. split; [reflexivity|]. split; [reflexivity|]. split; [simpl; lia|].
    split; [|split; [exact Hn|vm_compute; reflexivity]].
    repeat (apply Forall_cons_2; [vm_compute; reflexivity|]). apply Forall_nil_2. }
  repeat (apply Forall_cons_2; [apply Hd; simpl; lia|]). apply Forall_nil_2.
Defined.

(** The function [Start] returns must be called once: a second call closes a
    closed channel. *)
Example second_stop_panics :
  Ticker.panicked <$> Ticker.run (Ticker.Start (mkAnchor "u" "" "" "" 0) ∅) [Ticker.Stop; Ticker.Stop] = Some true.
Proof. reflexivity. Qed.
