(* ===== verification/LogAnchor.v ===== *)
(** * The log under its anchor ([internal/eventlog])

    The logger and the anchor over one file system, the way [main] of the agent
    puts them together: callers write events, the goroutine of [Anchor.Start]
    takes a tick, asks for [ChainSnapshot] and pushes it.  Then an intruder puts
    the log back to an earlier moment, the agent is started again, and the
    recovered head is checked against the mirror. *)

From S2P Require Import Prelude GoStrings Json GoJson GoTime Crypto EventLog ChainProofs LogRun Anchor.

#[local] Open Scope string_scope.
#[local] Open Scope list_scope.
#[local] Open Scope Z_scope.

(** ** The system *)

(** A call of [Write]; the chain id of a new chain is drawn from the random
    source. *)
Record call := mkCall {
  c_faults : faults; c_now : Time; c_hostname : string; c_random : option (list ascii); c_event : Event;
}.
Definition request_of (c : call) : request :=
  mkRequest c.(c_faults) c.(c_now) c.(c_hostname) (newChainID c.(c_random)) c.(c_event).

(** The logger, the anchor with its goroutine and the files, and the head the
    callback of the goroutine returned last. *)
Record sys := mkSys { y_log : Logger; y_tick : Ticker.state; y_asked : ChainState }.

Definition y_files (s : sys) : files := Ticker.t_files s.(y_tick).
Definition start (l : Logger) (a : Anchor) (fs : files) : sys := mkSys l (Ticker.Start a fs) zeroState.

Definition with_files (t : Ticker.state) (fs : files) : Ticker.state :=
  Ticker.mkState t.(Ticker.t_anchor) fs t.(Ticker.t_sent) t.(Ticker.clock) t.(Ticker.waiting) t.(Ticker.busy)
    t.(Ticker.stopped) t.(Ticker.gone) t.(Ticker.panicked).

(** The head of the callback that [main] hands to [Start]. *)
Definition asked_head (st : ChainState) (now : Time) (env : push_env) : head :=
  mkHead st.(ChainID) st.(LastSeq) st.(LastHash) st.(LastHMAC) now env.

Inductive move := MWrite (c : call) | MTick | MTake | MPush (now : Time) (env : push_env) | MQuit | MStop.

Definition move_step `{Digest} (s : sys) (m : move) : option sys :=
  let 'mkSys l t st := s in
  match m with
  | MWrite c => let '(_, l', fs', _) := do_write l (Ticker.t_files t) (request_of c) in Some (mkSys l' (with_files t fs') st)
  | MTick => (fun t => mkSys l t st) <$> Ticker.step t Ticker.Tick
  | MTake => (fun t => mkSys l t (ChainSnapshot (Some l))) <$> Ticker.step t Ticker.Take
  | MPush now env => (fun t => mkSys l t st) <$> Ticker.step t (Ticker.Serve (asked_head st now env))
  | MQuit => (fun t => mkSys l t st) <$> Ticker.step t Ticker.Quit
  | MStop => (fun t => mkSys l t st) <$> Ticker.step t Ticker.Stop
  end.

Fixpoint moves `{Digest} (s : sys) (ms : list move) : option sys :=
  match ms with [] => Some s | m :: ms => s ← move_step s m; moves s ms end.

(** ** Counting *)

(** How many events were written, how many there were when the callback was
    asked last, and how many at the last push. *)
Record marks := mkMarks { k_written : Z; k_asked : Z; k_pushed : Z }.
Definition mark (k : marks) (m : move) : marks :=
  match m with
  | MWrite _ => mkMarks (k.(k_written) + 1) k.(k_asked) k.(k_pushed)
  | MTake => mkMarks k.(k_written) k.(k_written) k.(k_pushed)
  | MPush _ _ => mkMarks k.(k_written) k.(k_asked) k.(k_asked)
  | _ => k
  end.
Definition count (ms : list move) : marks := foldl mark (mkMarks 0 0 0) ms.

Lemma mark_written k ms : k_written k <= k_written (foldl mark k ms).
Proof.
  revert k. induction ms as [|m ms IH]; intros k; simpl; [lia|]. specialize (IH (mark k m)).
  destruct m; simpl in *; lia.
Qed.

(** ** What a write leaves alone *)

Lemma newChainID_ok r : valid_utf8 (newChainID r) = true /\ newChainID r <> "".
Proof.
  destruct r as [b|]; [|done]. split; [|done]. apply valid_utf8_app; [done|apply hexEncode_utf8].
Qed.

Lemma rename_frame src dst (fs : files) k : k <> src -> k <> dst -> rename src dst fs !! k = fs !! k.
Proof. intros H1 H2. unfold rename. destruct (fs !! src); [|done]. by rewrite lookup_insert_ne, lookup_delete_ne. Qed.

Lemma shift_frame n path (fs : files) k :
  (forall i, 1 <= i <= Z.of_nat n + 1 -> k <> numbered path i) -> shift n path fs !! k = fs !! k.
Proof.
  revert fs. induction n as [|n IH]; intros fs Hk; [done|]. cbn [shift].
  rewrite IH by (intros i Hi; apply Hk; lia). apply rename_frame; apply Hk; lia.
Qed.

Lemma rotate_frame l fs f n k :
  k <> l_path l -> (forall i, 1 <= i < 2 ^ 62 -> k <> numbered (l_path l) i) -> l_maxBackups l < 2 ^ 62 ->
  let '(_, l', fs') := rotateIfNeeded l fs f n in
  fs' !! k = fs !! k /\ l_path l' = l_path l /\ l_chain l' = l_chain l.
Proof.
  intros Hp Hn Hmb. unfold rotateIfNeeded. destruct (l_maxBytes l <=? 0); [done|]. destruct (f_stat f); [done|].
  destruct (fs !! l_path l); [|done]. destruct (_ <=? l_maxBytes l); [done|]. cbv zeta.
  set (l1 := if l_maxBackups l <=? 0 then with_maxBackups l 1 else l).
  assert (l_path l1 = l_path l /\ l_chain l1 = l_chain l /\ 1 <= l_maxBackups l1 < 2 ^ 62) as (E1 & E2 & Hb).
  { subst l1. destruct (Z.leb_spec (l_maxBackups l) 0); simpl; split_and!; try done; lia. }
  assert (shift (Z.to_nat (l_maxBackups l1 - 1)) (l_path l1) (delete (numbered (l_path l1) (l_maxBackups l1)) fs) !! k = fs !! k) as Hs.
  { rewrite E1, shift_frame by (intros i Hi; apply Hn; lia). apply lookup_delete_ne. intros E. symmetry in E. revert E. apply Hn; lia. }
  destruct (f_rename f); [done|]. split; [|done]. rewrite rename_frame; [done|by rewrite E1|rewrite E1; apply Hn; lia].
Qed.

Section Run.
Context {DG : Digest} {FT : FloatText} {UC : GoUnicode}.
Variables (dir base : string) (key : list ascii).
Hypothesis dir_ne : dir <> "".
Hypothesis dir_dot : dir <> ".".
Hypothesis base_slash : "/"%char ∉ bytes base.
Abbreviation path := (log_path dir base).
Abbreviation log_inv := (LogRun.log_inv dir base key).
Abbreviation of_log := (LogRun.of_log dir base).

(** Neither part of the log nor its state file. *)
Definition elsewhere (l : Logger) (k : string) : Prop := ~ of_log k /\ k <> cw_statePth (l_chain l).

Lemma seal_hmac st e algo id raw next e' :
  sealChain st e key algo id = Some (raw, next, e') -> valid_utf8 (LastHMAC st) = true -> valid_utf8 (LastHMAC next) = true.
Proof.
  unfold sealChain. destruct (negb _); [done|]. intros (_ & <- & _)%some_triple Hv. cbn [LastHMAC].
  destruct (present key); [apply hexEncode_utf8|done].
Qed.

Lemma write_keeps l fs es r k err l' fs' out :
  log_inv l fs es -> elsewhere l k -> do_write l fs r = (err, l', fs', out) ->
  fs' !! k = fs !! k /\ cw_statePth (l_chain l') = cw_statePth (l_chain l)
  /\ (valid_utf8 (LastHMAC (cw_state (l_chain l))) = true -> valid_utf8 (LastHMAC (cw_state (l_chain l'))) = true).
Proof.
  intros ((Hp & Hmb & He & Ha & Hkey & _) & _) [Hk Hsp]. unfold do_write, Write, Seal. rewrite He, Hkey. cbn [negb].
  destruct (sealChain _ _ _ _ _) as [[[raw st] e']|] eqn:Es; [|by intros [= <- <- <- <-]].
  pose proof (seal_hmac _ _ _ _ _ _ _ Es) as Hm. cbv beta iota zeta.
  set (l1 := with_chain l _). set (fs1 := if negb _ then _ else fs).
  assert (fs1 !! k = fs !! k) as E1.
  { subst fs1. destruct (negb _); [|done]. unfold saveState. by rewrite lookup_insert_ne. }
  assert (k <> path) as Hkp by (intros ->; apply Hk; by left).
  assert (forall i, 1 <= i < 2 ^ 62 -> k <> numbered path i) as Hkn.
  { intros i Hi ->. apply Hk, numbered_of_log; [done..|lia]. }
  pose proof (rotate_frame l1 fs1 (rq_faults r) (Z.of_nat (length raw)) k) as Hr.
  change (l_path l1) with (l_path l) in Hr. change (l_maxBackups l1) with (l_maxBackups l) in Hr. rewrite Hp in Hr.
  specialize (Hr Hkp Hkn Hmb). destruct (rotateIfNeeded _ _ _ _) as [[failed l2] fs2]. destruct Hr as (E2 & Hp2 & Hc2).
  assert (fs2 !! k = fs !! k /\ cw_statePth (l_chain l2) = cw_statePth (l_chain l)
    /\ (valid_utf8 (LastHMAC (cw_state (l_chain l))) = true -> valid_utf8 (LastHMAC (cw_state (l_chain l2))) = true)) as H2.
  { rewrite Hc2. split; [congruence|]. split; [done|exact Hm]. }
  destruct failed; [by intros [= <- <- <- <-]|]. destruct (f_open _); [by intros [= <- <- <- <-]|].
  destruct (f_write _); [by intros [= <- <- <- <-]|]. intros [= <- <- <- <-].
  unfold append. rewrite Hp2, lookup_insert_ne by done. exact H2.
Qed.

(** ** Runs *)

(** The conditions of a run: the events are well formed, nothing but the state
    file is refused, no rotation has to discard a backup, and the mirror can be
    written. *)
Definition move_ok (s : sys) (m : move) : Prop :=
  match m with
  | MWrite c => quiet c.(c_faults) /\ event_ok (fill s.(y_log) c.(c_now) c.(c_hostname) c.(c_event))
                /\ room dir base s.(y_log) (y_files s)
  | MPush now env => pe_file env = true /\ time_ok now = true
  | _ => True
  end.
Fixpoint run_ok (s : sys) (ms : list move) : Prop :=
  match ms with
  | [] => True
  | m :: ms => move_ok s m /\ match move_step s m with Some s => run_ok s ms | None => True end
  end.

(** The hash of the event with a number. *)
Definition hash_at (es : list Event) (n : Z) : string := default "" (e_Hash <$> es !! Z.to_nat (n - 1)).

Lemma hash_at_app es es' n : 0 < n <= Z.of_nat (length es) -> hash_at (es ++ es') n = hash_at es n.
Proof. intros Hn. unfold hash_at. by rewrite lookup_app_l by lia. Qed.

(** [st] is the head after the first [n] events. *)
Definition head_at (cid : string) (es : list Event) (n : Z) (st : ChainState) : Prop :=
  LastSeq st = n /\ Forall (fun t => valid_utf8 t = true) [ChainID st; LastHash st; LastHMAC st]
  /\ (n <> 0 -> ChainID st = cid /\ LastHash st = hash_at es n).

(** The anchor: a mirror that is a file outside the log, as [NewAnchor] makes it. *)
Variables (a : Anchor) (sp : string).
Hypothesis a_nourl : a_url a = "".
Hypothesis a_file : a_filePath a <> "".
Hypothesis a_apart : ~ of_log (a_filePath a) /\ a_filePath a <> sp.
Hypothesis a_texts : Forall (fun t => valid_utf8 t = true) [a_hostname a; a_bootID a].

Definition cid_of (s : sys) : string := ChainID (cw_state (l_chain (y_log s))).

Definition inv (s : sys) (k : marks) (es : list Event) : Prop :=
  (log_inv (y_log s) (y_files s) es /\ cw_statePth (l_chain (y_log s)) = sp
   /\ valid_utf8 (LastHMAC (cw_state (l_chain (y_log s)))) = true)
  /\ (Z.of_nat (length es) = k_written k /\ 0 <= k_pushed k <= k_asked k /\ k_asked k <= k_written k < 2 ^ 64)
  /\ head_at (cid_of s) es (k_asked k) (y_asked s)
  /\ Ticker.t_anchor (y_tick s) = mkAnchor (a_url a) (a_filePath a) (a_hostname a) (a_bootID a) (k_pushed k)
  /\ mirrors (cid_of s) (hash_at es) (k_pushed k) (a_filePath a) (y_files s).

(** The head of the writer is the head of the events. *)
Lemma writer_head l fs es :
  log_inv l fs es -> valid_utf8 (LastHMAC (cw_state (l_chain l))) = true -> Z.of_nat (length es) < 2 ^ 64 ->
  head_at (ChainID (cw_state (l_chain l))) es (Z.of_nat (length es)) (cw_state (l_chain l)).
Proof.
  intros (_ & _ & _ & Hc & Hh & Hq & _ & Hci & _) Hm Hlt. split; [rewrite Hq; apply wrapu_small; lia|]. split.
  - repeat constructor; try done. rewrite Hh. destruct (chain_head key es Hc) as [[-> _]|[m ->]]; [done|apply hexEncode_utf8].
  - intros Hn. split; [done|]. rewrite Hh. unfold head_hash, hash_at. rewrite last_lookup.
    replace (Z.to_nat (Z.of_nat (length es) - 1)) with (pred (length es)) by lia. done.
Qed.

Lemma same_chain l fs l' fs' es es' :
  log_inv l fs es -> log_inv l' fs' (es ++ es') -> es <> [] ->
  ChainID (cw_state (l_chain l')) = ChainID (cw_state (l_chain l)).
Proof.
  intros (_ & _ & _ & _ & _ & _ & _ & _ & H1) (_ & _ & _ & _ & _ & _ & _ & _ & H2) Hne.
  destruct es as [|e es]; [done|]. apply Forall_cons in H1 as [[E1 _] _]. simpl in H2. apply Forall_cons in H2 as [[E2 _] _]. congruence.
Qed.

Lemma hash_at_nonempty l fs es n : log_inv l fs es -> es <> [] -> n <= Z.of_nat (length es) -> hash_at es n <> "".
Proof.
  intros (_ & _ & _ & Hc & _) Hne Hn. assert (length es <> 0%nat) by (by destruct es). unfold hash_at. destruct (lookup_lt_is_Some_2 es (Z.to_nat (n - 1))) as [e He]; [lia|].
  rewrite He. simpl. destruct (chain_elem key _ _ _ Hc (list_elem_of_lookup_2 _ _ _ He)) as (p & _ & _ & -> & _). apply sum256_hex_nonempty.
Qed.

Lemma mirrors_grow cid cid' es es' n fs fs' k :
  0 <= n <= Z.of_nat (length es) -> (n <> 0 -> cid' = cid) -> fs' !! k = fs !! k ->
  mirrors cid (hash_at es) n k fs -> mirrors cid' (hash_at (es ++ es')) n k fs'.
Proof.
  intros Hn Hc Hk. unfold mirrors. rewrite Hk. destruct (bool_decide_reflect (n = 0)) as [E|E]; [done|].
  rewrite hash_at_app by lia. by rewrite Hc.
Qed.

Lemma head_at_grow cid cid' es es' n st :
  0 <= n <= Z.of_nat (length es) -> (n <> 0 -> cid' = cid) -> head_at cid es n st -> head_at cid' (es ++ es') n st.
Proof.
  intros Hn Hc (H1 & H2 & H3). split_and!; [done..|]. intros E. destruct (H3 E) as [-> ->]. by rewrite Hc, hash_at_app by (done || lia).
Qed.

Lemma log_inv_agree l fs fs' es :
  (forall k, of_log k -> fs' !! k = fs !! k) -> log_inv l fs es -> log_inv l fs' es.
Proof.
  intros Heq (Hcfg & (segs & cur & Hs & E) & Hrest). split; [done|]. split; [|done].
  exists segs, cur. split; [|done]. by apply (segs_on_agree dir base) with (fs := fs).
Qed.

Lemma write_inv s k es c s' :
  inv s k es -> move_ok s (MWrite c) -> move_step s (MWrite c) = Some s' -> k_written k + 1 < 2 ^ 64 ->
  exists e, inv s' (mark k (MWrite c)) (es ++ [e]).
Proof.
  intros ((Hlog & Hsp & Hm) & (Hlen & Hp1 & Hp2) & Hask & Hanc & Hmir) (Hq & Hev & Hroom) Hst Hlt. destruct s as [l t st]. cbn [move_step] in Hst.
  destruct (newChainID_ok (c_random c)) as [Hid Hne].
  edestruct (Write_step dir base) as (l' & fs' & out & e & Hw & Hlog' & _ & Hhost);
    [done..|exact Hlog|exact Hroom|exact Hq|exact Hev|exact Hid|exact Hne|].
  assert (do_write l (Ticker.t_files t) (request_of c) = (None, l', fs', out)) as Hd by exact Hw. rewrite Hd in Hst. injection Hst as <-.
  assert (elsewhere l (a_filePath a)) as Hels by (split; [apply a_apart|]; cbn [y_log] in Hsp; rewrite Hsp; apply a_apart).
  destruct (write_keeps l (Ticker.t_files t) es (request_of c) (a_filePath a) _ _ _ _ Hlog Hels Hd) as (Hf & Hsp' & Hm').
  assert (es <> [] -> ChainID (cw_state (l_chain l')) = ChainID (cw_state (l_chain l))) as Hc by (exact (same_chain _ _ _ _ _ _ Hlog Hlog')).
  assert (forall n, n <> 0 -> 0 <= n <= Z.of_nat (length es) -> es <> []) as Hne' by (intros n ? ? ->; simpl in *; lia).
  exists e. unfold inv, cid_of, y_files. cbn [y_log y_tick y_asked mark k_written k_asked k_pushed with_files Ticker.t_files Ticker.t_anchor].
  split; [split; [done|]; split; [by rewrite Hsp'|by apply Hm']|].
  split; [rewrite length_app; simpl; lia|]. split; [|split; [done|]].
  - eapply head_at_grow; [|intros Hn; apply Hc; by eapply Hne'; [exact Hn|lia]|exact Hask]. lia.
  - eapply mirrors_grow; [|intros Hn; apply Hc; by eapply Hne'; [exact Hn|lia]|exact Hf|exact Hmir]. lia.
Qed.

Lemma push_inv s k es now env s' :
  inv s k es -> move_ok s (MPush now env) -> move_step s (MPush now env) = Some s' -> inv s' (mark k (MPush now env)) es.
Proof.
  intros ((Hlog & Hsp & Hm) & (Hlen & Hp1 & Hp2) & Hask & Hanc & Hmir) (Hf & Ht) Hst. destruct s as [l t st]. cbn [move_step] in Hst.
  destruct t as [an fs sent ck w b stp g p]. cbn [y_tick Ticker.t_anchor] in Hanc. cbn [Ticker.step] in Hst. destruct b; [|done].
  destruct Hask as (Hseq & Htexts & Hhead). unfold y_files, cid_of in *. cbn [y_tick y_log y_asked Ticker.t_files] in *.
  unfold do_push, Push in Hst. cbn [asked_head h_chain h_seq h_hash h_hmac h_now h_env] in Hst. rewrite Hseq in Hst.
  assert (k_asked k = k_pushed k \/ k_pushed k < k_asked k) as [E|E] by lia.
  { assert (s' = mkSys l (Ticker.with_push (Ticker.mkState an fs sent ck w true stp g p) an fs []) st) as ->.
    { destruct (k_asked k == 0); [by injection Hst as <-|]. rewrite Hanc in Hst |- *. cbn [a_lastSeq] in Hst. rewrite E, Z.leb_refl in Hst. by injection Hst as <-. }
    unfold inv, cid_of, y_files. cbn [y_log y_tick y_asked mark k_written k_asked k_pushed Ticker.with_push Ticker.t_files Ticker.t_anchor].
    split; [done|]. split; [lia|]. split; [done|]. split; [by rewrite E|by rewrite E]. }
  rewrite bool_decide_eq_false_2 in Hst by lia. rewrite Hanc in Hst. cbn [a_lastSeq a_url a_filePath a_hostname a_bootID] in Hst.
  rewrite (proj2 (Z.leb_gt _ _)) in Hst by done.
  rewrite (bool_decide_true (a_url a = "")), (bool_decide_false (a_filePath a = "")) in Hst by done. cbn [negb] in Hst.
  unfold pushFile in Hst. rewrite Hf in Hst. cbv beta iota zeta in Hst. cbn [fmap option_fmap option_map] in Hst.
  apply (inj Some) in Hst. subst s'.
  unfold inv, cid_of, y_files. cbn [y_log y_tick y_asked mark k_written k_asked k_pushed Ticker.with_push Ticker.t_files Ticker.t_anchor].
  split; [split; [|done]|split; [lia|split; [done|split; [done|]]]].
  - eapply log_inv_agree; [|exact Hlog]. intros k' Hk'. rewrite lookup_insert_ne; [done|]. intros E'. apply (proj1 a_apart). cbn [a_filePath] in E'. by rewrite E'.
  - unfold mirrors. rewrite bool_decide_eq_false_2 by lia. eexists. split; [apply lookup_insert_eq|]. destruct Hhead as [Hc Hh]; [lia|].
    split; [|cbn [ar_ChainID ar_Seq ar_Hash]; rewrite Hc, Hh; done].
    pose proof a_texts as Ha. rewrite !Forall_cons in Ha. rewrite !Forall_cons in Htexts.
    split; [repeat constructor; naive_solver|]. cbn [ar_Seq ar_PushedAt]. split; [lia|done].
Qed.

Lemma step_inv s k es m s' :
  inv s k es -> move_ok s m -> move_step s m = Some s' -> k_written (mark k m) < 2 ^ 64 ->
  exists es', inv s' (mark k m) (es ++ es').
Proof.
  intros Hi Ho Hst Hlt. destruct m as [c| | |now env| |].
  - destruct (write_inv s k es c s') as [e He]; [done..|by exists [e]].
  - exists []. rewrite app_nil_r. destruct s as [l [] st]. cbn in Hst. by injection Hst as <-.
  - exists []. rewrite app_nil_r. destruct s as [l [an fs sent ck w b stp g p] st]. cbn [move_step Ticker.step] in Hst.
    destruct (w && negb b && negb g); [|done]. cbn [fmap option_fmap option_map ChainSnapshot] in Hst. injection Hst as <-.
    destruct Hi as ((Hlog & Hsp & Hm) & (Hlen & Hp1 & Hp2) & Hask & Hanc & Hmir). split; [done|].
    cbn [mark k_written k_asked k_pushed y_asked]. split; [lia|]. split; [|done]. rewrite <- Hlen. apply (writer_head _ _ _ Hlog Hm). lia.
  - exists []. rewrite app_nil_r. by eapply push_inv.
  - exists []. rewrite app_nil_r. destruct s as [l [an fs sent ck w b stp g p] st]. cbn [move_step Ticker.step] in Hst.
    destruct (stp && negb b && negb g); [|done]. cbn in Hst. by injection Hst as <-.
  - exists []. rewrite app_nil_r. destruct s as [l [] st]. cbn in Hst. by injection Hst as <-.
Qed.

Lemma moves_inv s k es ms s' :
  inv s k es -> run_ok s ms -> moves s ms = Some s' -> k_written (foldl mark k ms) < 2 ^ 64 ->
  exists es', inv s' (foldl mark k ms) (es ++ es').
Proof.
  revert s k es. induction ms as [|m ms IH]; intros s k es Hi Ho Hm Hlt.
  { injection Hm as <-. exists []. by rewrite app_nil_r. }
  cbn [moves run_ok foldl] in *. destruct Ho as [Ho1 Ho2]. destruct (move_step s m) as [s1|] eqn:Es; [|done]. cbn [mbind option_bind] in Hm.
  pose proof (mark_written (mark k m) ms). destruct (step_inv s k es m s1) as [es1 H1]; [done..|lia|].
  destruct (IH s1 _ _ H1 Ho2 Hm Hlt) as [es2 H2]. exists (es1 ++ es2). by rewrite app_assoc.
Qed.

Lemma start_inv l fs :
  fresh_log dir base key l fs -> cw_statePth (l_chain l) = sp -> a_lastSeq a = 0 -> fs !! a_filePath a = None ->
  inv (start l a fs) (mkMarks 0 0 0) [].
Proof.
  intros Hf Hsp Hl Hm. pose proof (fresh_log_inv _ _ _ _ _ Hf) as Hlog. destruct Hf as (_ & Hz & _).
  unfold inv, cid_of, y_files. cbn [start y_log y_tick y_asked Ticker.Start Ticker.t_files Ticker.t_anchor k_written k_asked k_pushed].
  split; [split; [done|]; split; [done|by rewrite Hz]|]. split; [simpl; lia|].
  split; [split; [done|]; split; [by repeat constructor|done]|].
  split; [rewrite <- Hl; by destruct a|done].
Qed.

(** The writer of a restart has the head of the log that was put back. *)
Lemma restart_head l fs es fs' opts :
  log_inv l fs es -> es <> [] -> (forall k, of_log k -> fs' !! k = fs !! k) -> lines_fit fs' path ->
  EnableChain opts = true ->
  default zeroState (loadState fs' (statePathFor opts path)) = zeroState
  \/ loadState fs' (statePathFor opts path) = Some (cw_state (l_chain l)) ->
  let st := cw_state (newChainWriter fs' path opts) in
  ChainID st = ChainID (cw_state (l_chain l)) /\ LastSeq st = LastSeq (cw_state (l_chain l))
  /\ LastHash st = LastHash (cw_state (l_chain l)).
Proof.
  intros Hlog Hne Heq Hfit Hen [Hlost|Hold]; pose proof (log_inv_agree _ _ _ _ Heq Hlog) as Hlog'.
  - apply (newChainWriter_recovers dir base key l fs' es); try done.
    by apply (lines_fit_short dir base key l fs' es).
  - unfold newChainWriter. rewrite Hen, Hold. cbn [negb default id cw_state].
    destruct Hlog as (_ & _ & _ & Hc & Hh & _ & _ & _ & Hids). destruct es as [|e es _] using rev_ind; [done|].
    apply Forall_app in Hids as [_ [[E1 E2] _]%Forall_cons].
    destruct (chain_elem key _ _ e Hc ltac:(set_solver)) as (p & _ & _ & Eh & _).
    rewrite bool_decide_eq_false_2 by congruence. rewrite bool_decide_eq_false_2; [done|].
    rewrite Hh, head_hash_app. unfold head_hash. simpl. rewrite Eh. apply sum256_hex_nonempty.
Qed.
End Run.

(** C33. A log that is put back to an earlier moment is reported, as long as the
    mirror of its anchor is there.  The agent runs from an empty log, with
    writes, rotations, ticks and pushes in any interleaving; afterwards an
    intruder replaces the files of the log by those of an earlier moment, when
    [j] events had been written, and removes the state file or puts back the
    old one.  The agent is started again and compares the head it has recovered
    with the mirror: it reports a truncation, with the two numbers, exactly when
    fewer events are left than there were when the head was asked for that was
    pushed last, and otherwise it reports nothing.  The mirror is a file; an
    intruder who leaves the newer state file is not reported
    ([kept_state_hides_rollback]). *)
Theorem rollback_detected {DG : Digest} {FT : FloatText} {UC : GoUnicode} dir base key l fs a before after s1 s2 fs' opts answer :
  dir <> "" -> dir <> "." -> "/"%char ∉ bytes base ->
  a_url a = "" -> a_filePath a <> "" -> a_lastSeq a = 0 -> Forall (fun t => valid_utf8 t = true) [a_hostname a; a_bootID a] ->
  elsewhere dir base l (a_filePath a) -> fs !! a_filePath a = None -> fresh_log dir base key l fs ->
  moves (start l a fs) before = Some s1 -> run_ok dir base (start l a fs) before ->
  moves s1 after = Some s2 -> run_ok dir base s1 after ->
  let j := k_written (count before) in
  let m := k_pushed (count (before ++ after)) in
  0 < j -> k_written (count (before ++ after)) < 2 ^ 64 ->
  (forall k, of_log dir base k -> fs' !! k = y_files s1 !! k) -> fs' !! a_filePath a = y_files s2 !! a_filePath a ->
  lines_fit fs' (log_path dir base) -> EnableChain opts = true ->
  default zeroState (loadState fs' (statePathFor opts (log_path dir base))) = zeroState
  \/ loadState fs' (statePathFor opts (log_path dir base)) = Some (ChainSnapshot (Some (y_log s1))) ->
  let st := cw_state (newChainWriter fs' (log_path dir base) opts) in
  CrossVerify (Some a) fs' answer (ChainID st) (LastSeq st) (LastHash st) = if j <? m then [Truncation m j] else [].
Proof.
  intros H1 H2 H3 Hu Hf Hl Ht [Ha Hsp] Hmir Hfresh Hm1 Ho1 Hm2 Ho2 j m Hj Hlt Heq Hm Hfit Hen Hstate st.
  assert (count (before ++ after) = foldl mark (count before) after) as Ec by apply foldl_app.
  rewrite Ec in Hlt. assert (m = k_pushed (foldl mark (count before) after)) as Em by (by unfold m; rewrite Ec). clearbody m.
  pose proof (start_inv dir base key a _ Hu Hf (conj Ha Hsp) Ht l fs Hfresh eq_refl Hl Hmir) as H0.
  pose proof (mark_written (count before) after).
  edestruct (moves_inv dir base key) with (ms := before) as [es1 Hi1]; [done..|exact H0|done|done|unfold count in *; lia|].
  edestruct (moves_inv dir base key) with (ms := after) as [es2 Hi2]; [done..|exact Hi1|done|done|done|].
  fold (count before) in Hi1, Hi2. cbn [app] in Hi1, Hi2.
  destruct Hi1 as ((Hlog & _ & Hhm) & (Hlen & _ & Hb) & _). destruct Hi2 as ((Hlog2 & _ & _) & (Hlen2 & Hp & Hb2) & _ & _ & Hmi).
  assert (es1 <> []) as Hne by (intros ->; simpl in *; lia).
  destruct (restart_head dir base key H1 H2 H3 a _ Hu Hf (conj Ha Hsp) Ht (y_log s1) (y_files s1) es1 fs' opts Hlog Hne Heq Hfit Hen Hstate) as (E1 & E2 & E3).
  destruct (writer_head dir base key _ _ _ Hlog Hhm ltac:(lia)) as (W1 & _ & W2). destruct W2 as [_ W2]; [lia|].
  unfold cid_of in Hmi. rewrite (same_chain dir base key _ _ _ _ _ _ Hlog Hlog2 Hne) in Hmi.
  unfold st. rewrite E1, E2, E3, W1, W2, Hlen.
  rewrite (crossverify_mirror a fs' answer _ (hash_at (es1 ++ es2)) m); [|done|done| |lia|].
  - fold j. destruct (bool_decide_reflect (m = 0)) as [->|Hm0]; [by rewrite (proj2 (Z.ltb_ge _ _)) by lia|].
    destruct (j <? m); [done|]. destruct (bool_decide_reflect (j = m)) as [<-|]; [|done].
    rewrite hash_at_app by lia. by rewrite (bool_decide_true (hash_at es1 j = hash_at es1 j)), andb_false_r.
  - unfold mirrors in *. rewrite Hm, Em. exact Hmi.
  - eapply (hash_at_nonempty dir base key); [done..|exact Hlog2|by destruct es1|lia].
Qed.

(** ** A log that is put back *)

Module Sample.
Import LogRun.Sample.
#[local] Instance unicode : GoUnicode := {| uni_equalFold := String.eqb; uni_toLower := id |}.
#[local] Instance floats : FloatText := {| float_text _ := None |}.
#[local] Existing Instance checksum_digest.

Definition anchor : Anchor := mkAnchor "" "/m" "h" "b" 0.
Definition write : move := MWrite (mkCall no_faults now "h" None (event [])).
Definition push : list move := [MTick; MTake; MPush now (mkPushEnv None true)].
Definition before : list move := write :: push ++ [write].
Definition after : list move := write :: push ++ [MStop; MQuit].

Definition s0 : sys := start (logger 500 2) anchor fs0.
Definition s1 : sys := default s0 (moves s0 before).
Definition s2 : sys := default s0 (moves s1 after).

(** The log of the earlier moment without its state file, and the mirror. *)
Definition put_back : files :=
  <["/m" := default [] (y_files s2 !! "/m")]> (delete (path +:+ ".state") (y_files s1)).
Definition options : IntegrityOptions := mkIntegrityOptions true "" key "".
Definition recovered : ChainState := cw_state (newChainWriter put_back path options).
Definition check (a : Anchor) (fs : files) : list anchor_issue :=
  CrossVerify (Some a) fs None (ChainID recovered) (LastSeq recovered) (LastHash recovered).

Lemma not_log k : rkey "/var" "e" k = None -> k <> path -> ~ of_log "/var" "e" k.
Proof. intros Hk Hp [E|[n E]]; [done|congruence]. Qed.

Lemma write_ok s : l_host (y_log s) = "h" -> room "/var" "e" (y_log s) (y_files s) -> move_ok "/var" "e" s write.
Proof.
  intros Hh Hr. split; [by repeat split|]. split; [|exact Hr].
  destruct (proj1 (proj1 (Forall_cons _ _ _) plain_ok)) as (_ & _ & _ & H).
  rewrite (fill_host (y_log s) (mkLogger "" "h" false 0 0 (mkChainWriter false [] "" zeroState "") None noRemote)) by exact Hh. exact H.
Qed.

Lemma run_ok_cons s m ms :
  move_ok "/var" "e" s m -> run_ok "/var" "e" (default s (move_step s m)) ms -> run_ok "/var" "e" s (m :: ms).
Proof. intros Hm Hms. split; [done|]. by destruct (move_step s m). Qed.

#[local] Ltac runs :=
  repeat lazymatch goal with
  | |- run_ok _ _ _ (write :: _) => apply run_ok_cons; [apply write_ok; [vm_compute; reflexivity|right; vm_compute; reflexivity]|]
  | |- run_ok _ _ _ (MPush _ _ :: _) => apply run_ok_cons; [split; [reflexivity|vm_compute; reflexivity]|]
  | |- run_ok _ _ _ (_ :: _) => apply run_ok_cons; [exact I|]
  | |- run_ok _ _ _ [] => exact I
  end.

Lemma before_ok : run_ok "/var" "e" s0 before.
Proof. unfold before, push. cbn [app]. runs. Qed.
Lemma after_ok : run_ok "/var" "e" s1 after.
Proof. unfold after, push. cbn [app]. runs. Qed.

Lemma put_back_log k : of_log "/var" "e" k -> put_back !! k = y_files s1 !! k.
Proof.
  intros Hk. unfold put_back.
  assert (forall k', rkey "/var" "e" k' = None -> k' <> path -> k' <> k) as Hn.
  { intros k' H1 H2 ->. by eapply not_log. }
  rewrite lookup_insert_ne by (apply Hn; [vm_compute; reflexivity|discriminate]).
  apply lookup_delete_ne, Hn; [vm_compute; reflexivity|discriminate].
Qed.

Lemma rollback_detected_witness : check anchor put_back = [Truncation 3 2].
Proof.
  transitivity (if k_written (count before) <? k_pushed (count (before ++ after))
                then [Truncation (k_pushed (count (before ++ after))) (k_written (count before))] else []); [|reflexivity].
  unfold check, recovered.
  apply (rollback_detected "/var" "e" key (logger 500 2) fs0 anchor before after s1 s2 put_back options None);
    [discriminate|discriminate|exact slash|reflexivity|discriminate|reflexivity| | |reflexivity|exact fresh
    |vm_compute; reflexivity|exact before_ok|vm_compute; reflexivity|exact after_ok|reflexivity|reflexivity|exact put_back_log
    |vm_compute; reflexivity|apply lines_fit_true; vm_compute; reflexivity|reflexivity|left; vm_compute; reflexivity].
  - repeat (apply Forall_cons_2; [vm_compute; reflexivity|]). apply Forall_nil_2.
  - split; [apply not_log; [vm_compute; reflexivity|discriminate]|vm_compute; discriminate].
Defined.

(** The evidence does not last: the anchor of the restarted agent has pushed
    nothing yet, so at its first tick it writes the shortened head over the
    mirror, and the check has nothing to report any more. *)
Example rollback_forgotten :
  let '(_, a, fs, _) := do_push anchor put_back (asked_head recovered now (mkPushEnv None true)) in
  (check anchor put_back, check a fs) = ([Truncation 3 2], []).
Proof. vm_compute. reflexivity. Qed.

(** The state file matters: when only the log is put back and the newer state
    file stays, the restarted agent takes its head from there, and neither the
    check against the mirror nor that of the chain has anything to report. *)
Example kept_state_hides_rollback :
  let fs := <[(path +:+ ".state") := default [] (y_files s2 !! (path +:+ ".state"))]> put_back in
  let st := cw_state (newChainWriter fs path options) in
  (LastSeq st, CrossVerify (Some anchor) fs None (ChainID st) (LastSeq st) (LastHash st),
   v_OK (Verify key fs path), v_LastSeq (Verify key fs path)) = (3, [], true, 2).
Proof. vm_compute. reflexivity. Qed.
End Sample.
