(* ===== verification/BpfEvent.v ===== *)
(** * Kernel events ([internal/bpf/event.go], [internal/bpf/event_parse.go])

    The binary record a probe writes to the ring buffer and its decoder
    [ParseEvent].  The addresses are printed as [net.IP.String] prints them. *)

From S2P Require Import Prelude GoStrings.

Inductive EventType :=
| EventUnknown | EventExec | EventFork | EventExit | EventConnect | EventSelfProtect
| EventPtraceEnh | EventLDPreload | EventInstrument.

#[global] Instance EventType_eq_dec : EqDecision EventType.
Proof. solve_decision. Defined.

(** The numeric values ([iota]). *)
Definition type_code (t : EventType) : Z :=
  match t with
  | EventUnknown => 0 | EventExec => 1 | EventFork => 2 | EventExit => 3 | EventConnect => 4
  | EventSelfProtect => 5 | EventPtraceEnh => 6 | EventLDPreload => 7 | EventInstrument => 8
  end.

Definition all_types : list EventType :=
  [EventExec; EventFork; EventExit; EventConnect; EventSelfProtect; EventPtraceEnh; EventLDPreload; EventInstrument].

(** The known type with a code: the [switch] of [ParseEvent]. *)
Definition type_of (c : Z) : option EventType := List.find (fun t => type_code t =? c) all_types.

Definition type_String (t : EventType) : string :=
  match t with
  | EventExec => "exec" | EventFork => "fork" | EventExit => "exit" | EventConnect => "connect"
  | EventSelfProtect => "selfprotect" | EventPtraceEnh => "ptrace_enh" | EventLDPreload => "ldpreload"
  | EventInstrument => "instrument" | EventUnknown => "unknown"
  end.

Record Event := mkEvent {
  Type_ : EventType; Timestamp : Z; PID : Z; PPID : Z; TGID : Z; UID : Z; Reserved : Z;
  Comm : string; Filename : string; DAddr : string; DPort : Z; Family : Z;
}.

(** ** The layout *)

Definition eventOffType : nat := 0.
Definition eventOffReserved : nat := 4.
Definition eventOffTimestamp : nat := 8.
Definition eventOffPID : nat := 16.
Definition eventOffPPID : nat := 20.
Definition eventOffTGID : nat := 24.
Definition eventOffUID : nat := 28.
Definition eventOffComm : nat := 32.
Definition eventCommSize : nat := 16.
Definition eventOffFilename : nat := 48.
Definition eventFilenameSize : nat := 256.
Definition eventOffFamily : nat := 304.
Definition eventOffDPort : nat := 308.
Definition eventOffDAddrV4 : nat := 310.
Definition eventDAddrV4Size : nat := 4.
Definition eventOffDAddrV6 : nat := 314.
Definition eventDAddrV6Size : nat := 16.
Definition eventTotalSize : nat := 330.

(** [raw[off : off+n]] and the little-endian number it holds. *)
Definition field (off n : nat) (raw : list ascii) : list ascii := take n (drop off raw).
Definition le (l : list ascii) : Z := fold_right (fun a acc => code a + 256 * acc) 0 l.
Definition uint (off n : nat) (raw : list ascii) : Z := le (field off n raw).

(** The bytes before the first NUL. *)
Definition cStringN (b : list ascii) : string :=
  match indexByte (byte 0) b with Some i => text (take i b) | None => text b end.

(** ** Addresses *)

Definition dotted (l : list Z) : string := join "." (map itoa l).

Definition hex_digit (z : Z) : ascii := byte (if z <? 10 then 48 + z else 87 + z).
(** A 16-bit group in lower-case hexadecimal without leading zeros. *)
Fixpoint hex_group (n : nat) (z : Z) : list ascii :=
  match n with
  | O => []
  | S n => if z <? 16 then [hex_digit z] else hex_group n (z / 16) ++ [hex_digit (z mod 16)]
  end.
Definition group (z : Z) : string := text (hex_group 4 z).

Fixpoint groups (l : list Z) : list Z :=
  match l with a :: b :: l => (a * 256 + b) :: groups l | _ => [] end.

(** The length of the run of zero groups at the head. *)
Fixpoint zeros (l : list Z) : nat :=
  match l with g :: l => if g =? 0 then S (zeros l) else 0%nat | [] => 0%nat end.

(** The start and length of the first longest run of at least two zero groups. *)
Fixpoint longest (i : nat) (l : list Z) (best : nat * nat) : nat * nat :=
  match l with
  | [] => best
  | _ :: t =>
      let n := zeros l in
      longest (S i) t (if (2 <=? n)%nat && (best.2 <? n)%nat then (i, n) else best)
  end.

Definition v6_text (gs : list Z) : string :=
  match longest 0 gs (0, 0)%nat with
  | (_, O) => join ":" (map group gs)
  | (i, n) => (join ":" (map group (take i gs)) +:+ "::" +:+ join ":" (map group (drop (i + n) gs)))%string
  end.

(** [net.IP.String] of 16 bytes: a mapped IPv4 address is printed dotted. *)
Definition ip16_text (l : list Z) : string :=
  if bool_decide (take 12 l = replicate 10 0 ++ [255; 255]) then dotted (drop 12 l) else v6_text (groups l).

Example v6_1 : map (fun l => ip16_text (map code l))
  [map byte [0x20;0x01;0x0d;0xb8;0;0;0;0;0;0;0;0;0;0;0;1]; map byte (replicate 15 0 ++ [1]);
   map byte (replicate 10 0 ++ [255;255;10;0;0;7]); map byte (replicate 16 0)]
  = ["2001:db8::1"; "::1"; "10.0.0.7"; "::"].
Proof. vm_compute. reflexivity. Qed.

(** ** The decoder *)

Inductive parse_err := ShortBuffer (n : Z) | UnknownType (c : Z).

Definition has_filename (t : EventType) : bool :=
  bool_decide (t ∈ [EventExec; EventSelfProtect; EventPtraceEnh; EventLDPreload; EventInstrument]).

Definition ParseEvent (raw : list ascii) : result parse_err Event :=
  if (length raw <? eventTotalSize)%nat then Err (ShortBuffer (Z.of_nat (length raw)))
  else
    let raw := if (eventTotalSize <? length raw)%nat then take eventTotalSize raw else raw in
    match type_of (uint eventOffType 1 raw) with
    | None => Err (UnknownType (uint eventOffType 1 raw))
    | Some typ =>
        let family := uint eventOffFamily 1 raw in
        let v4 := map code (field eventOffDAddrV4 eventDAddrV4Size raw) in
        let v6 := map code (field eventOffDAddrV6 eventDAddrV6Size raw) in
        Ok (mkEvent typ (wraps 64 (uint eventOffTimestamp 8 raw))
              (uint eventOffPID 4 raw) (uint eventOffPPID 4 raw) (uint eventOffTGID 4 raw) (uint eventOffUID 4 raw)
              (if typ == EventPtraceEnh then uint eventOffReserved 4 raw else 0)
              (cStringN (field eventOffComm eventCommSize raw))
              (if has_filename typ then cStringN (field eventOffFilename eventFilenameSize raw) else "")
              (if typ == EventConnect
               then if family =? 2 then dotted v4 else if family =? 10 then ip16_text v6 else ""
               else "")
              (uint eventOffDPort 2 raw) family)
    end.

(** ** The record *)

(** The fields of the C struct. *)
Record probe := mkProbe {
  p_type : EventType; p_reserved : Z; p_ts : Z; p_pid : Z; p_ppid : Z; p_tgid : Z; p_uid : Z;
  p_comm : list ascii; p_filename : list ascii; p_family : Z; p_dport : Z; p_v4 : list Z; p_v6 : list Z;
}.

(** [n] bytes, least significant first. *)
Fixpoint le_put (n : nat) (z : Z) : list ascii :=
  match n with O => [] | S n => byte z :: le_put n (z / 256) end.

Definition pad (n : nat) (l : list ascii) : list ascii := l ++ replicate (n - length l) (byte 0).

(** The record at the offsets that the decoder and its comment give, without
    padding before the addresses. *)
Definition encode (p : probe) : list ascii :=
  [byte (type_code p.(p_type))] ++ replicate 3 (byte 0) ++ le_put 4 p.(p_reserved) ++ le_put 8 p.(p_ts)
  ++ le_put 4 p.(p_pid) ++ le_put 4 p.(p_ppid) ++ le_put 4 p.(p_tgid) ++ le_put 4 p.(p_uid)
  ++ pad 16 p.(p_comm) ++ pad 256 p.(p_filename) ++ [byte p.(p_family)] ++ replicate 3 (byte 0)
  ++ le_put 2 p.(p_dport) ++ map byte p.(p_v4) ++ map byte p.(p_v6).

Definition no_nul (l : list ascii) : Prop := byte 0 ∉ l.

Definition probe_ok (p : probe) : Prop :=
  p.(p_type) <> EventUnknown
  /\ 0 <= p.(p_reserved) < 2 ^ 32 /\ 0 <= p.(p_ts) < 2 ^ 63 /\ 0 <= p.(p_pid) < 2 ^ 32 /\ 0 <= p.(p_ppid) < 2 ^ 32
  /\ 0 <= p.(p_tgid) < 2 ^ 32 /\ 0 <= p.(p_uid) < 2 ^ 32
  /\ (length p.(p_comm) <= 16)%nat /\ no_nul p.(p_comm)
  /\ (length p.(p_filename) <= 256)%nat /\ no_nul p.(p_filename)
  /\ 0 <= p.(p_family) < 256 /\ 0 <= p.(p_dport) < 2 ^ 16
  /\ length p.(p_v4) = 4%nat /\ Forall (fun z => 0 <= z < 256) p.(p_v4)
  /\ length p.(p_v6) = 16%nat /\ Forall (fun z => 0 <= z < 256) p.(p_v6).

#[global] Instance probe_ok_dec p : Decision (probe_ok p).
Proof. unfold probe_ok, no_nul. repeat apply and_dec; apply _. Defined.

(** The probes that put a number into [_reserved]: the ptrace request, and the
    descriptor of a mapped file, which the agent is to resolve. *)
Definition uses_reserved (t : EventType) : bool := bool_decide (t ∈ [EventPtraceEnh; EventInstrument]).

(** What the agent is meant to see of a probe record. *)
Definition view (p : probe) : Event :=
  mkEvent p.(p_type) p.(p_ts) p.(p_pid) p.(p_ppid) p.(p_tgid) p.(p_uid)
    (if uses_reserved p.(p_type) then p.(p_reserved) else 0)
    (text p.(p_comm))
    (if has_filename p.(p_type) then text p.(p_filename) else "")
    (if p.(p_type) == EventConnect
     then if p.(p_family) =? 2 then dotted p.(p_v4) else if p.(p_family) =? 10 then ip16_text p.(p_v6) else ""
     else "")
    p.(p_dport) p.(p_family).

(** What is left of an event without the descriptor of a mapped file. *)
Definition no_descriptor (e : Event) : Event :=
  mkEvent e.(Type_) e.(Timestamp) e.(PID) e.(PPID) e.(TGID) e.(UID)
    (if e.(Type_) == EventInstrument then 0 else e.(Reserved))
    e.(Comm) e.(Filename) e.(DAddr) e.(DPort) e.(Family).

(** ** Lemmas *)

Lemma le_put_len n z : length (le_put n z) = n.
Proof. revert z. induction n as [|n IH]; intros z; simpl; [done|]. by rewrite IH. Qed.

Lemma le_le_put n z : 0 <= z < 256 ^ Z.of_nat n -> le (le_put n z) = z.
Proof.
  revert z. induction n as [|n IH]; intros z Hz; [simpl in *; lia|].
  rewrite Nat2Z.inj_succ, Z.pow_succ_r in Hz by lia. cbn [le_put le fold_right].
  fold (le (le_put n (z / 256))). rewrite IH.
  - unfold byte. rewrite <- Z.mod_mod by lia. fold (byte (z mod 256)).
    rewrite code_byte by (apply Z.mod_pos_bound; lia). pose proof (Z.div_mod z 256). lia.
  - split; [apply Z.div_pos; lia|apply Z.div_lt_upper_bound; lia].
Qed.

Lemma le_nonneg l : 0 <= le l.
Proof. induction l as [|a l IH]; cbn [le fold_right]; [lia|]. pose proof (code_range a). unfold le in IH. lia. Qed.

Lemma le_bound l : 0 <= le l < 256 ^ Z.of_nat (length l).
Proof.
  induction l as [|a l IH]; cbn [le fold_right length]; [simpl; lia|].
  rewrite Nat2Z.inj_succ, Z.pow_succ_r by lia. pose proof (code_range a). unfold le in IH. lia.
Qed.

Lemma pad_len n l : (length l <= n)%nat -> length (pad n l) = n.
Proof. intros. unfold pad. rewrite length_app, length_replicate. lia. Qed.

Lemma indexByte_here l r : no_nul l -> indexByte (byte 0) (l ++ byte 0 :: r) = Some (length l).
Proof.
  unfold no_nul. induction l as [|a l IH]; cbn [app indexByte length]; intros Hn.
  - by rewrite bool_decide_eq_true_2.
  - apply not_elem_of_cons in Hn as [Ha Hl]. rewrite bool_decide_eq_false_2 by congruence. by rewrite IH.
Qed.

Lemma indexByte_none l : no_nul l -> indexByte (byte 0) l = None.
Proof.
  unfold no_nul. induction l as [|a l IH]; simpl; [done|]. intros [Ha Hl]%not_elem_of_cons.
  rewrite bool_decide_eq_false_2 by congruence. by rewrite IH.
Qed.

Lemma cStringN_pad n l : no_nul l -> cStringN (pad n l) = text l.
Proof.
  intros Hl. unfold cStringN, pad. destruct (n - length l)%nat as [|k]; simpl.
  - by rewrite app_nil_r, indexByte_none.
  - by rewrite indexByte_here, take_app_length.
Qed.

(** The bytes of one field of a concatenation. *)
Lemma field_skip n l r off k :
  length l = n -> (n <= off)%nat -> field off k (l ++ r) = field (off - n) k r.
Proof. intros <- Hle. unfold field. by rewrite drop_app_ge. Qed.

Lemma field_here n l r : length l = n -> field 0 n (l ++ r) = l.
Proof. intros <-. unfold field. rewrite drop_0. apply take_app_length. Qed.

Lemma map_code_byte l : Forall (fun z => 0 <= z < 256) l -> map code (map byte l) = l.
Proof. induction 1 as [|z l Hz _ IH]; simpl; [done|]. by rewrite code_byte, IH. Qed.

Lemma encode_len p r : probe_ok p -> (length (encode p ++ r) = 330 + length r)%nat.
Proof.
  intros (_ & _ & _ & _ & _ & _ & _ & Hc & _ & Hf & _ & _ & _ & H4 & _ & H6 & _).
  unfold encode. rewrite !length_app, !le_put_len, !pad_len, !length_map by done.
  rewrite H4, H6. reflexivity.
Qed.

Definition fields_of (p : probe) : list (list ascii) :=
  [[byte (type_code p.(p_type))]; replicate 3 (byte 0); le_put 4 p.(p_reserved); le_put 8 p.(p_ts);
   le_put 4 p.(p_pid); le_put 4 p.(p_ppid); le_put 4 p.(p_tgid); le_put 4 p.(p_uid);
   pad 16 p.(p_comm); pad 256 p.(p_filename); [byte p.(p_family)]; replicate 3 (byte 0);
   le_put 2 p.(p_dport); map byte p.(p_v4); map byte p.(p_v6)].

Lemma encode_concat p : encode p = concat (fields_of p).
Proof. unfold encode, fields_of. cbn [concat]. by rewrite app_nil_r. Qed.

(** The [i]-th field of a concatenation lies behind the fields before it. *)
Lemma field_concat (ls : list (list ascii)) i l off n :
  ls !! i = Some l -> off = length (concat (take i ls)) -> n = length l -> field off n (concat ls) = l.
Proof.
  intros Hi -> ->. revert i Hi. induction ls as [|x ls IH]; intros [|i]; simpl; try done.
  - intros [= ->]. apply field_here. done.
  - intros Hi. rewrite length_app. rewrite (field_skip (length x)) by (done || lia).
    replace (length x + length (concat (take i ls)) - length x)%nat with (length (concat (take i ls))) by lia.
    by apply IH.
Qed.

#[local] Ltac at_field i :=
  rewrite encode_concat; eapply (field_concat _ i); [reflexivity| |];
  cbn [fields_of take concat]; rewrite ?length_app, ?le_put_len, ?pad_len, ?length_map by done; try reflexivity; try done.

Lemma encode_fields p :
  probe_ok p ->
  let raw := encode p in
  field 0 1 raw = [byte (type_code (p_type p))] /\ field 4 4 raw = le_put 4 (p_reserved p)
  /\ field 8 8 raw = le_put 8 (p_ts p) /\ field 16 4 raw = le_put 4 (p_pid p)
  /\ field 20 4 raw = le_put 4 (p_ppid p) /\ field 24 4 raw = le_put 4 (p_tgid p)
  /\ field 28 4 raw = le_put 4 (p_uid p) /\ field 32 16 raw = pad 16 (p_comm p)
  /\ field 48 256 raw = pad 256 (p_filename p) /\ field 304 1 raw = [byte (p_family p)]
  /\ field 308 2 raw = le_put 2 (p_dport p) /\ field 310 4 raw = map byte (p_v4 p)
  /\ field 314 16 raw = map byte (p_v6 p).
Proof.
  intros (_ & _ & _ & _ & _ & _ & _ & Hc & _ & Hf & _ & _ & _ & H4 & _ & H6 & _). cbv zeta.
  split_and!.
  - at_field 0%nat.
  - at_field 2%nat.
  - at_field 3%nat.
  - at_field 4%nat.
  - at_field 5%nat.
  - at_field 6%nat.
  - at_field 7%nat.
  - at_field 8%nat.
  - at_field 9%nat.
  - at_field 10%nat.
  - at_field 12%nat.
  - at_field 13%nat.
  - at_field 14%nat; rewrite H4; reflexivity.
Qed.

Lemma type_of_code t : t <> EventUnknown -> type_of (type_code t) = Some t.
Proof. by destruct t. Qed.

Lemma type_code_byte t : le [byte (type_code t)] = type_code t.
Proof. by destruct t. Qed.

(** The decoder reads what is at its offsets: for every record laid out that
    way, whatever follows it in the buffer, [ParseEvent] returns its process ids,
    user, time stamp, command, port and family, the file name for the types that
    carry one, the ptrace request for [EventPtraceEnh] and the printed address
    for [EventConnect]; the descriptor of [EventInstrument] is not read.  How
    the compiler lays the record out is in [Probes]. *)
Theorem ParseEvent_encode p r : probe_ok p -> ParseEvent (encode p ++ r) = Ok (no_descriptor (view p)).
Proof.
  intros Hok. unfold ParseEvent. rewrite (encode_len p r Hok).
  rewrite (proj2 (Nat.ltb_ge (330 + length r) eventTotalSize)) by (unfold eventTotalSize; lia).
  assert ((if (eventTotalSize <? 330 + length r)%nat then take eventTotalSize (encode p ++ r) else encode p ++ r)
    = encode p) as ->.
  { pose proof (encode_len p [] Hok) as Hl. rewrite app_nil_r, Nat.add_0_r in Hl.
    destruct (Nat.ltb_spec eventTotalSize (330 + length r)) as [|Hle].
    - unfold eventTotalSize. by rewrite take_app_length' by done.
    - unfold eventTotalSize in Hle. destruct r; [by rewrite app_nil_r|simpl in Hle; lia]. }
  unfold uint, eventOffType, eventOffFamily, eventOffDAddrV4, eventDAddrV4Size, eventOffDAddrV6, eventDAddrV6Size,
    eventOffTimestamp, eventOffPID, eventOffPPID, eventOffTGID, eventOffUID, eventOffReserved, eventOffComm,
    eventCommSize, eventOffFilename, eventFilenameSize, eventOffDPort.
  destruct (encode_fields p Hok) as (-> & -> & -> & -> & -> & -> & -> & -> & -> & -> & -> & -> & ->).
  destruct Hok as (Ht & Hr & Hts & Hpid & Hpp & Htg & Hu & _ & Hcn & _ & Hfn & Hfam & Hdp & _ & H4 & _ & H6).
  rewrite type_code_byte, type_of_code by done.
  rewrite !le_le_put by (simpl; lia). rewrite !map_code_byte, !cStringN_pad by done.
  rewrite wraps_small by lia. cbn [le fold_right]. rewrite code_byte, Z.mul_0_r, Z.add_0_r by done.
  unfold no_descriptor, view. cbn [Type_ Timestamp PID PPID TGID UID Reserved Comm Filename DAddr DPort Family].
  do 2 f_equal. by destruct (p_type p).
Qed.

Lemma ParseEvent_encode_witness :
  ParseEvent (encode (mkProbe EventConnect 0 5 7 1 7 0 (bytes "curl") [] 2 443 [10; 0; 0; 1] (replicate 16 0)) ++ [byte 9])
  = Ok (mkEvent EventConnect 5 7 1 7 0 0 "curl" "" "10.0.0.1" 443 2).
Proof.
  rewrite (ParseEvent_encode (mkProbe EventConnect 0 5 7 1 7 0 (bytes "curl") [] 2 443 [10; 0; 0; 1] (replicate 16 0)) [byte 9]);
    [vm_compute; reflexivity|].
  unfold probe_ok, no_nul. cbn [p_type p_reserved p_ts p_pid p_ppid p_tgid p_uid p_comm p_filename p_family p_dport p_v4 p_v6].
  split_and!; try lia; try discriminate; try (simpl; lia); try (apply (bool_decide_unpack _); vm_compute; exact I);
    repeat constructor; lia.
Defined.

(** The decoder is total and its errors are exactly these: a buffer shorter
    than the record, or a type byte outside 1..8; in every other case all
    numbers of the event are within their width. *)
Theorem ParseEvent_total raw :
  match ParseEvent raw with
  | Err (ShortBuffer n) => n = Z.of_nat (length raw) /\ n < 330
  | Err (UnknownType c) => (330 <= length raw)%nat /\ (c = 0 \/ 8 < c < 256)
  | Ok e =>
      (330 <= length raw)%nat /\ Type_ e <> EventUnknown
      /\ 0 <= PID e < 2 ^ 32 /\ 0 <= PPID e < 2 ^ 32 /\ 0 <= TGID e < 2 ^ 32 /\ 0 <= UID e < 2 ^ 32
      /\ 0 <= Reserved e < 2 ^ 32 /\ 0 <= DPort e < 2 ^ 16 /\ 0 <= Family e < 256
      /\ - 2 ^ 63 <= Timestamp e < 2 ^ 63
      /\ (String.length (Comm e) <= 16)%nat /\ (String.length (Filename e) <= 256)%nat
  end.
Proof.
  assert (forall off n l, 0 <= uint off n l < 256 ^ Z.of_nat n) as Hu.
  { intros off n l. pose proof (le_bound (field off n l)) as Hb. split; [apply Hb|].
    eapply Z.lt_le_trans; [apply Hb|]. apply Z.pow_le_mono_r; [lia|]. unfold field. rewrite length_take. lia. }
  assert (forall off n l, (String.length (cStringN (field off n l)) <= n)%nat) as Hs.
  { intros off n l. unfold cStringN.
    assert (forall x, String.length (text x) = length x) as Ht by (induction x; simpl; auto).
    unfold field. case_match; rewrite Ht, ?length_take; lia. }
  unfold ParseEvent. destruct (Nat.ltb_spec (length raw) eventTotalSize) as [Hlt|Hge].
  { split; [done|]. unfold eventTotalSize in Hlt. lia. }
  set (r := if (_ <? _)%nat then _ else _).
  assert (forall c, 0 <= c < 256 -> match type_of c with Some t => t <> EventUnknown | None => c = 0 \/ 8 < c < 256 end) as Hty.
  { intros c Hc. unfold type_of, all_types. cbn [List.find type_code].
    repeat match goal with |- context [if ?a =? c then _ else _] => destruct (Z.eqb_spec a c); [done|] end. lia. }
  specialize (Hty _ (Hu eventOffType 1%nat r)). destruct (type_of _) as [typ|]; [|done].
  cbn [Type_ PID PPID TGID UID Reserved DPort Family Timestamp Comm Filename].
  pose proof (Hu eventOffReserved 4%nat r). pose proof (Z.mod_pos_bound (uint eventOffTimestamp 8 r + 2 ^ (64 - 1)) (2 ^ 64) ltac:(lia)).
  split_and!; try apply Hu; try apply Hs; try done; unfold wraps; try lia.
  1,2: case_bool_decide; lia.
  destruct (has_filename typ); [apply Hs|simpl; lia].
Qed.
