(* ===== verification/Loader.v ===== *)
(** * The probe loaders ([internal/bpf/loader_libbpf.go], [internal/bpf/fake.go])

    [Live] is the Go side of the libbpf loader's channels: bounded queues, the
    code of a poll an argument.  Its handle and its maps are in [Bridge] and
    [BpfMaps].  [Fake] is the in-memory loader as a step relation over
    its pump goroutine, the injecting goroutines and the reader. *)

From S2P Require Import Prelude GoStrings BpfEvent.

(** The types that are copied to the fast path. *)
Definition fast_type (t : EventType) : bool :=
  bool_decide (t ∈ [EventExec; EventSelfProtect; EventPtraceEnh; EventLDPreload; EventInstrument]).

(** A send that does not block: the queue with the value, or dropped. *)
Definition try_send {A} (cap : nat) (x : A) (q : list A) : bool * list A :=
  if (length q <? cap)%nat then (true, q ++ [x]) else (false, q).

Inductive loader_err := ErrAlreadyLoaded | ErrNotLoaded | ErrRC (rc : Z).

(** ** The libbpf loader *)

Module Live.

Inductive report := PollError (rc : Z) | Dropped (t : EventType) (pid : Z).

Record loader := mkLoader {
  out : list Event; fastOut : list Event; errs : list report;
  loaded : bool; closed : bool;
}.

(** [NewLibBPFLoader] after the object file was opened. *)
Definition new : loader := mkLoader [] [] [] false false.

Definition outCap : nat := 256.
Definition errsCap : nat := 16.
Definition fastCap : nat := 256.

Definition set_queues (l : loader) (o f : list Event) (e : list report) : loader :=
  mkLoader o f e l.(loaded) l.(closed).

Definition Load (l : loader) : option loader_err * loader :=
  if l.(loaded) then (Some ErrAlreadyLoaded, l)
  else (None, mkLoader l.(out) l.(fastOut) l.(errs) true l.(closed)).

Definition Close (l : loader) : option loader_err * loader :=
  if negb l.(loaded) then (Some ErrNotLoaded, l)
  else (None, mkLoader l.(out) l.(fastOut) l.(errs) l.(loaded) true).

(** One round of [pump] with the code of [edr_poll]. *)
Definition poll (l : loader) (rc : Z) : loader :=
  if l.(closed) then l
  else if rc <? 0 then set_queues l l.(out) l.(fastOut) (try_send errsCap (PollError rc) l.(errs)).2
  else l.

(** [edr_deliver_event] on the loader of the callback's context: the return code
    and the loader.  [race] is a [Close] by another goroutine between the test of
    [closed] and the last [select]: [None] when there is none, else whether the
    [select] takes the queue when both the queue and [stop] are ready. *)
Definition edr_deliver_event (l : loader) (race : option bool) (raw : list ascii) : Z * loader :=
  if l.(closed) then (-1, l)
  else match ParseEvent raw with
  | Err _ => (0, l)
  | Ok ev =>
      let f := if fast_type ev.(Type_) then (try_send fastCap ev l.(fastOut)).2 else l.(fastOut) in
      match race, try_send outCap ev l.(out) with
      | None, (true, o) => (0, set_queues l o f l.(errs))
      | None, (false, o) => (-1, set_queues l o f (try_send errsCap (Dropped ev.(Type_) ev.(PID)) l.(errs)).2)
      | Some true, (true, o) => (0, (Close (set_queues l o f l.(errs))).2)
      | Some _, _ => (-1, (Close (set_queues l l.(out) f l.(errs))).2)
      end
  end.

(** The loader and its consumer: what the consumer took from each queue. *)
Record world := mkWorld { w_loader : loader; w_events : list Event; w_fast : list Event; w_errs : list report }.

Inductive op :=
| Deliver (race : option bool) (raw : list ascii) | Poll (rc : Z) | DoLoad | DoClose | TakeEvent | TakeFast | TakeErr.

Definition step (w : world) (o : op) : world :=
  let l := w.(w_loader) in
  match o with
  | Deliver race raw => mkWorld (edr_deliver_event l race raw).2 w.(w_events) w.(w_fast) w.(w_errs)
  | Poll rc => mkWorld (poll l rc) w.(w_events) w.(w_fast) w.(w_errs)
  | DoLoad => mkWorld (Load l).2 w.(w_events) w.(w_fast) w.(w_errs)
  | DoClose => mkWorld (Close l).2 w.(w_events) w.(w_fast) w.(w_errs)
  | TakeEvent =>
      match l.(out) with
      | [] => w
      | e :: q => mkWorld (set_queues l q l.(fastOut) l.(errs)) (w.(w_events) ++ [e]) w.(w_fast) w.(w_errs)
      end
  | TakeFast =>
      match l.(fastOut) with
      | [] => w
      | e :: q => mkWorld (set_queues l l.(out) q l.(errs)) w.(w_events) (w.(w_fast) ++ [e]) w.(w_errs)
      end
  | TakeErr =>
      match l.(errs) with
      | [] => w
      | e :: q => mkWorld (set_queues l l.(out) l.(fastOut) q) w.(w_events) w.(w_fast) (w.(w_errs) ++ [e])
      end
  end.

(** The pump runs from [Load] on. *)
Definition world0 : world := mkWorld (Load new).2 [] [] [].
Definition run (ops : list op) : world := foldl step world0 ops.

(** *** What the queues owe their readers

    Stated on the moves alone, and on how many entries wait in a queue. *)

Definition decoded (raw : list ascii) : option Event :=
  match ParseEvent raw with Ok e => Some e | Err _ => None end.

(** The move closes the loader: [Close] itself, or one that came in while a
    record was being handed over. *)
Definition closing (o : op) : bool :=
  match o with
  | DoClose => true
  | Deliver (Some _) raw => bool_decide (is_Some (decoded raw))
  | _ => false
  end.
Definition open (ops : list op) : bool := forallb (fun o => negb (closing o)) ops.

(** Records taken from the ring buffer, in order. *)
Definition parsed (ops : list op) : list Event :=
  omap (fun o => match o with Deliver _ raw => decoded raw | _ => None end) ops.

(** What the move [o] adds after the moves [pre]. *)
Definition owed_event (pre : list op) (o : op) : list Event :=
  match o with
  | Deliver race raw =>
      match decoded raw with
      | Some e => if open pre && (length (out (w_loader (run pre))) <? 256)%nat && negb (bool_decide (race = Some false))
                  then [e] else []
      | None => []
      end
  | _ => []
  end.

Definition owed_fast (pre : list op) (o : op) : list Event :=
  match o with
  | Deliver _ raw =>
      match decoded raw with
      | Some e => if open pre && fast_type (Type_ e) && (length (fastOut (w_loader (run pre))) <? 256)%nat then [e] else []
      | None => []
      end
  | _ => []
  end.

Definition owed_report (pre : list op) (o : op) : list report :=
  if open pre && (length (errs (w_loader (run pre))) <? 16)%nat then
    match o with
    | Poll rc => if rc <? 0 then [PollError rc] else []
    | Deliver None raw =>
        match decoded raw with
        | Some e => if (length (out (w_loader (run pre))) <? 256)%nat then [] else [Dropped (Type_ e) (PID e)]
        | None => []
        end
    | _ => []
    end
  else [].

(** The contributions of all moves, in order. *)
Definition over {A} (f : list op -> op -> list A) (ops : list op) : list A :=
  concat (imap (fun i o => f (take i ops) o) ops).

Definition seen (w : world) : list Event := w.(w_events) ++ w.(w_loader).(out).
Definition seen_fast (w : world) : list Event := w.(w_fast) ++ w.(w_loader).(fastOut).
Definition seen_errs (w : world) : list report := w.(w_errs) ++ w.(w_loader).(errs).

Definition bounded (l : loader) : Prop :=
  (length l.(out) <= outCap)%nat /\ (length l.(fastOut) <= fastCap)%nat /\ (length l.(errs) <= errsCap)%nat.

Lemma try_send_spec {A} cap (x : A) q :
  (length q <= cap)%nat ->
  (length (try_send cap x q).2 <= cap)%nat
  /\ ((try_send cap x q = (true, q ++ [x])) \/ (try_send cap x q = (false, q) /\ length q = cap)).
Proof.
  unfold try_send. intros Hq. destruct (Nat.ltb_spec (length q) cap); simpl.
  - split; [rewrite length_app; simpl; lia|by left].
  - split; [done|]. right. split; [done|lia].
Qed.

Lemma try_send_eq {A} cap (x : A) q :
  (try_send cap x q).2 = q ++ (if (length q <? cap)%nat then [x] else []).
Proof. unfold try_send. destruct (_ <? _)%nat; simpl; by rewrite ?app_nil_r. Qed.

Lemma try_send_bounded {A} cap (x : A) q : (length q <= cap)%nat -> (length (try_send cap x q).2 <= cap)%nat.
Proof. intros H. by apply try_send_spec. Qed.

Lemma over_snoc {A} (f : list op -> op -> list A) ops o : over f (ops ++ [o]) = over f ops ++ f ops o.
Proof.
  unfold over. rewrite imap_app. simpl. rewrite concat_app. simpl. rewrite app_nil_r, Nat.add_0_r, take_app_length.
  do 2 f_equal. apply imap_ext. intros i x Hx. simpl. rewrite take_app_le; [done|]. apply lookup_lt_Some in Hx. lia.
Qed.

Lemma live_snoc ops o : run (ops ++ [o]) = step (run ops) o.
Proof. unfold run. by rewrite foldl_app. Qed.

Lemma open_snoc ops o : open (ops ++ [o]) = open ops && negb (closing o).
Proof. unfold open. rewrite forallb_app. simpl. by rewrite andb_true_r. Qed.

(** The loader after any moves: still loaded, closed exactly when a move closed
    it, its queues within their capacities. *)
Definition sound (ops : list op) : Prop :=
  let l := w_loader (run ops) in
  loaded l = true /\ closed l = negb (open ops) /\ bounded l.

(** What one move adds to what the readers see. *)
Definition accounts (ops : list op) (o : op) : Prop :=
  let w := run ops in
  seen (step w o) = seen w ++ owed_event ops o /\ seen_fast (step w o) = seen_fast w ++ owed_fast ops o
  /\ seen_errs (step w o) = seen_errs w ++ owed_report ops o.

(** A record handed to an open loader. *)
Lemma deliver_accounts ops race raw :
  sound ops -> sound (ops ++ [Deliver race raw]) /\ accounts ops (Deliver race raw).
Proof.
  intros (Hl & Hc & Hb). unfold sound, accounts. rewrite live_snoc, open_snoc.
  unfold owed_event, owed_fast, owed_report, closing, decoded, seen, seen_fast, seen_errs.
  destruct (run ops) as [l ev fa er]. cbn [step w_loader w_events w_fast w_errs] in *.
  unfold edr_deliver_event. rewrite Hc.
  destruct (open ops); cbn [negb andb].
  2: { split; [done|]. repeat case_match; by rewrite ?app_nil_r. }
  destruct (ParseEvent raw) as [e|err].
  2: { split; [by destruct race|]. destruct race; repeat case_match; by rewrite ?app_nil_r. }
  destruct Hb as (H1 & H2 & H3).
  assert ((if fast_type (Type_ e) then (try_send fastCap e (fastOut l)).2 else fastOut l)
    = fastOut l ++ (if fast_type (Type_ e) && (length (fastOut l) <? 256)%nat then [e] else [])) as Ef.
  { destruct (fast_type (Type_ e)); simpl; [apply try_send_eq|by rewrite app_nil_r]. }
  assert (length (if fast_type (Type_ e) then (try_send fastCap e (fastOut l)).2 else fastOut l) <= fastCap)%nat as Hf.
  { destruct (fast_type (Type_ e)); [by apply try_send_bounded|done]. }
  cbv zeta. rewrite Ef in *. pose proof (try_send_bounded outCap e (out l) H1) as Ho.
  pose proof (try_send_bounded errsCap (Dropped (Type_ e) (PID e)) (errs l) H3) as He. rewrite try_send_eq in He.
  unfold try_send in Ho |- *. change outCap with 256%nat in *. change errsCap with 16%nat in *.
  destruct (length (out l) <? 256)%nat, race as [[]|]; unfold Close, set_queues, bounded;
    cbn [out fastOut errs loaded closed fst snd negb andb] in *; rewrite ?Hl, ?Hc; cbn [out fastOut errs loaded closed fst snd negb];
    try (destruct (length (errs l) <? 16)%nat; cbn [andb snd]); rewrite ?app_nil_r, ?app_assoc in *; done.
Qed.

Lemma move_accounts ops o : sound ops -> sound (ops ++ [o]) /\ accounts ops o.
Proof.
  intros Hs. destruct o as [race raw|rc| | | | |]; [by apply deliver_accounts|..]; destruct Hs as (Hl & Hc & H1 & H2 & H3);
    unfold sound, accounts, owed_event, owed_fast, owed_report; rewrite live_snoc, open_snoc; cbn [closing negb];
    rewrite ?andb_true_r, ?andb_false_r; unfold seen, seen_fast, seen_errs, bounded;
    destruct (run ops) as [l ev fa er]; cbn [step w_loader w_events w_fast w_errs] in *.
  - unfold poll. rewrite Hc. destruct (open ops); cbn [negb andb]; [|by rewrite Hc, !app_nil_r].
    destruct (rc <? 0); [|by rewrite Hc, !app_nil_r; case_match; rewrite ?app_nil_r]. cbn [set_queues out fastOut errs loaded closed].
    pose proof (try_send_bounded errsCap (PollError rc) (errs l) H3). rewrite try_send_eq in *. change errsCap with 16%nat in *.
    rewrite Hc, !app_nil_r, app_assoc. done.
  - unfold Load. rewrite Hl. cbn [snd]. rewrite ?Hl, ?Hc, !app_nil_r. by case_match; rewrite ?app_nil_r.
  - unfold Close. rewrite Hl. cbn [negb snd out fastOut errs loaded closed]. rewrite ?Hl, !app_nil_r. by case_match; rewrite ?app_nil_r.
  - destruct (out l) as [|e q] eqn:E; cbn [w_loader w_events w_fast w_errs set_queues out fastOut errs loaded closed];
      rewrite ?Hl, ?Hc, ?E, !app_nil_r, <- ?app_assoc; cbn [length] in *; case_match; rewrite ?app_nil_r; split_and!; first [done|lia].
  - destruct (fastOut l) as [|e q] eqn:E; cbn [w_loader w_events w_fast w_errs set_queues out fastOut errs loaded closed];
      rewrite ?Hl, ?Hc, ?E, !app_nil_r, <- ?app_assoc; cbn [length] in *; case_match; rewrite ?app_nil_r; split_and!; first [done|lia].
  - destruct (errs l) as [|e q] eqn:E; cbn [w_loader w_events w_fast w_errs set_queues out fastOut errs loaded closed];
      rewrite ?Hl, ?Hc, ?E, !app_nil_r, <- ?app_assoc; cbn [length] in *; case_match; rewrite ?app_nil_r; split_and!; first [done|lia].
Qed.

Lemma run_accounts ops :
  sound ops /\ seen (run ops) = over owed_event ops /\ seen_fast (run ops) = over owed_fast ops
  /\ seen_errs (run ops) = over owed_report ops.
Proof.
  induction ops as [|o ops (Hs & E1 & E2 & E3)] using rev_ind.
  { unfold sound, seen, seen_fast, seen_errs, bounded. simpl. split_and!; try done; lia. }
  destruct (move_accounts ops o Hs) as (Hs' & A1 & A2 & A3). split; [done|].
  by rewrite live_snoc, !over_snoc, A1, A2, A3, E1, E2, E3.
Qed.

(** No event queue was full when a record arrived. *)
Definition never_full (ops : list op) : Prop :=
  forall i, (i < length ops)%nat ->
  (length (out (w_loader (run (take i ops)))) < 256)%nat /\ (length (fastOut (w_loader (run (take i ops)))) < 256)%nat.

Lemma over_all {A} (f : list op -> op -> list A) (g : op -> list A) ops :
  (forall i o, ops !! i = Some o -> f (take i ops) o = g o) -> over f ops = concat (g <$> ops).
Proof.
  intros H. unfold over. f_equal. rewrite <- (imap_const g). apply imap_ext. intros i o Ho. by apply H.
Qed.

Lemma open_take ops i : open ops = true -> open (take i ops) = true.
Proof.
  unfold open. rewrite !forallb_forall. setoid_rewrite <- list_elem_of_In. intros H o Ho. apply H.
  by apply elem_of_take in Ho as (j & Ho & _); eapply list_elem_of_lookup_2.
Qed.

Lemma parsed_concat ops :
  parsed ops = concat ((fun o => match o with Deliver _ raw => option_list (decoded raw) | _ => [] end) <$> ops).
Proof.
  unfold parsed. induction ops as [|o ops IH]; [done|]. csimpl.
  destruct o as [race raw| | | | | |]; csimpl; rewrite <- IH; try done. by destruct (decoded raw).
Qed.

Lemma deliver_code ops race raw :
  closed (w_loader (run ops)) = negb (open ops) ->
  (edr_deliver_event (w_loader (run ops)) race raw).1
  = if open ops && (bool_decide (decoded raw = None) || negb (bool_decide (owed_event ops (Deliver race raw) = []))) then 0 else -1.
Proof.
  intros Hc. unfold edr_deliver_event, owed_event, decoded. rewrite Hc. destruct (open ops); [|done]. cbn [negb andb].
  destruct (ParseEvent raw) as [e|err]; [|by rewrite bool_decide_eq_true_2].
  unfold try_send, outCap. destruct (_ <? _)%nat, race as [[]|]; reflexivity.
Qed.

Lemma kept_up ops :
  open ops = true -> never_full ops ->
  over owed_event ops = parsed ops /\ over owed_fast ops = filter (fun e => fast_type (Type_ e)) (parsed ops).
Proof.
  intros Ho Hn.
  assert (forall i o, ops !! i = Some o -> owed_event (take i ops) o = match o with Deliver _ raw => option_list (decoded raw) | _ => [] end
    /\ owed_fast (take i ops) o = match o with Deliver _ raw => filter (fun e => fast_type (Type_ e)) (option_list (decoded raw)) | _ => [] end) as H.
  { intros i o Hi. destruct (Hn i (lookup_lt_Some _ _ _ Hi)) as [H1 H2]. apply Nat.ltb_lt in H1, H2.
    assert (negb (closing o) = true) as Hcl.
    { unfold open in Ho. rewrite forallb_forall in Ho. apply Ho, list_elem_of_In. by eapply list_elem_of_lookup_2. }
    destruct o as [race raw| | | | | |]; try done. unfold owed_event, owed_fast. rewrite (open_take ops i Ho), H1, H2.
    unfold closing in Hcl. destruct (decoded raw) as [e|]; [|done]. change (option_list (Some e)) with [e]. cbn [andb]. rewrite filter_cons, filter_nil.
    destruct race; [done|]. split; [done|]. by destruct (fast_type (Type_ e)). }
  rewrite (over_all owed_event _ ops (fun i o Hi => proj1 (H i o Hi))), (over_all owed_fast _ ops (fun i o Hi => proj2 (H i o Hi))).
  rewrite parsed_concat. split; [done|]. clear. induction ops as [|o ops IH]; [done|]. csimpl. rewrite filter_app, IH.
  by destruct o.
Qed.

End Live.

(** C34. Delivery to the agent, under any interleaving of ring-buffer records, poll
    errors, reads of the three channels and [Close], a [Close] in the middle of
    a hand-over included: the event channel carries exactly the records that
    decode, arrived before the loader was closed and found room (or lost the
    race with that [Close]), in order and once each; the fast channel exactly
    those of the enforcement types among them for which it had room; the error
    channel exactly the poll errors and the dropped records for which it had
    room.  A hand-over answers zero exactly when the loader was open and the
    record was queued or cannot be decoded.  No queue exceeds its capacity, and
    as long as the loader is open and the readers keep up nothing is lost. *)
Theorem delivery_exact ops :
  let w := Live.run ops in
  Live.seen w = Live.over Live.owed_event ops /\ Live.seen_fast w = Live.over Live.owed_fast ops
  /\ Live.seen_errs w = Live.over Live.owed_report ops
  /\ (forall race raw, (Live.edr_deliver_event (Live.w_loader w) race raw).1
       = if Live.open ops && (bool_decide (Live.decoded raw = None) || negb (bool_decide (Live.owed_event ops (Live.Deliver race raw) = [])))
         then 0 else -1)
  /\ Live.bounded (Live.w_loader w)
  /\ (Live.open ops = true -> Live.never_full ops ->
      Live.seen w = Live.parsed ops /\ Live.seen_fast w = filter (fun e => fast_type (Type_ e)) (Live.parsed ops)).
Proof.
  intros w. destruct (Live.run_accounts ops) as ((Hl & Hc & Hb) & E1 & E2 & E3).
  split; [done|]. split; [done|]. split; [done|]. split; [|split; [done|]].
  - intros race raw. by apply Live.deliver_code.
  - unfold w. rewrite E1, E2. apply Live.kept_up.
Qed.

(** A loader that was closed cannot be loaded again. *)
Example reload_after_close_refused :
  (Live.Load (Live.Close (Live.Load Live.new).2).2).1 = Some ErrAlreadyLoaded.
Proof. reflexivity. Qed.

(** ** The in-memory loader *)

Module Fake.

(** Where the pump goroutine is: at the head of its loop, blocked in the select
    on [wakeup] and [stop], holding an event it is about to send, or gone. *)
Inductive pc := Idle | Waiting | Holding (e : Event) | Exited.

(** [signals] counts the injecting goroutines that have appended their event and
    not yet tried the send on [wakeup]; [taken] is what the reader received. *)
Record loader := mkFake {
  pending : list Event; cursor : nat; out : list Event; fastOut : list Event; errs : nat;
  wakeup : bool; signals : nat; pump : pc; started : bool; closed : bool; taken : list Event;
}.

Definition NewFakeLoader (events : list Event) : loader :=
  mkFake events 0 [] [] 0 false 0 Idle false false [].

Definition outCap : nat := 32.
Definition fastCap : nat := 32.
Definition errsCap : nat := 16.

(** The event with the time source's time when it has none; [zero] is Go's zero
    time in nanoseconds. *)
Definition zero : Z := -62135596800 * second.
Definition stamp (now : Z) (e : Event) : Event :=
  if e.(Timestamp) == zero
  then mkEvent e.(Type_) now e.(PID) e.(PPID) e.(TGID) e.(UID) e.(Reserved) e.(Comm) e.(Filename) e.(DAddr) e.(DPort) e.(Family)
  else e.
Definition stamped (e e' : Event) : Prop := exists now, e' = stamp now e.

Definition Load (f : loader) : option loader_err * loader :=
  if f.(started) then (Some ErrAlreadyLoaded, f)
  else (None, mkFake f.(pending) f.(cursor) f.(out) f.(fastOut) f.(errs) f.(wakeup) f.(signals) f.(pump) true f.(closed) f.(taken)).

(** [Inject] up to the unlock, and its send on [wakeup]. *)
Definition Inject (f : loader) (e : Event) : loader :=
  if f.(closed) || negb f.(started) then f
  else mkFake (f.(pending) ++ [e]) f.(cursor) f.(out) f.(fastOut) f.(errs) f.(wakeup) (S f.(signals)) f.(pump) f.(started) f.(closed) f.(taken).
Definition Signal (f : loader) : loader :=
  mkFake f.(pending) f.(cursor) f.(out) f.(fastOut) f.(errs) true (pred f.(signals)) f.(pump) f.(started) f.(closed) f.(taken).

Definition InjectError (f : loader) : loader :=
  if f.(closed) || negb f.(started) then f
  else mkFake f.(pending) f.(cursor) f.(out) f.(fastOut) (if (f.(errs) <? errsCap)%nat then S f.(errs) else f.(errs))
         f.(wakeup) f.(signals) f.(pump) f.(started) f.(closed) f.(taken).

(** [Close] up to [close(f.stop)]; it then waits for the pump to exit. *)
Definition Close (f : loader) : option loader_err * loader :=
  if negb f.(started) then (Some ErrNotLoaded, f)
  else (None, mkFake f.(pending) f.(cursor) f.(out) f.(fastOut) f.(errs) f.(wakeup) f.(signals) f.(pump) f.(started) true f.(taken)).

Definition set_pump (f : loader) (p : pc) : loader :=
  mkFake f.(pending) f.(cursor) f.(out) f.(fastOut) f.(errs) f.(wakeup) f.(signals) p f.(started) f.(closed) f.(taken).

(** The steps of the goroutines. *)
Inductive step : loader -> loader -> Prop :=
| StLoad f : step f (Load f).2
| StInject f e : step f (Inject f e)
| StSignal f : (0 < f.(signals))%nat -> step f (Signal f)
| StInjectError f : step f (InjectError f)
| StClose f : step f (Close f).2
| StBlock f : f.(started) = true -> f.(pump) = Idle -> (length f.(pending) <= f.(cursor))%nat ->
    step f (set_pump f Waiting)
| StWake f : f.(pump) = Waiting -> f.(wakeup) = true ->
    step f (mkFake f.(pending) f.(cursor) f.(out) f.(fastOut) f.(errs) false f.(signals) Idle f.(started) f.(closed) f.(taken))
| StTake f e now : f.(started) = true -> f.(pump) = Idle -> f.(pending) !! f.(cursor) = Some e ->
    step f (mkFake f.(pending) (S f.(cursor)) f.(out) f.(fastOut) f.(errs) f.(wakeup) f.(signals)
              (Holding (stamp now e)) f.(started) f.(closed) f.(taken))
| StSend f e : f.(pump) = Holding e -> (length f.(out) < outCap)%nat ->
    step f (mkFake f.(pending) f.(cursor) (f.(out) ++ [e])
              (if fast_type e.(Type_) then (try_send fastCap e f.(fastOut)).2 else f.(fastOut))
              f.(errs) f.(wakeup) f.(signals) Idle f.(started) f.(closed) f.(taken))
| StStop f : f.(closed) = true -> (f.(pump) = Waiting \/ exists e, f.(pump) = Holding e) -> step f (set_pump f Exited)
| StRead f e q : f.(out) = e :: q ->
    step f (mkFake f.(pending) f.(cursor) q f.(fastOut) f.(errs) f.(wakeup) f.(signals) f.(pump) f.(started) f.(closed) (f.(taken) ++ [e])).

Definition held (f : loader) : list Event := match f.(pump) with Holding e => [e] | _ => [] end.

(** The reader's events, those in the channel and the one in hand are the
    first [cursor] pending ones, in order; a blocked pump with work to do is
    about to be woken. *)
Definition inv (f : loader) : Prop :=
  (cursor f <= length (pending f))%nat
  /\ (pump f <> Exited -> Forall2 stamped (take (cursor f) (pending f)) (taken f ++ out f ++ held f))
  /\ (exists k, (k <= cursor f)%nat /\ Forall2 stamped (take k (pending f)) (taken f ++ out f))
  /\ (pump f = Waiting -> (cursor f < length (pending f))%nat -> wakeup f = true \/ (0 < signals f)%nat)
  /\ (length (out f) <= outCap)%nat /\ (length (fastOut f) <= fastCap)%nat /\ (errs f <= errsCap)%nat.

Lemma inv_initial events : inv (NewFakeLoader events).
Proof.
  unfold inv, held. simpl. split_and!; try done; try lia.
  exists 0%nat. split; [lia|constructor].
Qed.

Lemma forall2_prefix {A B} (R : A -> B -> Prop) l l1 l2 :
  Forall2 R l (l1 ++ l2) -> exists k, (k <= length l)%nat /\ Forall2 R (take k l) l1.
Proof.
  intros H. apply Forall2_app_inv_r in H as (k1 & k2 & H1 & H2 & ->).
  exists (length k1). rewrite take_app_length, length_app. split; [lia|done].
Qed.

Lemma inv_step f f' : inv f -> step f f' -> inv f'.
Proof.
  intros (Hc & Hf & (k & Hk & Hp) & Hw & Ho & Hfast & He) Hs. unfold inv. destruct Hs; simpl in *; unfold held in *.
  - unfold Load. destruct (started f); simpl; split_and!; eauto.
  - unfold Inject. destruct (_ || _); simpl; [split_and!; eauto|].
    rewrite length_app, take_app_le by lia. simpl.
    split_and!; eauto; try lia. exists k. rewrite take_app_le by lia. eauto.
  - split_and!; eauto.
  - unfold InjectError. destruct (_ || _); simpl; [split_and!; eauto|]. split_and!; eauto.
    destruct (Nat.ltb_spec (errs f) errsCap); lia.
  - unfold Close. destruct (negb _); simpl; split_and!; eauto.
  - rewrite H0 in *. split_and!; eauto; try done. lia.
  - rewrite H in *. split_and!; eauto; try done.
  - rewrite H0 in *. pose proof (lookup_lt_Some _ _ _ H1). split_and!; eauto; try lia; try done.
    intros _. rewrite app_nil_r in Hf. rewrite (take_S_r _ _ e) by done.
    rewrite app_assoc. apply Forall2_app; [by apply Hf|]. constructor; [by eexists|constructor].
  - rewrite H in *. assert (Forall2 stamped (take (cursor f) (pending f)) (taken f ++ out f ++ [e])) as Hn by (by apply Hf).
    split_and!; eauto; try done.
    + intros _. by rewrite app_nil_r.
    + rewrite length_app. simpl. lia.
    + destruct (fast_type (Type_ e)); [|done]. unfold try_send. destruct (Nat.ltb_spec (length (fastOut f)) fastCap); simpl; [rewrite length_app; simpl; lia|done].
  - split_and!; eauto; done.
  - rewrite H in *. rewrite <- !app_assoc. simpl in *. split_and!; eauto; lia.
Qed.

Definition reachable (events : list Event) (f : loader) : Prop := rtc step (NewFakeLoader events) f.

Lemma reachable_inv events f : reachable events f -> inv f.
Proof. intros H. eapply rtc_ind_r; [apply inv_initial| |exact H]. intros y z _ Hs Hy. by eapply inv_step. Qed.

End Fake.

(** The fake loader is a queue: in every reachable state what the reader
    received is a prefix of the pending events (those supplied first, then the
    injected ones), each stamped with a time only when it had none; no event
    is duplicated, reordered or skipped; and no wake-up is lost: a pump that
    blocks while events are pending has a wake-up waiting or an injecting
    goroutine about to send one. *)
Theorem fake_loader_fifo events f :
  Fake.reachable events f ->
  (exists k, (k <= length (Fake.pending f))%nat
     /\ Forall2 Fake.stamped (take k (Fake.pending f)) (Fake.taken f ++ Fake.out f))
  /\ (Fake.pump f = Fake.Waiting -> (Fake.cursor f < length (Fake.pending f))%nat ->
      Fake.wakeup f = true \/ (0 < Fake.signals f)%nat)
  /\ (length (Fake.out f) <= 32)%nat /\ (length (Fake.fastOut f) <= 32)%nat.
Proof.
  intros Hr. destruct (Fake.reachable_inv _ _ Hr) as (Hc & _ & (k & Hk & Hp) & Hw & Ho & Hf & _).
  split_and!; try done. exists k. split; [lia|done].
Qed.

Lemma fake_loader_fifo_witness :
  let e := mkEvent EventExec 5 7 1 7 0 0 "sh" "/bin/sh" "" 0 0 in
  let f0 := (Fake.Load (Fake.NewFakeLoader [e])).2 in
  let f := Fake.mkFake [e] 1 [] [] 0 false 0 (Fake.Holding e) true false [] in
  (exists k, (k <= length (Fake.pending f))%nat
     /\ Forall2 Fake.stamped (take k (Fake.pending f)) (Fake.taken f ++ Fake.out f))
  /\ (Fake.pump f = Fake.Waiting -> (Fake.cursor f < length (Fake.pending f))%nat ->
      Fake.wakeup f = true \/ (0 < Fake.signals f)%nat)
  /\ (length (Fake.out f) <= 32)%nat /\ (length (Fake.fastOut f) <= 32)%nat.
Proof.
  intros e f0 f. apply (fake_loader_fifo [e] f).
  apply (rtc_l _ _ f0); [apply Fake.StLoad|].
  apply (rtc_l _ _ f); [|apply rtc_refl]. exact (Fake.StTake f0 e 0 eq_refl eq_refl eq_refl).
Defined.
