(* ===== verification/Bridge.v ===== *)
(** * The C bridge to libbpf ([internal/bpf/loader_libbpf.go], the cgo preamble)

    [edr_open] and [edr_close] over a heap of the resources libbpf hands out:
    blocks, objects, links and ring buffers.  A C function is a computation on
    that heap that may be undefined: releasing or using what is not live (a
    second release, a pointer that encodes an error) is [None].  What libbpf
    answers to a call is an argument ([libbpf]).

    [Life] is the Go side of the handle: the registry of contexts, and the
    goroutines that poll, close and update maps, as a step relation. *)

From S2P Require Import Prelude GoStrings.

(** ** Resources and the heap *)

Definition EINVAL : Z := 22.
Definition ENOMEM : Z := 12.
Definition ENOENT : Z := 2.

Inductive kind := KLoader | KObject | KLink | KRing.
#[global] Instance kind_eq_dec : EqDecision kind.
Proof. solve_decision. Defined.

(** A pointer as libbpf returns it: null, an error code in the last page of
    the address space, or a resource. *)
Inductive ptr := NULL | ERR (code : Z) | PTR (id : nat).

(** The link fields of [struct edr_loader]. *)
Inductive slot :=
| exec_link | connect_link | fork_link | exit_link
| selfprotect_kill_link | selfprotect_tgkill_link | selfprotect_ptrace_link
| ptrace_enh_link | ldpreload_link | instrument_link
| lsm_task_kill_link | lsm_ptrace_link.
#[global] Instance slot_eq_dec : EqDecision slot.
Proof. solve_decision. Defined.

Definition optional_slots : list slot :=
  [fork_link; exit_link; selfprotect_kill_link; selfprotect_tgkill_link; selfprotect_ptrace_link;
   ptrace_enh_link; ldpreload_link; instrument_link; lsm_task_kill_link; lsm_ptrace_link].
Definition slots : list slot := exec_link :: connect_link :: optional_slots.

Record edr_loader := mkLoader {
  obj : ptr; link : slot -> ptr; rb : ptr;
  map_fd : Z; agent_pid_fd : Z; blacklist_fd : Z; blacklist_filename_fd : Z; go_ctx : Z;
}.

(** [calloc]: every byte zero. *)
Definition zeroed : edr_loader := mkLoader NULL (fun _ => NULL) NULL 0 0 0 0 0.

Definition set_obj (l : edr_loader) (p : ptr) : edr_loader :=
  mkLoader p l.(link) l.(rb) l.(map_fd) l.(agent_pid_fd) l.(blacklist_fd) l.(blacklist_filename_fd) l.(go_ctx).
Definition set_link (l : edr_loader) (s : slot) (p : ptr) : edr_loader :=
  mkLoader l.(obj) (fun s' => if decide (s' = s) then p else l.(link) s') l.(rb)
    l.(map_fd) l.(agent_pid_fd) l.(blacklist_fd) l.(blacklist_filename_fd) l.(go_ctx).
Definition set_rb (l : edr_loader) (p : ptr) : edr_loader :=
  mkLoader l.(obj) l.(link) p l.(map_fd) l.(agent_pid_fd) l.(blacklist_fd) l.(blacklist_filename_fd) l.(go_ctx).
Definition set_fds (l : edr_loader) (ev ag bl fn : Z) : edr_loader :=
  mkLoader l.(obj) l.(link) l.(rb) ev ag bl fn l.(go_ctx).
Definition set_ctx (l : edr_loader) (c : Z) : edr_loader :=
  mkLoader l.(obj) l.(link) l.(rb) l.(map_fd) l.(agent_pid_fd) l.(blacklist_fd) l.(blacklist_filename_fd) c.

(** What is live, the structures the handles point to, the next address,
    [errno] and what was printed on the standard error. *)
Record heap := mkHeap {
  live : list (nat * kind); structs : gmap nat edr_loader; fresh : nat; errno : Z; stderr : list string;
}.

Definition M (A : Type) : Type := heap -> option (A * heap).
#[global] Instance M_ret : MRet M := fun A a w => Some (a, w).
#[global] Instance M_fmap : FMap M := fun A B f m w => match m w with Some (a, w') => Some (f a, w') | None => None end.
#[global] Instance M_bind : MBind M := fun A B f m w => match m w with Some (a, w') => f a w' | None => None end.

Definition undefined {A} : M A := fun _ => None.
Definition set_errno (e : Z) : M unit := fun w => Some (tt, mkHeap w.(live) w.(structs) w.(fresh) e w.(stderr)).
Definition get_errno : M Z := fun w => Some (w.(errno), w).
Definition fprintf (s : string) : M unit :=
  fun w => Some (tt, mkHeap w.(live) w.(structs) w.(fresh) w.(errno) (w.(stderr) ++ [s])).

Definition alloc (k : kind) : M nat :=
  fun w => Some (w.(fresh), mkHeap ((w.(fresh), k) :: w.(live)) w.(structs) (S w.(fresh)) w.(errno) w.(stderr)).

Fixpoint remove_one (x : nat * kind) (l : list (nat * kind)) : list (nat * kind) :=
  match l with
  | [] => []
  | y :: l => if decide (x = y) then l else y :: remove_one x l
  end.

(** Release of the resource [id], undefined when it is not live. *)
Definition release (k : kind) (id : nat) : M unit :=
  fun w => if decide ((id, k) ∈ w.(live))
           then Some (tt, mkHeap (remove_one (id, k) w.(live)) w.(structs) w.(fresh) w.(errno) w.(stderr))
           else None.
(** A use of a resource that has to be live. *)
Definition touch (k : kind) (p : ptr) : M unit :=
  match p with
  | PTR id => fun w => if decide ((id, k) ∈ w.(live)) then Some (tt, w) else None
  | _ => undefined
  end.

(** ** libbpf *)

Inductive attach_point := Tracepoint (category name : string) | Kprobe (symbol : string) | Lsm.

(** A call that returns a pointer gives a resource, null with [errno], or an
    encoded error. *)
Inductive answer := Gives | Fails (e : Z) | Encodes (code : Z).

Record libbpf := mkLibbpf {
  calloc_ok : bool;
  open_file : string -> answer;
  load_fails : option Z;                       (* the [errno] of a failed load *)
  has_program : string -> bool;
  attach : string -> attach_point -> answer;
  map_fd_of : string -> option Z;
  ring_new : Z -> answer;
  poll_rc : Z;
}.

Definition produce (k : kind) (a : answer) : M ptr :=
  match a with
  | Gives => id ← alloc k; mret (PTR id)
  | Fails e => _ ← set_errno e; mret NULL
  | Encodes c => mret (ERR c)
  end.

(** [libbpf_get_error] of libbpf 1.0. *)
Definition libbpf_get_error (p : ptr) : M Z :=
  match p with
  | PTR _ => mret 0
  | ERR c => _ ← set_errno (- c); mret c
  | NULL => e ← get_errno; mret (- e)
  end.

Definition bpf_object__load (B : libbpf) (o : ptr) : M Z :=
  match o with
  | NULL => _ ← set_errno EINVAL; mret (- EINVAL)
  | _ => _ ← touch KObject o;
         match B.(load_fails) with None => mret 0 | Some e => _ ← set_errno e; mret (- e) end
  end.

(** The releases ignore null and encoded errors, except [ring_buffer__free],
    which tests for null only. *)
Definition bpf_object__close (o : ptr) : M unit := match o with PTR id => release KObject id | _ => mret tt end.
Definition bpf_link__destroy (p : ptr) : M unit := match p with PTR id => release KLink id | _ => mret tt end.
Definition ring_buffer__free (p : ptr) : M unit :=
  match p with PTR id => release KRing id | NULL => mret tt | ERR _ => undefined end.
Definition put_structs (f : gmap nat edr_loader -> gmap nat edr_loader) : M unit :=
  fun w => Some (tt, mkHeap w.(live) (f w.(structs)) w.(fresh) w.(errno) w.(stderr)).
Definition free (m : nat) : M unit := _ ← release KLoader m; put_structs (delete m).

Definition bpf_object__find_program_by_name (B : libbpf) (o : ptr) (name : string) : M bool :=
  _ ← touch KObject o; mret (B.(has_program) name).
Definition bpf_object__find_map_by_name (B : libbpf) (o : ptr) (name : string) : M (option Z) :=
  _ ← touch KObject o; mret (B.(map_fd_of) name).

(** ** [edr_open] *)

(** A hook: its field, its program and where it attaches.  [required] ones are
    the two the loader cannot work without. *)
Definition program_of (s : slot) : string :=
  match s with
  | exec_link => "handle_exec" | connect_link => "handle_connect"
  | fork_link => "handle_fork" | exit_link => "handle_exit"
  | selfprotect_kill_link => "handle_kill" | selfprotect_tgkill_link => "handle_tgkill"
  | selfprotect_ptrace_link => "handle_ptrace" | ptrace_enh_link => "handle_ptrace_enh"
  | ldpreload_link => "handle_ldpreload" | instrument_link => "handle_instrument"
  | lsm_task_kill_link => "lsm_task_kill" | lsm_ptrace_link => "lsm_ptrace_access_check"
  end.

Definition point_of (s : slot) : attach_point :=
  match s with
  | exec_link => Tracepoint "sched" "sched_process_exec"
  | connect_link => Tracepoint "sock" "inet_sock_set_state"
  | fork_link => Tracepoint "sched" "sched_process_fork"
  | exit_link => Tracepoint "sched" "sched_process_exit"
  | selfprotect_kill_link => Kprobe "__x64_sys_kill"
  | selfprotect_tgkill_link => Kprobe "__x64_sys_tgkill"
  | selfprotect_ptrace_link | ptrace_enh_link => Kprobe "__x64_sys_ptrace"
  | ldpreload_link => Tracepoint "syscalls" "sys_enter_execve"
  | instrument_link => Kprobe "__x64_sys_mmap"
  | lsm_task_kill_link | lsm_ptrace_link => Lsm
  end.

(** What is printed when the attachment returns null, when it returns an error
    (before the code) and when the program is missing; the fork and exit hooks
    print nothing. *)
Definition null_message (s : slot) : option string :=
  match s with
  | selfprotect_kill_link => Some "bpf: attach_kprobe(__x64_sys_kill) returned NULL (symbol busy or blacklisted?)"
  | selfprotect_tgkill_link => Some "bpf: attach_kprobe(__x64_sys_tgkill) returned NULL (symbol busy or blacklisted?)"
  | selfprotect_ptrace_link => Some "bpf: attach_kprobe(__x64_sys_ptrace) returned NULL (symbol busy or blacklisted?)"
  | ptrace_enh_link => Some "bpf: attach_kprobe(__x64_sys_ptrace for ptrace_enh) returned NULL"
  | ldpreload_link => Some "bpf: attach_tracepoint(syscalls/sys_enter_execve for ldpreload) returned NULL"
  | instrument_link => Some "bpf: attach_kprobe(__x64_sys_mmap for instrument) returned NULL"
  | lsm_task_kill_link => Some "bpf: attach_lsm(task_kill) returned NULL"
  | lsm_ptrace_link => Some "bpf: attach_lsm(ptrace_access_check) returned NULL"
  | _ => None
  end.

Definition error_message (s : slot) : option string :=
  match s with
  | selfprotect_kill_link => Some "bpf: attach_kprobe(__x64_sys_kill) error: "
  | selfprotect_tgkill_link => Some "bpf: attach_kprobe(__x64_sys_tgkill) error: "
  | selfprotect_ptrace_link => Some "bpf: attach_kprobe(__x64_sys_ptrace) error: "
  | ptrace_enh_link => Some "bpf: attach_kprobe(ptrace_enh) error: "
  | ldpreload_link => Some "bpf: attach_tracepoint(ldpreload) error: "
  | instrument_link => Some "bpf: attach_kprobe(instrument) error: "
  | lsm_task_kill_link => Some "bpf: attach_lsm(task_kill) error: "
  | lsm_ptrace_link => Some "bpf: attach_lsm(ptrace_access_check) error: "
  | _ => None
  end.

Definition missing_message (s : slot) : option string :=
  match s with
  | selfprotect_kill_link => Some "bpf: program handle_kill not found in object file"
  | selfprotect_tgkill_link => Some "bpf: program handle_tgkill not found in object file"
  | selfprotect_ptrace_link => Some "bpf: program handle_ptrace not found in object file"
  | lsm_task_kill_link => Some "bpf: program lsm_task_kill not found in object file"
  | lsm_ptrace_link => Some "bpf: program lsm_ptrace_access_check not found in object file"
  | _ => None
  end.

Definition report (m : option string) : M unit := match m with Some s => fprintf s | None => mret tt end.

(** One of the ten blocks that attach a hook when they can. *)
Definition attach_optional (B : libbpf) (l : edr_loader) (s : slot) : M edr_loader :=
  prog ← bpf_object__find_program_by_name B l.(obj) (program_of s);
  if prog : bool then
    p ← produce KLink (B.(attach) (program_of s) (point_of s));
    match p with
    | NULL => _ ← report (null_message s); mret (set_link l s NULL)
    | _ =>
        e ← libbpf_get_error p;
        if e != 0 then
          _ ← report ((fun m => m +:+ itoa e) <$> error_message s);
          _ ← bpf_link__destroy p;
          mret (set_link l s NULL)
        else mret (set_link l s p)
    end
  else _ ← report (missing_message s); mret l.

Fixpoint attach_all (B : libbpf) (l : edr_loader) (ss : list slot) : M edr_loader :=
  match ss with
  | [] => mret l
  | s :: ss => l ← attach_optional B l s; attach_all B l ss
  end.

(** [if (l->s) bpf_link__destroy(l->s);] for each of the fields. *)
Fixpoint destroy_links (l : edr_loader) (ss : list slot) : M unit :=
  match ss with
  | [] => mret tt
  | s :: ss =>
      _ ← match l.(link) s with NULL => mret tt | p => bpf_link__destroy p end;
      destroy_links l ss
  end.

(** A stage of [edr_open]: the structure, or the code it returns early with. *)
Definition stage : Type := M (Z + edr_loader).
Definition early (c : Z) : stage := mret (inl c).

(** Opening and loading the object. *)
Definition open_object (B : libbpf) (m : nat) (path : string) : stage :=
  o ← produce KObject (B.(open_file) path);
  e ← libbpf_get_error o;
  if e != 0 then
    err ← libbpf_get_error o;
    _ ← free m;
    early (if err == 0 then - EINVAL else err)
  else
    r ← bpf_object__load B o;
    if r <? 0 then
      e ← get_errno;
      _ ← bpf_object__close o;
      _ ← free m;
      early (if - e == 0 then - EINVAL else - e)
    else mret (inr (set_obj zeroed o)).

(** [!p || libbpf_get_error(p)]. *)
Definition failed (p : ptr) : M bool :=
  match p with NULL => mret true | _ => e ← libbpf_get_error p; mret (e != 0) end.
(** [p ? (int)libbpf_get_error(p) : -EINVAL]. *)
Definition code_of (p : ptr) : M Z := match p with NULL => mret (- EINVAL) | _ => libbpf_get_error p end.

(** One of the two required hooks; [held] are the links attached before. *)
Definition attach_required (B : libbpf) (m : nat) (l : edr_loader) (s : slot) (held : list slot) : stage :=
  prog ← bpf_object__find_program_by_name B l.(obj) (program_of s);
  if prog : bool then
    p ← produce KLink (B.(attach) (program_of s) (point_of s));
    bad ← failed p;
    if bad : bool then
      err ← code_of p;
      _ ← bpf_link__destroy p;
      _ ← destroy_links l held;
      _ ← bpf_object__close l.(obj);
      _ ← free m;
      early err
    else mret (inr (set_link l s p))
  else
    _ ← destroy_links l held;
    _ ← bpf_object__close l.(obj);
    _ ← free m;
    early (- ENOENT).

(** The maps: the ring buffer has to be there, the others are optional. *)
Definition resolve_maps (B : libbpf) (m : nat) (l : edr_loader) : stage :=
  map ← bpf_object__find_map_by_name B l.(obj) "events";
  match map with
  | None =>
      _ ← destroy_links l slots;
      _ ← bpf_object__close l.(obj);
      _ ← free m;
      early (- ENOENT)
  | Some fd =>
      agent_map ← bpf_object__find_map_by_name B l.(obj) "agent_pid";
      bl_map ← bpf_object__find_map_by_name B l.(obj) "blacklist_comm";
      blfn_map ← bpf_object__find_map_by_name B l.(obj) "blacklist_filename";
      mret (inr (set_fds l fd (default (-1) agent_map) (default (-1) bl_map) (default (-1) blfn_map)))
  end.

(** The ring buffer over the map. *)
Definition open_ring (B : libbpf) (m : nat) (l : edr_loader) : stage :=
  p ← produce KRing (B.(ring_new) l.(map_fd));
  bad ← failed p;
  if bad : bool then
    err ← code_of p;
    _ ← ring_buffer__free p;
    _ ← destroy_links l slots;
    _ ← bpf_object__close l.(obj);
    _ ← free m;
    early err
  else mret (inr (set_rb l p)).

Definition stage_bind (st : stage) (k : edr_loader -> stage) : stage :=
  r ← st; match r with inl c => early c | inr l => k l end.

(** The structure is kept as a local value until [*out = l]: no other code
    holds its address before.  The result is the code and what was stored in
    [*out], null when nothing was. *)
Definition edr_open (B : libbpf) (out : bool) (obj_path : option string) : M (Z * ptr) :=
  match out, obj_path with
  | true, Some path =>
      if negb B.(calloc_ok) then mret (- ENOMEM, NULL)
      else
        m ← alloc KLoader;
        r ← stage_bind (open_object B m path) (fun l =>
            stage_bind (attach_required B m l exec_link []) (fun l =>
            stage_bind (attach_required B m l connect_link [exec_link]) (fun l =>
            stage_bind (inr <$> attach_all B l optional_slots) (fun l =>
            stage_bind (resolve_maps B m l) (open_ring B m)))));
        match r with
        | inl err => mret (err, NULL)
        | inr l => _ ← put_structs <[m := l]>; mret (0, PTR m)
        end
  | _, _ => mret (- EINVAL, NULL)
  end.

(** ** The operations on a handle *)

Definition deref (h : ptr) : M edr_loader :=
  match h with
  | PTR id => fun w => match w.(structs) !! id with
                       | Some l => if decide ((id, KLoader) ∈ w.(live)) then Some (l, w) else None
                       | None => None
                       end
  | _ => undefined
  end.

Definition edr_poll (B : libbpf) (h : ptr) : M Z :=
  match h with
  | NULL => mret (- EINVAL)
  | _ => l ← deref h; _ ← touch KRing l.(rb); mret B.(poll_rc)
  end.

Definition edr_close (h : ptr) : M unit :=
  match h with
  | PTR id =>
      l ← deref h;
      _ ← match l.(rb) with NULL => mret tt | p => ring_buffer__free p end;
      _ ← destroy_links l slots;
      _ ← match l.(obj) with NULL => mret tt | p => bpf_object__close p end;
      free id
  | NULL => mret tt
  | ERR _ => undefined
  end.

Definition edr_set_go_ctx (h : ptr) (ctx : Z) : M unit :=
  match h with
  | PTR id => l ← deref h; put_structs <[id := set_ctx l ctx]>
  | NULL => mret tt
  | ERR _ => undefined
  end.

(** [edr_on_event]: the context a record is delivered with. *)
Definition edr_on_event (h : ptr) : M Z := l ← deref h; mret l.(go_ctx).

(** ** Reasoning about the computations *)

(** [m] is defined in [w] and its result satisfies [Q]. *)
Definition wp {A} (m : M A) (Q : A -> heap -> Prop) (w : heap) : Prop :=
  match m w with Some (a, w') => Q a w' | None => False end.

Lemma wp_ret {A} (a : A) Q w : Q a w -> wp (mret a) Q w.
Proof. done. Qed.
Lemma wp_bind {A B} (m : M A) (f : A -> M B) Q w : wp m (fun a => wp (f a) Q) w -> wp (m ≫= f) Q w.
Proof. unfold wp, mbind, M_bind. by destruct (m w) as [[a w']|]. Qed.
Lemma wp_fmap {A B} (m : M A) (f : A -> B) Q w : wp m (fun a => Q (f a)) w -> wp (f <$> m) Q w.
Proof. unfold wp, fmap, M_fmap. by destruct (m w) as [[a w']|]. Qed.
Lemma wp_mono {A} (m : M A) (Q Q' : A -> heap -> Prop) w :
  wp m Q w -> (forall a w', Q a w' -> Q' a w') -> wp m Q' w.
Proof. unfold wp. destruct (m w) as [[a w']|]; eauto. Qed.

(** Exactly the resources [R] are live and the handles are [S]; addresses are
    unique and below the next one. *)
Record holds (R : list (nat * kind)) (S : gmap nat edr_loader) (w : heap) : Prop := {
  holds_live : live w ≡ₚ R;
  holds_structs : structs w = S;
  holds_unique : NoDup (live w).*1;
  holds_fresh : Forall (fun x => (x < fresh w)%nat) (live w).*1;
}.

#[global] Instance holds_proper : Proper ((≡ₚ) ==> (=) ==> (=) ==> iff) holds.
Proof. intros R R' HR S S' -> w w' ->. split; intros []; split; try done; first [by rewrite <- HR|by rewrite HR]. Qed.

Lemma remove_one_perm x l : x ∈ l -> l ≡ₚ x :: remove_one x l.
Proof.
  induction l as [|y l IH]; [by rewrite elem_of_nil|]. simpl. intros Hx. case_decide; [by subst|].
  rewrite Permutation_swap. constructor. apply IH. set_solver.
Qed.

Lemma wp_release k id R S w :
  holds ((id, k) :: R) S w -> wp (release k id) (fun _ => holds R S) w.
Proof.
  intros [Hl Hs Hu Hf]. unfold wp, release. rewrite decide_True by (rewrite Hl; left).
  assert (live w ≡ₚ (id, k) :: remove_one (id, k) (live w)) as Hp.
  { apply remove_one_perm. rewrite Hl. left. }
  assert (remove_one (id, k) (live w) ≡ₚ R) as E.
  { apply (Permutation_cons_inv (a := (id, k))). by rewrite <- Hp. }
  split; simpl; try done.
  - rewrite Hp in Hu. by apply NoDup_cons in Hu as [_ ?].
  - rewrite Hp in Hf. by apply Forall_cons in Hf as [_ ?].
Qed.

Lemma wp_alloc k R S w :
  holds R S w -> wp (alloc k) (fun id w' => holds ((id, k) :: R) S w' /\ id = fresh w) w.
Proof.
  intros [Hl Hs Hu Hf]. unfold wp, alloc. split; [|done]. split; simpl; try done.
  - by rewrite Hl.
  - constructor; [|done]. intros Hi. rewrite Forall_forall in Hf. apply Hf in Hi. lia.
  - constructor; [lia|]. eapply Forall_impl; [exact Hf|]. simpl. lia.
Qed.

Lemma wp_touch k id R S w : (id, k) ∈ R -> holds R S w -> wp (touch k (PTR id)) (fun _ => holds R S) w.
Proof. intros Hi Hh. unfold wp, touch. rewrite decide_True; [done|]. by rewrite (holds_live _ _ _ Hh). Qed.

Lemma wp_set_errno e R S w : holds R S w -> wp (set_errno e) (fun _ w' => holds R S w' /\ errno w' = e) w.
Proof. intros []. unfold wp, set_errno. by split. Qed.
Lemma wp_get_errno (Q : Z -> heap -> Prop) w : Q (errno w) w -> wp get_errno Q w.
Proof. done. Qed.
Lemma wp_fprintf s R S w : holds R S w -> wp (fprintf s) (fun _ => holds R S) w.
Proof. intros []. unfold wp, fprintf. by split. Qed.
Lemma wp_report m R S w : holds R S w -> wp (report m) (fun _ => holds R S) w.
Proof. destruct m; [apply wp_fprintf|done]. Qed.
Lemma wp_put_structs f R S w : holds R S w -> wp (put_structs f) (fun _ => holds R (f S)) w.
Proof. intros [? <- ? ?]. unfold wp, put_structs. by split. Qed.

Lemma wp_free_struct m R S w : holds ((m, KLoader) :: R) S w -> wp (free m) (fun _ => holds R (delete m S)) w.
Proof.
  intros Hh. apply wp_bind. eapply wp_mono; [by apply wp_release|]. intros [] w' Hw'. by apply wp_put_structs.
Qed.
Lemma wp_free m R S w : S !! m = None -> holds ((m, KLoader) :: R) S w -> wp (free m) (fun _ => holds R S) w.
Proof. intros HS Hh%wp_free_struct. by rewrite delete_id in Hh. Qed.

(** ** What a structure owns *)

Definition res (k : kind) (p : ptr) : list (nat * kind) := match p with PTR id => [(id, k)] | _ => [] end.
Definition link_res (l : edr_loader) : list (nat * kind) := s ← slots; res KLink (link l s).
Definition owned (m : nat) (l : edr_loader) : list (nat * kind) :=
  (m, KLoader) :: res KRing (rb l) ++ link_res l ++ res KObject (obj l).

Lemma wp_destroy_links l ss R S w :
  holds ((s ← ss; res KLink (link l s)) ++ R) S w -> wp (destroy_links l ss) (fun _ => holds R S) w.
Proof.
  revert w. induction ss as [|s ss IH]; intros w Hh; [done|]. cbn [destroy_links]. apply wp_bind.
  rewrite bind_cons in Hh. destruct (link l s) as [|c|id]; simpl in Hh; [by apply IH..|].
  eapply wp_mono; [by apply wp_release|]. intros [] w'. apply IH.
Qed.

Lemma wp_close_object p R S w :
  holds (res KObject p ++ R) S w -> wp (bpf_object__close p) (fun _ => holds R S) w.
Proof. destruct p; [done..|]. apply wp_release. Qed.

(** The common end of the failing paths: links, object, block. *)
Lemma wp_unwind {A} l ss m (a : A) R S w :
  S !! m = None ->
  holds ((s ← ss; res KLink (link l s)) ++ res KObject (obj l) ++ (m, KLoader) :: R) S w ->
  wp (_ ← destroy_links l ss; _ ← bpf_object__close (obj l); _ ← free m; mret a)
     (fun r w' => r = a /\ holds R S w') w.
Proof.
  intros HS Hh. apply wp_bind. eapply wp_mono; [by apply wp_destroy_links|]. intros [] w1 H1.
  apply wp_bind. eapply wp_mono; [by apply wp_close_object|]. intros [] w2 H2.
  apply wp_bind. eapply wp_mono; [by apply wp_free|]. intros [] w3 H3. by apply wp_ret.
Qed.

(** ** What libbpf documents *)

(** Failures set a positive [errno] or encode a negative code; from version 1.0
    on, [ring_buffer__new] reports its failures by null. *)
Definition answer_ok (a : answer) : Prop :=
  match a with Gives => True | Fails e => 0 < e | Encodes c => c < 0 end.
Record documented (B : libbpf) : Prop := {
  doc_open path : answer_ok (open_file B path);
  doc_load e : load_fails B = Some e -> 0 < e;
  doc_attach p a : answer_ok (attach B p a);
  doc_ring fd : answer_ok (ring_new B fd) /\ forall c, ring_new B fd <> Encodes c;
}.

Definition gives (a : answer) : bool := match a with Gives => true | _ => false end.
(** The hook [s] can be attached. *)
Definition attaches (B : libbpf) (s : slot) : bool :=
  has_program B (program_of s) && gives (attach B (program_of s) (point_of s)).
(** What [edr_open] needs to succeed. *)
Definition required (B : libbpf) (path : string) : bool :=
  calloc_ok B && gives (open_file B path) && bool_decide (load_fails B = None)
  && attaches B exec_link && attaches B connect_link
  && match map_fd_of B "events" with Some fd => gives (ring_new B fd) | None => false end.

(** The pointer an answer is turned into. *)
Definition yields (a : answer) (p : ptr) (w : heap) : Prop :=
  match a with Gives => exists id, p = PTR id | Fails e => p = NULL /\ errno w = e | Encodes c => p = ERR c end.

Lemma wp_produce k a R S w :
  holds R S w -> wp (produce k a) (fun p w' => holds (res k p ++ R) S w' /\ yields a p w') w.
Proof.
  intros Hh. destruct a as [|e|c]; simpl; [apply wp_bind..|done].
  - eapply wp_mono; [by apply wp_alloc|]. intros id w' [? _]. apply wp_ret. eauto.
  - eapply wp_mono; [by apply (wp_set_errno e)|]. intros [] w' [? ?]. by apply wp_ret.
Qed.

Lemma wp_get_error a p R S w :
  yields a p w -> answer_ok a -> holds R S w ->
  wp (libbpf_get_error p) (fun e w' => holds R S w' /\ yields a p w' /\ (e = 0 <-> a = Gives)) w.
Proof.
  intros Hy Ha Hh. destruct a as [|e|c]; simpl in *.
  - destruct Hy as [id ->]. apply wp_ret. naive_solver.
  - destruct Hy as [-> He]. apply wp_bind, wp_get_errno, wp_ret. split_and!; try done; split; [lia|done].
  - subst. apply wp_bind. eapply wp_mono; [by apply (wp_set_errno (- c))|]. intros [] w' [? ?]. apply wp_ret.
    split_and!; try done; split; [lia|done].
Qed.

Lemma wp_failed a p R S w :
  yields a p w -> answer_ok a -> holds R S w ->
  wp (failed p) (fun b w' => holds R S w' /\ yields a p w' /\ b = negb (gives a)) w.
Proof.
  intros Hy Ha Hh. unfold failed. destruct p as [|c|id].
  1: { apply wp_ret. destruct a; [by destruct Hy|done|done]. }
  all: apply wp_bind; (eapply wp_mono; [by apply (wp_get_error a)|]); intros e w' (? & ? & He); apply wp_ret;
    split_and!; try done; destruct a; simpl; gosimpl; try done; exfalso; naive_solver.
Qed.

Lemma wp_code_of a p R S w :
  yields a p w -> answer_ok a -> gives a = false -> holds R S w ->
  wp (code_of p) (fun c w' => holds R S w' /\ c <> 0) w.
Proof.
  intros Hy Ha Hg Hh. destruct p as [|c|id]; [apply wp_ret; split; [done|unfold EINVAL; lia]|..].
  all: (eapply wp_mono; [by apply (wp_get_error a)|]); intros e w' (? & ? & He); split; [done|];
    destruct a; naive_solver.
Qed.

(** ** The structure while it is built *)

(** The hooks [ss] have been tried: the fields of those that attach hold a
    link, every other field is null. *)
Definition partial (B : libbpf) (l : edr_loader) (ss : list slot) : Prop :=
  (exists o, obj l = PTR o) /\ rb l = NULL
  /\ forall s, match link l s with
               | PTR _ => s ∈ ss /\ attaches B s = true
               | NULL => s ∉ ss \/ attaches B s = false
               | ERR _ => False
               end.

Lemma set_link_eq l s p : link (set_link l s p) s = p.
Proof. unfold set_link, link. by rewrite decide_True. Qed.
Lemma set_link_ne l s s' p : s' <> s -> link (set_link l s p) s' = link l s'.
Proof. intros. unfold set_link, link. by rewrite decide_False. Qed.

Lemma partial_set B l ss s p :
  partial B l ss ->
  match p with PTR _ => attaches B s = true | NULL => attaches B s = false | ERR _ => False end ->
  partial B (set_link l s p) (s :: ss).
Proof.
  intros (Ho & Hr & Hl) Hp. split_and!; [done|done|]. intros s'. specialize (Hl s').
  destruct (decide (s' = s)) as [->|Hne]; [rewrite set_link_eq; destruct p; simpl in *; set_solver|].
  rewrite set_link_ne by done. destruct (link l s'); simpl in *; set_solver.
Qed.

Lemma link_res_other l s p ss :
  s ∉ ss -> (t ← ss; res KLink (link (set_link l s p) t)) = (s ← ss; res KLink (link l s)).
Proof.
  induction ss as [|s' ss IH]; [done|]. intros Hs. rewrite !bind_cons, IH by set_solver.
  by rewrite set_link_ne by set_solver.
Qed.

Lemma link_res_set l s p ss :
  NoDup ss -> s ∈ ss -> link l s = NULL ->
  (t ← ss; res KLink (link (set_link l s p) t)) ≡ₚ res KLink p ++ (s ← ss; res KLink (link l s)).
Proof.
  intros Hn Hs Hl. induction Hn as [|s' ss Hs' Hn IH]; [set_solver|]. rewrite !bind_cons.
  destruct (decide (s' = s)) as [->|Hne].
  - rewrite link_res_other by done. by rewrite set_link_eq, Hl.
  - rewrite IH by set_solver. rewrite set_link_ne by done. apply Permutation_app_swap_app.
Qed.

Lemma slots_all s : s ∈ slots.
Proof. by destruct s; repeat (left || right). Qed.
Lemma slots_nodup : NoDup slots.
Proof. apply (bool_decide_unpack _). by vm_compute. Qed.

Lemma owned_set m l s p : link l s = NULL -> owned m (set_link l s p) ≡ₚ res KLink p ++ owned m l.
Proof.
  intros Hl. unfold owned, link_res. rewrite link_res_set by auto using slots_all, slots_nodup. simpl.
  destruct p as [|c|id]; simpl; [done..|]. rewrite <- Permutation_middle. by apply Permutation_swap.
Qed.

Lemma owned_obj m l o R : obj l = PTR o -> (o, KObject) ∈ owned m l ++ R.
Proof. intros E. unfold owned. rewrite E. set_solver. Qed.

Lemma partial_null B l ss s : partial B l ss -> s ∉ ss -> link l s = NULL.
Proof. intros (_ & _ & Hl) Hs. specialize (Hl s). destruct (link l s); set_solver. Qed.

Lemma wp_find_program B m l ss name R S w :
  partial B l ss -> holds (owned m l ++ R) S w ->
  wp (bpf_object__find_program_by_name B (obj l) name)
     (fun b w' => b = has_program B name /\ holds (owned m l ++ R) S w') w.
Proof.
  intros [[o Ho] _] Hh. rewrite Ho. apply wp_bind.
  eapply wp_mono; [apply wp_touch; [by apply (owned_obj m l)|exact Hh]|]. intros [] w' ?. by apply wp_ret.
Qed.

Lemma wp_find_map B m l ss name R S w :
  partial B l ss -> holds (owned m l ++ R) S w ->
  wp (bpf_object__find_map_by_name B (obj l) name)
     (fun b w' => b = map_fd_of B name /\ holds (owned m l ++ R) S w') w.
Proof.
  intros [[o Ho] _] Hh. rewrite Ho. apply wp_bind.
  eapply wp_mono; [apply wp_touch; [by apply (owned_obj m l)|exact Hh]|]. intros [] w' ?. by apply wp_ret.
Qed.

(** A resource taken into a null field. *)
Lemma holds_set m l s p R S w :
  link l s = NULL -> holds (res KLink p ++ owned m l ++ R) S w -> holds (owned m (set_link l s p) ++ R) S w.
Proof. intros Hl. by rewrite owned_set, app_assoc by done. Qed.

Lemma wp_attach_optional B m l s ss R S w :
  documented B -> partial B l ss -> s ∉ ss -> holds (owned m l ++ R) S w ->
  wp (attach_optional B l s) (fun l' w' => partial B l' (s :: ss) /\ holds (owned m l' ++ R) S w') w.
Proof.
  intros HB Hp Hs Hh. pose proof (partial_null _ _ _ _ Hp Hs) as Hl. apply wp_bind.
  eapply wp_mono; [by eapply (wp_find_program B m l ss)|]. intros b w1 [-> H1].
  pose proof (doc_attach _ HB (program_of s) (point_of s)) as Ha. unfold attaches.
  destruct (has_program B (program_of s)) eqn:Ep.
  2: { apply wp_bind. eapply wp_mono; [by apply wp_report|]. intros [] w2 H2. apply wp_ret. split; [|done].
       destruct Hp as (Ho & Hr & Hp). split_and!; [done|done|]. intros t. specialize (Hp t).
       destruct (decide (t = s)) as [->|]; [rewrite Hl; right; unfold attaches; by rewrite Ep|].
       destruct (link l t); set_solver. }
  apply wp_bind. eapply wp_mono; [by apply wp_produce|]. intros p w2 [H2 Hy].
  assert (forall p, match p with PTR _ => attaches B s = true | NULL => attaches B s = false | ERR _ => False end ->
    partial B (set_link l s p) (s :: ss)) as Hset by (intros; by apply partial_set).
  unfold attaches in Hset. rewrite Ep in Hset. simpl in Hset.
  destruct (attach B (program_of s) (point_of s)) as [|e|c] eqn:Ea; simpl in Hy.
  - destruct Hy as [id ->]. apply wp_bind, wp_ret. rewrite bool_decide_true by done. simpl. apply wp_ret.
    split; [by apply Hset|by apply holds_set].
  - destruct Hy as [-> _]. apply wp_bind. eapply wp_mono; [by apply wp_report|]. intros [] w3 H3. apply wp_ret.
    split; [by apply Hset|by apply holds_set].
  - subst p. apply wp_bind. eapply wp_mono; [by apply (wp_get_error (Encodes c))|]. intros e w3 (H3 & _ & He).
    rewrite bool_decide_false by naive_solver. simpl.
    apply wp_bind. eapply wp_mono; [by apply wp_report|]. intros [] w4 H4. apply wp_bind, wp_ret, wp_ret.
    split; [by apply Hset|by apply holds_set].
Qed.

Lemma wp_attach_all B m todo l ss R S w :
  documented B -> partial B l ss -> NoDup (rev todo ++ ss) -> holds (owned m l ++ R) S w ->
  wp (attach_all B l todo) (fun l' w' => partial B l' (rev todo ++ ss) /\ holds (owned m l' ++ R) S w') w.
Proof.
  intros HB. revert l ss w. induction todo as [|s todo IH]; intros l ss w Hp Hn Hh; [done|].
  cbn [rev attach_all] in Hn |- *. rewrite <- app_assoc in Hn |- *. cbn [app] in Hn |- *.
  assert (s ∉ ss) as Hs.
  { apply NoDup_app in Hn as (_ & _ & Hn). by apply NoDup_cons in Hn as [? _]. }
  apply wp_bind. eapply wp_mono; [by apply wp_attach_optional|]. intros l' w' [Hp' Hh']. by apply IH.
Qed.

(** How a stage ends: in success, or with everything released and a code. *)
Definition ends (B : libbpf) (m : nat) (R : list (nat * kind)) (S : gmap nat edr_loader) (ok : bool) (ss : list slot)
    (r : Z + edr_loader) (w : heap) : Prop :=
  match r with
  | inl c => ok = false /\ c <> 0 /\ holds R S w
  | inr l => ok = true /\ partial B l ss /\ holds (owned m l ++ R) S w
  end.

(** The order in which the failing paths release. *)
Lemma owned_unwind B m l ss R :
  partial B l ss -> owned m l ++ R ≡ₚ link_res l ++ res KObject (obj l) ++ (m, KLoader) :: R.
Proof.
  intros (_ & Hr & _). unfold owned. rewrite Hr. simpl. rewrite <- !app_assoc, !app_comm_cons, <- !Permutation_middle.
  done.
Qed.

Lemma links_only l ss :
  ss ⊆+ slots -> (forall s, s ∉ ss -> link l s = NULL) -> link_res l ≡ₚ (s ← ss; res KLink (link l s)).
Proof.
  intros [k Hk]%submseteq_Permutation Hn. unfold link_res. pose proof slots_nodup as Hd. rewrite Hk in Hd |- *.
  apply NoDup_app in Hd as (_ & Hd & _). rewrite bind_app.
  assert ((s ← k; res KLink (link l s)) = []) as ->; [|by rewrite app_nil_r].
  clear Hk. induction k as [|s k IH]; [done|]. rewrite bind_cons, IH by set_solver.
  rewrite Hn; [done|]. intros ?. by apply (Hd s); [|left].
Qed.

(** A failing path after [held] were attached and [p] was not. *)
Lemma wp_fail {A} B m l ss held (a : A) R S w :
  partial B l ss -> S !! m = None -> held ⊆+ slots -> (forall s, s ∉ held -> link l s = NULL) ->
  holds (owned m l ++ R) S w ->
  wp (_ ← destroy_links l held; _ ← bpf_object__close (obj l); _ ← free m; mret a)
     (fun r w' => r = a /\ holds R S w') w.
Proof.
  intros Hp HS Hh Hn Hw. apply wp_unwind; [done|].
  rewrite (owned_unwind B m l ss R Hp), (links_only l held Hh Hn) in Hw. done.
Qed.

Lemma wp_open_object B m path R S w :
  documented B -> S !! m = None -> holds ((m, KLoader) :: R) S w ->
  wp (open_object B m path)
     (ends B m R S (gives (open_file B path) && bool_decide (load_fails B = None)) []) w.
Proof.
  intros HB HS Hh. pose proof (doc_open _ HB path) as Ha. unfold open_object. apply wp_bind.
  eapply wp_mono; [by apply wp_produce|]. intros o w1 [H1 Hy].
  apply wp_bind. eapply wp_mono; [by apply (wp_get_error (open_file B path))|]. intros e w2 (H2 & Hy2 & He).
  destruct (gives (open_file B path)) eqn:Eg.
  - assert (open_file B path = Gives) as EG by (by destruct (open_file B path)).
    rewrite bool_decide_true by naive_solver. cbn [negb andb]. rewrite EG in Hy2. destruct Hy2 as [id ->].
    apply wp_bind. unfold bpf_object__load. apply wp_bind.
    eapply wp_mono; [apply wp_touch, H2; left|]. intros [] w3 H3.
    destruct (load_fails B) as [e'|] eqn:El.
    + pose proof (doc_load _ HB _ El). apply wp_bind. eapply wp_mono; [by apply (wp_set_errno e')|].
      intros [] w4 [H4 Ee]. apply wp_ret. rewrite (proj2 (Z.ltb_lt _ _)) by lia.
      apply wp_bind, wp_get_errno. rewrite Ee. apply wp_bind.
      eapply wp_mono; [by apply wp_close_object|]. intros [] w5 H5.
      apply wp_bind. eapply wp_mono; [by apply wp_free|]. intros [] w6 H6. apply wp_ret.
      split_and!; [done| |done]. rewrite bool_decide_false by lia. lia.
    + apply wp_ret. simpl. split_and!; [done| |].
      * split_and!; [by eexists|done|]. intros s. left. set_solver.
      * revert H3. unfold owned. simpl. apply holds_proper; [|done..]. apply Permutation_swap.
  - rewrite bool_decide_false by (intros E; apply He in E; by rewrite E in Eg). cbn [negb andb].
    apply wp_bind. eapply wp_mono; [by apply (wp_get_error (open_file B path))|]. intros e' w3 (H3 & Hy3 & He').
    assert (res KObject o = []) as E by (destruct (open_file B path); naive_solver).
    rewrite E in H3. apply wp_bind. eapply wp_mono; [by apply wp_free|]. intros [] w4 H4. apply wp_ret.
    split_and!; [done| |done]. case_bool_decide; [unfold EINVAL; lia|done].
Qed.

Lemma wp_attach_required B m l s ss R S w :
  documented B -> partial B l ss -> s ∉ ss -> ss ⊆+ slots -> S !! m = None -> holds (owned m l ++ R) S w ->
  wp (attach_required B m l s ss) (ends B m R S (attaches B s) (s :: ss)) w.
Proof.
  intros HB Hp Hs Hss HS Hh. pose proof (partial_null _ _ _ _ Hp Hs) as Hl.
  pose proof (doc_attach _ HB (program_of s) (point_of s)) as Ha.
  assert (forall s, s ∉ ss -> link l s = NULL) as Hn by (intros; by apply (partial_null B l ss)).
  apply wp_bind. eapply wp_mono; [by eapply (wp_find_program B m l ss)|]. intros b w1 [-> H1].
  destruct (has_program B (program_of s)) eqn:Ep.
  2: { eapply wp_mono; [by apply (wp_fail B _ _ ss)|]. intros r w2 [-> H2].
       unfold ends, attaches. rewrite Ep. by split_and!. }
  apply wp_bind. eapply wp_mono; [by apply wp_produce|]. intros p w2 [H2 Hy].
  apply wp_bind. eapply wp_mono; [by eapply wp_failed|]. intros b w3 (H3 & Hy3 & ->).
  destruct (gives (attach B (program_of s) (point_of s))) eqn:Eg; cbn [negb].
  - apply wp_ret. assert (attaches B s = true) as Et by (unfold attaches; by rewrite Ep, Eg).
    split_and!; [done| |by apply holds_set]. apply partial_set; [done|].
    destruct (attach B _ _); [|done..]. by destruct Hy3 as [id ->].
  - assert (res KLink p = []) as E by (destruct (attach B _ _); naive_solver). rewrite E in H3.
    assert (bpf_link__destroy p = mret tt) as E' by (by destruct p).
    apply wp_bind. eapply wp_mono; [by eapply wp_code_of|]. intros c w4 [H4 Hc].
    rewrite E'. apply wp_bind, wp_ret.
    eapply wp_mono; [by apply (wp_fail B _ _ ss)|]. intros r w5 [-> H5].
    unfold ends, attaches. rewrite Ep, Eg. by split_and!.
Qed.

(** A structure [edr_open] hands out: a link in exactly the fields whose hook
    attaches, and the descriptors of the maps the object has. *)
Record complete (B : libbpf) (l : edr_loader) : Prop := {
  complete_obj : exists o, obj l = PTR o;
  complete_rb : exists r, rb l = PTR r;
  complete_link s : if attaches B s then exists id, link l s = PTR id else link l s = NULL;
  complete_events : map_fd_of B "events" = Some (map_fd l);
  complete_agent_pid : agent_pid_fd l = default (-1) (map_fd_of B "agent_pid");
  complete_blacklist : blacklist_fd l = default (-1) (map_fd_of B "blacklist_comm");
  complete_filename : blacklist_filename_fd l = default (-1) (map_fd_of B "blacklist_filename");
}.

Lemma partial_complete B l ss s :
  partial B l ss -> (forall s, s ∈ ss) -> if attaches B s then exists id, link l s = PTR id else link l s = NULL.
Proof.
  intros (_ & _ & Hl) Hss. specialize (Hl s). specialize (Hss s).
  destruct (link l s) as [|c|id]; [destruct Hl as [Hx|Hx]; [done|by rewrite Hx]|done|]. destruct Hl as [_ ->]. eauto.
Qed.

Definition map_and_ring (B : libbpf) : bool :=
  match map_fd_of B "events" with Some fd => gives (ring_new B fd) | None => false end.

Lemma wp_resolve_maps B m l ss R S w :
  documented B -> partial B l ss -> (forall s, s ∈ ss) -> S !! m = None -> holds (owned m l ++ R) S w ->
  wp (stage_bind (resolve_maps B m l) (open_ring B m))
     (fun r w' => match r with
                  | inl c => map_and_ring B = false /\ c <> 0 /\ holds R S w'
                  | inr l => map_and_ring B = true /\ complete B l /\ holds (owned m l ++ R) S w'
                  end) w.
Proof.
  intros HB Hp Hss HS Hh. do 2 apply wp_bind. unfold map_and_ring.
  eapply wp_mono; [by eapply wp_find_map|]. intros fd w1 [-> H1].
  destruct (map_fd_of B "events") as [fd|] eqn:Ef.
  2: { eapply wp_mono; [apply (wp_fail B _ _ ss); [done|done|done|intros s Hs; destruct Hs; apply slots_all|done]|].
       intros r w2 [-> H2]. by apply wp_ret. }
  apply wp_bind. eapply wp_mono; [by eapply wp_find_map|]. intros ag w2 [-> H2].
  apply wp_bind. eapply wp_mono; [by eapply wp_find_map|]. intros bl w3 [-> H3].
  apply wp_bind. eapply wp_mono; [by eapply wp_find_map|]. intros fn w4 [-> H4]. apply wp_ret.
  set (l' := set_fds l _ _ _ _). destruct (doc_ring _ HB fd) as [Ha Hne].
  apply wp_bind. eapply wp_mono; [by apply wp_produce|]. cbn [map_fd l' set_fds]. intros p w5 [H5 Hy].
  apply wp_bind. eapply wp_mono; [by eapply wp_failed|]. intros b w6 (H6 & Hy6 & ->).
  destruct (gives (ring_new B fd)) eqn:Eg; cbn [negb].
  - apply wp_ret. destruct (ring_new B fd) eqn:Er; [|done..]. destruct Hy6 as [r ->].
    split_and!; [done| |].
    + destruct (id Hp) as [Ho _]. split; [exact Ho|by eexists| |done..].
      intros s. by apply (partial_complete B l ss).
    + revert H6. apply holds_proper; [|done..]. destruct Hp as (_ & Hr & _). unfold owned. simpl. rewrite Hr. simpl.
      apply Permutation_swap.
  - destruct (ring_new B fd) as [|e|c] eqn:Er; [done| |by destruct (Hne c)]. destruct Hy6 as [-> _].
    apply wp_bind, wp_ret, wp_bind, wp_ret.
    eapply wp_mono; [apply (wp_fail B _ _ ss); [done|done|done|intros s Hs; destruct Hs; apply slots_all|exact H6]|].
    intros r w7 [-> H7]. by split_and!.
Qed.

(** No handle points to an address that is not a live block. *)
Definition heap_ok (w : heap) : Prop :=
  holds (live w) (structs w) w /\ forall id, id ∈ dom (structs w) -> (id, KLoader) ∈ live w.

(** The stages after the block was allocated. *)
Lemma wp_stages B m path R S w :
  documented B -> S !! m = None -> holds ((m, KLoader) :: R) S w ->
  wp (stage_bind (open_object B m path) (fun l =>
      stage_bind (attach_required B m l exec_link []) (fun l =>
      stage_bind (attach_required B m l connect_link [exec_link]) (fun l =>
      stage_bind (inr <$> attach_all B l optional_slots) (fun l =>
      stage_bind (resolve_maps B m l) (open_ring B m))))))
     (fun r w' => let ok := gives (open_file B path) && bool_decide (load_fails B = None)
                            && attaches B exec_link && attaches B connect_link && map_and_ring B in
        match r with
        | inl c => ok = false /\ c <> 0 /\ holds R S w'
        | inr l => ok = true /\ complete B l /\ holds (owned m l ++ R) S w'
        end) w.
Proof.
  intros HB HS Hh. apply wp_bind. eapply wp_mono; [by apply wp_open_object|].
  intros [c|l1] w1 (-> & H1 & H1'); [by apply wp_ret|]. cbn [andb].
  apply wp_bind. eapply wp_mono; [apply (wp_attach_required B m l1 exec_link [] R S); try done; [set_solver|apply submseteq_nil_l]|].
  intros [c|l2] w2 (-> & H2 & H2'); [by apply wp_ret|]. cbn [andb].
  apply wp_bind. eapply wp_mono; [apply (wp_attach_required B m l2 connect_link [exec_link] R S); try done; [set_solver|]|].
  { apply submseteq_skip, submseteq_nil_l. }
  intros [c|l3] w3 (-> & H3 & H3'); [by apply wp_ret|]. cbn [andb].
  apply wp_bind, wp_fmap. eapply wp_mono; [apply (wp_attach_all B m optional_slots l3 [connect_link; exec_link] R S); try done|].
  { apply (bool_decide_unpack _). by vm_compute. }
  intros l4 w4 [H4 H4']. eapply wp_resolve_maps; try done. intros s. by destruct s; repeat (left || right).
Qed.

(** ** The handle *)

Lemma wp_deref m l R S w :
  S !! m = Some l -> holds (owned m l ++ R) S w -> wp (deref (PTR m)) (fun l' w' => l' = l /\ w' = w) w.
Proof.
  intros HS [Hl Hs _ _]. unfold wp, deref. rewrite Hs, HS, decide_True; [done|]. rewrite Hl. left.
Qed.

Lemma wp_edr_close B m l R S w :
  complete B l -> S !! m = Some l -> holds (owned m l ++ R) S w ->
  wp (edr_close (PTR m)) (fun _ => holds R (delete m S)) w.
Proof.
  intros Hc HS Hh. apply wp_bind. eapply wp_mono; [by apply (wp_deref m l R S)|]. intros ? ? [-> ->].
  destruct (complete_obj _ _ Hc) as [o Eo], (complete_rb _ _ Hc) as [r Er].
  unfold owned in Hh. rewrite Eo, Er in Hh |- *. cbn [res app] in Hh. rewrite <- app_assoc in Hh.
  apply wp_bind. eapply wp_mono.
  { apply (wp_release KRing r ((m, KLoader) :: link_res l ++ (o, KObject) :: R) S). revert Hh. apply holds_proper; [|done..]. apply Permutation_swap. }
  intros [] w1 H1. apply wp_bind. eapply wp_mono.
  { apply (wp_destroy_links l slots (res KObject (PTR o) ++ (m, KLoader) :: R) S). revert H1.
    apply holds_proper; [|done..]. cbn [res app]. fold (link_res l).
    rewrite (Permutation_swap (m, KLoader) (o, KObject) R). symmetry; apply Permutation_middle. }
  intros [] w2 H2. apply wp_bind. eapply wp_mono; [by apply wp_close_object|].
  intros [] w3 H3. by apply wp_free_struct.
Qed.

Lemma wp_edr_poll B B' m l R S w :
  complete B l -> S !! m = Some l -> holds (owned m l ++ R) S w ->
  wp (edr_poll B' (PTR m)) (fun rc w' => rc = poll_rc B' /\ w' = w) w.
Proof.
  intros Hc HS Hh. destruct (complete_rb _ _ Hc) as [r Er]. apply wp_bind.
  eapply wp_mono; [by apply (wp_deref m l R S)|]. intros ? ? [-> ->]. rewrite Er.
  unfold wp, touch, mbind, M_bind. rewrite decide_True; [done|].
  rewrite (holds_live _ _ _ Hh). unfold owned. rewrite Er. set_solver.
Qed.

Lemma wp_set_go_ctx m l c R S w :
  S !! m = Some l -> holds (owned m l ++ R) S w ->
  wp (edr_set_go_ctx (PTR m) c) (fun _ => holds (owned m (set_ctx l c) ++ R) (<[m := set_ctx l c]> S)) w.
Proof.
  intros HS Hh. apply wp_bind. eapply wp_mono; [by apply (wp_deref m l R S)|]. intros ? ? [-> ->].
  by apply wp_put_structs.
Qed.

Definition succeeds (B : libbpf) (out : bool) (obj_path : option string) : bool :=
  match obj_path with Some path => out && required B path | None => false end.

(** The specification of [edr_open] in the form the proofs use. *)
Lemma wp_edr_open B out obj_path w :
  documented B -> heap_ok w ->
  wp (edr_open B out obj_path) (fun '(rc, h) w' =>
    if succeeds B out obj_path
    then rc = 0 /\ exists m l, h = PTR m /\ structs w !! m = None /\ complete B l
         /\ holds (owned m l ++ live w) (<[m := l]> (structs w)) w'
    else rc <> 0 /\ h = NULL /\ holds (live w) (structs w) w') w.
Proof.
  intros HB [Hh Hd]. unfold edr_open, succeeds.
  destruct out, obj_path as [path|]; try (apply wp_ret; by split_and!).
  unfold required. destruct (calloc_ok B); cbn [negb andb]; [|apply wp_ret; by split_and!].
  apply wp_bind. eapply wp_mono; [by apply wp_alloc|]. intros m w1 [H1 Em].
  assert (structs w !! m = None) as HS.
  { apply not_elem_of_dom. intros Hm%Hd. apply holds_fresh in Hh. rewrite Forall_forall in Hh.
    assert (m ∈ (live w).*1) as Hi%Hh by (apply list_elem_of_fmap; by exists (m, KLoader)). lia. }
  apply wp_bind. eapply wp_mono; [by apply wp_stages|]. fold (map_and_ring B). cbn zeta.
  intros [c|l] w2 (-> & H2 & H2'); [by apply wp_ret|].
  apply wp_bind. eapply wp_mono; [by apply wp_put_structs|]. intros [] w3 H3. apply wp_ret. split; [done|].
  by exists m, l.
Qed.

Lemma wp_run {A} (m : M A) Q w : wp m Q w -> exists a w', m w = Some (a, w') /\ Q a w'.
Proof. unfold wp. destruct (m w) as [[a w']|]; [eauto|done]. Qed.

(** ** The Go side of the handle *)

Module Life.

(** [findProbesObject]: [stat] says whether a path exists and is a directory. *)
Fixpoint clean_parts (rooted : bool) (todo stack : list string) : list string :=
  match todo with
  | [] => rev stack
  | p :: todo =>
      if (p == "") || (p == ".") then clean_parts rooted todo stack
      else if p == ".." then
        match stack with
        | q :: stack' => if q == ".." then clean_parts rooted todo (p :: stack) else clean_parts rooted todo stack'
        | [] => if rooted then clean_parts rooted todo [] else clean_parts rooted todo [p]
        end
      else clean_parts rooted todo (p :: stack)
  end.
Definition Clean (s : string) : string :=
  let rooted := hasPrefix s "/" in
  let body := join "/" (clean_parts rooted (split "/"%char s) []) in
  if rooted then "/" +:+ body else if body == "" then "." else body.
Definition filepathJoin (dir name : string) : string := if dir == "" then Clean name else Clean (dir +:+ "/" +:+ name).

Fixpoint first_object (stat : string -> option bool) (objDir : string) (names : list string) : option string :=
  match names with
  | [] => None
  | name :: names =>
      let p := filepathJoin objDir name in
      match stat p with Some false => Some p | _ => first_object stat objDir names end
  end.
Definition findProbesObject (stat : string -> option bool) (objDir : string) : option string :=
  first_object stat objDir ["probes.bpf.o"; "all.bpf.o"].

(** The registry of the contexts: which identifiers are in use, and the last
    one given out. *)
Record registry := mkRegistry { goCtxMap : gset Z; goCtxNext : Z }.

Inductive new_err := ErrEmptyDir | ErrNoObject (dir : string) | ErrOpen (path : string) (rc : Z).

(** [NewLibBPFLoader]: the handle and the identifier. *)
Definition NewLibBPFLoader (B : libbpf) (stat : string -> option bool) (objDir : string) (g : registry)
    : M (result new_err (ptr * Z) * registry) :=
  if objDir == "" then mret (Err ErrEmptyDir, g)
  else match findProbesObject stat objDir with
  | None => mret (Err (ErrNoObject objDir), g)
  | Some path =>
      r ← edr_open B true (Some path);
      let '(rc, h) := r : Z * ptr in
      if rc != 0 then mret (Err (ErrOpen path rc), g)
      else
        let id := g.(goCtxNext) + 1 in
        _ ← edr_set_go_ctx h id;
        mret (Ok (h, id), mkRegistry ({[id]} ∪ g.(goCtxMap)) id)
  end.

(** Where the goroutines of one loader are.  The consumer: not started, at the
    head of its loop, past the test of [closed], back from the poll, gone.
    A goroutine in [Close]: waiting for [done], about to free the handle, about
    to set it to nil, about to unregister, returned.  A goroutine in a map
    operation: past the test of [closed]. *)
Inductive pump_pc := PNone | PHead | PPoll | PBack | PGone.
Inductive close_pc := CWait | CFree | CNil | CUnregister | CReturned.

Record sys := mkSys {
  mem : heap; handle : ptr; handleID : Z; reg : registry; loaded : bool; closed : bool;
  pump : pump_pc; closers : list close_pc; users : nat;
}.

Definition set_pump (s : sys) (p : pump_pc) : sys :=
  mkSys s.(mem) s.(handle) s.(handleID) s.(reg) s.(loaded) s.(closed) p s.(closers) s.(users).
Definition set_closer (s : sys) (i : nat) (c : close_pc) : sys :=
  mkSys s.(mem) s.(handle) s.(handleID) s.(reg) s.(loaded) s.(closed) s.(pump) (<[i := c]> s.(closers)) s.(users).

(** [<-l.done] does not block. *)
Definition done_closed (s : sys) : Prop := s.(pump) = PGone.

Inductive step (B : libbpf) : sys -> sys -> Prop :=
| StLoad s : s.(loaded) = false ->
    step B s (mkSys s.(mem) s.(handle) s.(handleID) s.(reg) true s.(closed) PHead s.(closers) s.(users))
| StHead s : s.(pump) = PHead -> step B s (set_pump s (if s.(closed) then PGone else PPoll))
| StPoll s rc w : s.(pump) = PPoll -> edr_poll B s.(handle) s.(mem) = Some (rc, w) ->
    step B s (mkSys w s.(handle) s.(handleID) s.(reg) s.(loaded) s.(closed) PBack s.(closers) s.(users))
| StBack s : s.(pump) = PBack -> step B s (set_pump s (if s.(closed) then PGone else PHead))
| StClose s : s.(loaded) = true -> s.(closed) = false ->
    step B s (mkSys s.(mem) s.(handle) s.(handleID) s.(reg) s.(loaded) true s.(pump) (s.(closers) ++ [CWait]) s.(users))
| StDone s i : s.(closers) !! i = Some CWait -> done_closed s -> step B s (set_closer s i CFree)
| StFree s i w : s.(closers) !! i = Some CFree -> edr_close s.(handle) s.(mem) = Some (tt, w) ->
    step B s (set_closer (mkSys w s.(handle) s.(handleID) s.(reg) s.(loaded) s.(closed) s.(pump) s.(closers) s.(users)) i CNil)
| StNil s i : s.(closers) !! i = Some CNil ->
    step B s (set_closer (mkSys s.(mem) NULL s.(handleID) s.(reg) s.(loaded) s.(closed) s.(pump) s.(closers) s.(users)) i CUnregister)
| StUnregister s i : s.(closers) !! i = Some CUnregister ->
    step B s (set_closer (mkSys s.(mem) s.(handle) s.(handleID)
                (mkRegistry (s.(reg).(goCtxMap) ∖ {[s.(handleID)]}) s.(reg).(goCtxNext))
                s.(loaded) s.(closed) s.(pump) s.(closers) s.(users)) i CReturned)
| StUse s : s.(closed) = false ->
    step B s (mkSys s.(mem) s.(handle) s.(handleID) s.(reg) s.(loaded) s.(closed) s.(pump) s.(closers) (S s.(users)))
| StUsed s : (0 < s.(users))%nat ->
    step B s (mkSys s.(mem) s.(handle) s.(handleID) s.(reg) s.(loaded) s.(closed) s.(pump) s.(closers) (pred s.(users))).

(** The state [NewLibBPFLoader] leaves. *)
Definition start (w : heap) (h : ptr) (id : Z) (g : registry) : sys := mkSys w h id g false false PNone [] 0.

(** The two goroutines whose next C call would be undefined. *)
Definition crashes (B : libbpf) (s : sys) : Prop :=
  (pump s = PPoll /\ edr_poll B (handle s) (mem s) = None)
  \/ (exists i, closers s !! i = Some CFree /\ edr_close (handle s) (mem s) = None).

(** A map operation past its test whose use of the handle is undefined. *)
Definition user_crashes (s : sys) : Prop :=
  (0 < users s)%nat /\ handle s <> NULL /\ deref (handle s) (mem s) = None.

Section Proofs.
Context (B0 B : libbpf) (m : nat) (l : edr_loader) (R : list (nat * kind)) (S : gmap nat edr_loader).
Context (HS : S !! m = Some l) (Hc : complete B0 l).

(** What each point of [Close] has done. *)
Definition phase (s : sys) : Prop :=
  let before := handle s = PTR m /\ holds (owned m l ++ R) S (mem s) in
  match closers s with
  | [] => closed s = false /\ before
  | [CWait] => closed s = true /\ before
  | [CFree] => closed s = true /\ pump s = PGone /\ before
  | [CNil] => closed s = true /\ pump s = PGone /\ holds R (delete m S) (mem s)
  | [CUnregister] => closed s = true /\ pump s = PGone /\ holds R (delete m S) (mem s) /\ handle s = NULL
  | [CReturned] => closed s = true /\ pump s = PGone /\ holds R (delete m S) (mem s) /\ handle s = NULL
                   /\ handleID s ∉ goCtxMap (reg s)
  | _ => False
  end.
Definition started (s : sys) : Prop := (pump s = PNone <-> loaded s = false) /\ (closed s = true -> loaded s = true).
Definition inv (s : sys) : Prop := phase s /\ started s.

Ltac phase_cases s := unfold phase in *; simpl; destruct (closers s) as [|[] [|? ?]];
  simpl in *; destruct_and?; split_and?; first [done|congruence].

(** The step of a closing goroutine is the step of the only one. *)
Lemma only_closer s i c : phase s -> closers s !! i = Some c -> i = 0%nat /\ closers s = [c].
Proof.
  unfold phase. destruct (closers s) as [|c0 [|c1 cs]]; [done| |by destruct c0].
  intros _ Hi. destruct i as [|i]; [by simplify_eq/=|]. by apply lookup_lt_Some in Hi; simpl in Hi; lia.
Qed.

Lemma phase_set_pump s p : phase s -> pump s <> PGone -> phase (set_pump s p).
Proof. intros. phase_cases s. Qed.

Lemma started_step s s' : started s -> step B s s' -> started s'.
Proof.
  intros [Hl Hc'] Hs. unfold started. destruct Hs; simpl; try done.
  - rewrite <- Hl, H. by destruct (closed s).
  - rewrite <- Hl, H. done.
  - rewrite <- Hl, H. by destruct (closed s).
Qed.

Lemma life_step s s' : inv s -> step B s s' -> inv s'.
Proof.
  intros [Hp Hst] Hs. split; [|by eapply started_step]. destruct Hst as [Hl _]. destruct Hs as [s E|s E|s rc w E Ew|s E|s El Ec|s i Ei Ed|s i w Ei Ew|s i Ei|s i Ei|s E|s E]; simpl.
  - apply Hl in E. phase_cases s.
  - by apply phase_set_pump; [|rewrite E].
  - assert (handle s = PTR m /\ holds (owned m l ++ R) S (mem s)) as [Eh Hh].
    { phase_cases s. }
    destruct (wp_run _ _ _ (wp_edr_poll B0 B m l R S (mem s) Hc HS Hh)) as (rc' & w' & Ew' & _ & ->).
    rewrite Eh, Ew' in Ew. simplify_eq. phase_cases s.
  - by apply phase_set_pump; [|rewrite E].
  - phase_cases s.
  - destruct (only_closer s i _ Hp Ei) as [-> Ecl]. unfold phase in *. simpl. rewrite Ecl in *. naive_solver.
  - destruct (only_closer s i _ Hp Ei) as [-> Ecl]. unfold phase in *. simpl. rewrite Ecl in *. simpl.
    destruct Hp as (? & ? & Eh & Hh).
    destruct (wp_run _ _ _ (wp_edr_close B0 m l R S (mem s) Hc HS Hh)) as ([] & w' & Ew' & Hw').
    rewrite Eh, Ew' in Ew. by simplify_eq.
  - destruct (only_closer s i _ Hp Ei) as [-> Ecl]. unfold phase in *. simpl. rewrite Ecl in *. naive_solver.
  - destruct (only_closer s i _ Hp Ei) as [-> Ecl]. unfold phase in *. simpl. rewrite Ecl in *. simpl.
    set_solver.
  - phase_cases s.
  - phase_cases s.
Qed.

Lemma inv_safe s : inv s -> ~ crashes B s.
Proof.
  intros [Hp _] [[E Ew]|(i & Ei & Ew)].
  - assert (handle s = PTR m /\ holds (owned m l ++ R) S (mem s)) as [Eh Hh].
    { phase_cases s. }
    destruct (wp_run _ _ _ (wp_edr_poll B0 B m l R S (mem s) Hc HS Hh)) as (? & ? & Ew' & _). congruence.
  - destruct (only_closer s i _ Hp Ei) as [-> Ecl]. unfold phase in Hp. rewrite Ecl in Hp.
    destruct Hp as (_ & _ & Eh & Hh).
    destruct (wp_run _ _ _ (wp_edr_close B0 m l R S (mem s) Hc HS Hh)) as (? & ? & Ew' & _). congruence.
Qed.

(** A poll in flight comes back and sees [closed]: the consumer leaves. *)
Lemma pump_leaves s :
  inv s -> closers s = [CWait] -> exists s', rtc (step B) s s' /\ closers s' = [CWait] /\ pump s' = PGone.
Proof.
  intros [Hp [Hl Hld]] Ec. unfold phase in Hp. rewrite Ec in Hp. destruct Hp as (Hcl & Eh & Hh).
  destruct (pump s) eqn:Ep.
  - exfalso. specialize (Hld Hcl). rewrite (proj1 Hl eq_refl) in Hld. done.
  - exists (set_pump s PGone). split; [|done]. apply rtc_once.
    pose proof (StHead B s Ep) as Hst. by rewrite Hcl in Hst.
  - destruct (wp_run _ _ _ (wp_edr_poll B0 B m l R S (mem s) Hc HS Hh)) as (rc & w & Ew & _).
    rewrite <- Eh in Ew. pose proof (StPoll B s rc w Ep Ew) as H1.
    eexists. split; [eapply rtc_l; [exact H1|]; apply rtc_once, StBack; done|]. simpl. by rewrite Hcl.
  - exists (set_pump s PGone). split; [|done]. apply rtc_once.
    pose proof (StBack B s Ep) as Hst. by rewrite Hcl in Hst.
  - exists s. split; [apply rtc_refl|done].
Qed.

(** A goroutine in [Close] can run to its return. *)
Lemma close_finishes s :
  inv s -> closed s = true -> exists s', rtc (step B) s s' /\ closers s' = [CReturned].
Proof.
  assert (forall s, closers s = [CUnregister] -> exists s', rtc (step B) s s' /\ closers s' = [CReturned]) as H4.
  { intros t E. eexists. split; [apply rtc_once, (StUnregister B t 0); by rewrite E|]. simpl. by rewrite E. }
  assert (forall s, closers s = [CNil] -> exists s', rtc (step B) s s' /\ closers s' = [CReturned]) as H3.
  { intros t E. destruct (H4 (set_closer (mkSys (mem t) NULL (handleID t) (reg t) (loaded t) (closed t) (pump t) (closers t) (users t)) 0 CUnregister))
      as (t' & Ht & E'); [simpl; by rewrite E|].
    exists t'. split; [|done]. eapply rtc_l; [|exact Ht]. apply StNil. by rewrite E. }
  assert (forall s, inv s -> closers s = [CFree] -> exists s', rtc (step B) s s' /\ closers s' = [CReturned]) as H2.
  { intros t [Hp _] E. unfold phase in Hp. rewrite E in Hp. destruct Hp as (_ & _ & Eh & Hh).
    destruct (wp_run _ _ _ (wp_edr_close B0 m l R S (mem t) Hc HS Hh)) as ([] & w & Ew & _). rewrite <- Eh in Ew.
    destruct (H3 (set_closer (mkSys w (handle t) (handleID t) (reg t) (loaded t) (closed t) (pump t) (closers t) (users t)) 0 CNil))
      as (t' & Ht & E'); [simpl; by rewrite E|].
    exists t'. split; [|done]. eapply rtc_l; [|exact Ht]. apply StFree; [by rewrite E|done]. }
  intros Hi Hcl. assert (phase s) as Hp by apply Hi. unfold phase in Hp.
  destruct (closers s) as [|c [|? ?]] eqn:E; [by destruct Hp; congruence| |by destruct c].
  destruct c; [|by apply H2|by apply H3|by apply H4|by exists s; split; [apply rtc_refl|]].
  destruct (pump_leaves s Hi E) as (t & Ht & Et & Ep).
  destruct (H2 (set_closer t 0 CFree)) as (t' & Ht' & E').
  - eapply life_step; [eapply (rtc_ind_r inv); [exact Hi| |exact Ht]; intros; by eapply life_step|].
    apply StDone; [by rewrite Et|done].
  - simpl. by rewrite Et.
  - exists t'. split; [|done]. etrans; [exact Ht|]. eapply rtc_l; [|exact Ht']. apply StDone; [by rewrite Et|done].
Qed.
End Proofs.
End Life.

(** ** The theorems *)

(** The heap stays well formed when a new block joins it with its structure. *)
Lemma heap_ok_open w w' m l :
  heap_ok w -> holds (owned m l ++ live w) (<[m := l]> (structs w)) w' -> heap_ok w'.
Proof.
  intros [_ Hd] Hh. pose proof Hh as [Hl Hs Hu Hf]. split; [by split|].
  intros id. rewrite Hs, dom_insert_L, Hl. intros [->%elem_of_singleton|Hi]%elem_of_union; [left|].
  apply elem_of_app. right. by apply Hd.
Qed.

(** C11. [edr_open] is defined on every answer of libbpf.  It succeeds exactly when
    the block, the object, the two required hooks, the event map and its ring
    buffer could be had, whatever happens to the ten optional hooks; then the
    structure holds a link for exactly the hooks that attach, and [edr_close]
    gives back exactly what was taken.  When it fails, the code is not zero, no
    handle is stored and everything taken on the way was released, once. *)
Theorem bridge_exact (B : libbpf) (out : bool) (obj_path : option string) (w : heap) :
  documented B -> heap_ok w ->
  exists rc h w', edr_open B out obj_path w = Some ((rc, h), w') /\
  if succeeds B out obj_path
  then rc = 0 /\ exists m l, h = PTR m /\ structs w' !! m = Some l /\ complete B l
       /\ live w' ≡ₚ owned m l ++ live w /\ heap_ok w'
       /\ exists w'', edr_close h w' = Some (tt, w'') /\ live w'' ≡ₚ live w /\ structs w'' = structs w
  else rc <> 0 /\ h = NULL /\ live w' ≡ₚ live w /\ structs w' = structs w.
Proof.
  intros HB Hw. destruct (wp_run _ _ _ (wp_edr_open B out obj_path w HB Hw)) as ([rc h] & w' & E & H).
  exists rc, h, w'. split; [done|]. destruct (succeeds B out obj_path); [|by destruct H as (? & ? & [])].
  destruct H as (-> & m & l & -> & Hm & Hc & Hh). split; [done|]. exists m, l.
  pose proof (heap_ok_open _ _ _ _ Hw Hh) as Hok. pose proof Hh as [Hl Hs _ _].
  assert (<[m := l]> (structs w) !! m = Some l) as Hml by apply lookup_insert_eq.
  split_and!; [done|by rewrite Hs|done|done|done|].
  destruct (wp_run _ _ _ (wp_edr_close B m l _ _ w' Hc Hml Hh)) as ([] & w'' & E' & [Hl'' Hs'' _ _]).
  exists w''. split_and!; [done|done|]. by rewrite Hs'', delete_insert_id.
Qed.

Lemma wp_new B stat objDir g w :
  documented B -> heap_ok w ->
  wp (Life.NewLibBPFLoader B stat objDir g) (fun '(r, g') w' =>
    match r with
    | Ok (h, id) => exists m l, h = PTR m /\ structs w !! m = None /\ complete B l /\ id ∈ Life.goCtxMap g'
                    /\ holds (owned m l ++ live w) (<[m := l]> (structs w)) w'
    | Err _ => g' = g /\ holds (live w) (structs w) w'
    end) w.
Proof.
  intros HB Hw. pose proof Hw as [Hh _]. unfold Life.NewLibBPFLoader. case_bool_decide; [by apply wp_ret|].
  destruct (Life.findProbesObject stat objDir) as [path|]; [|by apply wp_ret].
  apply wp_bind. eapply wp_mono; [by apply wp_edr_open|]. intros [rc h] w1 H1.
  destruct (succeeds B true (Some path)).
  - destruct H1 as (-> & m & l & -> & Hm & Hc & H1). cbn [negb bool_decide]. rewrite bool_decide_true by done. cbn [negb].
    apply wp_bind. eapply wp_mono; [apply (wp_set_go_ctx m l); [apply lookup_insert_eq|done]|].
    intros [] w2 H2. rewrite insert_insert_eq in H2. apply wp_ret. exists m, (set_ctx l (Life.goCtxNext g + 1)).
    split_and!; try done; [by destruct Hc|set_solver].
  - destruct H1 as (Hrc & _ & H1). rewrite bool_decide_false by done. by apply wp_ret.
Qed.

(** C12. The life of a handle: from the moment [NewLibBPFLoader] returns a loader,
    under any interleaving of [Load], the consumer's polls, any number of
    goroutines in [Close] and in the map operations, no poll and no [edr_close]
    uses a handle that was freed, and the handle is freed by one goroutine
    only.  Once [Close] was entered it can always run to its end, and then
    every resource of the loader was released, the handle is nil and its
    context is no longer registered. *)
Theorem handle_lifetime (B B' : libbpf) stat objDir g w h id g' w' s :
  documented B -> heap_ok w -> Life.NewLibBPFLoader B stat objDir g w = Some ((Ok (h, id), g'), w') ->
  rtc (Life.step B') (Life.start w' h id g') s ->
  ~ Life.crashes B' s /\ (length (Life.closers s) <= 1)%nat
  /\ (Life.closed s = true -> exists s', rtc (Life.step B') s s' /\ Life.closers s' = [Life.CReturned])
  /\ (Life.closers s = [Life.CReturned] ->
      live (Life.mem s) ≡ₚ live w /\ structs (Life.mem s) = structs w /\ Life.handle s = NULL
      /\ Life.handleID s ∉ Life.goCtxMap (Life.reg s)).
Proof.
  intros HB Hw E Hr. pose proof (wp_new B stat objDir g w HB Hw) as Hn. unfold wp in Hn. rewrite E in Hn.
  destruct Hn as (m & l & -> & Hm & Hc & _ & Hh).
  set (S := <[m := l]> (structs w)) in *. assert (S !! m = Some l) as HS by apply lookup_insert_eq.
  assert (Life.inv m l (live w) S s) as Hi.
  { eapply (rtc_ind_r (Life.inv m l (live w) S)); [|intros; by eapply Life.life_step|exact Hr].
    split; [by split|]. by split. }
  split_and!.
  - by eapply Life.inv_safe.
  - destruct Hi as [Hp _]. unfold Life.phase in Hp. destruct (Life.closers s) as [|c [|? ?]]; simpl; try lia. by destruct c.
  - by eapply Life.close_finishes.
  - intros Ec. destruct Hi as [Hp _]. unfold Life.phase in Hp. rewrite Ec in Hp.
    destruct Hp as (_ & _ & [Hl Hst _ _] & Hn & Hu). split_and!; try done. rewrite Hst. by apply delete_insert_id.
Qed.

(** ** Concrete runs *)

Module Sample.

(** An object with every program; the kernel refuses the two LSM hooks. *)
Definition kernel : libbpf :=
  mkLibbpf true (fun _ => Gives) None (fun _ => true)
    (fun _ a => match a with Lsm => Fails 95 | _ => Gives end)
    (fun name => if name == "events" then Some 5 else if name == "agent_pid" then Some 6 else None)
    (fun _ => Gives) 0.
Definition empty : heap := mkHeap [] ∅ 0 0 [].
Definition stat (p : string) : option bool := if p == "/opt/edr/all.bpf.o" then Some false else None.

Lemma kernel_documented : documented kernel.
Proof. split; simpl; try done. intros _ a. by destruct a. Qed.
Lemma empty_ok : heap_ok empty.
Proof. split; [split; try done; constructor|]. intros id. simpl. set_solver. Qed.

Definition opened : option ((Z * ptr) * heap) := edr_open kernel true (Some "all.bpf.o") empty.

Lemma bridge_exact_witness :
  exists h w' w'', edr_open kernel true (Some "all.bpf.o") empty = Some ((0, h), w') /\ length (live w') = 13%nat
  /\ edr_close h w' = Some (tt, w'') /\ live w'' ≡ₚ live empty.
Proof.
  destruct (bridge_exact kernel true (Some "all.bpf.o") empty kernel_documented empty_ok) as (rc & h & w' & E & H).
  destruct H as (-> & m & l & _ & _ & _ & _ & _ & w'' & Ec & Hl & _).
  exists h, w', w''. split_and!; [exact E| |exact Ec|exact Hl].
  vm_compute in E. injection E as <- <-. reflexivity.
Defined.

(** What was printed: the two hooks that enforce the protection are off. *)
Example lsm_off_is_printed :
  match opened with Some (_, w) => stderr w | None => [] end
  = ["bpf: attach_lsm(task_kill) returned NULL"; "bpf: attach_lsm(ptrace_access_check) returned NULL"].
Proof. reflexivity. Qed.

(** A required hook that the kernel refuses for lack of privilege is reported
    as an invalid argument. *)
Example refusal_reported_as_einval :
  fst <$> edr_open (mkLibbpf true (fun _ => Gives) None (fun _ => true) (fun _ _ => Fails 1) (fun _ => Some 5) (fun _ => Gives) 0)
    true (Some "all.bpf.o") empty = Some (- EINVAL, NULL).
Proof. vm_compute. reflexivity. Qed.

(** A ring buffer reported as an encoded error, as before version 1.0, would be
    freed as if it were one. *)
Example encoded_ring_error_undefined :
  edr_open (mkLibbpf true (fun _ => Gives) None (fun _ => true) (fun _ _ => Gives) (fun _ => Some 5) (fun _ => Encodes (-12)) 0)
    true (Some "all.bpf.o") empty = None.
Proof. vm_compute. reflexivity. Qed.

Lemma handle_lifetime_witness :
  exists h g w', Life.NewLibBPFLoader kernel stat "/opt/edr/" (Life.mkRegistry ∅ 0) empty = Some ((Ok (h, 1), g), w')
  /\ ~ Life.crashes kernel (Life.start w' h 1 g).
Proof.
  destruct (Life.NewLibBPFLoader kernel stat "/opt/edr/" (Life.mkRegistry ∅ 0) empty) as [[[[[h id]|] g] w']|] eqn:E.
  2, 3: vm_compute in E; discriminate E.
  assert (id = 1) as -> by (vm_compute in E; injection E as <- <- <- <-; reflexivity).
  exists h, g, w'. split; [reflexivity|].
  exact (proj1 (handle_lifetime kernel kernel stat "/opt/edr/" (Life.mkRegistry ∅ 0) empty h 1 g w' _
    kernel_documented empty_ok E (rtc_refl _ _))).
Defined.

(** A policy reload that has passed its test of [closed] when the agent shuts
    down: [Close] does not take the mutex the map operations hold, frees the
    handle, and the operation then uses it. *)
Definition new_heap : heap :=
  match Life.NewLibBPFLoader kernel stat "/opt/edr/" (Life.mkRegistry ∅ 0) empty with Some (_, w) => w | None => empty end.
Definition freed_heap : heap := match edr_close (PTR 0) new_heap with Some (_, w) => w | None => empty end.

Example map_operation_after_close :
  Life.NewLibBPFLoader kernel stat "/opt/edr/" (Life.mkRegistry ∅ 0) empty
    = Some ((Ok (PTR 0, 1), Life.mkRegistry {[1]} 1), new_heap)
  /\ exists s, rtc (Life.step kernel) (Life.start new_heap (PTR 0) 1 (Life.mkRegistry {[1]} 1)) s /\ Life.user_crashes s.
Proof.
  split; [vm_compute; reflexivity|].
  assert (edr_close (PTR 0) new_heap = Some (tt, freed_heap)) as Ef by (vm_compute; reflexivity).
  assert (deref (PTR 0) freed_heap = None) as Ed by (vm_compute; reflexivity).
  generalize dependent freed_heap. generalize dependent new_heap. intros w w' Ef Ed.
  eexists. split.
  - eapply rtc_l; [by apply Life.StLoad|]. eapply rtc_l; [by apply Life.StUse|].
    eapply rtc_l; [by apply Life.StClose|]. eapply rtc_l; [by apply Life.StHead|].
    eapply rtc_l; [by apply (Life.StDone _ _ 0)|].
    eapply rtc_l; [apply (Life.StFree _ _ 0); [done|exact Ef]|]. apply rtc_refl.
  - split_and!; [simpl; lia|done|exact Ed].
Qed.
End Sample.
