(* ===== verification/MapSync.v ===== *)
(** * Keeping the kernel blacklists in step with the policy
    ([internal/bpf/loader.go] [MapFiller], [internal/control/agent.go]
    [syncBPFMaps], [ReplacePolicy], [ClearAgentPID])

    The loader is known to the agent through the interface [MapFiller]; its
    laws say what the two blacklist maps hold after each call.  The theorems on
    [syncBPFMaps] are proved from the laws; [BpfMaps] shows that the libbpf
    loader satisfies them. *)

From S2P Require Import Prelude GoStrings Policy.

(** ** The interface *)

(** Each operation returns whether it failed, and the new state. *)
Class MapFiller (FS : Type) := {
  SetAgentPID : FS -> Z -> bool * FS;
  BlacklistAdd : FS -> string -> bool * FS;
  BlacklistClear : FS -> bool * FS;
  BlacklistFilenameAdd : FS -> string -> bool * FS;
  BlacklistFilenameClear : FS -> bool * FS;
}.

(** What the operations do to the contents of the maps.  A failed addition
    changes neither map, a failed clearing may have removed some entries; a
    [healthy] filler fails only when a map is full. *)
Class MapFillerLaws (FS : Type) {MF : MapFiller FS} := {
  comms : FS -> gset string;
  filenames : FS -> gset string;
  comm_key : string -> string;
  filename_key : string -> string;
  capacity : nat;
  healthy : FS -> Prop;
  add_spec fs s : let '(err, fs') := BlacklistAdd fs s in
    comms fs' = (if err then comms fs else {[comm_key s]} ∪ comms fs) /\ filenames fs' = filenames fs;
  clear_spec fs : let '(err, fs') := BlacklistClear fs in
    (if err then comms fs' ⊆ comms fs else comms fs' = ∅) /\ filenames fs' = filenames fs;
  fadd_spec fs s : let '(err, fs') := BlacklistFilenameAdd fs s in
    filenames fs' = (if err then filenames fs else {[filename_key s]} ∪ filenames fs) /\ comms fs' = comms fs;
  fclear_spec fs : let '(err, fs') := BlacklistFilenameClear fs in
    (if err then filenames fs' ⊆ filenames fs else filenames fs' = ∅) /\ comms fs' = comms fs;
  healthy_add fs s : healthy fs -> (size ({[comm_key s]} ∪ comms fs) <= capacity)%nat ->
    (BlacklistAdd fs s).1 = false /\ healthy (BlacklistAdd fs s).2;
  healthy_clear fs : healthy fs -> (BlacklistClear fs).1 = false /\ healthy (BlacklistClear fs).2;
  healthy_fadd fs s : healthy fs -> (size ({[filename_key s]} ∪ filenames fs) <= capacity)%nat ->
    (BlacklistFilenameAdd fs s).1 = false /\ healthy (BlacklistFilenameAdd fs s).2;
  healthy_fclear fs : healthy fs -> (BlacklistFilenameClear fs).1 = false /\ healthy (BlacklistFilenameClear fs).2;
  pid_spec fs pid : comms (SetAgentPID fs pid).2 = comms fs /\ filenames (SetAgentPID fs pid).2 = filenames fs
    /\ (healthy fs -> healthy (SetAgentPID fs pid).2);
}.

(** ** The synchronisation *)

Section Sync.
Context {FS : Type} {MF : MapFiller FS}.

(** The body of the loop over the blacklist. *)
Definition sync_entry (fs : FS) (bl : Match) : FS :=
  let name := bl.(m_ProcessName) in
  if name == "" then fs
  else if slen name <=? 15 then (BlacklistAdd fs name).2
  else (BlacklistFilenameAdd fs name).2.

Definition syncBPFMaps (p : Policy) (mapFiller : option FS) : option FS :=
  match mapFiller with
  | None => None
  | Some fs =>
      match BlacklistClear fs with
      | (true, fs) => Some fs
      | (false, fs) =>
          let fs := (BlacklistFilenameClear fs).2 in
          Some (foldl sync_entry fs p.(p_ProcessAccess).(pa_Blacklist))
      end
  end.

(** [ReplacePolicy]: the policy in force and the filler. *)
Definition ReplacePolicy (current : Policy) (mapFiller : option FS) (p : Policy) : Policy * option FS :=
  (p, syncBPFMaps p mapFiller).

Definition ClearAgentPID (mapFiller : option FS) : option FS :=
  match mapFiller with None => None | Some fs => Some (SetAgentPID fs 0).2 end.
End Sync.

(** ** What the maps hold afterwards *)

(** The names that go to the first and to the second map. *)
Definition names (p : Policy) : list string :=
  filter (fun n => n <> "") (m_ProcessName <$> p.(p_ProcessAccess).(pa_Blacklist)).
Definition short_names (p : Policy) : list string := filter (fun n => slen n <= 15) (names p).
Definition long_names (p : Policy) : list string := filter (fun n => 15 < slen n) (names p).

Section SyncProofs.
Context {FS : Type} {MF : MapFiller FS} {ML : MapFillerLaws FS}.

Definition picked (P : string -> Prop) `{!forall n, Decision (P n)} (l : list Match) : list string :=
  filter P (filter (fun n => n <> "") (m_ProcessName <$> l)).

(** Both sets fit in their maps. *)
Definition fits (c f : gset string) : Prop := (size c <= capacity)%nat /\ (size f <= capacity)%nat.

Lemma fits_mono c f c' f' : c' ⊆ c -> f' ⊆ f -> fits c f -> fits c' f'.
Proof. intros Hc%subseteq_size Hf%subseteq_size []. split; lia. Qed.

Lemma sync_entry_spec fs bl :
  let n := m_ProcessName bl in
  comms (sync_entry fs bl) ⊆ comms fs ∪ list_to_set (comm_key <$> picked (fun n => slen n <= 15) [bl]) /\
  filenames (sync_entry fs bl) ⊆ filenames fs ∪ list_to_set (filename_key <$> picked (fun n => 15 < slen n) [bl]) /\
  comms fs ⊆ comms (sync_entry fs bl) /\ filenames fs ⊆ filenames (sync_entry fs bl) /\
  (healthy fs ->
    fits (comms fs ∪ list_to_set (comm_key <$> picked (fun n => slen n <= 15) [bl]))
         (filenames fs ∪ list_to_set (filename_key <$> picked (fun n => 15 < slen n) [bl])) ->
    healthy (sync_entry fs bl) /\
    comms (sync_entry fs bl) = comms fs ∪ list_to_set (comm_key <$> picked (fun n => slen n <= 15) [bl]) /\
    filenames (sync_entry fs bl) = filenames fs ∪ list_to_set (filename_key <$> picked (fun n => 15 < slen n) [bl])).
Proof.
  unfold sync_entry, picked. cbn [fmap list_fmap]. rewrite !filter_cons, !filter_nil.
  set (n := m_ProcessName bl). cbn zeta.
  case_bool_decide as E; [rewrite decide_False by tauto; rewrite !filter_nil; set_solver|].
  rewrite decide_True by done. rewrite !filter_cons, !filter_nil.
  destruct (Z.leb_spec (slen n) 15) as [Hn|Hn].
  - rewrite decide_True, decide_False by lia. cbn [fmap list_fmap list_to_set].
    pose proof (add_spec fs n) as Ha. pose proof (healthy_add fs n) as Hh.
    destruct (BlacklistAdd fs n) as [err fs']. simpl in *. destruct Ha as [-> ->].
    destruct err; split_and!; try set_solver; intros ? [Hf _]; rewrite (right_id_L ∅ (∪)), (comm_L (∪)) in Hf;
      destruct Hh as [??]; set_solver.
  - rewrite decide_False, decide_True by lia. cbn [fmap list_fmap list_to_set].
    pose proof (fadd_spec fs n) as Ha. pose proof (healthy_fadd fs n) as Hh.
    destruct (BlacklistFilenameAdd fs n) as [err fs']. simpl in *. destruct Ha as [-> ->].
    destruct err; split_and!; try set_solver; intros ? [_ Hf]; rewrite (right_id_L ∅ (∪)), (comm_L (∪)) in Hf;
      destruct Hh as [??]; set_solver.
Qed.

Lemma picked_cons P `{!forall n, Decision (P n)} bl l : picked P (bl :: l) = picked P [bl] ++ picked P l.
Proof. unfold picked. by rewrite <- !filter_app, <- fmap_app. Qed.

(** The same for the whole loop. *)
Lemma sync_loop_spec l fs :
  let fs' := foldl sync_entry fs l in
  comms fs' ⊆ comms fs ∪ list_to_set (comm_key <$> picked (fun n => slen n <= 15) l) /\
  (healthy fs ->
    fits (comms fs ∪ list_to_set (comm_key <$> picked (fun n => slen n <= 15) l))
         (filenames fs ∪ list_to_set (filename_key <$> picked (fun n => 15 < slen n) l)) ->
    comms fs' = comms fs ∪ list_to_set (comm_key <$> picked (fun n => slen n <= 15) l) /\
    filenames fs' = filenames fs ∪ list_to_set (filename_key <$> picked (fun n => 15 < slen n) l)).
Proof.
  revert fs. induction l as [|bl l IH]; intros fs; [simpl; set_solver|].
  cbn [foldl]. destruct (sync_entry_spec fs bl) as (H1 & _ & _ & _ & H5).
  destruct (IH (sync_entry fs bl)) as [IH1 IH2].
  rewrite !(picked_cons _ bl l), !fmap_app, !list_to_set_app_L. split; [clear -H1 IH1; set_solver|].
  intros Hh Hf. destruct (H5 Hh) as (Hh' & E1 & E2); [revert Hf; apply fits_mono; clear; set_solver|].
  destruct (IH2 Hh') as [-> ->]; rewrite E1, E2; [revert Hf; apply fits_mono; clear; set_solver|]. clear; set_solver.
Qed.

(** Additions of names to the first map. *)
Definition add_names (fs : FS) (l : list string) : FS := foldl (fun fs n => (BlacklistAdd fs n).2) fs l.

Lemma add_names_spec fs l :
  comms fs ⊆ comms (add_names fs l) /\ comms (add_names fs l) ⊆ comms fs ∪ list_to_set (comm_key <$> l)
  /\ filenames (add_names fs l) = filenames fs
  /\ (healthy fs -> (size (comms fs ∪ list_to_set (comm_key <$> l)) <= capacity)%nat ->
      comms (add_names fs l) = comms fs ∪ list_to_set (comm_key <$> l)).
Proof.
  revert fs. induction l as [|n l IH]; intros fs; unfold add_names; cbn [foldl fmap list_fmap list_to_set]; [set_solver|].
  pose proof (add_spec fs n) as Ha. pose proof (healthy_add fs n) as Hh. destruct (BlacklistAdd fs n) as [err fs1].
  simpl in *. destruct Ha as [E1 E2]. destruct (IH fs1) as (I1 & I2 & I3 & I4). unfold add_names in *. rewrite I3, E2.
  split_and!; [destruct err; clear -I1 E1; set_solver|destruct err; clear -I2 E1; set_solver|done|]. intros H Hs.
  destruct (Hh H) as [-> H1].
  { etrans; [|exact Hs]. apply subseteq_size. clear; set_solver. }
  rewrite I4, E1; [clear; set_solver|done|]. rewrite E1. etrans; [|exact Hs]. apply subseteq_size. clear; set_solver.
Qed.
End SyncProofs.

(** After a policy is replaced, the kernel maps of a healthy loader hold
    exactly the new policy's blacklisted names, those of at most 15 bytes in the
    first map and the longer ones in the second, provided each group fits in its
    map.  When calls fail, the first map holds no name that the new policy does
    not list, unless it could not be cleared, and then nothing was added. *)
Theorem sync_exact {FS : Type} {MF : MapFiller FS} {ML : MapFillerLaws FS} (old p : Policy) (fs : FS) :
  exists fs', ReplacePolicy old (Some fs) p = (p, Some fs') /\
  (healthy fs ->
    fits (list_to_set (comm_key <$> short_names p)) (list_to_set (filename_key <$> long_names p)) ->
    comms fs' = list_to_set (comm_key <$> short_names p) /\
    filenames fs' = list_to_set (filename_key <$> long_names p)) /\
  (if (BlacklistClear fs).1 then comms fs' ⊆ comms fs /\ filenames fs' = filenames fs
   else comms fs' ⊆ list_to_set (comm_key <$> short_names p)).
Proof.
  unfold ReplacePolicy, syncBPFMaps.
  pose proof (clear_spec fs) as Hc. pose proof (healthy_clear fs) as Hh.
  destruct (BlacklistClear fs) as [[] fs1] eqn:E; simpl in Hh; destruct Hc as [E1 E2].
  { exists fs1. split_and!; try done; intros H; by destruct (Hh H). }
  eexists. split; [done|]. pose proof (fclear_spec fs1) as Hf. pose proof (healthy_fclear fs1) as Hg.
  destruct (BlacklistFilenameClear fs1) as [err fs2]. simpl in *. destruct Hf as [F1 F2].
  destruct (sync_loop_spec (pa_Blacklist (p_ProcessAccess p)) fs2) as [L1 L2].
  rewrite F2, E1 in L1, L2. split; [|set_solver].
  intros H Hfit. destruct (Hh H) as [_ H1]. destruct (Hg H1) as [-> H2]. rewrite F1, !(left_id_L ∅ (∪)) in L2.
  by apply L2.
Qed.
