(* ===== verification/BpfMaps.v ===== *)
(** * The kernel maps behind the libbpf loader
    ([internal/bpf/loader_libbpf.go]: the C functions on maps and the methods
    of [MapFiller])

    The maps belong to the kernel: [KernelHash] is what the bridge calls of a
    hash map, with the laws the system call documents.  The C functions and the
    Go methods on top of them are shown to satisfy the laws of [MapFiller]. *)

From S2P Require Import Prelude GoStrings Policy BpfEvent Loader Bridge MapSync.

(** ** The kernel *)

(** A call returns the [errno] it failed with, and the map. [map_first] is
    [bpf_map_get_next_key] without a key. *)
Class KernelHash (KM : Type) := {
  bpf_map_update_elem : KM -> list ascii -> Z -> option Z * KM;
  map_first : KM -> option (list ascii);
  bpf_map_delete_elem : KM -> list ascii -> option Z * KM;
  bpf_map_lookup_elem : KM -> list ascii -> option Z;
  max_entries : nat;
}.

(** A call that fails changes nothing. An [intact] map refuses only a new key
    when it is full, and a deletion only of a key it does not have. *)
Class KernelHashLaws (KM : Type) {KH : KernelHash KM} := {
  keys : KM -> gset (list ascii);
  intact : KM -> Prop;
  update_spec km k v : let '(e, km') := bpf_map_update_elem km k v in
    keys km' = (match e with Some _ => keys km | None => {[k]} ∪ keys km end) /\ (forall n, e = Some n -> 0 < n);
  delete_spec km k : let '(e, km') := bpf_map_delete_elem km k in
    keys km' = (match e with Some _ => keys km | None => keys km ∖ {[k]} end) /\ (forall n, e = Some n -> 0 < n);
  first_some km k : map_first km = Some k -> k ∈ keys km;
  first_none km : map_first km = None -> keys km = ∅;
  bounded km : (size (keys km) <= max_entries)%nat;
  intact_update km k v : intact km -> (size ({[k]} ∪ keys km) <= max_entries)%nat ->
    (bpf_map_update_elem km k v).1 = None /\ intact (bpf_map_update_elem km k v).2;
  intact_delete km k : intact km -> k ∈ keys km ->
    (bpf_map_delete_elem km k).1 = None /\ intact (bpf_map_delete_elem km k).2;
  lookup_keys km k : is_Some (bpf_map_lookup_elem km k) <-> k ∈ keys km;
  update_lookup km k v k' : let '(e, km') := bpf_map_update_elem km k v in
    bpf_map_lookup_elem km' k' = match e with
                                 | Some _ => bpf_map_lookup_elem km k'
                                 | None => if decide (k' = k) then Some v else bpf_map_lookup_elem km k'
                                 end;
  delete_lookup km k k' v : bpf_map_lookup_elem (bpf_map_delete_elem km k).2 k' = Some v -> bpf_map_lookup_elem km k' = Some v;
}.

(** The single cell of the array map that holds the pid of the agent. *)
Class KernelArray (KA : Type) := { array_update : KA -> Z -> Z -> option Z * KA }.

(** ** The C functions *)

Section Bridge.
Context {KM : Type} {KH : KernelHash KM} {KA : Type} {KR : KernelArray KA}.

(** [rc ? -errno : 0]. *)
Definition code (e : option Z) : Z := match e with Some n => - n | None => 0 end.

Definition edr_set_agent_pid (l : option edr_loader) (pid : Z) (a : KA) : Z * KA :=
  match l with
  | Some l => if l.(agent_pid_fd) <? 0 then (- EINVAL, a)
              else let '(e, a) := array_update a 0 pid in (code e, a)
  | None => (- EINVAL, a)
  end.

(** [char key[n] = {0}], with at most [n - 1] bytes of the C string: the bytes
    of the Go string up to its first NUL. *)
Definition map_text (n : nat) (s : string) : list ascii := take (pred n) (bytes (cStringN (bytes s))).
Definition map_key (n : nat) (s : string) : list ascii := pad n (map_text n s).

Definition edr_blacklist_add (l : option edr_loader) (comm : option string) (action : Z) (km : KM) : Z * KM :=
  match l, comm with
  | Some l, Some comm =>
      if l.(blacklist_fd) <? 0 then (- EINVAL, km)
      else let '(e, km) := bpf_map_update_elem km (map_key 16 comm) action in (code e, km)
  | _, _ => (- EINVAL, km)
  end.

(** The loop of the two clearing functions: [None] when [fuel] deletions were
    not enough. *)
Fixpoint clear_loop (fuel : nat) (km : KM) : option (Z * KM) :=
  match map_first km with
  | None => Some (0, km)
  | Some k =>
      match fuel with
      | O => None
      | S fuel => match bpf_map_delete_elem km k with
                  | (Some n, km) => Some (- n, km)
                  | (None, km) => clear_loop fuel km
                  end
      end
  end.

(** As many deletions as the map has room for are enough ([clear_loop_spec]). *)
Definition clear (km : KM) : Z * KM := default (0, km) (clear_loop max_entries km).

Definition edr_blacklist_clear (l : option edr_loader) (km : KM) : Z * KM :=
  match l with
  | Some l => if l.(blacklist_fd) <? 0 then (- EINVAL, km) else clear km
  | None => (- EINVAL, km)
  end.

Definition edr_blacklist_filename_add (l : option edr_loader) (path : option string) (action : Z) (km : KM) : Z * KM :=
  match l, path with
  | Some l, Some path =>
      if l.(blacklist_filename_fd) <? 0 then (- EINVAL, km)
      else let '(e, km) := bpf_map_update_elem km (map_key 256 path) action in (code e, km)
  | _, _ => (- EINVAL, km)
  end.

Definition edr_blacklist_filename_clear (l : option edr_loader) (km : KM) : Z * KM :=
  match l with
  | Some l => if l.(blacklist_filename_fd) <? 0 then (- EINVAL, km) else clear km
  | None => (- EINVAL, km)
  end.

(** ** The Go methods *)

(** The handle as the structure it points to ([None] is nil), and the maps
    behind its descriptors. *)
Record libbpfLoader := mkMaps { handle : option edr_loader; closed : bool; pid_map : KA; comm_map : KM; filename_map : KM }.

Definition rc_err (rc : Z) : option loader_err := if rc != 0 then Some (ErrRC rc) else None.

Definition lib_SetAgentPID (l : libbpfLoader) (pid : Z) : option loader_err * libbpfLoader :=
  if l.(closed) then (Some ErrNotLoaded, l)
  else let '(rc, a) := edr_set_agent_pid l.(handle) pid l.(pid_map) in
       (rc_err rc, mkMaps l.(handle) l.(closed) a l.(comm_map) l.(filename_map)).
Definition lib_BlacklistAdd (l : libbpfLoader) (comm : string) : option loader_err * libbpfLoader :=
  if l.(closed) then (Some ErrNotLoaded, l)
  else let '(rc, km) := edr_blacklist_add l.(handle) (Some comm) 1 l.(comm_map) in
       (rc_err rc, mkMaps l.(handle) l.(closed) l.(pid_map) km l.(filename_map)).
Definition lib_BlacklistClear (l : libbpfLoader) : option loader_err * libbpfLoader :=
  if l.(closed) then (Some ErrNotLoaded, l)
  else let '(rc, km) := edr_blacklist_clear l.(handle) l.(comm_map) in
       (rc_err rc, mkMaps l.(handle) l.(closed) l.(pid_map) km l.(filename_map)).
Definition lib_BlacklistFilenameAdd (l : libbpfLoader) (path : string) : option loader_err * libbpfLoader :=
  if l.(closed) then (Some ErrNotLoaded, l)
  else let '(rc, km) := edr_blacklist_filename_add l.(handle) (Some path) 1 l.(filename_map) in
       (rc_err rc, mkMaps l.(handle) l.(closed) l.(pid_map) l.(comm_map) km).
Definition lib_BlacklistFilenameClear (l : libbpfLoader) : option loader_err * libbpfLoader :=
  if l.(closed) then (Some ErrNotLoaded, l)
  else let '(rc, km) := edr_blacklist_filename_clear l.(handle) l.(filename_map) in
       (rc_err rc, mkMaps l.(handle) l.(closed) l.(pid_map) l.(comm_map) km).

Definition failed {A} (r : option loader_err * A) : bool * A := (bool_decide (r.1 <> None), r.2).

#[global] Instance lib_filler : MapFiller libbpfLoader := {
  SetAgentPID l pid := failed (lib_SetAgentPID l pid);
  BlacklistAdd l comm := failed (lib_BlacklistAdd l comm);
  BlacklistClear l := failed (lib_BlacklistClear l);
  BlacklistFilenameAdd l path := failed (lib_BlacklistFilenameAdd l path);
  BlacklistFilenameClear l := failed (lib_BlacklistFilenameClear l);
}.
End Bridge.
Arguments libbpfLoader KM KA : clear implicits.

(** ** Keys *)

Lemma cString_no_nul l : no_nul (bytes (cStringN l)).
Proof.
  unfold cStringN, no_nul. destruct (indexByte (byte 0) l) as [i|] eqn:E; rewrite bytes_text.
  - revert i E. induction l as [|a l IH]; intros i E; [done|]. simpl in E. case_bool_decide; simplify_eq/=; [set_solver|].
    destruct (indexByte (byte 0) l) as [j|]; simplify_eq/=. apply not_elem_of_cons. split; [congruence|by apply IH].
  - induction l as [|a l IH]; [set_solver|]. simpl in E. case_bool_decide; simplify_eq/=.
    destruct (indexByte (byte 0) l); simplify_eq/=. apply not_elem_of_cons. split; [congruence|by apply IH].
Qed.

Lemma map_text_no_nul n s : no_nul (map_text n s).
Proof.
  unfold map_text, no_nul. intros H. apply (cString_no_nul (bytes s)).
  by apply elem_of_take in H as (i & H & _); eapply list_elem_of_lookup_2.
Qed.

(** The text of a key is what was put in it. *)
Lemma key_text n s : cStringN (map_key n s) = text (map_text n s).
Proof. apply cStringN_pad, map_text_no_nul. Qed.

(** A key of [n] bytes as the bridge writes it: determined by its text. *)
Definition well_formed (n : nat) (k : list ascii) : Prop := k = pad n (bytes (cStringN k)).

Lemma map_key_wf n s : well_formed n (map_key n s).
Proof. unfold well_formed. by rewrite key_text, bytes_text. Qed.

Lemma size_insert_le {A} `{Countable A} (x : A) (X : gset A) : (size ({[x]} ∪ X) <= S (size X))%nat.
Proof.
  destruct (decide (x ∈ X)); [rewrite (subseteq_union_1_L {[x]} X) by set_solver; lia|].
  rewrite size_union by set_solver. by rewrite size_singleton.
Qed.

Lemma size_image_le {A B} `{Countable A, Countable B} (f : A -> B) (X : gset A) :
  (size (set_map f X : gset B) <= size X)%nat.
Proof.
  induction X as [|x X Hx IH] using set_ind_L; [by rewrite set_map_empty, !size_empty|].
  rewrite set_map_union_L, set_map_singleton_L, (size_union {[x]}), size_singleton by set_solver.
  pose proof (size_insert_le (f x) (set_map f X : gset B)). lia.
Qed.

(** The texts of the keys of a map. *)
Definition texts (ks : gset (list ascii)) : gset string := set_map cStringN ks.

Lemma texts_size n ks : (forall k, k ∈ ks -> well_formed n k) -> (size ks <= size (texts ks))%nat.
Proof.
  intros Hk. assert (ks = set_map (fun s => pad n (bytes s)) (texts ks)) as E.
  { apply set_eq. intros k. unfold texts. rewrite elem_of_map. setoid_rewrite elem_of_map. split.
    - intros Hi. exists (cStringN k). split; [by apply Hk|eauto].
    - intros (s & -> & k' & -> & Hi). by rewrite <- (Hk k' Hi). }
  rewrite E at 1. apply size_image_le.
Qed.

Lemma texts_add n s ks : texts ({[map_key n s]} ∪ ks) = {[text (map_text n s)]} ∪ texts ks.
Proof. unfold texts. by rewrite set_map_union_L, set_map_singleton_L, key_text. Qed.

(** ** The clearing loop *)

Section Laws.
Context {KM : Type} {KH : KernelHash KM} {KL : KernelHashLaws KM} {KA : Type} {KR : KernelArray KA}.

(** It ends within as many rounds as there are keys, with the map empty, or
    with the code of a deletion that failed and no key added. *)
Lemma clear_loop_spec fuel km :
  (size (keys km) <= fuel)%nat ->
  exists rc km', clear_loop fuel km = Some (rc, km')
  /\ (if rc == 0 then keys km' = ∅ else keys km' ⊆ keys km) /\ (intact km -> rc = 0 /\ intact km').
Proof.
  revert km. induction fuel as [|fuel IH]; intros km Hs; simpl.
  - destruct (map_first km) as [k|] eqn:E.
    + exfalso. apply first_some in E. apply (size_non_empty_iff (keys km)); [set_solver|lia].
    + exists 0, km. split_and!; [done| |done]. simpl. by apply first_none.
  - destruct (map_first km) as [k|] eqn:E.
    2: { exists 0, km. split_and!; [done| |done]. simpl. by apply first_none. }
    apply first_some in E. pose proof (delete_spec km k) as Hd. pose proof (intact_delete km k) as Hi.
    destruct (bpf_map_delete_elem km k) as [[n|] km1]; simpl in *; destruct Hd as [Ek Hn].
    + exists (- n), km1. specialize (Hn n eq_refl). rewrite bool_decide_false by lia.
      split_and!; [done|by rewrite Ek|]. intros H. by destruct (Hi H E).
    + destruct (IH km1) as (rc & km' & Er & Hk & Hi').
      { rewrite Ek, size_difference, size_singleton by set_solver. lia. }
      exists rc, km'. split_and!; [done| |].
      * case_bool_decide; [done|]. set_solver.
      * intros H. apply Hi'. by destruct (Hi H E).
Qed.

Lemma clear_spec_ km :
  (if (clear km).1 == 0 then keys (clear km).2 = ∅ else keys (clear km).2 ⊆ keys km)
  /\ (intact km -> (clear km).1 = 0 /\ intact (clear km).2).
Proof. unfold clear. destruct (clear_loop_spec max_entries km (bounded km)) as (rc & km' & -> & H). exact H. Qed.

(** ** The loader as a [MapFiller] *)

Definition lib_healthy (l : libbpfLoader KM KA) : Prop :=
  closed l = false
  /\ (exists h, handle l = Some h /\ 0 <= blacklist_fd h /\ 0 <= blacklist_filename_fd h)
  /\ (intact (comm_map l) /\ forall k, k ∈ keys (comm_map l) -> well_formed 16 k)
  /\ (intact (filename_map l) /\ forall k, k ∈ keys (filename_map l) -> well_formed 256 k).

(** An addition through one of the descriptors. *)
Lemma add_rc n km s :
  let '(e, km') := bpf_map_update_elem km (map_key n s) 1 in
  texts (keys km') = (if bool_decide (rc_err (code e) <> None) then texts (keys km)
                      else {[text (map_text n s)]} ∪ texts (keys km)).
Proof.
  pose proof (update_spec km (map_key n s) 1) as Hu.
  destruct (bpf_map_update_elem km (map_key n s) 1) as [[e|] km'], Hu as [E He]; unfold rc_err; simpl; rewrite E.
  - specialize (He e eq_refl). rewrite (bool_decide_false (- e = 0)) by lia. simpl. done.
  - apply texts_add.
Qed.

Lemma add_intact n km s :
  intact km -> (forall k, k ∈ keys km -> well_formed n k) ->
  (size ({[text (map_text n s)]} ∪ texts (keys km)) <= max_entries)%nat ->
  let '(e, km') := bpf_map_update_elem km (map_key n s) 1 in
  e = None /\ intact km' /\ forall k, k ∈ keys km' -> well_formed n k.
Proof.
  intros Hi Hk Hs. pose proof (update_spec km (map_key n s) 1) as Hu.
  pose proof (map_key_wf n s) as Hw.
  destruct (intact_update km (map_key n s) 1 Hi) as [E Hi'].
  { rewrite <- texts_add in Hs. etrans; [apply (texts_size n)|exact Hs]. set_solver. }
  destruct (bpf_map_update_elem km (map_key n s) 1) as [e km']. simpl in *. subst e. destruct Hu as [-> _].
  split_and!; [done|done|set_solver].
Qed.

Lemma clear_rc km :
  if bool_decide (rc_err (clear km).1 <> None) then texts (keys (clear km).2) ⊆ texts (keys km)
  else texts (keys (clear km).2) = ∅.
Proof.
  destruct (clear_spec_ km) as [H _]. unfold rc_err. destruct (decide ((clear km).1 = 0)) as [E|E].
  - rewrite (bool_decide_true (_ = 0)) in H |- * by done. simpl. unfold texts. set_solver.
  - rewrite (bool_decide_false (_ = 0)) in H |- * by done. simpl. unfold texts. set_solver.
Qed.

(** A refused call: the loader is as it was. *)
Ltac refused := simpl; rewrite ?bool_decide_true by done; split; reflexivity.
Ltac refused_clear := simpl; rewrite ?bool_decide_true by done; split; [reflexivity|reflexivity].

#[global] Instance lib_laws : MapFillerLaws (libbpfLoader KM KA).
Proof.
  refine {|
    comms l := texts (keys (comm_map l));
    filenames l := texts (keys (filename_map l));
    comm_key s := text (map_text 16 s);
    filename_key s := text (map_text 256 s);
    capacity := max_entries;
    healthy := lib_healthy;
  |}; cbn [SetAgentPID BlacklistAdd BlacklistClear BlacklistFilenameAdd BlacklistFilenameClear lib_filler].
  - intros l s. unfold lib_BlacklistAdd. destruct (closed l); [refused|]. unfold edr_blacklist_add.
    destruct (handle l) as [h|]; [|refused]. destruct (_ <? 0); [refused|].
    pose proof (add_rc 16 (comm_map l) s) as Ha. destruct (bpf_map_update_elem _ _ _) as [e km]. by split.
  - intros l. unfold lib_BlacklistClear. destruct (closed l); [refused_clear|]. unfold edr_blacklist_clear.
    destruct (handle l) as [h|]; [|refused_clear]. destruct (_ <? 0); [refused_clear|].
    pose proof (clear_rc (comm_map l)) as Ha. destruct (clear _) as [e km]. by split.
  - intros l s. unfold lib_BlacklistFilenameAdd. destruct (closed l); [refused|]. unfold edr_blacklist_filename_add.
    destruct (handle l) as [h|]; [|refused]. destruct (_ <? 0); [refused|].
    pose proof (add_rc 256 (filename_map l) s) as Ha. destruct (bpf_map_update_elem _ _ _) as [e km]. by split.
  - intros l. unfold lib_BlacklistFilenameClear. destruct (closed l); [refused_clear|]. unfold edr_blacklist_filename_clear.
    destruct (handle l) as [h|]; [|refused_clear]. destruct (_ <? 0); [refused_clear|].
    pose proof (clear_rc (filename_map l)) as Ha. destruct (clear _) as [e km]. by split.
  - intros l s (Hc & (h & Hh & Hf & Hg) & [Hi Hk] & Hr) Hs. unfold lib_BlacklistAdd, edr_blacklist_add.
    rewrite Hc, Hh. destruct (Z.ltb_spec (blacklist_fd h) 0); [lia|].
    pose proof (add_intact 16 (comm_map l) s Hi Hk Hs) as Ha. destruct (bpf_map_update_elem _ _ _) as [e km].
    destruct Ha as (-> & ? & ?). simpl. split; [done|]. split_and!; eauto; apply Hr.
  - intros l (Hc & (h & Hh & Hf & Hg) & [Hi Hk] & Hr). unfold lib_BlacklistClear, edr_blacklist_clear.
    rewrite Hc, Hh. destruct (Z.ltb_spec (blacklist_fd h) 0); [lia|].
    destruct (clear_spec_ (comm_map l)) as [H1 H2]. destruct (H2 Hi) as [E H3].
    destruct (clear (comm_map l)) as [e km]. simpl in *. subst e. simpl in *. split; [done|].
    split_and!; eauto; try apply Hr. set_solver.
  - intros l s (Hc & (h & Hh & Hf & Hg) & Hr & [Hi Hk]) Hs. unfold lib_BlacklistFilenameAdd, edr_blacklist_filename_add.
    rewrite Hc, Hh. destruct (Z.ltb_spec (blacklist_filename_fd h) 0); [lia|].
    pose proof (add_intact 256 (filename_map l) s Hi Hk Hs) as Ha. destruct (bpf_map_update_elem _ _ _) as [e km].
    destruct Ha as (-> & ? & ?). simpl. split; [done|]. split_and!; eauto; apply Hr.
  - intros l (Hc & (h & Hh & Hf & Hg) & Hr & [Hi Hk]). unfold lib_BlacklistFilenameClear, edr_blacklist_filename_clear.
    rewrite Hc, Hh. destruct (Z.ltb_spec (blacklist_filename_fd h) 0); [lia|].
    destruct (clear_spec_ (filename_map l)) as [H1 H2]. destruct (H2 Hi) as [E H3].
    destruct (clear (filename_map l)) as [e km]. simpl in *. subst e. simpl in *. split; [done|].
    split_and!; eauto; try apply Hr. set_solver.
  - intros l pid. unfold lib_SetAgentPID. destruct (closed l) eqn:Hc; [done|].
    destruct (edr_set_agent_pid _ _ _) as [rc a]. split_and!; [done|done|]. intros (_ & H). split; [reflexivity|exact H].
Defined.
End Laws.

(** The clearing loop ends on every map within as many rounds as the map has
    room for, and any larger bound gives the same result.  A zero code means
    that the map is empty; another one that a deletion failed and no key was
    added; on an intact map the code is zero. *)
Theorem blacklist_clear_total {KM} {KH : KernelHash KM} {KL : KernelHashLaws KM} (h : edr_loader) (km : KM) (fuel : nat) :
  0 <= blacklist_fd h -> (max_entries <= fuel)%nat ->
  clear_loop fuel km = Some (edr_blacklist_clear (Some h) km)
  /\ (let '(rc, km') := edr_blacklist_clear (Some h) km in
      (rc = 0 -> keys km' = ∅) /\ (rc <> 0 -> keys km' ⊆ keys km) /\ (intact km -> rc = 0)).
Proof.
  intros Hf Hm. unfold edr_blacklist_clear. destruct (Z.ltb_spec (blacklist_fd h) 0); [lia|]. split.
  - unfold clear. destruct (clear_loop_spec max_entries km (bounded km)) as (rc & km' & E & _). rewrite E. simpl.
    revert fuel km Hm E. generalize max_entries as n. clear. intros n. induction n as [|n IH]; intros [|fuel] km Hm E; try lia; simpl in *.
    + done.
    + by destruct (map_first km).
    + destruct (map_first km) as [k|]; [|done]. destruct (bpf_map_delete_elem km k) as [[e|] km1]; [done|].
      apply IH; [lia|done].
  - destruct (clear_spec_ km) as [H1 H2]. destruct (clear km) as [rc km']. simpl in *. split_and!.
    + intros ->. done.
    + intros Hrc. by rewrite bool_decide_false in H1.
    + intros Hi. by apply H2.
Qed.

(** ** A kernel *)

Module Sample.

(** A table of at most 256 keys. *)
Abbreviation table := (gmap (list ascii) Z).
Definition rows (t : table) : table := if (size t <=? 256)%nat then t else ∅.
Arguments rows : simpl never.

#[global] Instance table_hash : KernelHash table := {
  bpf_map_update_elem t k v :=
    if bool_decide (is_Some (rows t !! k)) || (size (rows t) <? 256)%nat then (None, <[k := v]> (rows t)) else (Some 7, t);
  map_first t := head (map_to_list (rows t)).*1;
  bpf_map_delete_elem t k := if bool_decide (is_Some (rows t !! k)) then (None, delete k (rows t)) else (Some 2, t);
  bpf_map_lookup_elem t k := rows t !! k;
  max_entries := 256;
}.

Lemma rows_short (t : table) : (size t <= 256)%nat -> rows t = t.
Proof. intros H. unfold rows. by rewrite (proj2 (Nat.leb_le _ _) H). Qed.
Lemma rows_size t : (size (rows t) <= 256)%nat.
Proof. unfold rows. destruct (Nat.leb_spec (size t) 256); [done|]. rewrite map_size_empty. lia. Qed.
Lemma rows_insert t k v :
  bool_decide (is_Some (rows t !! k)) || (size (rows t) <? 256)%nat = true -> rows (<[k := v]> (rows t)) = <[k := v]> (rows t).
Proof.
  intros H. apply rows_short. rewrite map_size_insert. pose proof (rows_size t). destruct (rows t !! k) as [x|]; [simpl; lia|].
  rewrite bool_decide_false in H by (by intros [? ?]). cbn [orb] in H. apply Nat.ltb_lt in H. simpl. lia.
Qed.
Lemma rows_delete t k : rows (delete k (rows t)) = delete k (rows t).
Proof. apply rows_short. rewrite map_size_delete. pose proof (rows_size t). destruct (rows t !! k); simpl; lia. Qed.

#[global] Instance table_laws : KernelHashLaws table.
Proof.
  refine {| keys t := dom (rows t); intact t := True |};
    cbn [bpf_map_update_elem map_first bpf_map_delete_elem bpf_map_lookup_elem max_entries table_hash].
  - intros t k v. destruct (_ || _) eqn:E; [rewrite rows_insert by done; split; [apply dom_insert_L|done]|].
    split; [done|]. intros n [= <-]. lia.
  - intros t k. case_bool_decide; [rewrite rows_delete; split; [apply dom_delete_L|done]|].
    split; [done|]. intros n [= <-]. lia.
  - intros t k E. apply head_Some in E as [l E]. apply elem_of_dom.
    assert (k ∈ (map_to_list (rows t)).*1) as ([k' v] & -> & H)%list_elem_of_fmap by (rewrite E; set_solver).
    apply elem_of_map_to_list in H. by eexists.
  - intros t E. apply head_None, fmap_nil_inv, map_to_list_empty_iff in E. by rewrite E, dom_empty_L.
  - intros t. rewrite size_dom. apply rows_size.
  - intros t k v _ Hs. destruct (_ || _) eqn:E; [done|]. exfalso. apply orb_false_iff in E as [E1 E2].
    apply bool_decide_eq_false in E1. apply Nat.ltb_ge in E2.
    rewrite size_union, size_singleton, size_dom in Hs by (rewrite <- elem_of_dom in E1; set_solver). lia.
  - intros t k _ Hk. apply elem_of_dom in Hk. by rewrite bool_decide_true by done.
  - intros t k. by rewrite elem_of_dom.
  - intros t k v k'. destruct (_ || _) eqn:E; [|done]. rewrite rows_insert by done. case_decide as Hk; [subst; apply lookup_insert_eq|by apply lookup_insert_ne].
  - intros t k k' v. case_bool_decide; [|done]. cbn [snd]. rewrite rows_delete, lookup_delete_Some. by intros [_ ?].
Defined.

#[global] Instance cell : KernelArray (option Z) := {| array_update _ _ v := (None, Some v) |}.

Definition named (n : string) : Match :=
  mkMatch n "" "" "" "" "" "" "" 0 "" "" "" None "" "" "" "" 0 0 0 "".
Definition policy : Policy :=
  mkPolicy "v0.5" (mkProcessAccess "enforce" [] [named "nc"; named "cryptominer-daemon"; named ""] "kill" "high")
    (mkSelfProtection false "" "" false) [].
Definition struct : edr_loader := mkLoader (PTR 1) (fun _ => NULL) (PTR 2) 5 6 7 8 1.
Definition fresh_maps : libbpfLoader table (option Z) := mkMaps (Some struct) false None ∅ ∅.
Definition stale : libbpfLoader table (option Z) :=
  mkMaps (Some struct) false (Some 41) {[map_key 16 "old" := 1]} {[map_key 256 "old-long-process-name" := 1]}.

Lemma fresh_healthy : lib_healthy fresh_maps.
Proof.
  split; [done|]. split; [exists struct; by split_and!|]. split; split.
  1, 3: exact I.
  all: intros k; cbn [keys table_laws fresh_maps comm_map filename_map]; rewrite rows_short by (rewrite map_size_empty; lia);
    rewrite dom_empty_L; set_solver.
Qed.

Lemma stale_healthy : lib_healthy stale.
Proof.
  split; [done|]. split; [exists struct; by split_and!|]. split; split.
  1, 3: exact I.
  all: intros k; cbn [keys table_laws stale comm_map filename_map]; rewrite rows_short by (rewrite map_size_singleton; lia);
    rewrite dom_singleton_L, elem_of_singleton; intros ->; apply map_key_wf.
Qed.

Lemma sync_exact_witness :
  exists fs', ReplacePolicy policy (Some stale) policy = (policy, Some fs') /\
  comms fs' = {["nc"]} /\ filenames fs' = {["cryptominer-daemon"]}.
Proof.
  destruct (sync_exact policy policy stale) as (fs' & E & H & _).
  exists fs'. split; [exact E|]. destruct (H stale_healthy) as [H1 H2]; [split; apply Nat.leb_le; vm_compute; reflexivity|].
  rewrite H1, H2. split; vm_compute; reflexivity.
Defined.

Lemma blacklist_clear_total_witness :
  let t : table := {[map_key 16 "old" := 1]} in
  clear_loop 300 t = Some (edr_blacklist_clear (Some struct) t) /\ (edr_blacklist_clear (Some struct) t).1 = 0.
Proof.
  intros t. destruct (blacklist_clear_total struct t 300) as [H1 H2].
  - apply Z.leb_le. reflexivity.
  - apply Nat.leb_le. reflexivity.
  - split; [exact H1|]. vm_compute. reflexivity.
Defined.

(** The name after the 256th is refused by the kernel: it is not in the map. *)
Example full_map_refuses :
  let full := mkMaps (KA := option Z) (KM := table) (Some struct) false None (list_to_map ((fun n => (map_key 16 (itoa (Z.of_nat n)), 1)) <$> seq 0 256)) ∅ in
  (lib_BlacklistAdd full "nc").1 = Some (ErrRC (-7)).
Proof. vm_compute. reflexivity. Qed.
End Sample.
