(* ===== verification/Probes.v ===== *)
(** * The kernel probes ([internal/bpf/probes])

    The programs that run in the kernel, as functions of what their hook and the
    helpers give them to the actions they take, in order: records submitted to
    the ring buffer, signals to the current process, overridden return values.
    The records are laid out as the C compiler lays out [struct edr_event]. *)

From S2P Require Import Prelude GoStrings Policy BpfEvent Loader Bridge MapSync BpfMaps.

#[local] Open Scope string_scope.
#[local] Open Scope list_scope.
#[local] Open Scope Z_scope.

(** ** The record in memory *)

Definition align_up (off a : nat) : nat := ((off + a - 1) / a * a)%nat.

(** The members of a structure of alignment 8 from an offset on: alignment,
    size and bytes of each. The gaps are zero, as [memset] left them. *)
Fixpoint lay (off : nat) (ms : list (nat * nat * list ascii)) : list ascii :=
  match ms with
  | [] => replicate (align_up off 8 - off) (byte 0)
  | (al, sz, b) :: ms => replicate (align_up off al - off) (byte 0) ++ b ++ lay (align_up off al + sz) ms
  end.

(** [struct edr_event] *)
Definition members (e : probe) : list (nat * nat * list ascii) :=
  [(1, 1, [byte (type_code e.(p_type))]); (1, 3, replicate 3 (byte 0)); (4, 4, le_put 4 e.(p_reserved));
   (8, 8, le_put 8 e.(p_ts)); (4, 4, le_put 4 e.(p_pid)); (4, 4, le_put 4 e.(p_ppid)); (4, 4, le_put 4 e.(p_tgid));
   (4, 4, le_put 4 e.(p_uid)); (1, 16, pad 16 e.(p_comm)); (1, 256, pad 256 e.(p_filename));
   (1, 1, [byte e.(p_family)]); (1, 3, replicate 3 (byte 0)); (2, 2, le_put 2 e.(p_dport));
   (4, 4, map byte e.(p_v4)); (1, 16, map byte e.(p_v6))]%nat.

Definition edr_event_bytes (e : probe) : list ascii := lay 0 (members e).

(** ** What a probe sees and does *)

(** The current task, the clock and whether the ring buffer has room. *)
Record cpu := mkCpu {
  k_tgid : Z; k_tid : Z; k_uid : Z; k_gid : Z; k_comm : list ascii; k_ktime : Z; k_room : bool;
}.
Definition bpf_get_current_pid_tgid (c : cpu) : Z := Z.lor (Z.shiftl c.(k_tgid) 32) c.(k_tid).
Definition bpf_get_current_uid_gid (c : cpu) : Z := Z.lor (Z.shiftl c.(k_gid) 32) c.(k_uid).
Definition current_pid (c : cpu) : Z := Z.shiftr (bpf_get_current_pid_tgid c) 32.

Inductive kact := KSubmit (e : probe) | KSignal (sig : Z) | KOverride (rc : Z).
#[global] Instance probe_eq_dec : EqDecision probe.
Proof. solve_decision. Defined.
#[global] Instance kact_eq_dec : EqDecision kact.
Proof. solve_decision. Defined.

(** The members every probe fills in. *)
Definition event (c : cpu) (typ : EventType) (reserved pid ppid : Z) (filename : list ascii) : probe :=
  mkProbe typ reserved c.(k_ktime) pid ppid (wrapu 32 (bpf_get_current_pid_tgid c)) (wrapu 32 (bpf_get_current_uid_gid c))
    c.(k_comm) filename 0 0 (replicate 4 0) (replicate 16 0).

Definition submit (c : cpu) (e : probe) : list kact := if c.(k_room) then [KSubmit e] else [].

(** *** Exec, fork, exit, connect *)

(** [bpf_probe_read_kernel_str] into [n] bytes. *)
Definition read_str (n : nat) (s : list ascii) : list ascii := take (pred n) (bytes (cStringN s)).

Definition SIGKILL : Z := 9.
Definition EPERM : Z := 1.

(** [action && *action != 0] *)
Definition listed (m : list ascii -> option Z) (key : list ascii) : bool :=
  match m key with Some a => a != 0 | None => false end.

Definition handle_exec (blacklist_comm blacklist_filename : list ascii -> option Z) (c : cpu) (filename : list ascii) : list kact :=
  if negb c.(k_room) then []
  else
    let e := event c EventExec 0 (current_pid c) 0 (read_str 256 filename) in
    if listed blacklist_comm (pad 16 e.(p_comm)) then [KSubmit e; KSignal SIGKILL]
    else if listed blacklist_filename (pad 256 e.(p_filename)) then [KSubmit e; KSignal SIGKILL]
    else [KSubmit e].

Definition handle_fork (c : cpu) (child_pid parent_pid : Z) : list kact :=
  submit c (event c EventFork 0 (wrapu 32 child_pid) (wrapu 32 parent_pid) []).

Definition handle_exit (c : cpu) (pid : Z) : list kact := submit c (event c EventExit 0 (wrapu 32 pid) 0 []).

Definition TCP_ESTABLISHED : Z := 1.

Definition handle_connect (c : cpu) (newstate family dport : Z) (daddr daddr_v6 : list Z) : list kact :=
  if newstate != TCP_ESTABLISHED then []
  else
    let e := event c EventConnect 0 (current_pid c) 0 [] in
    submit c (mkProbe e.(p_type) e.(p_reserved) e.(p_ts) e.(p_pid) e.(p_ppid) e.(p_tgid) e.(p_uid) e.(p_comm) e.(p_filename)
      (wrapu 8 family) (wrapu 16 dport) (if family == 2 then daddr else e.(p_v4))
      (if family == 2 then e.(p_v6) else if family == 10 then daddr_v6 else e.(p_v6))).

(** *** Self protection: the kprobes *)

Definition is_protected_signal (sig : Z) : bool := bool_decide (sig ∈ [1; 2; 3; 9; 15]).

(** [__x64_sys_kill]: the registers hold the pid and the signal. *)
Definition handle_kill (agent_pid : option Z) (c : cpu) (di si : Z) : list kact :=
  let target_pid := wrapu 32 di in
  let sig := wrapu 32 si in
  if negb (is_protected_signal sig) then []
  else match agent_pid with
  | None => []
  | Some agent =>
      if target_pid != agent then []
      else if current_pid c == agent then []
      else [KOverride (- EPERM); KSignal SIGKILL]
           ++ submit c (event c EventSelfProtect 0 (current_pid c) target_pid (bytes "sys_kill"))
  end.

(** [__x64_sys_tgkill]: thread group, thread and signal. *)
Definition handle_tgkill (agent_pid : option Z) (c : cpu) (di si dx : Z) : list kact :=
  let target_tgid := wrapu 32 di in
  let target_tid := wrapu 32 si in
  let sig := wrapu 32 dx in
  if negb (is_protected_signal sig) then []
  else match agent_pid with
  | None => []
  | Some agent =>
      if (target_tgid != agent) && (target_tid != agent) then []
      else if current_pid c == agent then []
      else [KOverride (- EPERM); KSignal SIGKILL]
           ++ submit c (event c EventSelfProtect 0 (current_pid c) (if target_tid != 0 then target_tid else target_tgid) (bytes "sys_tgkill"))
  end.

(** [__x64_sys_ptrace]: request and pid. *)
Definition handle_ptrace (agent_pid : option Z) (c : cpu) (di si : Z) : list kact :=
  let target_pid := wrapu 32 si in
  match agent_pid with
  | None => []
  | Some agent =>
      if target_pid != agent then []
      else if current_pid c == agent then []
      else [KOverride (- EPERM); KSignal SIGKILL]
           ++ submit c (event c EventSelfProtect 0 (current_pid c) target_pid (bytes "sys_ptrace"))
  end.

(** *** Self protection: the hooks of the security module *)

(** A task by its pid and thread group. *)
Record task := mkTask { ts_pid : Z; ts_tgid : Z }.
Definition is_agent_task (t : task) (agent : Z) : bool := (t.(ts_pid) == agent) || (t.(ts_tgid) == agent).

Definition external_to_agent (agent_pid : option Z) (c : cpu) (target : task) : bool :=
  match agent_pid with
  | None => false
  | Some agent => if negb (is_agent_task target agent) then false else negb (current_pid c == agent)
  end.

Definition lsm_task_kill (agent_pid : option Z) (c : cpu) (p : task) (sig ret : Z) : Z :=
  if ret != 0 then ret
  else if negb (is_protected_signal sig) then 0
  else if external_to_agent agent_pid c p then - EPERM else 0.

Definition lsm_ptrace_access_check (agent_pid : option Z) (c : cpu) (child : task) (ret : Z) : Z :=
  if ret != 0 then ret else if external_to_agent agent_pid c child then - EPERM else 0.

(** *** Ptrace, preloading, instrumentation *)

Definition ptrace_label (request : Z) : string :=
  match request with
  | 0 => "PTRACE_TRACEME" | 16 => "PTRACE_ATTACH" | 17 => "PTRACE_DETACH" | 7 => "PTRACE_CONT" | 8 => "PTRACE_KILL"
  | 9 => "PTRACE_SINGLESTEP" | 24 => "PTRACE_SYSCALL" | 1 => "PTRACE_PEEKTEXT" | 2 => "PTRACE_PEEKDATA"
  | 4 => "PTRACE_POKETEXT" | 5 => "PTRACE_POKEDATA" | _ => "PTRACE_OTHER"
  end.

Definition handle_ptrace_enh (c : cpu) (di si : Z) : list kact :=
  let request := wrapu 64 di in
  let target_pid := wrapu 32 si in
  if (request != 0) && (target_pid == current_pid c) then []
  else submit c (event c EventPtraceEnh (wrapu 32 request) (current_pid c) target_pid (bytes (ptrace_label request))).

(** The first of the 53 places at which the 64 bytes read hold [LD_PRELOAD=]. *)
Definition preload_at (buf : list ascii) : option nat :=
  List.find (fun j => bool_decide (field j 11 buf = bytes "LD_PRELOAD=")) (seq 0 53).

(** [envp] is the third argument of [execve]; [first_env] the 64 bytes at the
    first environment string, when there is one. *)
Definition handle_ldpreload (c : cpu) (envp : Z) (first_env : option (list ascii)) : list kact :=
  if envp == 0 then []
  else match first_env with
  | None => []
  | Some buf =>
      match preload_at buf with
      | None => []
      | Some j => submit c (event c EventLDPreload 0 (current_pid c) 0 (bytes (cStringN (take 245 (drop (j + 11) buf)))))
      end
  end.

Definition MAP_PRIVATE : Z := 2.
Definition MAP_ANONYMOUS : Z := 32.
Definition RATE_LIMIT_NS : Z := 5000000000.

(** [__x64_sys_mmap]: flags and descriptor; [last_ts] is what the map of the
    times holds for the process. With the time to store, if any. *)
Definition handle_instrument (last_ts : option Z) (c : cpu) (r10 r8 : Z) : list kact * option Z :=
  let flags := wrapu 64 r10 in
  let fd := wrapu 64 r8 in
  if negb (Z.land flags MAP_ANONYMOUS =? 0) then ([], None)
  else if Z.land flags MAP_PRIVATE =? 0 then ([], None)
  else if wraps 32 fd <? 0 then ([], None)
  else if match last_ts with Some t => wrapu 64 (c.(k_ktime) - t) <? RATE_LIMIT_NS | None => false end then ([], None)
  else if negb c.(k_room) then ([], None)
  else ([KSubmit (event c EventInstrument (wrapu 32 fd) (current_pid c) 0 (bytes "mmap_file"))], Some c.(k_ktime)).

(** ** The record and its decoder *)

(** The members of [struct edr_event] as the compiler places them: the address
    is a 32-bit number, so it comes after two bytes of padding. *)
Example layout :
  let fix offs off ms := match ms with [] => [align_up off 8] | (al, sz, _) :: ms => align_up off al :: offs (align_up off al + sz)%nat ms end in
  offs 0%nat (members (mkProbe EventExec 0 0 0 0 0 0 [] [] 0 0 [] []))
  = [0; 1; 4; 8; 16; 20; 24; 28; 32; 48; 304; 305; 308; 312; 316; 336]%nat.
Proof. vm_compute. reflexivity. Qed.

(** What the decoder takes for the addresses: it expects them two bytes
    earlier. *)
Definition shifted (e : probe) : probe :=
  mkProbe e.(p_type) e.(p_reserved) e.(p_ts) e.(p_pid) e.(p_ppid) e.(p_tgid) e.(p_uid) e.(p_comm) e.(p_filename)
    e.(p_family) e.(p_dport) ([0; 0] ++ take 2 e.(p_v4)) (drop 2 e.(p_v4) ++ take 14 e.(p_v6)).

Lemma shifted_ok e : probe_ok e -> probe_ok (shifted e).
Proof.
  unfold probe_ok, shifted. cbn [p_type p_reserved p_ts p_pid p_ppid p_tgid p_uid p_comm p_filename p_family p_dport p_v4 p_v6].
  intros (? & ? & ? & ? & ? & ? & ? & ? & ? & ? & ? & ? & ? & H4 & F4 & H6 & F6).
  split_and!; try assumption; try lia.
  - rewrite length_app, length_take, H4. done.
  - apply Forall_app_2; [repeat constructor; lia|by apply Forall_take].
  - rewrite length_app, length_drop, length_take, H4, H6. done.
  - apply Forall_app_2; [by apply Forall_drop|by apply Forall_take].
Qed.

Lemma bytes_shifted e :
  edr_event_bytes e = encode (shifted e) ++ map byte (drop 14 e.(p_v6)) ++ replicate 4 (byte 0).
Proof.
  unfold edr_event_bytes, members, encode, shifted.
  destruct e as [ty rs ts pi pp tg ui co fi fa dp v4 v6].
  cbn [p_type p_reserved p_ts p_pid p_ppid p_tgid p_uid p_comm p_filename p_family p_dport p_v4 p_v6].
  assert (map byte ([0; 0] ++ take 2 v4) ++ map byte (drop 2 v4 ++ take 14 v6) = replicate 2 (byte 0) ++ map byte v4 ++ map byte (take 14 v6)) as E.
  { rewrite !map_app. rewrite <- (take_drop 2 v4) at 3. rewrite map_app, <- !app_assoc. reflexivity. }
  assert (map byte v6 = map byte (take 14 v6) ++ map byte (drop 14 v6)) as -> by (by rewrite <- map_app, take_drop).
  rewrite <- !app_assoc. rewrite !(app_assoc (map byte ([0; 0] ++ _))), E.
  generalize (map byte v4), (map byte (take 14 v6)), (map byte (drop 14 v6)), (le_put 2 dp), (pad 256 fi), (pad 16 co),
    (le_put 4 ui), (le_put 4 tg), (le_put 4 pp), (le_put 4 pi), (le_put 8 ts), (le_put 4 rs), (byte (type_code ty)), (byte fa).
  intros. cbn [lay]. rewrite <- !app_assoc. vm_compute. reflexivity.
Qed.

Lemma record_view e : probe_ok e -> ParseEvent (edr_event_bytes e) = Ok (no_descriptor (view (shifted e))).
Proof. intros Hok. by rewrite bytes_shifted, (ParseEvent_encode _ _ (shifted_ok e Hok)). Qed.



(** ** The current task *)

Definition cpu_ok (c : cpu) : Prop :=
  0 <= k_tgid c < 2 ^ 32 /\ 0 <= k_tid c < 2 ^ 32 /\ 0 <= k_uid c < 2 ^ 32 /\ 0 <= k_gid c < 2 ^ 32
  /\ (length (k_comm c) <= 15)%nat /\ no_nul (k_comm c) /\ 0 <= k_ktime c < 2 ^ 63.

Lemma high_word h l : 0 <= l < 2 ^ 32 -> Z.shiftr (Z.lor (Z.shiftl h 32) l) 32 = h.
Proof.
  intros Hl. rewrite Z.shiftr_lor, Z.shiftr_shiftl_l, Z.sub_diag, Z.shiftl_0_r by lia.
  rewrite (Z.shiftr_div_pow2 l) by lia. by rewrite Z.div_small, Z.lor_0_r by lia.
Qed.

Lemma low_word h l : 0 <= l < 2 ^ 32 -> wrapu 32 (Z.lor (Z.shiftl h 32) l) = l.
Proof.
  intros Hl. unfold wrapu. rewrite <- Z.land_ones, Z.land_lor_distr_l, !Z.land_ones by lia.
  rewrite Z.shiftl_mul_pow2, Z.mod_mul, Z.mod_small by lia. apply Z.lor_0_l.
Qed.

Lemma current_pid_tgid c : cpu_ok c -> current_pid c = k_tgid c.
Proof. intros (_ & H & _). exact (high_word (k_tgid c) (k_tid c) H). Qed.

Lemma event_ok_ c typ reserved pid ppid filename :
  cpu_ok c -> typ <> EventUnknown -> 0 <= reserved < 2 ^ 32 -> 0 <= pid < 2 ^ 32 -> 0 <= ppid < 2 ^ 32 ->
  (length filename <= 256)%nat -> no_nul filename -> probe_ok (event c typ reserved pid ppid filename).
Proof.
  intros (H1 & H2 & H3 & H4 & H5 & H6 & H7) ? ? ? ? ? ?. unfold probe_ok, event.
  cbn [p_type p_reserved p_ts p_pid p_ppid p_tgid p_uid p_comm p_filename p_family p_dport p_v4 p_v6].
  unfold bpf_get_current_pid_tgid, bpf_get_current_uid_gid. rewrite !low_word by done.
  split_and!; try done; try lia; repeat constructor; lia.
Qed.

(** A record without an address is seen as it was written, but for a
    descriptor. *)
Lemma event_seen c typ reserved pid ppid filename :
  cpu_ok c -> typ <> EventUnknown -> 0 <= reserved < 2 ^ 32 -> 0 <= pid < 2 ^ 32 -> 0 <= ppid < 2 ^ 32 ->
  (length filename <= 256)%nat -> no_nul filename ->
  let e := event c typ reserved pid ppid filename in ParseEvent (edr_event_bytes e) = Ok (no_descriptor (view e)).
Proof.
  intros Hc Ht ? ? ? ? ? e. assert (probe_ok e) as Hok by (by apply event_ok_).
  by rewrite (record_view e Hok).
Qed.

(** ** Blacklisted programs *)

(** A synchronisation keeps what its four operations keep. *)
Lemma sync_preserves {FS : Type} {MF : MapFiller FS} (P : FS -> Prop) p fs fs' :
  (forall fs s, P fs -> P (BlacklistAdd fs s).2) -> (forall fs, P fs -> P (BlacklistClear fs).2) ->
  (forall fs s, P fs -> P (BlacklistFilenameAdd fs s).2) -> (forall fs, P fs -> P (BlacklistFilenameClear fs).2) ->
  P fs -> syncBPFMaps p (Some fs) = Some fs' -> P fs'.
Proof.
  intros Ha Hc Hfa Hfc Hp. unfold syncBPFMaps. specialize (Hc fs Hp). destruct (BlacklistClear fs) as [[] fs1]; cbn [snd] in Hc.
  { by intros [= <-]. }
  intros [= <-]. specialize (Hfc fs1 Hc). revert Hfc. generalize (BlacklistFilenameClear fs1).2 as fs2. clear -Ha Hfa.
  induction (pa_Blacklist (p_ProcessAccess p)) as [|bl l IH]; intros fs2 H; [done|]. apply IH.
  unfold sync_entry. destruct (_ == ""); [done|]. destruct (_ <=? 15); auto.
Qed.

Section Blacklist.
Context {KM : Type} {KH : KernelHash KM} {KL : KernelHashLaws KM} {KA : Type} {KR : KernelArray KA}.

(** Every entry of a map has a key as the bridge writes it and stands for a kill. *)
Definition armed (n : nat) (km : KM) : Prop :=
  forall k v, bpf_map_lookup_elem km k = Some v -> v <> 0 /\ well_formed n k.

Lemma armed_update n km s : armed n km -> armed n (bpf_map_update_elem km (map_key n s) 1).2.
Proof.
  intros H k v. pose proof (update_lookup km (map_key n s) 1 k) as Hu. destruct (bpf_map_update_elem _ _ _) as [[e|] km']; cbn [snd].
  - rewrite Hu. apply H.
  - rewrite Hu. case_decide as E; [subst k; intros [= <-]; split; [done|apply map_key_wf]|apply H].
Qed.

Lemma armed_clear n km : armed n km -> armed n (clear km).2.
Proof.
  unfold clear. generalize max_entries as fuel. intros fuel. revert km. induction fuel as [|fuel IH]; intros km H; simpl.
  { by destruct (map_first km). }
  destruct (map_first km) as [k|]; [|done]. pose proof (fun k' v => delete_lookup km k k' v) as Hd.
  assert (armed n (bpf_map_delete_elem km k).2) as H' by (intros k' v E; apply (H k' v); by apply Hd).
  destruct (bpf_map_delete_elem km k) as [[e|] km']; cbn [snd] in *; [done|]. specialize (IH km' H').
  destruct (clear_loop fuel km') as [[rc km'']|]; [exact IH|]. simpl. exact H.
Qed.

Definition lib_armed (l : libbpfLoader KM KA) : Prop := armed 16 (comm_map l) /\ armed 256 (filename_map l).

Lemma sync_armed p l l' : lib_armed l -> syncBPFMaps p (Some l) = Some l' -> lib_armed l'.
Proof.
  apply sync_preserves; cbn [BlacklistAdd BlacklistClear BlacklistFilenameAdd BlacklistFilenameClear lib_filler failed snd].
  - intros fs s [H1 H2]. unfold lib_BlacklistAdd, edr_blacklist_add. destruct (closed fs); [done|]. destruct (handle fs); [|done].
    destruct (_ <? 0); [done|]. pose proof (armed_update 16 (comm_map fs) s H1). by destruct (bpf_map_update_elem _ _ _).
  - intros fs [H1 H2]. unfold lib_BlacklistClear, edr_blacklist_clear. destruct (closed fs); [done|]. destruct (handle fs); [|done].
    destruct (_ <? 0); [done|]. pose proof (armed_clear 16 (comm_map fs) H1). by destruct (clear _).
  - intros fs s [H1 H2]. unfold lib_BlacklistFilenameAdd, edr_blacklist_filename_add. destruct (closed fs); [done|]. destruct (handle fs); [|done].
    destruct (_ <? 0); [done|]. pose proof (armed_update 256 (filename_map fs) s H2). by destruct (bpf_map_update_elem _ _ _).
  - intros fs [H1 H2]. unfold lib_BlacklistFilenameClear, edr_blacklist_filename_clear. destruct (closed fs); [done|]. destruct (handle fs); [|done].
    destruct (_ <? 0); [done|]. pose proof (armed_clear 256 (filename_map fs) H2). by destruct (clear _).
Qed.

(** A text is listed exactly when it is among the texts of the keys. *)
Lemma listed_texts n km s :
  armed n km -> no_nul s -> listed (bpf_map_lookup_elem km) (pad n s) = true <-> text s ∈ texts (keys km).
Proof.
  intros Ha Hs. unfold listed, texts. rewrite elem_of_map. split.
  - destruct (bpf_map_lookup_elem km (pad n s)) as [v|] eqn:E; [|done]. intros _. exists (pad n s).
    split; [symmetry; by apply cStringN_pad|]. apply lookup_keys. by eexists.
  - intros (k & E & Hk). apply lookup_keys in Hk as [v Hv]. destruct (Ha k v Hv) as [Hv0 Hw].
    assert (pad n s = k) as -> by (rewrite Hw, <- E, bytes_text; done). rewrite Hv. by rewrite bool_decide_false by done.
Qed.
End Blacklist.

Lemma read_str_ok n s : no_nul (read_str n s) /\ (length (read_str n s) <= pred n)%nat.
Proof.
  split; [|apply firstn_le_length]. unfold read_str, no_nul. intros H. apply (cString_no_nul s).
  by apply elem_of_take in H as (i & H & _); eapply list_elem_of_lookup_2.
Qed.

(** C24. From the policy to the kernel: after a policy was put in force, with intact
    maps that have room for its names, the probe kills a program at its start
    exactly when its command is one of the short names of the blacklist or the
    path it was started by is one of the long ones, and the ring buffer has
    room for the record; nothing else of the policy matters, neither its mode
    nor the other conditions of an entry.  The agent sees every start for which
    there was room, with the process, the command and the path. *)
Theorem ring0_blacklist {KM : Type} {KH : KernelHash KM} {KL : KernelHashLaws KM} {KA : Type} {KR : KernelArray KA}
    (old p : Policy) (l : libbpfLoader KM KA) (c : cpu) (filename : list ascii) :
  healthy l -> lib_armed l ->
  fits (FS := libbpfLoader KM KA) (list_to_set (comm_key <$> short_names p)) (list_to_set (filename_key <$> long_names p)) -> cpu_ok c ->
  exists l', ReplacePolicy old (Some l) p = (p, Some l') /\
  let acts := handle_exec (bpf_map_lookup_elem (comm_map l')) (bpf_map_lookup_elem (filename_map l')) c filename in
  let path := read_str 256 filename in
  (KSignal SIGKILL ∈ acts <->
     k_room c = true /\ (text (k_comm c) ∈ comm_key <$> short_names p \/ text path ∈ filename_key <$> long_names p))
  /\ (k_room c = true -> exists e ev, head acts = Some (KSubmit e) /\ ParseEvent (edr_event_bytes e) = Ok ev
      /\ (Type_ ev, PID ev, Comm ev, Filename ev) = (EventExec, k_tgid c, text (k_comm c), text path)).
Proof.
  intros Hh Ha Hf Hc. destruct (sync_exact old p l) as (l' & E & H & _). destruct (H Hh Hf) as [E1 E2]. exists l'. split; [exact E|].
  assert (lib_armed l') as [A1 A2].
  { apply (sync_armed p l); [done|]. unfold ReplacePolicy in E. by injection E. }
  intros acts path. destruct (read_str_ok 256 filename) as [Hn Hl]. fold path in Hn, Hl.
  pose proof (listed_texts 16 (comm_map l') (k_comm c) A1) as L1. pose proof (listed_texts 256 (filename_map l') path A2 Hn) as L2.
  change (texts (keys (comm_map l'))) with (comms l') in L1. change (texts (keys (filename_map l'))) with (filenames l') in L2.
  rewrite E1, elem_of_list_to_set in L1. rewrite E2, elem_of_list_to_set in L2. specialize (L1 ltac:(apply Hc)).
  set (e := event c EventExec 0 (current_pid c) 0 path).
  assert (acts = if k_room c then KSubmit e :: (if listed (bpf_map_lookup_elem (comm_map l')) (pad 16 (k_comm c))
      || listed (bpf_map_lookup_elem (filename_map l')) (pad 256 path) then [KSignal SIGKILL] else []) else []) as ->.
  { unfold acts, handle_exec. destruct (k_room c); [|done]. cbn [negb event p_comm p_filename].
    change (p_filename _) with path. change (p_comm _) with (k_comm c).
    destruct (listed _ (pad 16 _)); [done|]. by destruct (listed _ (pad 256 _)). }
  split.
  - destruct (k_room c); [|split; [by intros ?%not_elem_of_nil|by intros [? _]]].
    rewrite <- L1, <- L2, <- orb_true_iff. destruct (_ || _); set_solver.
  - intros ->. exists e, (no_descriptor (view e)). split; [done|]. split.
    + apply event_seen; try done; try lia. rewrite current_pid_tgid by done. apply Hc.
    + unfold no_descriptor, view, e. cbn [event Type_ PID Comm Filename p_type p_pid p_comm p_filename]. by rewrite current_pid_tgid.
Qed.

(** ** The shield of the agent *)

(** The calls the kprobes watch, with the arguments of the caller. *)
Inductive syscall := SKill (pid sig : Z) | STgkill (tgid tid sig : Z) | SPtrace (request pid : Z).

Definition kprobes (agent_pid : option Z) (c : cpu) (s : syscall) : list kact :=
  match s with
  | SKill pid sig => handle_kill agent_pid c pid sig
  | STgkill tgid tid sig => handle_tgkill agent_pid c tgid tid sig
  | SPtrace request pid => handle_ptrace agent_pid c request pid
  end.

(** The signals an operator stops a service by: [SIGHUP], [SIGINT], [SIGQUIT],
    [SIGKILL] and [SIGTERM], by the numbers of the kernel.  Other signals end a
    process too ([SIGABRT], [SIGSEGV] and more); they are not among those the
    agent is shielded from. *)
Definition stop_signals : list Z := [1; 2; 3; 9; 15].

(** A call that stops or traces the process [a] by its own pid. *)
Definition attacks (a : Z) (s : syscall) : Prop :=
  match s with
  | SKill pid sig => sig ∈ stop_signals /\ pid = a
  | STgkill tgid tid sig => sig ∈ stop_signals /\ (tgid = a \/ tid = a)
  | SPtrace _ pid => pid = a
  end.

#[global] Instance attacks_dec a s : Decision (attacks a s).
Proof. destruct s; unfold attacks; apply _. Defined.

Definition int32 (z : Z) : Prop := - 2 ^ 31 <= z < 2 ^ 31.
Definition args_ok (s : syscall) : Prop :=
  match s with
  | SKill pid sig => int32 pid /\ int32 sig
  | STgkill tgid tid sig => int32 tgid /\ int32 tid /\ int32 sig
  | SPtrace _ pid => int32 pid
  end.

Lemma wrapu_int32 z a : int32 z -> 0 <= a < 2 ^ 31 -> wrapu 32 z = a <-> z = a.
Proof.
  intros Hz Ha. unfold int32 in Hz. split; intros E; [|rewrite E; apply wrapu_small; lia].
  destruct (Z.lt_ge_cases z 0); [|rewrite wrapu_small in E by lia; done].
  unfold wrapu in E. rewrite <- (Z.mod_add z 1), Z.mod_small in E by lia. lia.
Qed.

Lemma protected_int32 sig : int32 sig -> is_protected_signal (wrapu 32 sig) = bool_decide (sig ∈ stop_signals).
Proof.
  intros H. unfold is_protected_signal, stop_signals. apply bool_decide_ext. rewrite !elem_of_cons, !elem_of_nil.
  by rewrite !(wrapu_int32 sig) by (done || lia).
Qed.

(** The record of a foiled attack names the attacker. *)
Definition accuses (c : cpu) (e : probe) : Prop :=
  exists ev, ParseEvent (edr_event_bytes e) = Ok ev
  /\ (Type_ ev, PID ev, UID ev, Comm ev) = (EventSelfProtect, k_tgid c, k_uid c, text (k_comm c)).

Lemma self_event_accuses c ppid name :
  cpu_ok c -> 0 <= ppid < 2 ^ 32 -> (length name <= 256)%nat -> no_nul name ->
  accuses c (event c EventSelfProtect 0 (current_pid c) ppid name).
Proof.
  intros Hc Hp Hl Hn. eexists. split.
  - apply event_seen; try done. rewrite current_pid_tgid by done. apply Hc.
  - unfold no_descriptor, view, event. cbn [Type_ PID UID Comm p_type p_pid p_uid p_comm]. rewrite current_pid_tgid by done.
    unfold bpf_get_current_uid_gid. by rewrite low_word by apply Hc.
Qed.

(** A foiled call: it fails with [EPERM], its caller is killed, and the record of
    it, when there is room for one, names the caller. *)
Definition foiled (c : cpu) (acts : list kact) : Prop :=
  exists e, acts = KOverride (- EPERM) :: KSignal SIGKILL :: submit c e /\ accuses c e.

(** What becomes of a watched call. *)
Definition verdict (P : Prop) `{!Decision P} (c : cpu) (acts : list kact) : Prop :=
  if decide P then foiled c acts else acts = [].

Lemma self_event_foiled c ppid name :
  cpu_ok c -> 0 <= ppid < 2 ^ 32 -> bool_decide ((length name <= 256)%nat /\ no_nul name) = true ->
  foiled c ([KOverride (- EPERM); KSignal SIGKILL] ++ submit c (event c EventSelfProtect 0 (current_pid c) ppid name)).
Proof. intros Hc Hp [H1 H2]%bool_decide_eq_true. eexists. split; [reflexivity|]. by apply self_event_accuses. Qed.

Lemma kprobes_verdict a c s :
  cpu_ok c -> 0 <= a < 2 ^ 31 -> args_ok s -> verdict (attacks a s /\ k_tgid c <> a) c (kprobes (Some a) c s).
Proof.
  intros Hc Ha Hs. pose proof (current_pid_tgid c Hc) as Ep. unfold verdict.
  destruct s as [pid sig|tgid tid sig|request pid]; cbn [kprobes attacks args_ok] in *.
  - destruct Hs as [Hp Hsig]. unfold handle_kill. rewrite (protected_int32 sig Hsig), Ep.
    rewrite (bool_decide_ext (wrapu 32 pid = a) (pid = a)) by (by apply wrapu_int32).
    repeat case_bool_decide; cbn [negb]; case_decide; try (exfalso; tauto); try done.
    rewrite <- Ep. apply self_event_foiled; [done|by apply wrapu_range|vm_compute; reflexivity].
  - destruct Hs as (Hp & Ht & Hsig). unfold handle_tgkill. rewrite (protected_int32 sig Hsig), Ep.
    rewrite (bool_decide_ext (wrapu 32 tgid = a) (tgid = a)), (bool_decide_ext (wrapu 32 tid = a) (tid = a)) by (by apply wrapu_int32).
    repeat case_bool_decide; cbn [negb andb]; case_decide; try (exfalso; tauto); try done;
      rewrite <- Ep; (apply self_event_foiled; [done|by apply wrapu_range|vm_compute; reflexivity]).
  - unfold handle_ptrace. rewrite Ep. rewrite (bool_decide_ext (wrapu 32 pid = a) (pid = a)) by (by apply wrapu_int32).
    repeat case_bool_decide; cbn [negb]; case_decide; try (exfalso; tauto); try done.
    rewrite <- Ep. apply self_event_foiled; [done|by apply wrapu_range|vm_compute; reflexivity].
Qed.

(** C20. The shield around the agent: [SIGHUP], [SIGINT], [SIGQUIT], [SIGKILL] or
    [SIGTERM] sent to its own pid, or a trace of it, by another process is
    foiled, whether or not the ring buffer has room; every other call is let
    through untouched: other signals, calls of the agent to itself, and signals
    to a group the agent is in.  The hooks of the security module deny the same
    signals and the trace, and as they see the task that is hit, a signal to a
    group as well. *)
Theorem agent_shielded (a : Z) (c : cpu) (s : syscall) :
  cpu_ok c -> 0 <= a < 2 ^ 31 -> args_ok s ->
  verdict (attacks a s /\ k_tgid c <> a) c (kprobes (Some a) c s)
  /\ (forall t sig, lsm_task_kill (Some a) c t sig 0
       = if decide (sig ∈ stop_signals /\ (ts_pid t = a \/ ts_tgid t = a) /\ k_tgid c <> a) then - EPERM else 0)
  /\ (forall t, lsm_ptrace_access_check (Some a) c t 0
       = if decide ((ts_pid t = a \/ ts_tgid t = a) /\ k_tgid c <> a) then - EPERM else 0).
Proof.
  intros Hc Ha Hs. pose proof (current_pid_tgid c Hc) as Ep. split; [by apply kprobes_verdict|].
  split; [intros t sig|intros t]; [unfold lsm_task_kill, is_protected_signal|unfold lsm_ptrace_access_check];
    unfold external_to_agent, is_agent_task, stop_signals; rewrite Ep; cbn [negb andb];
    rewrite bool_decide_eq_true_2 by done; cbn [negb]; repeat case_bool_decide; cbn [negb orb andb];
    case_decide; tauto.
Qed.

(** ** All hooks *)

(** What fires a probe. *)
Inductive hook :=
| HExec (filename : list ascii) | HFork (child_pid parent_pid : Z) | HExit (pid : Z)
| HConnect (newstate family dport : Z) (daddr daddr_v6 : list Z)
| HSys (s : syscall) | HPtrace (di si : Z) | HExecve (envp : Z) (first_env : option (list ascii))
| HMmap (last_ts : option Z) (r10 r8 : Z).

Definition fire (blacklist_comm blacklist_filename : list ascii -> option Z) (agent_pid : option Z) (c : cpu) (h : hook) : list kact :=
  match h with
  | HExec filename => handle_exec blacklist_comm blacklist_filename c filename
  | HFork child parent => handle_fork c child parent
  | HExit pid => handle_exit c pid
  | HConnect newstate family dport daddr daddr_v6 => handle_connect c newstate family dport daddr daddr_v6
  | HSys s => kprobes agent_pid c s
  | HPtrace di si => handle_ptrace_enh c di si
  | HExecve envp first_env => handle_ldpreload c envp first_env
  | HMmap last_ts r10 r8 => (handle_instrument last_ts c r10 r8).1
  end.

Definition octets (n : nat) (l : list Z) : Prop := length l = n /\ Forall (fun z => 0 <= z < 256) l.
Definition hook_ok (h : hook) : Prop :=
  match h with HConnect _ _ _ daddr daddr_v6 => octets 4 daddr /\ octets 16 daddr_v6 | _ => True end.

(** The type of the records of a hook. *)
Definition type_of_hook (h : hook) : EventType :=
  match h with
  | HExec _ => EventExec | HFork _ _ => EventFork | HExit _ => EventExit | HConnect _ _ _ _ _ => EventConnect
  | HSys _ => EventSelfProtect | HPtrace _ _ => EventPtraceEnh | HExecve _ _ => EventLDPreload | HMmap _ _ _ => EventInstrument
  end.

Lemma submit_elem c e e' : KSubmit e ∈ submit c e' -> e = e'.
Proof. unfold submit. destruct (k_room c); [|by intros ?%not_elem_of_nil]. rewrite list_elem_of_singleton. by intros [= ->]. Qed.

Lemma cString_length l : (length (bytes (cStringN l)) <= length l)%nat.
Proof. unfold cStringN. destruct (indexByte _ l); rewrite bytes_text; [rewrite length_take; lia|done]. Qed.

Lemma label_ok request : (length (bytes (ptrace_label request)) <= 256)%nat /\ no_nul (bytes (ptrace_label request)).
Proof.
  assert (forall s : string, bool_decide (length (bytes s) <= 256)%nat && bool_decide (byte 0 ∉ bytes s) = true ->
    (length (bytes s) <= 256)%nat /\ no_nul (bytes s)) as H.
  { intros s [H1%bool_decide_eq_true H2%bool_decide_eq_true]%andb_true_iff. by split. }
  apply H. unfold ptrace_label. repeat case_match; vm_compute; reflexivity.
Qed.

(** A record with the type and the identity of the task that it is about. *)
Definition record_of (c : cpu) (typ : EventType) (e : probe) : Prop :=
  probe_ok e /\ p_type e = typ /\ p_tgid e = k_tid c /\ p_uid e = k_uid c /\ p_comm e = k_comm c.

Lemma event_record c typ reserved pid ppid name :
  cpu_ok c -> typ <> EventUnknown -> 0 <= reserved < 2 ^ 32 -> 0 <= pid < 2 ^ 32 -> 0 <= ppid < 2 ^ 32 ->
  (length name <= 256)%nat -> no_nul name -> record_of c typ (event c typ reserved pid ppid name).
Proof.
  intros Hc ? ? ? ? ? ?. split; [by apply event_ok_|]. cbn [event p_type p_tgid p_uid p_comm].
  unfold bpf_get_current_pid_tgid, bpf_get_current_uid_gid. by rewrite !low_word by apply Hc.
Qed.

Lemma kprobes_record agent c s e : cpu_ok c -> KSubmit e ∈ kprobes agent c s -> record_of c EventSelfProtect e.
Proof.
  intros Hc. assert (0 <= current_pid c < 2 ^ 32) as Hp by (rewrite (current_pid_tgid c Hc); apply Hc).
  assert (forall ppid (name : string), 0 <= ppid < 2 ^ 32 -> bool_decide ((length (bytes name) <= 256)%nat /\ byte 0 ∉ bytes name) = true ->
    KSubmit e ∈ [KOverride (- EPERM); KSignal SIGKILL] ++ submit c (event c EventSelfProtect 0 (current_pid c) ppid (bytes name)) ->
    record_of c EventSelfProtect e) as H.
  { intros ppid name H1 [H2 H3]%bool_decide_eq_true. rewrite elem_of_app. intros [Hi|Hi]; [set_solver|].
    apply submit_elem in Hi as ->. by apply event_record. }
  assert (forall l : list kact, l = [] -> KSubmit e ∈ l -> record_of c EventSelfProtect e) as Hn by (intros l ->; by intros ?%not_elem_of_nil).
  destruct s as [pid sig|tgid tid sig|request pid]; cbn [kprobes]; [unfold handle_kill|unfold handle_tgkill|unfold handle_ptrace];
    repeat (case_match; try (by apply Hn)); apply H; try by apply wrapu_range.
  all: first [vm_compute; reflexivity | destruct (negb _); by apply wrapu_range].
Qed.

Lemma fire_record cm fm agent c h e :
  cpu_ok c -> hook_ok h -> KSubmit e ∈ fire cm fm agent c h -> record_of c (type_of_hook h) e.
Proof.
  intros Hc Hh. assert (0 <= current_pid c < 2 ^ 32) as Hp by (rewrite (current_pid_tgid c Hc); apply Hc).
  assert (forall l : list kact, l = [] -> KSubmit e ∈ l -> record_of c (type_of_hook h) e) as Hn by (intros l ->; by intros ?%not_elem_of_nil).
  destruct h as [filename|child parent|pid|newstate family dport daddr v6|s|di si|envp env|last_ts r10 r8]; cbn [fire type_of_hook] in *.
  - unfold handle_exec. destruct (negb (k_room c)); [by apply Hn|]. destruct (read_str_ok 256 filename) as [H1 H2].
    intros Hi. assert (e = event c EventExec 0 (current_pid c) 0 (read_str 256 filename)) as ->; [|by apply event_record; try lia].
    repeat case_match; rewrite ?elem_of_cons, ?elem_of_nil in Hi; naive_solver.
  - intros ->%submit_elem. apply event_record; try done; try (by apply wrapu_range); [simpl; lia|apply not_elem_of_nil].
  - intros ->%submit_elem. apply event_record; try done; try (by apply wrapu_range); [simpl; lia|apply not_elem_of_nil].
  - unfold handle_connect. destruct (negb _); [by apply Hn|]. intros ->%submit_elem. destruct Hh as [[H4 F4] [H6 F6]].
    destruct (event_record c EventConnect 0 (current_pid c) 0 []) as [Hok Hrest]; try done; [simpl; lia|apply not_elem_of_nil|].
    split; [|exact Hrest]. unfold probe_ok in *.
    cbn [p_type p_reserved p_ts p_pid p_ppid p_tgid p_uid p_comm p_filename p_family p_dport p_v4 p_v6] in *.
    destruct Hok as (? & ? & ? & ? & ? & ? & ? & ? & ? & ? & ? & _ & _ & E4 & Z4 & E6 & Z6).
    pose proof (wrapu_range 8 family ltac:(lia)). pose proof (wrapu_range 16 dport ltac:(lia)).
    split_and!; try lia; try assumption; repeat case_match; assumption.
  - by apply kprobes_record.
  - unfold handle_ptrace_enh. destruct (_ && _); [by apply Hn|]. intros ->%submit_elem. destruct (label_ok (wrapu 64 di)).
    apply event_record; try done; by apply wrapu_range.
  - unfold handle_ldpreload. destruct (_ == 0); [by apply Hn|]. destruct env as [buf|]; [|by apply Hn]. destruct (preload_at buf); [|by apply Hn].
    intros ->%submit_elem. apply event_record; try done; [|apply cString_no_nul].
    etrans; [apply cString_length|]. rewrite length_take. lia.
  - assert (record_of c EventInstrument (event c EventInstrument (wrapu 32 (wrapu 64 r8)) (current_pid c) 0 (bytes "mmap_file"))) as H.
    { apply event_record; try done; [by apply wrapu_range|simpl; lia|]. apply (bool_decide_unpack _). vm_compute. exact I. }
    unfold handle_instrument. repeat (case_match; try (by apply Hn)); cbn [fst]; rewrite list_elem_of_singleton; intros [= ->]; exact H.
Qed.

(** Nothing a probe submits is lost on the agent: whatever fires it, each record
    decodes to an event of the type of the hook, with the thread, the user and
    the command of the current task. *)
Theorem probes_decodable cm fm agent c h e :
  cpu_ok c -> hook_ok h -> KSubmit e ∈ fire cm fm agent c h ->
  exists ev, ParseEvent (edr_event_bytes e) = Ok ev
  /\ (Type_ ev, TGID ev, UID ev, Comm ev) = (type_of_hook h, k_tid c, k_uid c, text (k_comm c)).
Proof.
  intros Hc Hh Hi. destruct (fire_record _ _ _ _ _ _ Hc Hh Hi) as (Hok & E1 & E2 & E3 & E4).
  eexists. split; [by apply record_view|]. unfold no_descriptor, view, shifted. cbn. by rewrite E1, E2, E3, E4.
Qed.

(** ** Programs and calls *)

Module Sample.
Import BpfMaps.Sample.

Definition caller (tgid : Z) (comm : string) (room : bool) : cpu := mkCpu tgid tgid 1000 1000 (bytes comm) 77 room.

Lemma caller_ok tgid comm room :
  bool_decide (0 <= tgid < 2 ^ 32) && bool_decide (length (bytes comm) <= 15)%nat && bool_decide (byte 0 ∉ bytes comm) = true ->
  cpu_ok (caller tgid comm room).
Proof.
  intros [[H1%bool_decide_eq_true H2%bool_decide_eq_true]%andb_true_iff H3%bool_decide_eq_true]%andb_true_iff.
  unfold cpu_ok. cbn [caller k_tgid k_tid k_uid k_gid k_comm k_ktime]. split; [done|]. split; [done|]. split; [lia|]. split; [lia|].
  split; [done|]. split; [done|lia].
Qed.

Lemma stale_armed : lib_armed stale.
Proof.
  split; intros k v; cbn [stale comm_map filename_map bpf_map_lookup_elem table_hash];
    rewrite rows_short by (rewrite map_size_singleton; lia); intros [<- <-]%lookup_singleton_Some; (split; [done|apply map_key_wf]).
Qed.

Lemma ring0_blacklist_witness :
  exists l', ReplacePolicy policy (Some stale) policy = (policy, Some l')
  /\ KSignal SIGKILL ∈ handle_exec (bpf_map_lookup_elem (comm_map l')) (bpf_map_lookup_elem (filename_map l')) (caller 40 "nc" true) (bytes "/bin/nc").
Proof.
  destruct (ring0_blacklist policy policy stale (caller 40 "nc" true) (bytes "/bin/nc")) as (l' & E & H & _).
  - exact stale_healthy.
  - exact stale_armed.
  - split; apply Nat.leb_le; vm_compute; reflexivity.
  - apply caller_ok. vm_compute. reflexivity.
  - exists l'. split; [exact E|]. apply H. split; [reflexivity|]. left. apply (bool_decide_unpack _). vm_compute. exact I.
Defined.

Lemma agent_shielded_witness :
  foiled (caller 40 "sh" false) (kprobes (Some 700) (caller 40 "sh" false) (SKill 700 9))
  /\ kprobes (Some 700) (caller 700 "edr-agent" true) (STgkill 700 701 2) = []
  /\ lsm_task_kill (Some 700) (caller 40 "sh" true) (mkTask 701 700) 15 0 = - EPERM.
Proof.
  split_and!.
  - apply (agent_shielded 700 (caller 40 "sh" false) (SKill 700 9)); [apply caller_ok; vm_compute; reflexivity|lia|].
    unfold args_ok, int32. lia.
  - apply (agent_shielded 700 (caller 700 "edr-agent" true) (STgkill 700 701 2)); [apply caller_ok; vm_compute; reflexivity|lia|].
    unfold args_ok, int32. lia.
  - apply (agent_shielded 700 (caller 40 "sh" true) (SKill 0 15)); [apply caller_ok; vm_compute; reflexivity|lia|].
    unfold args_ok, int32. lia.
Defined.

Lemma probes_decodable_witness :
  exists e ev, KSubmit e ∈ fire (fun _ => None) (fun _ => None) None (caller 40 "gdb" true) (HPtrace 16 41)
  /\ ParseEvent (edr_event_bytes e) = Ok ev /\ Type_ ev = EventPtraceEnh.
Proof.
  pose proof (probes_decodable (fun _ => None) (fun _ => None) None (caller 40 "gdb" true) (HPtrace 16 41)
    (event (caller 40 "gdb" true) EventPtraceEnh 16 40 41 (bytes "PTRACE_ATTACH"))) as H.
  assert (KSubmit (event (caller 40 "gdb" true) EventPtraceEnh 16 40 41 (bytes "PTRACE_ATTACH"))
    ∈ fire (fun _ => None) (fun _ => None) None (caller 40 "gdb" true) (HPtrace 16 41)) as Hi.
  { apply (bool_decide_unpack _). vm_compute. exact I. }
  destruct H as (ev & E & Hv); [apply caller_ok; vm_compute; reflexivity|exact I|exact Hi|].
  eexists _, ev. split; [exact Hi|]. split; [exact E|]. by injection Hv.
Defined.

(** What the maps make of a start of [nc] and of a program with a long name. *)
Definition maps_after (p : Policy) : libbpfLoader table (option Z) := default stale (ReplacePolicy p (Some stale) p).2.
Definition exec_under (l : libbpfLoader table (option Z)) (comm path : string) (room : bool) : bool :=
  bool_decide (KSignal SIGKILL ∈ handle_exec (bpf_map_lookup_elem (comm_map l)) (bpf_map_lookup_elem (filename_map l))
                 (caller 40 comm room) (bytes path)).

(** A policy in the mode that only watches. *)
Definition watching : Policy :=
  mkPolicy "v0.5" (mkProcessAccess "monitor" [named "nc"] [named "nc"] "none" "high") (mkSelfProtection false "" "" false) [].

(** The mode and the whitelist do not reach the kernel: a program that the policy
    only watches, or that is on the whitelist, is killed at its start. *)
Example monitored_program_killed :
  match Validate watching with Ok _ => True | Err _ => False end /\ exec_under (maps_after watching) "nc" "/bin/nc" true = true.
Proof. split; vm_compute; [exact I|reflexivity]. Qed.

(** A name of more than 15 bytes is compared with the whole path after a reload,
    so it no longer matches; at the start of the agent it is put, cut to 15
    bytes, into the map of commands, where it does. *)
Example long_name_escapes :
  (exec_under (maps_after policy) "cryptominer-dae" "/usr/bin/cryptominer-daemon" true,
   exec_under (lib_BlacklistAdd fresh_maps "cryptominer-daemon").2 "cryptominer-dae" "/usr/bin/cryptominer-daemon" true) = (false, true).
Proof. vm_compute. reflexivity. Qed.

(** While the ring buffer is full nothing is killed. *)
Example full_ring_disarms : exec_under (maps_after policy) "nc" "/bin/nc" false = false.
Proof. vm_compute. reflexivity. Qed.

(** As long as the pid of the agent is zero (in the mode of one round, and after
    it was cleared for the end), a process that signals its own group or asks
    to be traced is killed. *)
Example zero_pid_kills_callers :
  (take 2 (kprobes (Some 0) (caller 40 "sh" true) (SKill 0 15)), take 2 (kprobes (Some 0) (caller 40 "gdb" true) (SPtrace 0 0)))
  = ([KOverride (-1); KSignal 9], [KOverride (-1); KSignal 9]).
Proof. vm_compute. reflexivity. Qed.

(** [SIGSTOP] and [SIGABRT] are not among the protected signals, and a signal to
    a group passes the kprobe. *)
Example stop_signal_passes :
  kprobes (Some 700) (caller 40 "sh" true) (SKill 700 6) = [] /\
  (kprobes (Some 700) (caller 40 "sh" true) (SKill 700 19), lsm_task_kill (Some 700) (caller 40 "sh" true) (mkTask 700 700) 19 0,
   kprobes (Some 700) (caller 40 "sh" true) (SKill (-700) 9)) = ([], 0, []).
Proof. vm_compute. split; reflexivity. Qed.

(** Only the first environment string is looked at. *)
Example second_variable_unseen :
  (length (handle_ldpreload (caller 40 "sh" true) 1 (Some (pad 64 (bytes "LD_PRELOAD=/tmp/x.so")))),
   handle_ldpreload (caller 40 "sh" true) 1 (Some (take 64 (pad 200 (bytes "PATH=/usr/local/sbin:/usr/local/bin:/usr/sbin:/usr/bin:/sbin:/bin" ++ [byte 0] ++ bytes "LD_PRELOAD=/tmp/x.so")))))
  = (1%nat, []).
Proof. vm_compute. reflexivity. Qed.
End Sample.
