(* ===== verification/Collector.v ===== *)
(** * Collected data and the merge of kernel events
    ([internal/collector/collector.go] types, [internal/collector/merge.go])

    A snapshot of [/proc] is merged with the buffered kernel events: the code
    keeps a slice of processes and an index from pid to position.  The merge is
    shown to refine the obvious update of a map keyed by pid. *)

From S2P Require Import Prelude GoStrings GoTime BpfEvent.

Record Process := mkProcess {
  PID : Z; Name : string; Path : string; Cmdline : string; User : string; StartTicks : string;
  PPID : Z; ParentName : string; EUID : string; ContainerID : string;
}.

Record Connection := mkConnection {
  Protocol : string; LocalAddr : string; LocalPort : Z; RemoteAddr : string; RemotePort : Z; State : string;
}.

(** Sizes are [int64]. *)
Record FileEvent := mkFileEvent { fe_Path : string; fe_Op : string; fe_Size : Z; fe_Mode : string; fe_ModTime : Time }.

Record Snapshot := mkSnapshot {
  Processes : list Process; Connections : list Connection; FileEvents : list FileEvent;
}.

(** ** The merge *)

Record BPFHealth := mkHealth {
  Attached : bool; EventsDrained : Z; OverloadDrops : Z; LastErrorAt : option Z; LastError : string;
}.

Record MergedCollector := mkMerged {
  mc_bpf : bool;              (** a loader is present *)
  mc_drained : Z; mc_errs : list string; mc_lastErr : option string; mc_health : BPFHealth;
}.

Definition NewMergedCollector (hasLoader : bool) : MergedCollector :=
  mkMerged hasLoader 0 [] None (mkHealth hasLoader 0 0 None "").

Definition protocolFromFamily (family : Z) : string :=
  if family =? 2 then "tcp" else if family =? 10 then "tcp6" else if family =? 1 then "unix" else "unknown".

(** Ring 0 wins on conflict; the command line is left. *)
Definition override (p : Process) (e : Event) : Process :=
  mkProcess p.(PID) (if e.(Comm) != "" then e.(Comm) else p.(Name))
    (if e.(Filename) != "" then e.(Filename) else p.(Path))
    p.(Cmdline) p.(User) p.(StartTicks) p.(PPID) p.(ParentName) p.(EUID) p.(ContainerID).

Definition fresh (e : Event) : Process :=
  mkProcess e.(BpfEvent.PID) e.(Comm) e.(Filename) e.(Comm) "" "" 0 "" "" "".

(** The processes and [procByPID].  A position of the index is a position of
    the slice, so [list_alter] changes that element. *)
Definition applyExec (procs : list Process) (procByPID : gmap Z nat) (e : Event) : list Process * gmap Z nat :=
  match procByPID !! e.(BpfEvent.PID) with
  | Some idx => (alter (fun p => override p e) idx procs, procByPID)
  | None => (procs ++ [fresh e], <[e.(BpfEvent.PID) := length procs]> procByPID)
  end.

Definition applyConnect (conns : list Connection) (e : Event) : list Connection :=
  conns ++ [mkConnection (protocolFromFamily e.(Family)) "" 0 e.(DAddr) e.(DPort) ""].

(** The loop that fills the index: the last process of a pid wins. *)
Definition indexPIDs (procs : list Process) : gmap Z nat :=
  foldl (fun m ip => <[ip.2.(PID) := ip.1]> m) ∅ (imap pair procs).

Fixpoint apply_loop (procs : list Process) (procByPID : gmap Z nat) (conns : list Connection) (events : list Event)
    : list Process * list Connection :=
  match events with
  | [] => (procs, conns)
  | e :: events =>
      match e.(Type_) with
      | EventExec => let '(procs, ix) := applyExec procs procByPID e in apply_loop procs ix conns events
      | EventConnect => apply_loop procs procByPID (applyConnect conns e) events
      | _ => apply_loop procs procByPID conns events
      end
  end.

Definition set_drained (m : MergedCollector) (n : Z) : MergedCollector :=
  let h := m.(mc_health) in
  mkMerged m.(mc_bpf) n m.(mc_errs) m.(mc_lastErr)
    (mkHealth h.(Attached) n h.(OverloadDrops) h.(LastErrorAt) h.(LastError)).

Definition applyEvents (m : MergedCollector) (snap : Snapshot) (events : list Event) : MergedCollector * Snapshot :=
  match events with
  | [] => (m, snap)
  | _ =>
      let '(ps, cs) := apply_loop snap.(Processes) (indexPIDs snap.(Processes)) snap.(Connections) events in
      (set_drained m (wrapu 64 (m.(mc_drained) + Z.of_nat (length events))),
       mkSnapshot ps cs snap.(FileEvents))
  end.

Definition markLoaderClosed (m : MergedCollector) : MergedCollector :=
  let h := m.(mc_health) in
  mkMerged m.(mc_bpf) m.(mc_drained) m.(mc_errs) m.(mc_lastErr)
    (mkHealth false h.(EventsDrained) h.(OverloadDrops) h.(LastErrorAt) h.(LastError)).

(** The channel of the loader: absent, or its buffered events and whether it is
    closed.  The drain takes everything that is buffered. *)
Definition drainBPF (m : MergedCollector) (chan : option (list Event * bool)) (snap : Snapshot)
    : MergedCollector * Snapshot * option (list Event * bool) :=
  match chan with
  | None => (m, snap, None)
  | Some (batch, closed) =>
      let '(m, snap) := applyEvents m snap batch in
      ((if closed then markLoaderClosed m else m), snap, Some ([], closed))
  end.

Definition recordErr (m : MergedCollector) (err : string) (now : Z) : MergedCollector :=
  let h := m.(mc_health) in
  mkMerged m.(mc_bpf) m.(mc_drained) (m.(mc_errs) ++ [err]) (Some err)
    (mkHealth h.(Attached) h.(EventsDrained) h.(OverloadDrops) (Some now) err).

(** [Snapshot]: the procfs snapshot with its error, if any. *)
Definition MergedSnapshot (m : MergedCollector) (chan : option (list Event * bool)) (procfs : Snapshot * option string)
    (now : Z) : MergedCollector * (Snapshot * option string) * option (list Event * bool) :=
  let '(snap, err) := procfs in
  let m := match err with Some e => recordErr m e now | None => m end in
  if m.(mc_bpf)
  then let '(m, snap, chan) := drainBPF m chan snap in (m, (snap, err), chan)
  else (m, (snap, err), chan).

(** [Errors] and [LastError] return what was recorded since the last call. *)
Definition Errors (m : MergedCollector) : list string * MergedCollector :=
  (m.(mc_errs), mkMerged m.(mc_bpf) m.(mc_drained) [] m.(mc_lastErr) m.(mc_health)).
Definition takeLastError (m : MergedCollector) : option string * MergedCollector :=
  (m.(mc_lastErr), mkMerged m.(mc_bpf) m.(mc_drained) m.(mc_errs) None m.(mc_health)).

(** ** Refinement to a map keyed by pid *)

Definition by_pid (l : list Process) : gmap Z Process := list_to_map ((fun p => (PID p, p)) <$> l).

(** One event on the map. *)
Definition exec_map (m : gmap Z Process) (e : Event) : gmap Z Process :=
  match e.(Type_) with
  | EventExec =>
      <[e.(BpfEvent.PID) := match m !! e.(BpfEvent.PID) with Some p => override p e | None => fresh e end]> m
  | _ => m
  end.

Definition connects (es : list Event) : list Connection :=
  omap (fun e => if e.(Type_) == EventConnect
                 then Some (mkConnection (protocolFromFamily e.(Family)) "" 0 e.(DAddr) e.(DPort) "") else None) es.

(** The index says exactly where each pid is. *)
Definition index_ok (ps : list Process) (ix : gmap Z nat) : Prop :=
  forall pid i, ix !! pid = Some i <-> exists p, ps !! i = Some p /\ PID p = pid.

Lemma index_nodup ps ix : index_ok ps ix -> NoDup (PID <$> ps).
Proof.
  intros H. apply NoDup_alt. intros i j pid Hi Hj. rewrite list_lookup_fmap in Hi, Hj.
  destruct (ps !! i) as [p|] eqn:Ei; [|done]. destruct (ps !! j) as [q|] eqn:Ej; [|done]. simplify_eq/=.
  assert (ix !! PID p = Some i) by (apply H; eauto). assert (ix !! PID p = Some j) by (apply H; eauto). congruence.
Qed.

Lemma by_pid_lookup ps pid p : NoDup (PID <$> ps) -> by_pid ps !! pid = Some p <-> p ∈ ps /\ PID p = pid.
Proof.
  intros ND. unfold by_pid. rewrite <- elem_of_list_to_map.
  - rewrite list_elem_of_fmap. naive_solver.
  - by rewrite <- list_fmap_compose.
Qed.

Lemma fold_index_snoc ps p :
  indexPIDs (ps ++ [p]) = <[PID p := length ps]> (indexPIDs ps).
Proof. unfold indexPIDs. rewrite imap_app, foldl_app. simpl. by rewrite Nat.add_0_r. Qed.

Lemma index_snoc ps ix p : index_ok ps ix -> PID p ∉ PID <$> ps -> index_ok (ps ++ [p]) (<[PID p := length ps]> ix).
Proof.
  intros H Hp pid i. rewrite lookup_insert_Some. split.
  - intros [[<- <-]|[Hne Hi]].
    + exists p. by rewrite lookup_app_r, Nat.sub_diag by lia.
    + apply H in Hi as (q & Hq & ?). exists q. by rewrite (lookup_app_l_Some _ _ _ _ Hq).
  - intros (q & [Hq|[Hl Hq]]%lookup_app_Some & Eq).
    + right. split; [|apply H; eauto]. intros E. apply Hp. rewrite E, <- Eq.
      apply list_elem_of_fmap. eauto using list_elem_of_lookup_2.
    + apply list_lookup_singleton_Some in Hq as [? ->]. left. split; [done|lia].
Qed.

Lemma indexPIDs_ok ps : NoDup (PID <$> ps) -> index_ok ps (indexPIDs ps).
Proof.
  induction ps as [|p ps IH] using rev_ind; intros ND.
  - intros pid i. unfold indexPIDs. simpl. rewrite lookup_empty. naive_solver.
  - rewrite fold_index_snoc. rewrite fmap_app in ND. apply NoDup_app in ND as (ND & Hp & _).
    apply index_snoc; [auto|]. intros Hin. apply (Hp _ Hin). simpl. by left.
Qed.

Lemma alter_pids e (i : nat) (ps : list Process) : PID <$> alter (fun p => override p e) i ps = PID <$> ps.
Proof.
  apply list_eq. intros j. rewrite !list_lookup_fmap. destruct (decide (i = j)) as [->|Hne].
  - rewrite list_lookup_alter_eq. by destruct (ps !! j).
  - by rewrite list_lookup_alter_ne.
Qed.

Lemma by_pid_alter ps i p e :
  NoDup (PID <$> ps) -> ps !! i = Some p ->
  by_pid (alter (fun p => override p e) i ps) = <[PID p := override p e]> (by_pid ps).
Proof.
  intros ND Hi.
  apply map_eq. intros pid. apply option_eq. intros q.
  assert (PID <$> alter (fun p => override p e) i ps = PID <$> ps) as Hpids by apply alter_pids.
  rewrite by_pid_lookup by (by rewrite Hpids).
  rewrite lookup_insert_Some, by_pid_lookup by done.
  rewrite !list_elem_of_lookup. split.
  - intros [[j Hj] Hq]. destruct (decide (j = i)) as [->|Hne].
    + rewrite list_lookup_alter_eq, Hi in Hj. simplify_eq/=. by left.
    + rewrite list_lookup_alter_ne in Hj by done. right. split; [|eauto].
      intros E. apply Hne. eapply (NoDup_lookup _ j i pid); [exact ND| |]; rewrite list_lookup_fmap.
      * rewrite Hj. simpl. congruence.
      * rewrite Hi. simpl. congruence.
  - intros [[<- <-]|(Hne & [j Hj] & Hq)].
    + split; [|done]. exists i. by rewrite list_lookup_alter_eq, Hi.
    + split; [|done]. exists j. rewrite list_lookup_alter_ne; [done|]. intros ->. congruence.
Qed.

Lemma by_pid_snoc ps p : PID p ∉ PID <$> ps -> by_pid (ps ++ [p]) = <[PID p := p]> (by_pid ps).
Proof.
  intros Hp. unfold by_pid. rewrite fmap_app. cbn [fmap list_fmap].
  apply list_to_map_snoc. by rewrite <- list_fmap_compose.
Qed.

Lemma applyExec_ok ps ix e ps' ix' :
  index_ok ps ix -> e.(Type_) = EventExec -> applyExec ps ix e = (ps', ix') ->
  index_ok ps' ix' /\ by_pid ps' = exec_map (by_pid ps) e /\ (PID <$> ps) `prefix_of` (PID <$> ps').
Proof.
  intros H Ht E. pose proof (index_nodup _ _ H) as ND. unfold exec_map. rewrite Ht.
  unfold applyExec in E. destruct (ix !! _) as [i|] eqn:Ei; simplify_eq.
  - apply H in Ei as (p & Hi & Hp).
    assert (PID <$> alter (fun p => override p e) i ps = PID <$> ps) as Hpids by apply alter_pids.
    split_and!.
    + intros pid j. rewrite (H pid j). split; intros (q & Hq & Eq).
      * destruct (decide (j = i)) as [->|]; [|rewrite list_lookup_alter_ne; eauto].
        rewrite list_lookup_alter_eq, Hq. eexists. split; [done|done].
      * apply (f_equal (fun l => l !! j)) in Hpids. rewrite !list_lookup_fmap, Hq in Hpids.
        destruct (ps !! j) as [p'|]; simplify_eq/=. eauto.
    + assert (by_pid ps !! PID p = Some p) as Hl by (apply by_pid_lookup; eauto using list_elem_of_lookup_2).
      rewrite <- Hp, Hl. by apply by_pid_alter.
    + by rewrite Hpids.
  - assert (PID (fresh e) ∉ PID <$> ps) as Hf.
    { intros (p & Ep & [i Hi]%list_elem_of_lookup)%list_elem_of_fmap. simpl in Ep.
      assert (ix !! BpfEvent.PID e = Some i) by (apply H; eauto). congruence. }
    split_and!.
    + by apply (index_snoc ps ix (fresh e)).
    + rewrite by_pid_snoc by done. simpl. f_equal.
      destruct (by_pid ps !! BpfEvent.PID e) as [p|] eqn:Ep; [|done].
      apply by_pid_lookup in Ep as [Hp Ep]; [|done]. exfalso. apply Hf. simpl. rewrite <- Ep.
      apply list_elem_of_fmap. eauto.
    + rewrite fmap_app. by apply prefix_app_r.
Qed.

Lemma apply_loop_ok events ps ix cs ps' cs' :
  index_ok ps ix -> apply_loop ps ix cs events = (ps', cs') ->
  NoDup (PID <$> ps') /\ by_pid ps' = foldl exec_map (by_pid ps) events /\
  (PID <$> ps) `prefix_of` (PID <$> ps') /\ cs' = cs ++ connects events.
Proof.
  revert ps ix cs. induction events as [|e events IH]; intros ps ix cs H E.
  { simpl in E. simplify_eq. split_and!; [by eapply index_nodup|done|done|by rewrite app_nil_r]. }
  cbn [apply_loop foldl] in E. cbn [foldl].
  assert (exec_map (by_pid ps) e = by_pid ps -> apply_loop ps ix (cs ++ connects [e]) events = (ps', cs') ->
    NoDup (PID <$> ps') /\ by_pid ps' = foldl exec_map (exec_map (by_pid ps) e) events /\
    (PID <$> ps) `prefix_of` (PID <$> ps') /\ cs' = cs ++ connects (e :: events)) as Hother.
  { intros -> E'. destruct (IH _ _ _ H E') as (? & ? & ? & ->). split_and!; try done.
    rewrite <- app_assoc. f_equal. unfold connects. by rewrite <- omap_app. }
  assert (Type_ e <> EventConnect -> connects [e] = []) as Hnc.
  { intros Hne. unfold connects. simpl. by rewrite bool_decide_false. }
  destruct (Type_ e) eqn:Ht;
    try (apply Hother; [unfold exec_map; by rewrite Ht|by rewrite Hnc, app_nil_r]).
  - destruct (applyExec ps ix e) as [ps1 ix1] eqn:Ea.
    destruct (applyExec_ok _ _ _ _ _ H Ht Ea) as (H1 & Eq & Hpre).
    destruct (IH _ _ _ H1 E) as (? & -> & ? & ->). rewrite Eq. split_and!; [done|done|by etrans|].
    f_equal. unfold connects. simpl. by rewrite Ht.
  - apply Hother; [unfold exec_map; by rewrite Ht|].
    unfold connects. simpl. rewrite Ht. exact E.
Qed.

(** C23. The merged snapshot of a process table without repeated pids is, seen as
    a map from pid to process, the table updated by the buffered exec events in
    order, a kernel name or path replacing the one read from /proc; the processes
    keep their positions and new ones follow, no pid appears twice, every connect
    event appends one connection, and no event stays in the channel. *)
Theorem merge_refines_map (m : MergedCollector) (snap : Snapshot) (events : list Event) (closed : bool) (now : Z) :
  mc_bpf m = true -> NoDup (PID <$> Processes snap) ->
  let '(m', (snap', err), chan) := MergedSnapshot m (Some (events, closed)) (snap, None) now in
  by_pid (Processes snap') = foldl exec_map (by_pid (Processes snap)) events /\
  NoDup (PID <$> Processes snap') /\
  (PID <$> Processes snap) `prefix_of` (PID <$> Processes snap') /\
  Connections snap' = Connections snap ++ connects events /\ FileEvents snap' = FileEvents snap /\
  chan = Some ([], closed) /\ err = None /\
  Attached (mc_health m') = (if closed then false else Attached (mc_health m)).
Proof.
  intros Hb ND. unfold MergedSnapshot. rewrite Hb. unfold drainBPF, applyEvents.
  destruct events as [|e events].
  { destruct closed; simpl; by rewrite app_nil_r. }
  destruct (apply_loop _ _ _ _) as [ps cs] eqn:E.
  apply apply_loop_ok in E as (? & ? & ? & ?); [|by apply indexPIDs_ok].
  destruct closed; simpl; done.
Qed.

Lemma merge_refines_map_witness :
  let snap := mkSnapshot [mkProcess 7 "sh" "" "sh -c x" "" "" 1 "" "" ""] [] [] in
  let ev pid comm := mkEvent EventExec 0 pid 1 pid 0 0 comm "/bin/nc" "" 0 0 in
  let '(m', (snap', err), chan) :=
    MergedSnapshot (NewMergedCollector true) (Some ([ev 7 "nc"; ev 8 "id"], false)) (snap, None) 0 in
  by_pid (Processes snap') !! 7 = Some (mkProcess 7 "nc" "/bin/nc" "sh -c x" "" "" 1 "" "" "") /\
  by_pid (Processes snap') !! 8 = Some (mkProcess 8 "id" "/bin/nc" "id" "" "" 0 "" "" "").
Proof.
  intros snap ev.
  pose proof (merge_refines_map (NewMergedCollector true) snap [ev 7 "nc"; ev 8 "id"] false 0 eq_refl) as H.
  destruct (MergedSnapshot _ _ _ _) as [[m' [snap' err]] chan].
  destruct H as [-> _]; [apply NoDup_singleton|]. split; vm_compute; reflexivity.
Defined.
