(* ===== verification/ConnTrack.v ===== *)
(** * Connection frequency and beacons ([internal/collector/conntrack.go])

    Instants and durations are nanosecond counts; [Sub] saturates and sums of
    durations wrap at 64 bits, as in the source.  An index out of range is a
    panic, [None]. *)

From S2P Require Import Prelude GoStrings.

Record ConnTracker := mkTracker { window : Z; buckets : gmap string (list Z) }.

Record ConnStats := mkStats {
  Addr : string; Count : Z; FirstSeen : option Z; LastSeen : option Z; IsBeacon : bool; AvgInterval : Z;
}.

Definition NewConnTracker (w : Z) : ConnTracker := mkTracker w ∅.

(** [pruneLocked]: drops the timestamps before the cutoff from the front. *)
Fixpoint drop_before (cutoff : Z) (l : list Z) : list Z :=
  match l with
  | t :: l' => if t <? cutoff then drop_before cutoff l' else l
  | [] => []
  end.
Definition pruneLocked (w : Z) (ts : list Z) (now : Z) : list Z := drop_before (now - w) ts.

Definition with_buckets (ct : ConnTracker) (b : gmap string (list Z)) : ConnTracker := mkTracker ct.(window) b.

Definition Record_ (ct : ConnTracker) (addr : string) (now : Z) : ConnTracker :=
  let ts := default [] (ct.(buckets) !! addr) in
  with_buckets ct (<[addr := pruneLocked ct.(window) (ts ++ [now]) now]> ct.(buckets)).

(** The sum of the differences of neighbours. *)
Fixpoint total (prev : Z) (l : list Z) (acc : Z) : Z :=
  match l with
  | [] => acc
  | t :: l => total t l (wraps 64 (acc + time_sub t prev))
  end.

(** [None] is the panic on an empty bucket. *)
Definition buildStats (addr : string) (ts : list Z) : option ConnStats :=
  match ts with
  | [] => None
  | t :: rest =>
      Some (mkStats addr (Z.of_nat (length ts)) (Some t) (last ts) false
        (if 2 <=? Z.of_nat (length ts)
         then wraps 64 (Z.quot (total t rest 0) (Z.of_nat (length ts) - 1)) else 0))
  end.

Definition Stats (ct : ConnTracker) (addr : string) (now : Z) : option ConnStats * ConnTracker :=
  match ct.(buckets) !! addr with
  | None => (Some (mkStats addr 0 None None false 0), ct)
  | Some ts =>
      let ts := pruneLocked ct.(window) ts now in
      (buildStats addr ts, with_buckets ct (<[addr := ts]> ct.(buckets)))
  end.

(** [AllStats] over the map in some order. *)
Definition AllStats (ct : ConnTracker) (now : Z) : list ConnStats * ConnTracker :=
  let pruned := (fun ts => pruneLocked ct.(window) ts now) <$> ct.(buckets) in
  (omap (fun ab => buildStats ab.1 ab.2) (map_to_list pruned), with_buckets ct pruned).

Definition CheckBeacon (ct : ConnTracker) (addr : string) (minCount minInterval maxInterval now : Z)
    : option bool * ConnTracker :=
  let '(stats, ct) := Stats ct addr now in
  (match stats with
   | None => None
   | Some s =>
       Some (if s.(Count) <? minCount then false
             else if (minInterval <=? 0) || (maxInterval <=? 0) then false
             else if (s.(AvgInterval) <? minInterval) || (maxInterval <? s.(AvgInterval)) then false
             else true)
   end, ct).

Definition Cleanup (ct : ConnTracker) (now : Z) : ConnTracker :=
  with_buckets ct (filter (fun ab => ab.2 <> []) ((fun ts => pruneLocked ct.(window) ts now) <$> ct.(buckets))).

(** ** The sliding window *)

Definition ascending : list Z -> Prop := StronglySorted Z.le.

Lemma filter_all {A} (P : A -> Prop) `{!forall x, Decision (P x)} l : Forall P l -> filter P l = l.
Proof. induction 1 as [|x l Hx HF IH]; [done|]. rewrite filter_cons, decide_True by done. by rewrite IH. Qed.

Lemma filter_weaken {A} (P Q : A -> Prop) `{!forall x, Decision (P x), !forall x, Decision (Q x)} (l : list A) :
  (forall x, P x -> Q x) -> filter P (filter Q l) = filter P l.
Proof.
  intros HPQ. induction l as [|x l IH]; [done|]. rewrite !filter_cons.
  destruct (decide (Q x)); [rewrite filter_cons|]; repeat case_decide; rewrite ?IH; naive_solver.
Qed.

Lemma drop_before_filter c l : ascending l -> drop_before c l = filter (fun t => c <= t) l.
Proof.
  induction 1 as [|t l HS IH HF]; simpl; [done|]. rewrite filter_cons.
  destruct (Z.ltb_spec t c); [by rewrite decide_False by lia|]. rewrite decide_True by lia.
  f_equal. rewrite filter_all; [done|]. eapply Forall_impl; [exact HF|]. simpl. lia.
Qed.

Lemma filter_Forall {A} (P Q : A -> Prop) `{!forall x, Decision (P x)} (l : list A) : Forall Q l -> Forall Q (filter P l).
Proof. rewrite !Forall_forall. intros HQ x [_ Hx]%list_elem_of_filter. auto. Qed.

Lemma ascending_filter (P : Z -> Prop) `{!forall t, Decision (P t)} l : ascending l -> ascending (filter P l).
Proof.
  induction 1 as [|t l HS IH HF]; simpl; [constructor|]. rewrite filter_cons. case_decide; [|done].
  constructor; [done|]. by apply filter_Forall.
Qed.

Lemma sorted_snoc_le l t : ascending l -> Forall (fun s => s <= t) l -> ascending (l ++ [t]).
Proof.
  induction 1 as [|a l HS IH HF]; simpl; intros Ht; [repeat constructor|].
  apply Forall_cons in Ht as [Ha Ht]. constructor; [by apply IH|]. apply Forall_app. split; [done|]. by constructor.
Qed.

(** A run of connections to one address. *)
Definition record_all (ct : ConnTracker) (addr : string) (ts : list Z) : ConnTracker :=
  foldl (fun ct t => Record_ ct addr t) ct ts.

Lemma ascending_snoc l t : ascending (l ++ [t]) -> ascending l /\ Forall (fun s => s <= t) l.
Proof.
  induction l as [|a l IH]; simpl; intros HS; [split; constructor|].
  apply StronglySorted_inv in HS as [HS HF]. apply Forall_app in HF as [HF Ht].
  destruct (IH HS) as [? ?]. split; constructor; try done. by apply Forall_inv in Ht.
Qed.

Lemma record_all_bucket w addr ts now :
  0 <= w -> ascending (ts ++ [now]) ->
  buckets (record_all (NewConnTracker w) addr (ts ++ [now])) !! addr
  = Some (filter (fun t => now - w <= t) (ts ++ [now])) /\
  window (record_all (NewConnTracker w) addr (ts ++ [now])) = w.
Proof.
  intros Hw. revert now. induction ts as [|t ts IH] using rev_ind; intros now HS.
  - simpl. unfold Record_, pruneLocked. simpl. rewrite lookup_insert_eq, filter_cons, filter_nil.
    rewrite lookup_empty, decide_True by lia. simpl. by destruct (Z.ltb_spec now (now - w)); [lia|].
  - destruct (ascending_snoc _ _ HS) as [HS' HF]. destruct (IH _ HS') as [IH1 IH2].
    unfold record_all in *. rewrite foldl_snoc.
    set (ct := foldl _ _ (ts ++ [t])) in *. unfold Record_. rewrite IH1, IH2. simpl. split; [|done].
    assert (t <= now) as Ht by (rewrite Forall_app, Forall_singleton in HF; tauto).
    rewrite lookup_insert_eq. f_equal. unfold pruneLocked. rewrite drop_before_filter.
    + rewrite !(filter_app _ _ [now]), filter_weaken; [done|]. simpl. lia.
    + apply sorted_snoc_le; [by apply ascending_filter|]. by apply filter_Forall.
Qed.

(** ** Mean gaps *)

(** The last of the instants that follow [t], or [t]. *)
Fixpoint final (t : Z) (l : list Z) : Z := match l with [] => t | u :: l => final u l end.

Lemma final_le t l : ascending (t :: l) -> t <= final t l.
Proof.
  revert t. induction l as [|u l IH]; intros t HS; simpl; [lia|].
  apply StronglySorted_inv in HS as [HS HF]. apply Forall_inv in HF. specialize (IH _ HS). lia.
Qed.

Lemma total_span l t acc :
  ascending (t :: l) -> 0 <= acc -> acc + (final t l - t) <= maxInt64 ->
  total t l acc = acc + (final t l - t).
Proof.
  revert t acc. induction l as [|u l IH]; intros t acc HS Ha Hm; simpl in *; [lia|].
  apply StronglySorted_inv in HS as [HS HF]. apply Forall_inv in HF as Htu. pose proof (final_le _ _ HS) as Hul.
  assert (time_sub u t = u - t) as -> by (unfold time_sub, minInt64, maxInt64 in *; lia).
  rewrite wraps_small by (unfold maxInt64 in *; lia). rewrite IH; [lia|done|lia|lia].
Qed.

(** The statistics of a window that is not empty. *)
Lemma buildStats_mean addr t l :
  ascending (t :: l) -> final t l - t <= maxInt64 ->
  exists s, buildStats addr (t :: l) = Some s /\ Count s = Z.of_nat (S (length l)) /\
    AvgInterval s = Z.quot (final t l - t) (Z.of_nat (length l)).
Proof.
  intros HS Hm. pose proof (final_le _ _ HS). eexists. split; [done|]. split; [done|]. cbn [AvgInterval].
  destruct l as [|u l]; [simpl; by rewrite Z.sub_diag|]. destruct (Z.leb_spec 2 (Z.of_nat (length (t :: u :: l)))); [|simpl in *; lia].
  rewrite total_span by (done || lia). rewrite Z.add_0_l.
  replace (Z.of_nat (length (t :: u :: l)) - 1) with (Z.of_nat (length (u :: l))) by (simpl; lia).
  apply wraps_small; [lia|]. set (d := final _ _ - t) in *. set (n := Z.of_nat (length (u :: l))).
  assert (0 < n) by (subst n; simpl; lia).
  rewrite Z.quot_div_nonneg by lia. pose proof (Z.div_pos d n). pose proof (Z.div_le_upper_bound d n d).
  unfold maxInt64 in *. change (64 - 1) with 63. nia.
Qed.

Lemma final_app l first rest last : l ++ [last] = first :: rest -> final first rest = last.
Proof.
  revert first rest. induction l as [|a l IH]; intros first rest E; simplify_eq/=; [done|].
  destruct (l ++ [last]) as [|b r] eqn:E; [by destruct l|]. simpl. by apply IH.
Qed.

Lemma mean_bounds d n a b : 0 < n -> a * n <= d < (b + 1) * n <-> a <= d / n /\ d / n <= b.
Proof.
  intros Hn. pose proof (Z.div_mod d n ltac:(lia)). pose proof (Z.mod_pos_bound d n Hn). nia.
Qed.

(** Connections to an address, recorded in time order, are a beacon at a
    later instant exactly when at least [minCount] and two of them are still in
    the window and the mean gap of these, in whole nanoseconds, is in the
    range. *)
Theorem beacon_iff (w : Z) (addr : string) (ts : list Z) (last now minCount minI maxI : Z) :
  0 <= w -> ascending (ts ++ [last]) -> last <= now -> now - w <= last ->
  w <= maxInt64 -> 0 < minI -> 0 < maxI ->
  let live := filter (fun t => now - w <= t) (ts ++ [last]) in
  (CheckBeacon (record_all (NewConnTracker w) addr (ts ++ [last])) addr minCount minI maxI now).1 = Some true <->
  exists first rest, live = first :: rest /\ rest <> [] /\ minCount <= Z.of_nat (length live) /\
    minI * Z.of_nat (length rest) <= last - first < (maxI + 1) * Z.of_nat (length rest).
Proof.
  intros Hw HS Hln Hin Hmax HmI HMI live.
  destruct (record_all_bucket w addr ts last Hw HS) as [Hb Hwin].
  assert (pruneLocked w (filter (fun t => last - w <= t) (ts ++ [last])) now = live) as Hprune.
  { unfold pruneLocked. rewrite drop_before_filter by (by apply ascending_filter). apply filter_weaken. lia. }
  assert (live = filter (fun t => now - w <= t) ts ++ [last]) as Hlive.
  { subst live. rewrite filter_app, filter_cons, filter_nil, decide_True by lia. done. }
  assert (ascending live) as HSl by (by apply ascending_filter).
  assert (Forall (fun t => now - w <= t) live) as Hlow.
  { apply Forall_forall. intros t Ht. by apply list_elem_of_filter in Ht as [? _]. }
  unfold CheckBeacon, Stats. rewrite Hb, Hwin, Hprune. clearbody live.
  destruct live as [|first rest]; [by destruct (filter _ ts)|].
  assert (final first rest = last) as Hfin by (symmetry in Hlive; by eapply final_app).
  apply Forall_inv in Hlow. destruct (buildStats_mean addr first rest HSl) as (s & -> & Hc & Ha); [lia|].
  pose proof (final_le _ _ HSl) as Hfl. rewrite Hfin in Ha, Hfl. cbn [fst]. rewrite Hc, Ha.
  transitivity (rest <> [] /\ minCount <= Z.of_nat (length (first :: rest)) /\
    minI * Z.of_nat (length rest) <= last - first < (maxI + 1) * Z.of_nat (length rest)); [|naive_solver].
  assert (rest = [] /\ length rest = 0%nat \/ rest <> [] /\ 0 < Z.of_nat (length rest)) as [[-> _]|[Hne Hn]]
    by (destruct rest; [by left|right; simpl; split; [done|lia]]).
  { simpl in Hfin. subst. rewrite Z.sub_diag, (proj2 (Z.ltb_lt (0 ÷ Z.of_nat (length (@nil Z))) minI))
      by (change (0 ÷ Z.of_nat (length (@nil Z))) with 0; lia). rewrite orb_true_l.
    split; [|naive_solver]. by repeat case_match. }
  change (length (first :: rest)) with (S (length rest)).
  rewrite Z.quot_div_nonneg by lia. rewrite (mean_bounds _ _ minI maxI Hn).
  destruct (Z.ltb_spec (Z.of_nat (S (length rest))) minCount); [naive_solver lia|].
  destruct (Z.leb_spec minI 0), (Z.leb_spec maxI 0); try lia. simpl.
  destruct (Z.ltb_spec ((last - first) / Z.of_nat (length rest)) minI),
    (Z.ltb_spec maxI ((last - first) / Z.of_nat (length rest))); simpl; naive_solver lia.
Qed.

Lemma beacon_iff_witness :
  (CheckBeacon (record_all (NewConnTracker 100) "a" [0; 50; 60; 70]) "a" 3 10 30 75).1 = Some true.
Proof.
  apply (beacon_iff 100 "a" [0; 50; 60] 70 75 3 10 30); try (unfold maxInt64; lia).
  - repeat constructor; lia.
  - eexists _, _. split; [vm_compute; reflexivity|]. simpl. split_and!; try done; lia.
Defined.

(** An address whose connections have all left the window but were not yet
    cleaned up makes [Stats] index an empty slice. *)
Example stats_of_stale_address_panics :
  (Stats (Record_ (NewConnTracker 100) "a" 0) "a" 101).1 = None.
Proof. reflexivity. Qed.
