(* ===== verification/Response.v ===== *)
(** * Responses on processes
    ([internal/response/response.go], [killtree.go], [suspend.go],
    [internal/procutil/proc.go])

    The process table ([/proc]) and the kernel's answers to [pidfd_open] and to
    signals are the argument [Sys], the system at the moment the routine runs.
    [KillTree] handles many processes one after the other while the system
    moves on: its argument [at_kill] gives the system at the moment each pid is
    handled, which is general because no pid is handled twice
    ([handled_once]).  A response returns its [Result] and the signals it
    delivered, in order.  Go ranges over a map in an unspecified order and
    [sort.Slice] is not stable: both are parameters of the tree search, with
    the law the language gives them. *)

From S2P Require Import Prelude GoStrings.

Record ActionRequest := mkRequest {
  Action : string; PID : Z; Path : string; RuleID : string; RemoteAddr : string;
  LocalPort : Z; Protocol : string; ProcessPath : string; StartTicks : string;
}.

Record Result := mkResult { r_Action : string; r_Success : bool; r_Detail : string }.

(** ** The system *)

Inductive Signal := SIGKILL | SIGSTOP | SIGCONT.

(** What [readlink /proc/PID/exe] and reading [/proc/PID/stat] give. *)
Record Proc := mkProc { pr_exe : option string; pr_stat : option string }.

(** [pidfd_open]: a descriptor, [ENOSYS] or [EPERM], or another errno. *)
Inductive open_res := PidFd | NotSupported | OpenError (errno : string).

Record Sys := mkSys {
  procs : result string (gmap Z Proc);  (** [Err]: /proc cannot be listed *)
  pidfd_open : Z -> open_res;
  fd_link : Z -> option string;         (** the link of the pidfd in /proc/self/fd *)
  pidfd_send : Z -> option string;      (** the error of [pidfd_send_signal] *)
  plain_signal : Z -> option string;    (** the error of the plain signal *)
}.

Definition proc_of (s : Sys) (pid : Z) : option Proc := match s.(procs) with Ok m => m !! pid | Err _ => None end.
Definition readExe (s : Sys) (pid : Z) : option string := proc_of s pid ≫= pr_exe.
Definition readStat (s : Sys) (pid : Z) : option string := proc_of s pid ≫= pr_stat.

(** ** Reading /proc/PID/stat *)

(** What follows the last closing parenthesis and a blank. *)
Definition after_comm (stat : string) : option string :=
  match lastIndexByte ")"%char stat with
  | None => None
  | Some i => if slen stat <=? Z.of_nat i + 2 then None else Some (from (i + 2) stat)
  end.

Definition readPPIDFromStat (stat : string) : Z :=
  match after_comm stat with
  | None => 0
  | Some rest => match fields rest with _ :: f :: _ => (atoi f).1 | _ => 0 end
  end.

Definition StartTicksFromStat (statLine : string) : string :=
  if statLine == "" then ""
  else match after_comm statLine with
  | None => ""
  | Some rest => default "" (fields rest !! 19%nat)
  end.

Example stat_fields :
  let stat := "42 (a) b) S 7 1 1 0 -1 4 0 0 0 0 0 0 0 0 20 0 1 0 991 0" in
  (readPPIDFromStat stat, StartTicksFromStat stat) = (7, "991").
Proof. vm_compute. reflexivity. Qed.

(** ** Identity *)

Definition sameProcess (s : Sys) (req : ActionRequest) : bool :=
  if req.(PID) <=? 0 then false
  else if (req.(ProcessPath) == "") && (req.(StartTicks) == "") then false
  else if (req.(ProcessPath) != "") && (readExe s req.(PID) != Some req.(ProcessPath)) then false
  else if req.(StartTicks) != "" then
    match readStat s req.(PID) with
    | None => false
    | Some st => StartTicksFromStat st == req.(StartTicks)
    end
  else true.

Definition ident (pid : Z) (path ticks : string) : ActionRequest := mkRequest "" pid "" "" "" 0 "" path ticks.

(** ** Signals *)

#[local] Open Scope string_scope.
#[local] Open Scope list_scope.
#[local] Open Scope Z_scope.

Inductive sig_err := ErrNotSupported | ErrSignal (msg : string).

(** [PidfdKill]: the error and the signals delivered. *)
Definition PidfdKill (s : Sys) (pid : Z) : option sig_err * list (Z * Signal) :=
  match s.(pidfd_open) pid with
  | NotSupported => (Some ErrNotSupported, [])
  | OpenError errno => (Some (ErrSignal ("pidfd_open(" +:+ itoa pid +:+ "): " +:+ errno)), [])
  | PidFd =>
      let send :=
        match s.(pidfd_send) pid with
        | Some errno => (Some (ErrSignal ("pidfd_send_signal(" +:+ itoa pid +:+ "): " +:+ errno)), [])
        | None => (None, [(pid, SIGKILL)])
        end in
      match s.(fd_link) pid, readExe s pid with
      | Some fdExe, Some procExe =>
          if fdExe != procExe
          then (Some (ErrSignal ("pidfd identity mismatch: fd=" +:+ fdExe +:+ " proc=" +:+ procExe)), [])
          else send
      | _, _ => send
      end
  end.

Definition signum (sig : Signal) : Z := match sig with SIGKILL => 9 | SIGSTOP => 19 | SIGCONT => 18 end.

Definition pidfdSignal (s : Sys) (pid : Z) (sig : Signal) : option sig_err * list (Z * Signal) :=
  match s.(pidfd_open) pid with
  | NotSupported => (Some ErrNotSupported, [])
  | OpenError errno => (Some (ErrSignal ("pidfd_open(" +:+ itoa pid +:+ "): " +:+ errno)), [])
  | PidFd =>
      match s.(pidfd_send) pid with
      | Some errno =>
          (Some (ErrSignal ("pidfd_send_signal(" +:+ itoa pid +:+ ", " +:+ itoa (signum sig) +:+ "): " +:+ errno)), [])
      | None => (None, [(pid, sig)])
      end
  end.

(** The pidfd path, and the plain signal when it is not supported. *)
Definition killPID (s : Sys) (action : string) (pid : Z) : Result * list (Z * Signal) :=
  match PidfdKill s pid with
  | (None, sent) => (mkResult action true ("killed pid " +:+ itoa pid +:+ " via pidfd")%string, sent)
  | (Some (ErrSignal msg), sent) => (mkResult action false msg, sent)
  | (Some ErrNotSupported, _) =>
      match s.(plain_signal) pid with
      | Some msg => (mkResult action false msg, [])
      | None => (mkResult action true ("killed pid " +:+ itoa pid)%string, [(pid, SIGKILL)])
      end
  end.

Definition killSingleProcess (s : Sys) (pid : Z) (processPath startTicks : string) : Result * list (Z * Signal) :=
  if pid <=? 1 then (mkResult "kill" false "refusing to kill protected pid", [])
  else if ((processPath != "") || (startTicks != "")) && negb (sameProcess s (ident pid processPath startTicks))
  then (mkResult "kill" false "process identity changed", [])
  else killPID s "kill" pid.

(** ** The process tree *)

Record procNode := mkNode { n_pid : Z; n_ppid : Z; n_depth : Z }.

(** pid to parent pid, for the processes whose stat can be read. *)
Definition buildProcessTree (s : Sys) : result string (gmap Z Z) :=
  match s.(procs) with
  | Err e => Err e
  | Ok m => Ok (omap (fun p => readPPIDFromStat <$> pr_stat p) m)
  end.

(** The children found for [current] that were not visited, in the order of
    the map iteration, and the visited set. *)
Fixpoint children (current : procNode) (l : list (Z * Z)) (visited : gset Z) : list procNode * gset Z :=
  match l with
  | [] => ([], visited)
  | (pid, ppid) :: l =>
      if (ppid == current.(n_pid)) && negb (bool_decide (pid ∈ visited)) then
        let '(ns, v) := children current l ({[pid]} ∪ visited) in
        (mkNode pid ppid (current.(n_depth) + 1) :: ns, v)
      else children current l visited
  end.

Section Tree.
(** The order in which the [n]-th [range] visits the map, and the sort. *)
Variable iter : nat -> gmap Z Z -> list (Z * Z).
Variable sort_slice : list procNode -> list procNode.

(** The loop over the queue; [n] counts its rounds. *)
Fixpoint bfs (fuel n : nat) (tree : gmap Z Z) (queue : list procNode) (visited : gset Z) : list procNode :=
  match fuel, queue with
  | O, _ | _, [] => []
  | S fuel, current :: queue =>
      let '(ns, v) := children current (iter n tree) visited in
      current :: bfs fuel (S n) tree (queue ++ ns) v
  end.

(** Every round removes a node whose pid was never queued before, so the number
    of processes and the target bound the rounds. *)
Definition findDescendants (tree : gmap Z Z) (targetPID : Z) : list procNode :=
  bfs (S (size tree)) 0 tree [mkNode targetPID 0 0] {[targetPID]}.

(** The loop over the sorted descendants: how many were killed, the errors and
    the signals. *)
Fixpoint kill_all (at_kill : Z -> Sys) (root : Z) (ds : list procNode) : Z * list string * list (Z * Signal) :=
  match ds with
  | [] => (0, [], [])
  | d :: ds =>
      if d.(n_pid) == root then kill_all at_kill root ds
      else
        let '(r, sent) := killSingleProcess (at_kill d.(n_pid)) d.(n_pid) "" "" in
        let '(k, errs, sent2) := kill_all at_kill root ds in
        if r.(r_Success) then (k + 1, errs, sent ++ sent2)
        else (k, ("pid " +:+ itoa d.(n_pid) +:+ ": " +:+ r.(r_Detail))%string :: errs, sent ++ sent2)
  end.

Definition KillTree (s : Sys) (at_kill : Z -> Sys) (pid : Z) (processPath startTicks : string) : Result * list (Z * Signal) :=
  if pid <=? 1 then (mkResult "kill_tree" false "refusing to kill protected pid", [])
  else match buildProcessTree s with
  | Err e => (mkResult "kill_tree" false ("build process tree: " +:+ e), [])
  | Ok tree =>
      match findDescendants tree pid with
      | [] => killSingleProcess (at_kill pid) pid processPath startTicks
      | ds =>
          let '(killed, errs, sent) := kill_all at_kill pid (sort_slice ds) in
          let '(root, sent2) := killSingleProcess (at_kill pid) pid processPath startTicks in
          let killed := if root.(r_Success) then killed + 1 else killed in
          let errs := if root.(r_Success) then errs
                      else errs ++ [("root pid " +:+ itoa pid +:+ ": " +:+ root.(r_Detail))%string] in
          let detail := ("killed " +:+ itoa killed +:+ " processes (root=" +:+ itoa pid +:+ ")")%string in
          let detail := match errs with [] => detail | _ => (detail +:+ "; errors: " +:+ join "; " errs)%string end in
          (mkResult "kill_tree" (0 <? killed) detail, sent ++ sent2)
      end
  end.

End Tree.

(** ** Suspension *)

Definition suspended_map := gmap Z string.

(** The signal with its fallback; [Some] is the error text. *)
Definition signalPID (s : Sys) (pid : Z) (sig : Signal) : option string * list (Z * Signal) :=
  match pidfdSignal s pid sig with
  | (None, sent) => (None, sent)
  | (Some (ErrSignal msg), sent) => (Some msg, sent)
  | (Some ErrNotSupported, _) =>
      match s.(plain_signal) pid with
      | Some msg => (Some msg, [])
      | None => (None, [(pid, sig)])
      end
  end.

Definition Suspend (s : Sys) (m : suspended_map) (pid : Z) (processPath startTicks : string)
    : Result * suspended_map * list (Z * Signal) :=
  if pid <=? 1 then (mkResult "process_suspend" false "refusing to suspend protected pid", m, [])
  else if ((processPath != "") || (startTicks != "")) && negb (sameProcess s (ident pid processPath startTicks))
  then (mkResult "process_suspend" false "process identity changed", m, [])
  else match signalPID s pid SIGSTOP with
  | (Some msg, sent) => (mkResult "process_suspend" false msg, m, sent)
  | (None, sent) =>
      (mkResult "process_suspend" true ("suspended pid " +:+ itoa pid)%string, <[pid := processPath]> m, sent)
  end.

Definition Resume (s : Sys) (m : suspended_map) (pid : Z) : Result * suspended_map * list (Z * Signal) :=
  match signalPID s pid SIGCONT with
  | (Some msg, sent) => (mkResult "process_resume" false msg, m, sent)
  | (None, sent) =>
      (mkResult "process_resume" true ("resumed pid " +:+ itoa pid)%string, delete pid m, sent)
  end.

(** ** Identity and signals *)

(** The process is the one the request names: whichever of the executable and
    the start time is given agrees, and at least one is given. *)
Definition identified (s : Sys) (pid : Z) (path ticks : string) : Prop :=
  0 < pid /\ (path <> "" \/ ticks <> "") /\
  (path <> "" -> readExe s pid = Some path) /\
  (ticks <> "" -> exists st, readStat s pid = Some st /\ StartTicksFromStat st = ticks).

Lemma sameProcess_iff s pid path ticks :
  sameProcess s (ident pid path ticks) = true <-> identified s pid path ticks.
Proof.
  unfold sameProcess, identified, ident; simpl.
  destruct (Z.leb_spec pid 0) as [Hp|Hp]; [split; [done|lia]|].
  destruct (decide (path = "")) as [->|Hpath], (decide (ticks = "")) as [->|Ht].
  - rewrite !bool_decide_true by done. simpl. naive_solver.
  - rewrite bool_decide_true, bool_decide_false by done. simpl.
    destruct (readStat s pid) as [st|]; [rewrite bool_decide_eq_true|]; naive_solver.
  - rewrite (bool_decide_false (path = "")), bool_decide_true by done. simpl.
    case_bool_decide; simpl; naive_solver.
  - rewrite !bool_decide_false by done. simpl.
    case_bool_decide; simpl; [|naive_solver].
    destruct (readStat s pid) as [st|]; [rewrite bool_decide_eq_true|]; naive_solver.
Qed.

Lemma killPID_sent s a pid : (killPID s a pid).2 = if (killPID s a pid).1.(r_Success) then [(pid, SIGKILL)] else [].
Proof. unfold killPID, PidfdKill. gosimpl; done. Qed.

Lemma killSingleProcess_sent s pid path ticks :
  (killSingleProcess s pid path ticks).2
  = if (killSingleProcess s pid path ticks).1.(r_Success) then [(pid, SIGKILL)] else [].
Proof.
  unfold killSingleProcess. destruct (pid <=? 1); [done|].
  destruct (_ && _); [done|apply killPID_sent].
Qed.

Lemma killSingleProcess_success s pid path ticks :
  (killSingleProcess s pid path ticks).1.(r_Success) = true ->
  1 < pid /\ (path <> "" \/ ticks <> "" -> identified s pid path ticks).
Proof.
  unfold killSingleProcess. destruct (Z.leb_spec pid 1); [done|].
  destruct (_ && _) eqn:E; [done|]. intros _. split; [done|].
  intros Hne. bool_props; [|by apply sameProcess_iff]. naive_solver.
Qed.

(** ** The tree search *)

Definition child_of (tree : gmap Z Z) (p c : Z) : Prop := tree !! c = Some p.

Lemma children_spec cur l vis ns v :
  children cur l vis = (ns, v) -> NoDup l.*1 ->
  v = list_to_set (n_pid <$> ns) ∪ vis /\ NoDup (n_pid <$> ns) /\
  (forall p, p ∈ n_pid <$> ns <-> (p, n_pid cur) ∈ l /\ p ∉ vis) /\
  Forall (fun d => n_ppid d = n_pid cur /\ n_depth d = n_depth cur + 1) ns.
Proof.
  revert vis ns v. induction l as [|[p pp] l IH]; simpl; intros vis ns v E ND.
  - simplify_eq. set_solver.
  - apply NoDup_cons in ND as [Hp ND].
    assert (forall q, (p, q) ∉ l) as Hfresh.
    { intros q Hq. apply Hp, list_elem_of_fmap. by exists (p, q). }
    destruct (_ && _) eqn:Ec.
    + destruct (children cur l ({[p]} ∪ vis)) as [ns' v'] eqn:E'. simplify_eq.
      destruct (IH _ _ _ E' ND) as (-> & Hnd & Hin & HF). bool_props. subst pp.
      rewrite fmap_cons; simpl. split_and!.
      * set_solver.
      * constructor; [rewrite Hin; set_solver|done].
      * intros q. rewrite elem_of_cons, Hin. split; [set_solver|].
        intros [[Hq|Hq]%elem_of_cons Hv]; simplify_eq; [by left|].
        destruct (decide (q = p)) as [->|]; [by left|]. right. set_solver.
      * by constructor.
    + destruct (IH _ _ _ E ND) as (-> & Hnd & Hin & HF). split_and!; [done|done| |done].
      intros q. rewrite Hin, elem_of_cons. split; [by intuition|].
      intros [[Hq|Hq] Hv]; [|done]. simplify_eq. bool_props; done.
Qed.

(** The law of [range]: every entry of the map once, in any order. *)
Definition ranges (iter : nat -> gmap Z Z -> list (Z * Z)) : Prop := forall n m, iter n m ≡ₚ map_to_list m.

(** The law of [sort.Slice] with the code's comparison: a permutation in which
    no node is deeper than an earlier one. *)
Definition sorts (sort_slice : list procNode -> list procNode) : Prop :=
  forall l, sort_slice l ≡ₚ l /\ StronglySorted (fun a b => n_depth b <= n_depth a) (sort_slice l).

Section TreeProofs.
Context (iter : nat -> gmap Z Z -> list (Z * Z)) (sort_slice : list procNode -> list procNode).
Hypothesis Hiter : ranges iter.
Hypothesis Hsort : sorts sort_slice.

Lemma iter_nodup n m : NoDup (iter n m).*1.
Proof. rewrite (Hiter n m). apply NoDup_fst_map_to_list. Qed.

Lemma iter_elem n m p pp : (p, pp) ∈ iter n m <-> m !! p = Some pp.
Proof. rewrite (Hiter n m). apply elem_of_map_to_list. Qed.

(** What holds of the queue and the visited set between two rounds. *)
Record bfs_inv (fuel : nat) (tree : gmap Z Z) (q : list procNode) (vis : gset Z) : Prop := {
  inv_nodup : NoDup (n_pid <$> q);
  inv_vis : forall p, p ∈ n_pid <$> q -> p ∈ vis;
  inv_done : forall p c, p ∈ vis -> p ∉ n_pid <$> q -> child_of tree p c -> c ∈ vis;
  inv_fuel : (size (dom tree ∖ vis) + length q <= fuel)%nat;
}.

Lemma bfs_inv_step fuel n tree cur q vis ns v :
  bfs_inv (S fuel) tree (cur :: q) vis -> children cur (iter n tree) vis = (ns, v) ->
  bfs_inv fuel tree (q ++ ns) v.
Proof.
  intros [HN HV HD HF] E.
  destruct (children_spec _ _ _ _ _ E (iter_nodup n tree)) as (-> & Hnd & Hin & _).
  rewrite fmap_cons in HN, HV, HD. apply NoDup_cons in HN as [Hc HN]. split.
  - rewrite fmap_app. apply NoDup_app. split_and!; [done| |done].
    intros p Hp Hp'. apply Hin in Hp' as [_ Hp']. apply Hp', HV. by right.
  - intros p. rewrite fmap_app, elem_of_app. set_solver.
  - intros p c Hp Hq Hch. rewrite fmap_app in Hq.
    destruct (decide (p = n_pid cur)) as [->|Hne].
    + destruct (decide (c ∈ vis)); [set_solver|].
      assert (c ∈ n_pid <$> ns) by (rewrite Hin, iter_elem; done). set_solver.
    + assert (c ∈ vis) as Hcv; [|set_solver].
      apply (HD p); [set_solver|set_solver|done].
  - assert (dom tree ∖ vis = list_to_set (n_pid <$> ns) ∪ dom tree ∖ (list_to_set (n_pid <$> ns) ∪ vis)) as Hsplit.
    { apply set_eq. intros p. rewrite elem_of_union, !elem_of_difference, elem_of_union, elem_of_list_to_set.
      destruct (decide (p ∈ n_pid <$> ns)) as [Hp|Hp]; [|set_solver].
      split; [by left|]. intros _. apply Hin in Hp as [Hp ?]. apply iter_elem in Hp.
      split; [by eapply elem_of_dom_2|done]. }
    rewrite Hsplit, size_union, size_list_to_set in HF by (done || set_solver).
    rewrite length_fmap in HF. rewrite length_app. simpl in HF. lia.
Qed.

(** What the search returns from a state of the loop. *)
Record bfs_out (tree : gmap Z Z) (q : list procNode) (vis : gset Z) (out : list procNode) : Prop := {
  out_nodup : NoDup (n_pid <$> out);
  out_queue : forall d, d ∈ q -> d ∈ out;
  out_fresh : forall d, d ∈ out -> d ∈ q \/ (n_pid d ∉ vis) /\
    child_of tree (n_ppid d) (n_pid d) /\
    exists e, e ∈ out /\ n_pid e = n_ppid d /\ n_depth d = n_depth e + 1;
  out_sound : forall d, d ∈ out -> exists r, r ∈ q /\ rtc (child_of tree) (n_pid r) (n_pid d);
  out_closed : forall p c, p ∈ vis \/ p ∈ (n_pid <$> out) -> child_of tree p c -> c ∈ vis \/ c ∈ (n_pid <$> out);
}.

Lemma bfs_spec fuel n tree q vis : bfs_inv fuel tree q vis -> bfs_out tree q vis (bfs iter fuel n tree q vis).
Proof.
  revert n q vis. induction fuel as [|fuel IH]; intros n q vis I.
  - destruct q as [|d q]; [|destruct I as [_ _ _ HF]; simpl in HF; lia].
    simpl. destruct I as [_ _ HD _]. split; try set_solver. constructor.
  - destruct q as [|cur q]; [destruct I as [_ _ HD _]; simpl; split; set_solver || constructor|].
    simpl. destruct (children cur (iter n tree) vis) as [ns v] eqn:E.
    pose proof (bfs_inv_step _ _ _ _ _ _ _ _ I E) as I'. specialize (IH (S n) _ _ I').
    revert IH. generalize (bfs iter fuel (S n) tree (q ++ ns) v). intros out [ON OQ OF OS OC].
    destruct (children_spec _ _ _ _ _ E (iter_nodup n tree)) as (-> & Hnd & Hin & HF).
    rewrite Forall_forall in HF. destruct I as [HN HV HD _]. rewrite fmap_cons in HN, HV.
    apply NoDup_cons in HN as [Hc HN].
    assert (forall d, d ∈ ns -> (n_pid d ∉ vis) /\ child_of tree (n_pid cur) (n_pid d)) as Hns.
    { intros d Hd. assert (n_pid d ∈ n_pid <$> ns) as Hp by (apply list_elem_of_fmap; eauto).
      apply Hin in Hp as [Hp ?]. apply iter_elem in Hp. done. }
    assert (n_pid cur ∉ n_pid <$> out) as Hcur.
    { intros (d & Ed & Hd)%list_elem_of_fmap. apply OF in Hd as [[Hd|Hd]%elem_of_app|[Hd _]].
      - apply Hc. rewrite Ed. apply list_elem_of_fmap. eauto.
      - apply Hns in Hd as [Hd _]. apply Hd. rewrite <- Ed. apply HV. by left.
      - apply Hd. rewrite <- Ed. apply elem_of_union_r, HV. by left. }
    split.
    + rewrite fmap_cons. by constructor.
    + intros d [->|Hd]%elem_of_cons; [by left|]. right. apply OQ, elem_of_app. by left.
    + intros d [->|Hd]%elem_of_cons; [left; by left|].
      apply OF in Hd as [[Hd|Hd]%elem_of_app|(Hd & Hch & e & He & ?)]; [left; by right|right|right].
      * destruct (Hns _ Hd) as [Hv Hch]. destruct (HF _ Hd) as [Hpp Hdep]. rewrite Hpp.
        split_and!; [done|done|]. exists cur. split_and!; [by left|done|done].
      * split_and!; [set_solver|done|]. exists e. split; [by right|done].
    + intros d [->|Hd]%elem_of_cons; [exists cur; split; [by left|done]|].
      destruct (OS _ Hd) as (r & [Hr|Hr]%elem_of_app & Hreach); [exists r; split; [by right|done]|].
      exists cur. split; [by left|]. eapply rtc_l; [by apply (Hns r)|done].
    + intros p c Hp Hch. rewrite fmap_cons, !elem_of_cons in *.
      destruct (OC p c) as [Hr|Hr]; [|done| |]; [|rewrite elem_of_union, elem_of_list_to_set in Hr|].
      * rewrite elem_of_union, elem_of_list_to_set.
        destruct Hp as [?|[->|?]]; [left; by right| |by right]. left. right. apply HV. by left.
      * destruct Hr as [(d & -> & Hd)%list_elem_of_fmap|Hr]; [|by left].
        right. right. apply list_elem_of_fmap. exists d. split; [done|]. apply OQ, elem_of_app. by right.
      * right. by right.
Qed.

Lemma findDescendants_out tree target :
  bfs_out tree [mkNode target 0 0] {[target]} (findDescendants iter tree target).
Proof.
  apply bfs_spec. split; simpl.
  - apply NoDup_singleton.
  - set_solver.
  - set_solver.
  - rewrite <- size_dom. pose proof (subseteq_size (dom tree ∖ {[target]}) (dom tree)). set_solver by lia.
Qed.

Lemma findDescendants_elem tree target p :
  p ∈ (n_pid <$> findDescendants iter tree target) <-> rtc (child_of tree) target p.
Proof.
  destruct (findDescendants_out tree target) as [_ OQ _ OS OC]. split.
  - intros (d & -> & Hd)%list_elem_of_fmap. destruct (OS _ Hd) as (r & ->%list_elem_of_singleton & Hr). done.
  - assert (target ∈ (n_pid <$> findDescendants iter tree target)) as Ht.
    { apply list_elem_of_fmap. eexists. split; [|apply OQ; by left]. done. }
    revert p. apply rtc_ind_r; [done|]. intros p q _ Hpq IH.
    destruct (OC p q) as [?%elem_of_singleton|?]; [by right|done|by subst|done].
Qed.

(** The order in which [KillTree] turns to the processes. *)
Definition kill_order (tree : gmap Z Z) (pid : Z) : list Z :=
  filter (fun p => p <> pid) (n_pid <$> sort_slice (findDescendants iter tree pid)) ++ [pid].

Lemma kill_order_elem tree pid p : p ∈ kill_order tree pid <-> rtc (child_of tree) pid p.
Proof.
  unfold kill_order. rewrite elem_of_app, list_elem_of_filter, list_elem_of_singleton.
  destruct (Hsort (findDescendants iter tree pid)) as [Hperm _]. rewrite Hperm, findDescendants_elem.
  destruct (decide (p = pid)) as [->|]; naive_solver.
Qed.

Lemma handled_once tree pid : NoDup (kill_order tree pid).
Proof.
  unfold kill_order. apply NoDup_app. split_and!.
  - apply NoDup_filter. destruct (Hsort (findDescendants iter tree pid)) as [Hperm _]. rewrite Hperm.
    apply findDescendants_out.
  - intros p [? _]%list_elem_of_filter. by rewrite list_elem_of_singleton.
  - apply NoDup_singleton.
Qed.

(** No process is handled after its parent, the root excepted. *)
Definition parents_last (tree : gmap Z Z) (pid : Z) : list Z -> Prop :=
  StronglySorted (fun p c => c <> pid -> ~ child_of tree p c).

Lemma sorted_parents_last tree pid l out :
  bfs_out tree [mkNode pid 0 0] {[pid]} out -> (forall d, d ∈ l -> d ∈ out) ->
  StronglySorted (fun a b => n_depth b <= n_depth a) l -> parents_last tree pid (n_pid <$> l).
Proof.
  intros [ON _ OF _ _]. intros Hl HS. induction HS as [|a l HS IH HF]; [constructor|].
  rewrite fmap_cons. constructor; [apply IH; set_solver|].
  apply Forall_forall. intros c (b & -> & Hb)%list_elem_of_fmap Hne Hch.
  rewrite Forall_forall in HF. specialize (HF _ Hb).
  destruct (OF b) as [->%list_elem_of_singleton|(_ & Hpp & e & He & Ee & Hd)]; [set_solver|done|].
  unfold child_of in Hpp, Hch. rewrite Hch in Hpp. simplify_eq.
  assert (e = a) as ->; [|lia].
  apply list_elem_of_lookup in He as [i Hi].
  assert (a ∈ out) as [j Hj]%list_elem_of_lookup by set_solver.
  assert (i = j) as ->; [|congruence].
  eapply (NoDup_lookup _ i j (n_pid e)); [exact ON| |]; rewrite list_lookup_fmap.
  - by rewrite Hi.
  - rewrite Hj. simpl. congruence.
Qed.

Lemma sorted_filter {A} (R : A -> A -> Prop) (P : A -> Prop) `{!forall x, Decision (P x)} l :
  StronglySorted R l -> StronglySorted R (filter P l).
Proof.
  induction 1 as [|a l HS IH HF]; [constructor|]. rewrite filter_cons. case_decide; [|done].
  constructor; [done|]. apply Forall_forall. intros x [_ Hx]%list_elem_of_filter.
  rewrite Forall_forall in HF. by apply HF.
Qed.

Lemma sorted_snoc {A} (R : A -> A -> Prop) l x :
  StronglySorted R l -> (forall y, y ∈ l -> R y x) -> StronglySorted R (l ++ [x]).
Proof.
  induction 1 as [|a l HS IH HF]; intros Hx; simpl; [repeat constructor|].
  constructor; [apply IH; set_solver|]. apply Forall_app. split; [done|]. constructor; [|constructor].
  apply Hx. by left.
Qed.

Lemma kill_order_sorted tree pid : parents_last tree pid (kill_order tree pid).
Proof.
  apply sorted_snoc; [|done]. apply sorted_filter.
  destruct (Hsort (findDescendants iter tree pid)) as [Hperm HS].
  eapply sorted_parents_last; [apply findDescendants_out|intros d; by rewrite Hperm|done].
Qed.

(** The identity the code passes for each process of the tree: the one of the
    request for the root, none for the others. *)
Definition kill_one (at_kill : Z -> Sys) (pid : Z) (path ticks : string) (p : Z) : Result * list (Z * Signal) :=
  if p == pid then killSingleProcess (at_kill p) p path ticks else killSingleProcess (at_kill p) p "" "".

Lemma kill_all_sent at_kill pid path ticks ds :
  (kill_all at_kill pid ds).2
  = concat (snd <$> (kill_one at_kill pid path ticks <$> filter (fun p => p <> pid) (n_pid <$> ds))).
Proof.
  induction ds as [|d ds IH]; [done|]. rewrite fmap_cons, filter_cons. cbn [kill_all].
  case_bool_decide as E; [rewrite decide_False by tauto; done|].
  rewrite decide_True by done. rewrite !fmap_cons. cbn [concat]. rewrite <- IH. unfold kill_one.
  rewrite bool_decide_false by done.
  destruct (killSingleProcess _ _ _ _) as [r sent], (kill_all _ _ _) as [[k errs] sent2].
  by destruct (r_Success r).
Qed.

Lemma KillTree_sent s at_kill tree pid path ticks :
  buildProcessTree s = Ok tree -> 1 < pid ->
  (KillTree iter sort_slice s at_kill pid path ticks).2
  = concat (snd <$> (kill_one at_kill pid path ticks <$> kill_order tree pid)).
Proof.
  intros Ht Hp. unfold KillTree, kill_order. rewrite Ht.
  destruct (Z.leb_spec pid 1); [lia|].
  destruct (findDescendants iter tree pid) as [|d ds] eqn:E.
  { pose proof (findDescendants_elem tree pid pid) as [_ Hin]. rewrite E in Hin.
    specialize (Hin (rtc_refl _ _)). by apply not_elem_of_nil in Hin. }
  rewrite !fmap_app, concat_app, <- kill_all_sent, !fmap_cons. simpl. unfold kill_one.
  rewrite bool_decide_true, app_nil_r by done.
  destruct (kill_all _ _ _) as [[k errs] sent], (killSingleProcess _ _ _ _) as [r sent2]. done.
Qed.
End TreeProofs.

Lemma kill_one_sent at_kill pid path ticks p :
  ((kill_one at_kill pid path ticks p).2 = [(p, SIGKILL)] /\ 1 < p) \/ (kill_one at_kill pid path ticks p).2 = [].
Proof.
  unfold kill_one. case_bool_decide; rewrite killSingleProcess_sent; case_match eqn:E; auto;
    left; split; try done; by eapply killSingleProcess_success.
Qed.

Lemma kill_one_protected at_kill pid path ticks order q sig :
  (q, sig) ∈ concat (snd <$> (kill_one at_kill pid path ticks <$> order)) -> 1 < q.
Proof.
  induction order as [|p order IH]; [by intros ?%not_elem_of_nil|]. rewrite !fmap_cons. cbn [concat].
  rewrite elem_of_app. intros [H|H]; [|auto].
  destruct (kill_one_sent at_kill pid path ticks p) as [[E ?]|E]; rewrite E in H; [|by apply not_elem_of_nil in H].
  apply list_elem_of_singleton in H. by simplify_eq.
Qed.

(** The kernel takes a kill of [p]: through a pidfd, when there is one, unless
    both links can be read and differ; by a plain signal when pidfds are not
    supported; and the call itself succeeds. *)
Definition accepts (s : Sys) (p : Z) : Prop :=
  match pidfd_open s p with
  | PidFd => pidfd_send s p = None
             /\ match fd_link s p, readExe s p with Some link, Some exe => link = exe | _, _ => True end
  | NotSupported => plain_signal s p = None
  | OpenError _ => False
  end.

(** The process [p] of the tree below [pid] falls when it is not protected, is
    the one the request names, if it is the root and the request names one, and
    the kernel takes the kill. *)
Definition falls (at_kill : Z -> Sys) (pid : Z) (path ticks : string) (p : Z) : Prop :=
  1 < p /\ (p = pid -> path <> "" \/ ticks <> "" -> identified (at_kill p) pid path ticks) /\ accepts (at_kill p) p.

#[global] Instance identified_dec s pid path ticks : Decision (identified s pid path ticks).
Proof.
  destruct (sameProcess s (ident pid path ticks)) eqn:E; [left|right]; rewrite <- sameProcess_iff; congruence.
Defined.

#[global] Instance accepts_dec s p : Decision (accepts s p).
Proof. unfold accepts. destruct (pidfd_open s p), (fd_link s p), (readExe s p); apply _. Defined.

#[global] Instance falls_dec at_kill pid path ticks p : Decision (falls at_kill pid path ticks p).
Proof. unfold falls. apply _. Defined.

Lemma killPID_success s a p : (killPID s a p).1.(r_Success) = true <-> accepts s p.
Proof.
  unfold killPID, PidfdKill, accepts. destruct (pidfd_open s p).
  - destruct (fd_link s p) as [link|]; [destruct (readExe s p) as [exe|]; [case_bool_decide|]|];
      cbn [negb]; try (destruct (pidfd_send s p)); simpl; naive_solver.
  - destruct (plain_signal s p); simpl; naive_solver.
  - done.
Qed.

Lemma killSingleProcess_plain s pid path ticks :
  1 < pid -> (path <> "" \/ ticks <> "" -> identified s pid path ticks) ->
  killSingleProcess s pid path ticks = killPID s "kill" pid.
Proof.
  intros Hp Hid. unfold killSingleProcess. destruct (Z.leb_spec pid 1); [lia|].
  destruct (_ && _) eqn:E; [|done]. bool_props.
  - assert (path <> "") as Hne by done. specialize (Hid (or_introl Hne)). apply sameProcess_iff in Hid. congruence.
  - assert (ticks <> "") as Hne by done. specialize (Hid (or_intror Hne)). apply sameProcess_iff in Hid. congruence.
Qed.

Lemma killSingleProcess_iff s pid path ticks :
  (killSingleProcess s pid path ticks).1.(r_Success) = true
  <-> 1 < pid /\ (path <> "" \/ ticks <> "" -> identified s pid path ticks) /\ accepts s pid.
Proof.
  split.
  - intros H. destruct (killSingleProcess_success _ _ _ _ H) as [H1 H2]. split; [done|]. split; [done|].
    rewrite killSingleProcess_plain in H by done. by apply killPID_success in H.
  - intros (H1 & H2 & H3). rewrite killSingleProcess_plain by done. by apply killPID_success.
Qed.

Lemma kill_one_falls at_kill pid path ticks p :
  (kill_one at_kill pid path ticks p).1.(r_Success) = true <-> falls at_kill pid path ticks p.
Proof.
  unfold kill_one, falls. case_bool_decide as E; rewrite killSingleProcess_iff; [subst p|]; naive_solver.
Qed.

Lemma kill_one_result at_kill pid path ticks p :
  (kill_one at_kill pid path ticks p).1.(r_Success) = bool_decide (falls at_kill pid path ticks p)
  /\ (kill_one at_kill pid path ticks p).2 = if decide (falls at_kill pid path ticks p) then [(p, SIGKILL)] else [].
Proof.
  pose proof (kill_one_falls at_kill pid path ticks p) as H.
  assert ((kill_one at_kill pid path ticks p).2 = if r_Success (kill_one at_kill pid path ticks p).1 then [(p, SIGKILL)] else []) as E.
  { unfold kill_one. case_bool_decide; apply killSingleProcess_sent. }
  rewrite E. destruct (r_Success _), (decide (falls at_kill pid path ticks p)); rewrite ?bool_decide_true, ?bool_decide_false by done; naive_solver.
Qed.

(** The signals of a run over [order] are those of its processes that fall, in
    that order. *)
Lemma sent_killed at_kill pid path ticks order :
  concat (snd <$> (kill_one at_kill pid path ticks <$> order))
  = (fun p => (p, SIGKILL)) <$> filter (falls at_kill pid path ticks) order.
Proof.
  induction order as [|p order IH]; [done|]. rewrite !fmap_cons, filter_cons. cbn [concat].
  rewrite IH. destruct (kill_one_result at_kill pid path ticks p) as [_ ->]. by case_decide.
Qed.

(** The count of the loop over the descendants. *)
Lemma kill_all_count at_kill pid path ticks ds :
  (kill_all at_kill pid ds).1.1
  = Z.of_nat (length (filter (falls at_kill pid path ticks) (filter (fun p => p <> pid) (n_pid <$> ds)))).
Proof.
  induction ds as [|d ds IH]; [done|]. rewrite fmap_cons, (filter_cons (fun p => p <> pid)). cbn [kill_all].
  case_bool_decide as E; [rewrite decide_False by tauto; done|].
  rewrite decide_True, filter_cons by done. destruct (kill_one_result at_kill pid path ticks (n_pid d)) as [Hr _].
  unfold kill_one in Hr. rewrite bool_decide_false in Hr by done.
  destruct (killSingleProcess _ _ _ _) as [r sent], (kill_all _ _ _) as [[k errs] sent2]. cbn [fst] in *. rewrite Hr, bool_decide_decide.
  case_decide; cbn [fst length]; lia.
Qed.

Lemma KillTree_success iter sort_slice s at_kill tree pid path ticks :
  ranges iter -> sorts sort_slice -> buildProcessTree s = Ok tree -> 1 < pid ->
  (KillTree iter sort_slice s at_kill pid path ticks).1.(r_Success)
  = (0 <? length (filter (falls at_kill pid path ticks) (kill_order iter sort_slice tree pid)))%nat.
Proof.
  intros Hi Hs Ht Hp. unfold KillTree, kill_order. rewrite Ht. destruct (Z.leb_spec pid 1); [lia|].
  destruct (findDescendants iter tree pid) as [|d ds] eqn:E.
  { pose proof (findDescendants_elem iter sort_slice Hi Hs tree pid pid) as [_ Hin]. rewrite E in Hin.
    specialize (Hin (rtc_refl _ _)). by apply not_elem_of_nil in Hin. }
  rewrite filter_app, length_app, (filter_cons _ pid), filter_nil.
  pose proof (kill_all_count at_kill pid path ticks (sort_slice (d :: ds))) as Hk.
  destruct (kill_one_result at_kill pid path ticks pid) as [Hr _]. unfold kill_one in Hr. rewrite bool_decide_true in Hr by done.
  destruct (kill_all _ _ _) as [[k errs] sent], (killSingleProcess _ _ _ _) as [r sent2]. cbn [fst r_Success] in *. rewrite Hr, bool_decide_decide, Hk.
  apply eq_bool_prop_intro. case_decide; cbn [length]; rewrite !Is_true_true, Z.ltb_lt, Nat.ltb_lt; lia.
Qed.

Lemma filter_inhabited {A} (P : A -> Prop) `{!forall x, Decision (P x)} (l : list A) :
  (0 < length (filter P l))%nat <-> exists x, x ∈ l /\ P x.
Proof.
  assert (forall x, x ∈ filter P l <-> P x /\ x ∈ l) as He by (intros; apply list_elem_of_filter).
  destruct (filter P l) as [|y k]; cbn [length].
  - split; [lia|]. intros (x & Hx & HP). exfalso. by apply (not_elem_of_nil x), He.
  - split; [|lia]. intros _. exists y. destruct (proj1 (He y)) as [? ?]; [by left|done].
Qed.

(** C22. [KillTree] turns to exactly the descendants of the target, each once, no
    process after its parent and the target last, and kills, in that order,
    every one of them that falls: one that is not protected, is the process the
    request names, when it is the target and the request names one, and whose
    kill the kernel takes at that moment.  Nothing else is signalled, and the
    result is a success exactly when some process fell. *)
Theorem kill_tree_order iter sort_slice s at_kill tree pid path ticks :
  ranges iter -> sorts sort_slice -> buildProcessTree s = Ok tree -> 1 < pid ->
  exists order,
    NoDup order /\ last order = Some pid /\ parents_last tree pid order /\
    (forall p, p ∈ order <-> rtc (child_of tree) pid p) /\
    (KillTree iter sort_slice s at_kill pid path ticks).2
      = (fun p => (p, SIGKILL)) <$> filter (falls at_kill pid path ticks) order /\
    ((KillTree iter sort_slice s at_kill pid path ticks).1.(r_Success) = true
      <-> exists p, rtc (child_of tree) pid p /\ falls at_kill pid path ticks p) /\
    (forall p sig, (p, sig) ∈ (KillTree iter sort_slice s at_kill pid path ticks).2 -> 1 < p).
Proof.
  intros Hi Hs Ht Hp. exists (kill_order iter sort_slice tree pid).
  rewrite (KillTree_sent iter sort_slice Hi Hs s at_kill tree), (KillTree_success iter sort_slice s at_kill tree) by done.
  split_and!.
  - by apply handled_once.
  - apply last_snoc.
  - by apply kill_order_sorted.
  - intros p. by apply kill_order_elem.
  - apply sent_killed.
  - rewrite Nat.ltb_lt, filter_inhabited. by setoid_rewrite (kill_order_elem iter sort_slice Hi Hs tree pid).
  - intros p sig. apply kill_one_protected.
Qed.

(** ** The identity check on a pidfd *)

(** What the kernel documents of the links in question: that of a pidfd in
    [/proc/self/fd] names the descriptor ([anon_inode:[pidfd]], or an inode of
    pidfs on later kernels), that of an executable is an absolute path. *)
Record kernel_links (s : Sys) : Prop := {
  pidfd_links : forall p, pidfd_open s p = PidFd ->
    exists link, fd_link s p = Some link
      /\ (link = "anon_inode:[pidfd]"%string \/ exists inode, link = ("pidfd:[" +:+ itoa inode +:+ "]")%string);
  exe_links : forall p exe, readExe s p = Some exe -> hasPrefix exe "/" = true;
}.

Lemma pidfd_refuses s p :
  kernel_links s -> pidfd_open s p = PidFd -> is_Some (readExe s p) -> ~ accepts s p.
Proof.
  intros [Hl He] Ho [exe Hx]. unfold accepts. rewrite Ho, Hx. specialize (He _ _ Hx).
  destruct (Hl _ Ho) as (link & -> & [->|[inode ->]]); intros [_ E]; rewrite <- E in He; done.
Qed.

(** C37. On a kernel with pidfds the check meant to catch a reused pid compares the
    executable with the link of the descriptor itself, and refuses every kill of
    a process whose executable can be read: the single kill fails and sends
    nothing, and a tree kill in which that holds of every process at its turn
    sends nothing and fails as well. *)
Theorem pidfd_kill_refused iter sort_slice (s : Sys) (at_kill : Z -> Sys) :
  ranges iter -> sorts sort_slice -> kernel_links s -> (forall p, kernel_links (at_kill p)) ->
  (forall action pid, pidfd_open s pid = PidFd -> is_Some (readExe s pid) ->
    (killPID s action pid).1.(r_Success) = false /\ (killPID s action pid).2 = [])
  /\ (forall tree pid path ticks, buildProcessTree s = Ok tree -> 1 < pid ->
    (forall p, rtc (child_of tree) pid p -> pidfd_open (at_kill p) p = PidFd /\ is_Some (readExe (at_kill p) p)) ->
    (KillTree iter sort_slice s at_kill pid path ticks).1.(r_Success) = false
    /\ (KillTree iter sort_slice s at_kill pid path ticks).2 = []).
Proof.
  intros Hi Hs Hk Hka. split.
  - intros action pid Ho He. rewrite killPID_sent. pose proof (killPID_success s action pid) as H.
    destruct (r_Success _); [|done]. exfalso. by apply (pidfd_refuses s pid), H.
  - intros tree pid path ticks Ht Hp Hall.
    rewrite (KillTree_sent iter sort_slice Hi Hs s at_kill tree), (KillTree_success iter sort_slice s at_kill tree), sent_killed by done.
    destruct (filter (falls at_kill pid path ticks) (kill_order iter sort_slice tree pid)) as [|q l] eqn:E; [done|]. exfalso.
    destruct (proj1 (filter_inhabited (falls at_kill pid path ticks) (kill_order iter sort_slice tree pid))) as (p & Hin & _ & _ & Ha);
      [rewrite E; cbn [length]; lia|].

    apply kill_order_elem in Hin; [|done..].
    destruct (Hall p Hin). by apply (pidfd_refuses (at_kill p) p).
Qed.

Lemma kill_one_elem at_kill pid path ticks order p x :
  p ∈ order -> x ∈ (kill_one at_kill pid path ticks p).2 ->
  x ∈ concat (snd <$> (kill_one at_kill pid path ticks <$> order)).
Proof.
  intros Hp Hx. induction Hp as [p order|p q order Hp IH]; rewrite !fmap_cons; cbn [concat];
    rewrite elem_of_app; auto.
Qed.

Lemma kill_all_nonneg at_kill root ds : 0 <= (kill_all at_kill root ds).1.1.
Proof.
  induction ds as [|d ds IH]; simpl; [lia|]. case_bool_decide; [done|].
  destruct (killSingleProcess _ _ _ _) as [r sent], (kill_all _ _ _) as [[k errs] sent2].
  simpl in *. destruct (r_Success r); simpl; lia.
Qed.

(** When every kill can be delivered, [KillTree] kills the target and all
    its descendants (pid 1 and below excepted) and reports success. *)
Theorem kill_tree_complete iter sort_slice s at_kill tree pid path ticks :
  ranges iter -> sorts sort_slice -> buildProcessTree s = Ok tree -> 1 < pid ->
  (path <> "" \/ ticks <> "" -> identified (at_kill pid) pid path ticks) ->
  (forall p, rtc (child_of tree) pid p -> (killPID (at_kill p) "kill" p).1.(r_Success) = true) ->
  (KillTree iter sort_slice s at_kill pid path ticks).1.(r_Success) = true /\
  forall p, rtc (child_of tree) pid p -> 1 < p ->
    (p, SIGKILL) ∈ (KillTree iter sort_slice s at_kill pid path ticks).2.
Proof.
  intros Hi Hs Ht Hp Hid Hk.
  assert (forall p, rtc (child_of tree) pid p -> 1 < p ->
    kill_one at_kill pid path ticks p = killPID (at_kill p) "kill" p) as Hone.
  { intros p _ Hp1. unfold kill_one. case_bool_decide as E; [|by apply killSingleProcess_plain; [|intros [?|?]]].
    subst. by apply killSingleProcess_plain. }
  assert (rtc (child_of tree) pid pid) as Hroot by done. split.
  - specialize (Hone _ Hroot Hp). unfold kill_one in Hone. rewrite bool_decide_true in Hone by done.
    specialize (Hk _ Hroot). rewrite <- Hone in Hk.
    unfold KillTree. rewrite Ht. destruct (Z.leb_spec pid 1); [lia|].
    destruct (findDescendants iter tree pid) as [|d ds]; [done|].
    pose proof (kill_all_nonneg at_kill pid (sort_slice (d :: ds))).
    destruct (kill_all _ _ _) as [[k errs] sent], (killSingleProcess _ pid path ticks) as [r sent2].
    simpl in *. rewrite Hk. apply Z.ltb_lt. lia.
  - intros p Hr Hp1. rewrite (KillTree_sent iter sort_slice Hi Hs s at_kill tree) by done.
    apply (kill_one_elem _ _ _ _ _ p); [by apply kill_order_elem|].
    rewrite Hone, killPID_sent, Hk by done. by left.
Qed.

(** ** Suspension *)

(** A process is stopped only after its identity was confirmed, when the
    request names one, and never pid 1 or below; the stop and its record go
    together, and a successful resume removes the record. *)
Theorem suspend_tracks s m pid path ticks :
  let '(r, m', sent) := Suspend s m pid path ticks in
  (r.(r_Success) = true -> sent = [(pid, SIGSTOP)] /\ m' = <[pid := path]> m /\ 1 < pid /\
    (path <> "" \/ ticks <> "" -> identified s pid path ticks)) /\
  (r.(r_Success) = false -> sent = [] /\ m' = m) /\
  forall s', let '(r2, m2, sent2) := Resume s' m' pid in
    (r2.(r_Success) = true -> sent2 = [(pid, SIGCONT)] /\ m2 = delete pid m) /\
    (r2.(r_Success) = false -> sent2 = [] /\ m2 = m').
Proof.
  assert (forall m', (m' = <[pid := path]> m \/ m' = m) ->
    forall s', let '(r2, m2, sent2) := Resume s' m' pid in
    (r2.(r_Success) = true -> sent2 = [(pid, SIGCONT)] /\ m2 = delete pid m) /\
    (r2.(r_Success) = false -> sent2 = [] /\ m2 = m')) as HR.
  { intros m' Hm s'. unfold Resume, signalPID, pidfdSignal.
    assert (delete pid m' = delete pid m) as -> by (destruct Hm as [->| ->]; [apply delete_insert_eq|done]).
    gosimpl; done. }
  unfold Suspend. destruct (Z.leb_spec pid 1); [split_and!; try done; by apply HR; right|].
  destruct (_ && _) eqn:E; [split_and!; try done; by apply HR; right|].
  assert (path <> "" \/ ticks <> "" -> identified s pid path ticks) as Hid.
  { intros Hne. rewrite <- sameProcess_iff. bool_props; [|done]. naive_solver. }
  assert (signalPID s pid SIGSTOP = (None, [(pid, SIGSTOP)]) \/ exists msg, signalPID s pid SIGSTOP = (Some msg, []))
    as [->|[msg ->]] by (unfold signalPID, pidfdSignal; gosimpl; eauto).
  - split_and!; try done. by apply HR; left.
  - split_and!; try done. by apply HR; right.
Qed.

(** ** A sample process table *)

Module Sample.
Definition iter (n : nat) (m : gmap Z Z) : list (Z * Z) := map_to_list m.
Definition sort_depth : list procNode -> list procNode := sort_stable (fun a b => - n_depth a <? - n_depth b).

Lemma iter_ranges : ranges iter.
Proof. by intros n m. Qed.

Lemma sort_depth_sorts : sorts sort_depth.
Proof.
  intros l. split; [apply sort_stable_perm|].
  pose proof (sort_stable_sorted (fun d => - n_depth d) l) as HS.
  unfold sort_depth. cbv beta in HS. revert HS. generalize (sort_stable (fun a b => - n_depth a <? - n_depth b) l).
  intros l2 HS. induction HS as [|a l3 HS IH HF]; constructor; [done|].
  eapply Forall_impl; [exact HF|]. simpl. lia.
Qed.

(** A shell (40) with a child (41), on a kernel without and with pidfd. *)
Definition table : gmap Z Proc :=
  {[1 := mkProc None (Some "1 (init) S 0 1"); 40 := mkProc (Some "/bin/sh") (Some "40 (sh) S 1 40");
    41 := mkProc (Some "/bin/nc") (Some "41 (nc) S 40 40")]}.
Definition old_kernel : Sys := mkSys (Ok table) (fun _ => NotSupported) (fun _ => None) (fun _ => None) (fun _ => None).
Definition new_kernel : Sys :=
  mkSys (Ok table) (fun _ => PidFd) (fun _ => Some "anon_inode:[pidfd]") (fun _ => None) (fun _ => None).

Definition parents : gmap Z Z := {[1 := 0; 40 := 1; 41 := 40]}.

Lemma parents_built : buildProcessTree old_kernel = Ok parents.
Proof. vm_compute. reflexivity. Qed.

Lemma new_kernel_links : kernel_links new_kernel.
Proof.
  split; [intros p _; eexists; split; [reflexivity|by left]|].
  assert (map_Forall (fun _ p => from_option (fun e => hasPrefix e "/") true (pr_exe p) = true) table) as H.
  { apply (bool_decide_unpack _). vm_compute. exact I. }
  intros p exe. unfold readExe, proc_of. cbn [new_kernel procs].
  destruct (table !! p) as [pr|] eqn:E; [|done]. specialize (H p pr E). simpl in *. destruct (pr_exe pr); [|done]. by intros [= ->].
Qed.

Lemma pidfd_kill_refused_witness :
  ((killPID new_kernel "kill" 41).1.(r_Success) = false /\ (killPID new_kernel "kill" 41).2 = [])
  /\ (KillTree iter sort_depth new_kernel (fun _ => new_kernel) 41 "/bin/nc" "").1.(r_Success) = false.
Proof.
  destruct (pidfd_kill_refused iter sort_depth new_kernel (fun _ => new_kernel)) as [H1 H2];
    [apply iter_ranges|apply sort_depth_sorts|apply new_kernel_links|intros _; apply new_kernel_links|].
  split; [apply H1; [reflexivity|by eexists]|].
  apply (H2 parents 41 "/bin/nc" ""); [exact parents_built|lia|].
  intros p Hp. split; [reflexivity|]. apply rtc_inv in Hp as [<-|(c & Hc & _)]; [by eexists|].
  exfalso. assert (map_Forall (fun _ q => q <> 41) parents) as H.
  { apply (bool_decide_unpack _). vm_compute. exact I. }
  by apply (H c 41 Hc).
Defined.

Lemma kill_tree_order_witness :
  exists order,
    NoDup order /\ last order = Some 40 /\ parents_last parents 40 order /\
    (forall p, p ∈ order <-> rtc (child_of parents) 40 p) /\
    (KillTree iter sort_depth old_kernel (fun _ => old_kernel) 40 "/bin/sh" "").2
      = (fun p => (p, SIGKILL)) <$> filter (falls (fun _ => old_kernel) 40 "/bin/sh" "") order.
Proof.
  destruct (kill_tree_order iter sort_depth old_kernel (fun _ => old_kernel) parents 40 "/bin/sh" "")
    as (order & H1 & H2 & H3 & H4 & H5 & _);
    [apply iter_ranges|apply sort_depth_sorts|apply parents_built|lia|].
  by exists order.
Defined.

Lemma kill_tree_complete_witness :
  (KillTree iter sort_depth old_kernel (fun _ => old_kernel) 40 "/bin/sh" "").1.(r_Success) = true /\
  (41, SIGKILL) ∈ (KillTree iter sort_depth old_kernel (fun _ => old_kernel) 40 "/bin/sh" "").2.
Proof.
  destruct (kill_tree_complete iter sort_depth old_kernel (fun _ => old_kernel) parents 40 "/bin/sh" "")
    as [H1 H2]; [apply iter_ranges|apply sort_depth_sorts|apply parents_built|lia| | |].
  - intros _. unfold identified. split_and!; [lia|by left|done|done].
  - done.
  - split; [exact H1|]. apply H2; [|lia]. by apply rtc_once.
Defined.

(** The descendants and then the root are killed, whatever the executable of
    the descendants: only the root's identity is compared. *)
Example tree_killed :
  (KillTree iter sort_depth old_kernel (fun _ => old_kernel) 40 "/bin/sh" "").2 = [(41, SIGKILL); (40, SIGKILL)].
Proof. vm_compute. reflexivity. Qed.

(** With no identity in the request nothing is compared, and the signal is
    sent; the single-process action refuses such a request. *)
Example unidentified_tree_killed :
  (KillTree iter sort_depth old_kernel (fun _ => old_kernel) 41 "" "").2 = [(41, SIGKILL)] /\
  sameProcess old_kernel (ident 41 "" "") = false.
Proof. vm_compute. done. Qed.
End Sample.
