(* ===== verification/Nft.v ===== *)
(** * Firewall rules through nft ([internal/response/nft.go])

    The commands are lists of words handed to [exec.Command] without a shell.
    Whether the binary exists and what each run answers are arguments. *)

From S2P Require Import Prelude GoStrings Response.

#[local] Open Scope string_scope.
#[local] Open Scope list_scope.
#[local] Open Scope Z_scope.

(** ** The patterns *)

Definition is_letter (a : ascii) : bool :=
  ((65 <=? code a) && (code a <=? 90)) || ((97 <=? code a) && (code a <=? 122)).

Definition reNFTIdent (s : string) : bool :=
  match bytes s with
  | [] => false
  | a :: t =>
      is_letter a && (Z.of_nat (length t) <=? 30) &&
      forallb (fun b => is_letter b || digit_char b || (b == "_"%char) || (b == "-"%char)) t
  end.

Definition addr_char (b : ascii) : bool :=
  ((97 <=? code b) && (code b <=? 102)) || ((65 <=? code b) && (code b <=? 70)) || digit_char b ||
  bool_decide (b ∈ bytes ".:/[]%").

Definition reNFTAddr (s : string) : bool :=
  (1 <=? slen s) && (slen s <=? 255) && forallb addr_char (bytes s).

Definition protocols : list string := ["tcp"; "udp"; "udplite"; "sctp"; "dccp"; "icmp"; "icmpv6"; "ip"; "ip6"].
Definition reNFTProto (s : string) : bool := bool_decide (s ∈ protocols).

Definition reNFTPort (s : string) : bool :=
  (1 <=? slen s) && (slen s <=? 5) && forallb digit_char (bytes s).

(** ** The provider *)

Record NFTProvider := mkNFT { Enabled : bool; DryRun : bool; Table : string; Chain : string }.

(** What the system answers: the binary is found; the outcome of the [n]-th
    command of a batch, its output and error text when it fails. *)
Record Shell := mkShell {
  look_nft : bool;
  run : nat -> list string -> result (string * string) string;
}.

Definition sanitizeNFTIdent (v fallback : string) : string := if reNFTIdent v then v else fallback.
Definition valueOr (v fallback : string) : string := if trimSpace v == "" then fallback else v.

Section Nft.
Context {UC : GoUnicode}.

Definition commands (table chain : string) (req : ActionRequest) : list (list string) :=
  let table := sanitizeNFTIdent table "edr" in
  let chain := sanitizeNFTIdent chain "blocklist" in
  let proto := toLower req.(Protocol) in
  let proto := if (proto == "") || negb (reNFTProto proto) then "tcp" else proto in
  let rule := ["nft"; "add"; "rule"; "inet"; table; chain; proto] in
  let rule := if (req.(RemoteAddr) != "") && reNFTAddr req.(RemoteAddr)
              then rule ++ ["daddr"; req.(RemoteAddr)] else rule in
  let rule := if req.(LocalPort) != 0 then
                let port := itoa req.(LocalPort) in
                if reNFTPort port then rule ++ ["dport"; port] else rule
              else rule in
  [ ["nft"; "add"; "table"; "inet"; table];
    ["nft"; "add"; "chain"; "inet"; table; chain; "{"; "type"; "filter"; "hook"; "output"; "priority"; "0"; ";";
     "policy"; "accept"; ";"; "}"];
    rule ++ ["drop"] ].

(** The loop over the commands: the failure, if any, and what was executed. *)
Fixpoint run_all (sh : Shell) (n : nat) (cmds : list (list string)) : option string * list (list string) :=
  match cmds with
  | [] => (None, [])
  | args :: cmds =>
      if args == [] then run_all sh (S n) cmds
      else match sh.(run) n args with
      | Err (out, e) => (Some (trimSpace out +:+ ": " +:+ e), [args])
      | Ok _ => let '(r, done) := run_all sh (S n) cmds in (r, args :: done)
      end
  end.

(** The part shared by the two batches, after their commands are built. *)
Definition dry_detail (cmds : list (list string)) : string :=
  "nft dry-run: " +:+ join " && " (map (join " ") cmds).

Definition ApplyBlock (p : NFTProvider) (sh : Shell) (req : ActionRequest) : Result * list (list string) :=
  if req.(Action) != "nft_block" then (mkResult req.(Action) false "not an nft action", [])
  else
    let table := sanitizeNFTIdent (valueOr p.(Table) "edr") "edr" in
    let chain := sanitizeNFTIdent (valueOr p.(Chain) "blocklist") "blocklist" in
    let cmds := commands table chain req in
    if p.(DryRun) || negb p.(Enabled) then (mkResult req.(Action) true (dry_detail cmds), [])
    else if negb sh.(look_nft) then (mkResult req.(Action) false "nft binary not found", [])
    else match run_all sh 0 cmds with
    | (Some e, done) => (mkResult req.(Action) false e, done)
    | (None, done) =>
        (mkResult req.(Action) true ("nft block applied table=" +:+ table +:+ " chain=" +:+ chain), done)
    end.

Definition isolate_commands (table : string) : list (list string) :=
  let rule words := ["nft"; "add"; "rule"; "inet"; table; "isolate"] ++ words in
  [ ["nft"; "add"; "table"; "inet"; table];
    ["nft"; "add"; "chain"; "inet"; table; "isolate"; "{"; "type"; "filter"; "hook"; "output"; "priority"; "0"; ";";
     "policy"; "drop"; ";"; "}"];
    rule ["oifname"; "lo"; "accept"];
    rule ["ct"; "state"; "established,related"; "accept"];
    rule ["udp"; "dport"; "53"; "accept"];
    rule ["tcp"; "dport"; "53"; "accept"] ].

Definition ApplyIsolate (p : NFTProvider) (sh : Shell) : Result * list (list string) :=
  let table := sanitizeNFTIdent (valueOr p.(Table) "edr") "edr" in
  let cmds := isolate_commands table in
  if p.(DryRun) || negb p.(Enabled) then (mkResult "network_isolate" true (dry_detail cmds), [])
  else if negb sh.(look_nft) then (mkResult "network_isolate" false "nft binary not found", [])
  else match run_all sh 0 cmds with
  | (Some e, done) => (mkResult "network_isolate" false e, done)
  | (None, done) =>
      (mkResult "network_isolate" true ("network isolation applied (table=" +:+ table +:+ ", default DROP)"), done)
  end.

Definition ListRules (p : NFTProvider) (sh : Shell) : Result * list (list string) :=
  let table := sanitizeNFTIdent (valueOr p.(Table) "edr") "edr" in
  let cmd := ["nft"; "list"; "table"; "inet"; table] in
  if p.(DryRun) || negb p.(Enabled)
  then (mkResult "nft_list" true ("nft dry-run: nft list table inet " +:+ table), [])
  else match sh.(run) 0%nat cmd with
  | Err (out, e) => (mkResult "nft_list" false (trimSpace out +:+ ": " +:+ e), [cmd])
  | Ok out => (mkResult "nft_list" true out, [cmd])
  end.

Definition Rollback (p : NFTProvider) (sh : Shell) : Result * list (list string) :=
  let table := sanitizeNFTIdent (valueOr p.(Table) "edr") "edr" in
  let cmd := ["nft"; "delete"; "table"; "inet"; table] in
  if p.(DryRun) || negb p.(Enabled)
  then (mkResult "nft_rollback" true ("nft dry-run: nft delete table inet " +:+ table), [])
  else match sh.(run) 0%nat cmd with
  | Err (out, e) => (mkResult "nft_rollback" false (trimSpace out +:+ ": " +:+ e), [cmd])
  | Ok _ => (mkResult "nft_rollback" true "nft table removed", [cmd])
  end.
End Nft.

(** ** What reaches nft *)

Definition ident_char (b : ascii) : Prop :=
  is_letter b = true \/ digit_char b = true \/ b = "_"%char \/ b = "-"%char.

(** An identifier: a letter, then letters, digits, [_] and [-]; 31 at most. *)
Definition is_ident (s : string) : Prop :=
  (exists a t, bytes s = a :: t /\ is_letter a = true) /\ slen s <= 31 /\ Forall ident_char (bytes s).

Lemma slen_bytes s : slen s = Z.of_nat (length (bytes s)).
Proof. unfold slen, bytes. induction s as [|a s IH]; simpl; [done|]. lia. Qed.

Lemma reNFTIdent_iff s : reNFTIdent s = true <-> is_ident s.
Proof.
  unfold reNFTIdent, is_ident. rewrite slen_bytes. destruct (bytes s) as [|a t]; [naive_solver|].
  cbn [length]. rewrite !andb_true_iff, Z.leb_le, forallb_forall, List.Forall_forall.
  unfold ident_char. split.
  - intros [[Ha Hl] Ht]. split_and!; [eauto|lia|]. intros x [->|Hx]; [by left|]. specialize (Ht _ Hx).
    rewrite !orb_true_iff, !bool_decide_eq_true in Ht. tauto.
  - intros [(? & ? & ? & ?) [Hl Ht]]. simplify_eq. split_and!; [done|lia|].
    intros c Hx. specialize (Ht _ (or_intror Hx)). rewrite !orb_true_iff, !bool_decide_eq_true. tauto.
Qed.

Lemma sanitize_ident v fb : is_ident fb -> is_ident (sanitizeNFTIdent v fb).
Proof. unfold sanitizeNFTIdent. destruct (reNFTIdent v) eqn:E; [by apply reNFTIdent_iff in E|done]. Qed.

(** *** Ports *)

Lemma udec_aux_length fuel z n :
  fuel_ok fuel z -> z < 10 ^ (Z.of_nat n + 1) -> (length (udec_aux fuel z) <= S n)%nat.
Proof.
  revert z n. induction fuel as [|fuel IH]; intros z n Hf Hz; [destruct Hf; lia|].
  simpl. destruct (Z.ltb_spec z 10); [simpl; lia|].
  rewrite length_app. simpl. destruct n as [|n]; [simpl in Hz; lia|].
  enough (length (udec_aux fuel (z / 10)) <= S n)%nat by lia.
  apply IH; [by apply fuel_ok_div|]. apply Z.div_lt_upper_bound; [lia|].
  rewrite <- Z.pow_succ_r by lia. by replace (Z.succ (Z.of_nat n + 1)) with (Z.of_nat (S n) + 1) by lia.
Qed.

Lemma udec_aux_length_lower fuel z n :
  fuel_ok fuel z -> 10 ^ Z.of_nat n <= z -> (S n <= length (udec_aux fuel z))%nat.
Proof.
  revert z n. induction fuel as [|fuel IH]; intros z n Hf Hz; [destruct Hf; lia|].
  simpl. destruct (Z.ltb_spec z 10).
  - destruct n as [|n]; [simpl; lia|]. rewrite Nat2Z.inj_succ, Z.pow_succ_r in Hz by lia.
    pose proof (Z.pow_pos_nonneg 10 (Z.of_nat n)). lia.
  - rewrite length_app. simpl. destruct n as [|n]; [lia|].
    enough (S n <= length (udec_aux fuel (z / 10)))%nat by lia.
    apply IH; [by apply fuel_ok_div|]. apply Z.div_le_lower_bound; [lia|].
    rewrite <- Z.pow_succ_r by lia. by replace (Z.succ (Z.of_nat n)) with (Z.of_nat (S n)) by lia.
Qed.

(** The port pattern accepts exactly the decimals of at most five digits. *)
Lemma reNFTPort_itoa z : reNFTPort (itoa z) = true <-> 0 <= z <= 99999.
Proof.
  unfold reNFTPort, itoa. rewrite slen_bytes, bytes_text.
  destruct (Z.ltb_spec z 0) as [Hz|Hz].
  { cbn [forallb]. rewrite andb_false_r. split; [done|lia]. }
  pose proof (udec_fuel z Hz) as Hf.
  assert (forallb digit_char (udec z) = true) as Hd.
  { by apply udec_aux_head. }
  rewrite Hd, andb_true_r, andb_true_iff, !Z.leb_le. unfold udec in *. split.
  - intros [_ Hl]. split; [done|]. destruct (Z.le_gt_cases z 99999); [done|].
    pose proof (udec_aux_length_lower _ z 5 Hf). lia.
  - intros [_ Hl]. split.
    + pose proof (udec_aux_length_lower _ z 0 Hf). destruct (decide (z = 0)) as [->|]; [vm_compute; done|lia].
    + pose proof (udec_aux_length _ z 4 Hf). lia.
Qed.

(** *** The batches *)

(** A batch stops at the first command that fails: what ran is the whole batch
    or the commands up to the failing one. *)
Lemma run_all_spec sh cmds n :
  [] ∉ cmds ->
  let '(e, done) := run_all sh n cmds in
  exists rest, cmds = done ++ rest /\ (e = None -> rest = []) /\
    (e = None <-> forall i args, cmds !! i = Some args -> is_ok (sh.(run) (n + i)%nat args) = true).
Proof.
  revert n. induction cmds as [|args cmds IH]; intros n Hne; simpl.
  { exists []. split_and!; try done. }
  rewrite bool_decide_false by set_solver.
  destruct (sh.(run) n args) as [o|[o e]] eqn:E.
  - specialize (IH (S n) ltac:(set_solver)). destruct (run_all sh (S n) cmds) as [e done].
    destruct IH as (rest & -> & Hr & Hall). exists rest. split_and!; [done|done|]. rewrite Hall. split.
    + intros H [|i] a Ha; simpl in Ha; [simplify_eq; by rewrite Nat.add_0_r, E|].
      rewrite <- Nat.add_succ_comm. by apply H.
    + intros H i a Ha. rewrite Nat.add_succ_comm. by apply (H (S i)).
  - exists cmds. split_and!; [done|done|]. split; [done|]. intros H. specialize (H 0%nat args eq_refl).
    by rewrite Nat.add_0_r, E in H.
Qed.

Definition addr_ok (s : string) : Prop := 1 <= slen s <= 255 /\ Forall (fun b => addr_char b = true) (bytes s).

Lemma reNFTAddr_iff s : (s != "") && reNFTAddr s = true <-> addr_ok s.
Proof.
  unfold reNFTAddr, addr_ok. rewrite !andb_true_iff, !Z.leb_le, forallb_forall, List.Forall_forall.
  split; [tauto|]. intros [? ?]. split; [|tauto]. apply negb_true_iff, bool_decide_eq_false. intros ->.
  change (slen "") with 0 in *. lia.
Qed.

(** The words of a block batch. *)
Definition block_words (req : ActionRequest) (cmds : list (list string)) : Prop :=
  exists table chain proto addr port,
    cmds =
      [ ["nft"; "add"; "table"; "inet"; table];
        ["nft"; "add"; "chain"; "inet"; table; chain; "{"; "type"; "filter"; "hook"; "output"; "priority"; "0"; ";";
         "policy"; "accept"; ";"; "}"];
        ["nft"; "add"; "rule"; "inet"; table; chain; proto] ++ addr ++ port ++ ["drop"] ] /\
    is_ident table /\ is_ident chain /\ proto ∈ protocols /\
    (addr = [] /\ ~ addr_ok (RemoteAddr req) \/ addr = ["daddr"; RemoteAddr req] /\ addr_ok (RemoteAddr req)) /\
    (port = [] /\ ~ 0 < LocalPort req <= 99999 \/
     port = ["dport"; itoa (LocalPort req)] /\ 0 < LocalPort req <= 99999).

Lemma ident_edr : is_ident "edr".
Proof. by apply reNFTIdent_iff. Qed.
Lemma ident_blocklist : is_ident "blocklist".
Proof. by apply reNFTIdent_iff. Qed.

Lemma commands_words `{GoUnicode} table chain req : block_words req (commands table chain req).
Proof.
  unfold commands, block_words.
  set (proto := if _ : bool then "tcp" else _).
  exists (sanitizeNFTIdent table "edr"), (sanitizeNFTIdent chain "blocklist"), proto,
    (if (RemoteAddr req != "") && reNFTAddr (RemoteAddr req) then ["daddr"; RemoteAddr req] else []),
    (if (LocalPort req != 0) && reNFTPort (itoa (LocalPort req)) then ["dport"; itoa (LocalPort req)] else []).
  split_and!.
  - destruct (_ && reNFTAddr _), (LocalPort req != 0), (reNFTPort _); done.
  - apply sanitize_ident, ident_edr.
  - apply sanitize_ident, ident_blocklist.
  - subst proto. destruct (_ || _) eqn:E; [unfold protocols; set_solver|].
    apply orb_false_iff in E as [_ E]. apply negb_false_iff, bool_decide_eq_true in E. done.
  - destruct (_ && _) eqn:E; [right|left]; split; try done; rewrite <- reNFTAddr_iff; congruence.
  - destruct (_ && reNFTPort _) eqn:E; [right|left]; (split; [done|]).
    + apply andb_true_iff in E as [E1 E2]. apply reNFTPort_itoa in E2. bool_props. lia.
    + intros Hp. assert (reNFTPort (itoa (LocalPort req)) = true) as E2 by (apply reNFTPort_itoa; lia).
      rewrite E2, bool_decide_false in E by lia. done.
Qed.

(** Whatever the request holds, a block runs commands only on a live and
    enabled provider, and what runs is a prefix of three commands that name an
    identifier as table and chain, one of the nine protocols, and beyond these
    only the request's address when it is made of address characters and its
    port when it has at most five digits; success means all three ran without
    an error. *)
Theorem nft_block_words `{GoUnicode} (p : NFTProvider) (sh : Shell) (req : ActionRequest) :
  let '(r, done) := ApplyBlock p sh req in
  (DryRun p = true \/ Enabled p = false \/ Action req <> "nft_block" -> done = []) /\
  exists rest, block_words req (done ++ rest) /\
    (done <> [] -> r.(r_Success) = true -> rest = [] /\
      forall i args, done !! i = Some args -> is_ok (sh.(run) i args) = true).
Proof.
  unfold ApplyBlock. case_bool_decide as Ea; cbn [negb].
  2:{ split; [done|]. exists (commands "" "" req). split; [apply commands_words|done]. }
  set (cmds := commands _ _ _). assert (block_words req cmds) as Hw by apply commands_words.
  destruct (DryRun p || negb (Enabled p)) eqn:Ed.
  { split; [done|]. exists cmds. done. }
  apply orb_false_iff in Ed as [Ed Ee]. apply negb_false_iff in Ee.
  destruct (look_nft sh); cbn [negb].
  2:{ split; [done|]. exists cmds. done. }
  pose proof (run_all_spec sh cmds 0) as Hr.
  destruct (run_all sh 0 cmds) as [e done] eqn:Er.
  destruct Hr as (rest & Ec & Hnone & Hall).
  { destruct Hw as (? & ? & ? & ? & ? & -> & _). rewrite !not_elem_of_cons.
    split_and!; [done|done|done|apply not_elem_of_nil]. }
  destruct e as [e|]; (split; [intros [?|[?|?]]; congruence|]); exists rest; rewrite <- Ec; (split; [done|]); [done|].
  intros _ _. specialize (Hnone eq_refl). subst rest. split; [done|].
  rewrite app_nil_r in Ec. subst done. by apply Hall.
Qed.
