(* ===== verification/Quarantine.v ===== *)
(** * Quarantine of files ([internal/response/quarantine.go], [chmodNoFollow] of
    [response.go])

    The file system is a map from the names the code uses to nodes with a kind,
    an inode, a size and a mode.  What the operating system refuses during a
    call, and what the clock says, are arguments; the text of an errno is its
    message. *)

From S2P Require Import Prelude GoStrings Json JsonIndent GoJson GoTime EventLog ChainProofs LogRun Response.

#[local] Open Scope string_scope.
#[local] Open Scope list_scope.
#[local] Open Scope Z_scope.

(** ** Files *)

Inductive kind := KFile (data : list ascii) | KDir | KLink (target : string).
Record node := mkNode { n_kind : kind; n_ino : Z; n_size : Z; n_mode : Z }.
Abbreviation tree := (gmap string node).

Definition is_dir (n : node) : bool := match n.(n_kind) with KDir => true | _ => false end.
Definition is_symlink (n : node) : bool := match n.(n_kind) with KLink _ => true | _ => false end.
Definition with_mode (m : Z) (n : node) : node := mkNode n.(n_kind) n.(n_ino) n.(n_size) m.

(** The name a lookup that follows links ends at; the kernel follows 40. *)
Fixpoint follow (fuel : nat) (fs : tree) (p : string) : option string :=
  match fs !! p with
  | Some n => match n.(n_kind), fuel with KLink t, S fuel => follow fuel fs t | KLink _, O => None | _, _ => Some p end
  | None => None
  end.

Definition readData (fs : tree) (p : string) : option (list ascii) :=
  q ← follow 40 fs p; n ← fs !! q; match n.(n_kind) with KFile d => Some d | _ => None end.

Definition chmod (fs : tree) (p : string) (m : Z) : option tree :=
  q ← follow 40 fs p; Some (alter (with_mode m) q fs).

(** [rename(2)]: a directory takes what is below it along. *)
Definition below (src dst k : string) : string :=
  if hasPrefix k (src +:+ "/") then dst +:+ from (String.length src) k else k.
Definition move (src dst : string) (fs : tree) : tree :=
  match fs !! src with
  | None => fs
  | Some n =>
      let fs := <[dst := n]> (delete src fs) in
      if is_dir n then list_to_map (map (fun kn => (below src dst kn.1, kn.2)) (map_to_list fs)) else fs
  end.

(** [filepath.Join] of a clean directory and a name. *)
Definition joinPath (dir name : string) : string := if dir == "." then name else dir +:+ "/" +:+ name.

(** The names [os.ReadDir] lists, sorted. *)
Definition dirNames (fs : tree) (dir : string) : list string :=
  sort_stable slt (omap (fun kn => entry_name dir kn.1) (map_to_list fs)).

(** [0o600] *)
Definition mode600 : Z := 384.

Definition ENOENT : string := "no such file or directory".
Definition ELOOP : string := "too many levels of symbolic links".

(** [chmodNoFollow]: the error, and the files.  [refused] is an error of [open]
    or [fchmod] other than the two the lookup gives. *)
Definition chmodNoFollow (fs : tree) (path : string) (mode : Z) (refused : option string) : option string * tree :=
  match fs !! path with
  | None => (Some ENOENT, fs)
  | Some n =>
      if is_symlink n then (Some "refusing to chmod symlink", fs)
      else match refused with Some e => (Some e, fs) | None => (None, <[path := with_mode mode n]> fs) end
  end.

(** ** Metadata *)

Record QuarantineMeta := mkMeta {
  qm_OriginalPath : string; qm_QuarantineAt : Time; qm_Inode : Z; qm_Size : Z; qm_RuleID : string;
}.

Definition meta_names : list string := ["original_path"; "quarantine_at"; "inode"; "size"; "rule_id"].

Definition meta_pieces (m : QuarantineMeta) : list piece :=
  [(true, "original_path", JStr m.(qm_OriginalPath));
   (true, "quarantine_at", JStr (text (time_print m.(qm_QuarantineAt))));
   (true, "inode", JNum (itoa m.(qm_Inode)));
   (true, "size", JNum (itoa m.(qm_Size)));
   (nonempty m.(qm_RuleID), "rule_id", JStr m.(qm_RuleID))].

Definition meta_text (m : QuarantineMeta) : list ascii := marshalIndent (JObj (members_of (meta_pieces m))).

Section Meta.
Context {UC : GoUnicode}.

Definition meta_decode (j : json) : option QuarantineMeta :=
  match j with
  | JObj ms =>
      op ← get_field set_string meta_names "original_path" "" ms;
      at_ ← get_field set_time meta_names "quarantine_at" timeZero ms;
      ino ← get_field set_uint64 meta_names "inode" 0 ms;
      size ← get_field set_int meta_names "size" 0 ms;
      rule ← get_field set_string meta_names "rule_id" "" ms;
      Some (mkMeta op at_ ino size rule)
  | JNull => Some (mkMeta "" timeZero 0 0 "")
  | _ => None
  end.

Definition meta_unmarshal (l : list ascii) : option QuarantineMeta := parse l ≫= meta_decode.

(** ** Operations *)

Record QuarantineProvider := mkQuarantine { q_Dir : string; q_DryRun : bool }.

(** The clock and the refusals of one call. *)
Record answers := mkAnswers {
  an_nano : Z;               (** [UnixNano] for the name *)
  an_now : Time;             (** the time in the metadata *)
  an_newdir : node;          (** the directory [MkdirAll] makes *)
  an_ino : Z;                (** the inode of the metadata file *)
  an_mkdir : option string; an_open : option string; an_fstat : option string; an_rename : option string;
  an_reopen : option string; an_chmod : option string; an_meta : option string;
}.

Definition quarantined (ok : bool) (detail : string) : Result := mkResult "quarantine" ok detail.

Definition ensureDir (dir : string) (d : node) (fs : tree) : tree :=
  match fs !! dir with Some _ => fs | None => <[dir := d]> fs end.

(** The name of a quarantined file, and its metadata file. *)
Definition quarantineName (n : node) (nano : Z) : string := itoa n.(n_ino) +:+ "_" +:+ itoa nano.

Definition ApplyQuarantine (q : QuarantineProvider) (a : answers) (fs : tree) (path ruleID : string) : Result * tree :=
  if q.(q_DryRun) then (quarantined true ("dry-run: would quarantine " +:+ path), fs)
  else match (if q.(q_Dir) == "" then Some ("mkdir : " +:+ ENOENT) else a.(an_mkdir)) with
  | Some e => (quarantined false ("mkdir quarantine dir: " +:+ e), fs)
  | None =>
      let fs := ensureDir q.(q_Dir) a.(an_newdir) fs in
      match fs !! path, a.(an_open), a.(an_fstat) with
      | None, _, _ => (quarantined false ("open: " +:+ ENOENT), fs)
      | Some _, Some e, _ => (quarantined false ("open: " +:+ e), fs)
      | Some _, None, Some e => (quarantined false ("fstat: " +:+ e), fs)
      | Some n, None, None =>
          let qPath := joinPath q.(q_Dir) (quarantineName n a.(an_nano)) in
          match a.(an_rename) with
          | Some e => (quarantined false ("rename: " +:+ e), fs)
          | None =>
              let fs := move path qPath fs in
              match (if is_symlink n then Some ELOOP else a.(an_reopen)) with
              | Some e => (quarantined false ("open quarantined file: " +:+ e), fs)
              | None =>
                  match a.(an_chmod) with
                  | Some e => (quarantined false ("fchmod: " +:+ e), fs)
                  | None =>
                      let fs := alter (with_mode 0) qPath fs in
                      let meta := mkMeta path a.(an_now) n.(n_ino) n.(n_size) ruleID in
                      match a.(an_meta) with
                      | Some e => (quarantined true ("quarantined to " +:+ qPath +:+ " (meta write failed: " +:+ e +:+ ")"), fs)
                      | None =>
                          let text := meta_text meta in
                          (quarantined true ("quarantined " +:+ path +:+ " -> " +:+ qPath),
                           <[qPath +:+ ".meta" := mkNode (KFile text) a.(an_ino) (Z.of_nat (length text)) mode600]> fs)
                      end
                  end
              end
          end
      end
  end.

(** The metadata of a directory entry: [None] for directories, for metadata
    files and for entries whose metadata cannot be read. *)
Definition entryMeta (fs : tree) (dir name : string) : option QuarantineMeta :=
  let qPath := joinPath dir name in
  if match fs !! qPath with Some n => is_dir n | None => false end || hasSuffix name ".meta" then None
  else readData fs (qPath +:+ ".meta") ≫= meta_unmarshal.

(** [None] is an error; a missing directory is an empty list. *)
Definition ListQuarantined (q : QuarantineProvider) (refused : bool) (fs : tree) : option (list QuarantineMeta) :=
  match fs !! q.(q_Dir) with
  | None => Some []
  | Some n =>
      if negb (is_dir n) || refused then None
      else Some (omap (entryMeta fs q.(q_Dir)) (dirNames fs q.(q_Dir)))
  end.

Definition restored (ok : bool) (detail : string) : Result := mkResult "quarantine_restore" ok detail.

(** The loop of [Restore] over the directory. *)
Fixpoint restore_loop (dir : string) (fs : tree) (originalPath : string) (chmodErr renameErr : option string)
    (names : list string) : Result * tree :=
  match names with
  | [] => (restored false ("no quarantined file found for " +:+ originalPath), fs)
  | name :: names =>
      match entryMeta fs dir name with
      | None => restore_loop dir fs originalPath chmodErr renameErr names
      | Some meta =>
          if meta.(qm_OriginalPath) != originalPath then restore_loop dir fs originalPath chmodErr renameErr names
          else
            let qPath := joinPath dir name in
            match (match chmodErr with Some e => Err e
                   | None => match chmod fs qPath mode600 with Some fs => Ok fs | None => Err ENOENT end end) with
            | Err e => (restored false ("chmod: " +:+ e), fs)
            | Ok fs =>
                match renameErr with
                | Some e => (restored false ("rename: " +:+ e), fs)
                | None => (restored true ("restored " +:+ originalPath), delete (qPath +:+ ".meta") (move qPath originalPath fs))
                end
            end
      end
  end.

Definition Restore (q : QuarantineProvider) (readErr chmodErr renameErr : option string) (fs : tree)
    (originalPath : string) : Result * tree :=
  match fs !! q.(q_Dir), readErr with
  | None, _ => (restored false ("open " +:+ q.(q_Dir) +:+ ": " +:+ ENOENT), fs)
  | Some _, Some e => (restored false e, fs)
  | Some _, None => restore_loop q.(q_Dir) fs originalPath chmodErr renameErr (dirNames fs q.(q_Dir))
  end.

End Meta.

(** ** Metadata is read back *)

Definition meta_ok (m : QuarantineMeta) : Prop :=
  valid_utf8 m.(qm_OriginalPath) = true /\ valid_utf8 m.(qm_RuleID) = true /\ time_ok m.(qm_QuarantineAt) = true
  /\ 0 <= m.(qm_Inode) < 2 ^ 64 /\ - 2 ^ 63 <= m.(qm_Size) < 2 ^ 63.

Section MetaProofs.
Context {UC : GoUnicode}.

Lemma get_meta {A} (set : A -> json -> option A) m name init c j :
  (c, name, j) ∈ meta_pieces m ->
  get_field set meta_names name init (members_of (meta_pieces m)) = if (c : bool) then set init j else Some init.
Proof.
  apply get_piece.
  - apply Forall_forall. intros p Hp. change meta_names with (map piece_name (meta_pieces m)).
    by apply list_elem_of_fmap_2.
  - change (map piece_name (meta_pieces m)) with meta_names. apply (bool_decide_unpack _). by vm_compute.
Qed.

Ltac meta_in := unfold meta_pieces; repeat first [apply list_elem_of_here | apply list_elem_of_further].

Lemma meta_roundtrip m : meta_ok m -> meta_unmarshal (meta_text m) = Some m.
Proof.
  intros (H1 & H2 & H3 & H4 & H5). unfold meta_unmarshal, meta_text. rewrite <- (app_nil_r (marshalIndent _)).
  assert (json_ok max_depth (JObj (members_of (meta_pieces m))) = true) as Hok.
  { rewrite max_depth_S. apply json_ok_members. unfold meta_pieces.
    repeat (apply Forall_cons_2); [..|apply Forall_nil_2]; (split; [vm_compute; reflexivity|]); try done.
    - simpl. apply time_text_utf8.
    - simpl. rewrite number_itoa. by apply bool_decide_eq_true.
    - simpl. rewrite number_itoa. by apply bool_decide_eq_true. }
  rewrite parse_marshalIndent by (done || constructor). cbn [mbind option_bind]. unfold meta_decode.
  rewrite (get_meta set_string m "original_path" "" true (JStr (qm_OriginalPath m))) by meta_in.
  rewrite (get_meta set_time m "quarantine_at" timeZero true (JStr (text (time_print (qm_QuarantineAt m))))) by meta_in.
  rewrite (get_meta set_uint64 m "inode" 0 true (JNum (itoa (qm_Inode m)))) by meta_in.
  rewrite (get_meta set_int m "size" 0 true (JNum (itoa (qm_Size m)))) by meta_in.
  rewrite (get_meta set_string m "rule_id" "" (nonempty (qm_RuleID m)) (JStr (qm_RuleID m))) by meta_in.
  cbn [set_string set_time set_uint64 set_int mbind option_bind].
  rewrite bytes_text, time_parse_print by done. cbn [mbind option_bind]. rewrite parseUint_itoa by done. cbn [mbind option_bind].
  pose proof (atoi_itoa _ H5) as Ha. unfold atoi in Ha. rewrite Ha.
  destruct m as [op at_ ino size [|c r]]; done.
Qed.

(** ** Names *)

Lemma joinPath_inj dir n m : joinPath dir n = joinPath dir m -> n = m.
Proof.
  unfold joinPath. case_bool_decide; [done|]. intros E. apply (f_equal (from (S (String.length dir)))) in E.
  by rewrite !from_app_sep in E.
Qed.

Lemma entry_name_join dir n : contains n "/" = false -> entry_name dir (joinPath dir n) = Some n.
Proof.
  intros Hn. unfold entry_name, joinPath. case_bool_decide; simpl; [by rewrite Hn|].
  rewrite <- string_app_assoc, hasPrefix_app, string_app_assoc, from_app_sep. simpl. by rewrite Hn.
Qed.

Lemma entry_name_inv dir k n : entry_name dir k = Some n -> k = joinPath dir n.
Proof.
  unfold entry_name, joinPath. case_bool_decide; simpl.
  - destruct (contains k "/"); [done|]. by intros [= ->].
  - destruct (hasPrefix k (dir +:+ "/")) eqn:Hp; [|done]. apply hasPrefix_split in Hp as [t ->]. simpl.
    rewrite string_app_assoc, from_app_sep. destruct (contains t "/"); [done|]. by intros [= ->].
Qed.

Lemma elem_of_dirNames fs dir n :
  n ∈ dirNames fs dir <-> exists k, is_Some (fs !! k) /\ entry_name dir k = Some n.
Proof.
  unfold dirNames. rewrite (elem_of_Permutation_proper n _ _ (sort_stable_perm _ _)), list_elem_of_omap. split.
  - intros ([k v] & Hk%elem_of_map_to_list & E). exists k. split; [by eexists|done].
  - intros (k & [v Hv] & E). exists (k, v). split; [by apply elem_of_map_to_list|done].
Qed.

(** The loop stops at the only entry whose metadata names the path. *)
Lemma restore_loop_finds dir fs path name meta names :
  name ∈ names -> entryMeta fs dir name = Some meta -> qm_OriginalPath meta = path ->
  (forall n m, n ∈ names -> n <> name -> entryMeta fs dir n = Some m -> qm_OriginalPath m <> path) ->
  restore_loop dir fs path None None names = restore_loop dir fs path None None [name].
Proof.
  intros Hin Hm Hp Hother. induction names as [|n names IH]; [by apply elem_of_nil in Hin|].
  destruct (decide (n = name)) as [->|Hne]; cbn [restore_loop].
  - rewrite Hm, (bool_decide_eq_true_2 _ Hp). simpl. done.
  - apply elem_of_cons in Hin as [->|Hin]; [done|].
    assert (restore_loop dir fs path None None names = restore_loop dir fs path None None [name]) as IH'.
    { apply IH; [done|]. intros n' m' Hn'. apply Hother. by right. }
    destruct (entryMeta fs dir n) as [m|] eqn:En; [|exact IH'].
    rewrite bool_decide_eq_false_2 by (eapply Hother; [left|done|done]). exact IH'.
Qed.

End MetaProofs.

(** ** Quarantine and restore *)

Lemma itoa_digits z : 0 <= z -> exists a l, rev (bytes (itoa z)) = a :: l /\ digit_char a = true.
Proof.
  intros Hz. unfold itoa. rewrite (proj2 (Z.ltb_ge z 0)), bytes_text by lia.
  destruct (udec_aux_head _ _ (udec_fuel z Hz)) as (Hd & a & t & E & _). unfold udec. rewrite E in *.
  assert (Forall (fun c => digit_char c = true) (rev (a :: t))) as HF by (apply Forall_rev; by apply forallb_Forall).
  destruct (rev (a :: t)) as [|c l] eqn:Er; [apply (f_equal length) in Er; rewrite length_rev in Er; done|].
  exists c, l. split; [done|]. by apply Forall_cons in HF as [? _].
Qed.

Lemma not_meta s z : 0 <= z -> hasSuffix (s +:+ itoa z) ".meta" = false.
Proof.
  intros Hz. unfold hasSuffix. rewrite bytes_app, rev_app_distr.
  destruct (itoa_digits z Hz) as (a & l & -> & Ha).
  change (text (rev (bytes ".meta"))) with "atem.". cbn [app text string_of_list_ascii String.prefix].
  destruct (ascii_dec "a" a) as [<-|]; [by vm_compute in Ha|done].
Qed.

Lemma suffix_meta s : hasSuffix (s +:+ ".meta") ".meta" = true.
Proof.
  unfold hasSuffix. rewrite bytes_app, rev_app_distr. change (text (rev (bytes ".meta"))) with "atem.".
  change (rev (bytes ".meta")) with (bytes "atem."). cbn [bytes list_ascii_of_string app text string_of_list_ascii].
  exact (hasPrefix_app "atem." (text (rev (bytes s)))).
Qed.

Lemma joinPath_meta dir n : joinPath dir n +:+ ".meta" = joinPath dir (n +:+ ".meta").
Proof. unfold joinPath. case_bool_decide; [done|]. by rewrite !string_app_assoc. Qed.

Lemma joinPath_ne dir n : dir <> "." -> joinPath dir n <> dir.
Proof.
  unfold joinPath. case_bool_decide; [done|]. intros _ E. apply (f_equal String.length) in E.
  rewrite !string_length_app in E. simpl in E. lia.
Qed.

Lemma readData_plain fs p n : fs !! p = Some n -> is_symlink n = false ->
  readData fs p = match n.(n_kind) with KFile d => Some d | _ => None end.
Proof.
  intros Hp Hn. unfold readData, is_symlink in *. cbn [follow]. rewrite Hp.
  destruct (n_kind n) eqn:Ek; try done; cbn [mbind option_bind]; rewrite Hp; simpl; by rewrite Ek.
Qed.

Lemma readData_missing fs p : fs !! p = None -> readData fs p = None.
Proof. intros Hp. unfold readData. cbn [follow]. by rewrite Hp. Qed.

Lemma no_slash : ("/"%char ∉ bytes "_") /\ ("/"%char ∉ bytes ".meta").
Proof. split; apply (bool_decide_unpack _); vm_compute; done. Qed.

Section Roundtrip.
Context {UC : GoUnicode}.
Variables (dir path rule : string) (a : answers) (fs : tree) (data : list ascii) (ino size mode : Z).

Definition file : node := mkNode (KFile data) ino size mode.
Definition qname : string := quarantineName file a.(an_nano).
Definition qpath : string := joinPath dir qname.
Definition qmeta : QuarantineMeta := mkMeta path a.(an_now) ino size rule.

(** Nothing is refused; the quarantine directory is or becomes a directory
    without links in it; the file is outside; the name is new; no file of this
    path is in quarantine yet. *)
Definition ready : Prop :=
  dir <> "" /\ dir <> "." /\ an_mkdir a = None /\ an_open a = None /\ an_fstat a = None /\ an_rename a = None
  /\ an_reopen a = None /\ an_chmod a = None /\ an_meta a = None
  /\ fs !! path = Some file /\ path <> dir /\ entry_name dir path = None
  /\ (forall d, fs !! dir = Some d -> is_dir d = true) /\ is_dir (an_newdir a) = true
  /\ fs !! qpath = None /\ fs !! (qpath +:+ ".meta") = None
  /\ (forall n d, fs !! joinPath dir n = Some d -> is_symlink d = false)
  /\ 0 <= an_nano a /\ meta_ok qmeta
  /\ (forall n m, entryMeta fs dir n = Some m -> qm_OriginalPath m <> path).

Hypothesis Hready : ready.

Definition with_dir : tree := ensureDir dir (an_newdir a) fs.
Definition meta_node : node := mkNode (KFile (meta_text qmeta)) (an_ino a) (Z.of_nat (length (meta_text qmeta))) mode600.
Definition held : tree := <[qpath +:+ ".meta" := meta_node]> (<[qpath := with_mode 0 file]> (delete path with_dir)).

Lemma qname_plain : contains qname "/" = false /\ hasSuffix qname ".meta" = false.
Proof.
  destruct Hready as (_ & _ & _ & _ & _ & _ & _ & _ & _ & _ & _ & _ & _ & _ & _ & _ & _ & Hn & (_ & _ & _ & Hi & _) & _).
  simpl in Hi. unfold qname, quarantineName. simpl n_ino. split_and!.
  - apply not_true_iff_false. rewrite contains_slash, !bytes_app, !elem_of_app. intros [H|[H|H]].
    + apply (itoa_no_slash ino) in H; [done|lia].
    + by apply (proj1 no_slash).
    + by apply (itoa_no_slash (an_nano a)) in H; [|lia].
  - rewrite <- string_app_assoc. by apply not_meta.
Qed.

Lemma lookup_with_dir k : k <> dir -> with_dir !! k = fs !! k.
Proof. intros Hk. unfold with_dir, ensureDir. destruct (fs !! dir); [done|]. by apply lookup_insert_ne. Qed.

Lemma names_apart : qpath <> path /\ qpath <> dir /\ qpath +:+ ".meta" <> path /\ qpath +:+ ".meta" <> dir
  /\ qpath <> qpath +:+ ".meta".
Proof.
  destruct qname_plain as (Hs & Hm).
  destruct Hready as (_ & Hdot & _ & _ & _ & _ & _ & _ & _ & Hf & Hpd & Hpe & _ & _ & Hq & Hqm & _). unfold qpath in *. split_and!.
  - intros E. rewrite <- E, entry_name_join in Hpe by done. done.
  - by apply joinPath_ne.
  - intros E. congruence.
  - rewrite joinPath_meta. by apply joinPath_ne.
  - intros E. apply (f_equal String.length) in E. rewrite string_length_app in E. simpl in E. lia.
Qed.

Lemma apply_holds :
  ApplyQuarantine (mkQuarantine dir false) a fs path rule
  = (quarantined true ("quarantined " +:+ path +:+ " -> " +:+ qpath), held).
Proof.
  destruct names_apart as (Hn1 & Hn2 & Hn3 & Hn4 & Hn5).
  destruct Hready as (Hd & _ & E1 & E2 & E3 & E4 & E5 & E6 & E7 & Hf & Hpd & _).
  unfold ApplyQuarantine. cbn [q_DryRun q_Dir]. rewrite E1, E2, E3, E4, E5, E6, E7. rewrite (bool_decide_eq_false_2 _ Hd). fold with_dir.
  rewrite lookup_with_dir, Hf by done. cbn [is_symlink file n_kind]. fold qname qpath qmeta.
  f_equal. unfold held. f_equal. unfold move. rewrite lookup_with_dir, Hf by done. cbn [is_dir file n_kind].
  by rewrite alter_insert_eq.
Qed.

Lemma held_other n : n <> qname -> n <> qname +:+ ".meta" -> entry_name dir (joinPath dir n) <> None ->
  held !! joinPath dir n = fs !! joinPath dir n.
Proof.
  intros H1 H2 H4. destruct Hready as (_ & Hdot & _ & _ & _ & _ & _ & _ & _ & _ & _ & Hpe & _). unfold held.
  rewrite lookup_insert_ne by (unfold qpath; rewrite joinPath_meta; by intros ?%joinPath_inj).
  rewrite lookup_insert_ne by (unfold qpath; by intros ?%joinPath_inj).
  rewrite lookup_delete_ne by congruence. apply lookup_with_dir. by apply joinPath_ne.
Qed.

Lemma held_entry : entryMeta held dir qname = Some qmeta.
Proof.
  destruct qname_plain as (_ & Hm). destruct names_apart as (_ & _ & _ & _ & Hn).
  destruct Hready as (_ & _ & _ & _ & _ & _ & _ & _ & _ & _ & _ & _ & _ & _ & _ & _ & _ & _ & Hok & _).
  unfold entryMeta. fold qpath. rewrite Hm. unfold held at 1. rewrite lookup_insert_ne, lookup_insert_eq by done.
  cbn [is_dir with_mode n_kind file orb].
  rewrite (readData_plain held _ meta_node) by (done || apply lookup_insert_eq). by apply meta_roundtrip.
Qed.

Lemma qpath_listed : qname ∈ dirNames held dir.
Proof.
  destruct qname_plain as (Hs & _). destruct names_apart as (_ & _ & _ & _ & Hn).
  apply elem_of_dirNames. exists qpath. split; [|by apply entry_name_join].
  unfold held. rewrite lookup_insert_ne, lookup_insert_eq by done. by eexists.
Qed.

Lemma held_others n m : n ∈ dirNames held dir -> n <> qname -> entryMeta held dir n = Some m -> qm_OriginalPath m <> path.
Proof.
  intros Hin Hne. destruct qname_plain as (Hs & Hm).
  apply elem_of_dirNames in Hin as (k & _ & E). pose proof (entry_name_inv _ _ _ E) as ->.
  destruct Hready as (_ & Hdot & _ & _ & _ & _ & _ & _ & _ & _ & _ & _ & _ & _ & _ & _ & Hlink & _ & _ & Hother).
  unfold entryMeta. destruct (hasSuffix n ".meta") eqn:Hns; [by rewrite orb_true_r|]. rewrite orb_false_r.
  assert (n <> qname +:+ ".meta") as Hn2 by (intros ->; by rewrite suffix_meta in Hns).
  assert (contains (n +:+ ".meta") "/" = false) as Hc.
  { unfold entry_name in E. apply not_true_iff_false. rewrite contains_slash, bytes_app, elem_of_app. intros [H|H].
    - apply contains_slash in H. destruct (if dir == "." then _ else _) as [x|]; [|done]. simpl in E.
      destruct (contains x "/") eqn:Ex; [done|]. injection E as ->. by rewrite H in Ex.
    - by apply (proj2 no_slash). }
  assert (held !! joinPath dir (n +:+ ".meta") = fs !! joinPath dir (n +:+ ".meta")) as Hmeta.
  { apply held_other; [intros H; by rewrite <- H, suffix_meta in Hm| |by rewrite entry_name_join].
    intros H. apply (f_equal bytes) in H. rewrite !bytes_app in H. apply app_inv_tail in H.
    apply (f_equal text) in H. by rewrite !text_bytes in H. }
  rewrite joinPath_meta.
  assert (readData held (joinPath dir (n +:+ ".meta")) = readData fs (joinPath dir (n +:+ ".meta"))) as ->.
  { destruct (fs !! joinPath dir (n +:+ ".meta")) as [d|] eqn:Ed; [|by rewrite !readData_missing by congruence].
    by rewrite !(readData_plain _ _ d) by (congruence || by eapply Hlink). }
  intros H. eapply (Hother n). unfold entryMeta. rewrite Hns, orb_false_r, joinPath_meta.
  rewrite held_other in H by (done || by rewrite E). exact H.
Qed.

(** The quarantine directory is there. *)
Lemma held_dir : exists d, held !! dir = Some d /\ is_dir d = true.
Proof.
  destruct names_apart as (_ & Hn2 & _ & Hn4 & _).
  destruct Hready as (_ & _ & _ & _ & _ & _ & _ & _ & _ & _ & Hpd & _ & Hd & Hnew & _). unfold held.
  rewrite !lookup_insert_ne, lookup_delete_ne by congruence. unfold with_dir, ensureDir.
  destruct (fs !! dir) as [d|] eqn:E; [exists d; by rewrite E, (Hd d)|].
  exists (an_newdir a). by rewrite lookup_insert_eq.
Qed.

Lemma restore_held :
  Restore (mkQuarantine dir false) None None None held path
  = (restored true ("restored " +:+ path), <[path := with_mode mode600 file]> with_dir).
Proof.
  destruct names_apart as (Hn1 & Hn2 & Hn3 & Hn4 & Hn5).
  unfold Restore. cbn [q_Dir]. destruct held_dir as (d & -> & _).
  rewrite (restore_loop_finds _ _ _ qname qmeta) by (apply qpath_listed || apply held_entry || done || apply held_others).
  cbn [restore_loop]. rewrite held_entry. rewrite bool_decide_eq_true_2 by done. cbn [negb]. fold qpath.
  assert (held !! qpath = Some (with_mode 0 file)) as Hq by (unfold held; by rewrite lookup_insert_ne, lookup_insert_eq).
  unfold chmod. cbn [follow]. rewrite Hq. cbn [n_kind with_mode file mbind option_bind]. f_equal.
  unfold move. rewrite lookup_alter_eq, Hq. cbn [fmap option_fmap option_map is_dir with_mode n_kind file].
  change (with_mode mode600 (with_mode 0 file)) with (with_mode mode600 file). unfold held.
  destruct Hready as (_ & _ & _ & _ & _ & _ & _ & _ & _ & _ & Hpd & _ & _ & _ & Hfq & Hfm & _).
  apply map_eq. intros k. destruct (decide (k = path)) as [->|Hp].
  { rewrite lookup_delete_ne, !lookup_insert_eq by done. done. }
  rewrite (lookup_insert_ne _ path k) by done. destruct (decide (k = qpath +:+ ".meta")) as [->|Hk].
  { rewrite lookup_delete_eq, lookup_with_dir by done. done. }
  rewrite lookup_delete_ne, lookup_insert_ne by done. destruct (decide (k = qpath)) as [->|Hk2].
  { rewrite lookup_delete_eq, lookup_with_dir by done. done. }
  by rewrite lookup_delete_ne, lookup_alter_ne, !lookup_insert_ne, lookup_delete_ne by done.
Qed.

Lemma held_listed : exists ms, ListQuarantined (mkQuarantine dir false) false held = Some ms /\ qmeta ∈ ms.
Proof.
  destruct held_dir as (d & Ed & Hd). unfold ListQuarantined. cbn [q_Dir]. rewrite Ed, Hd. cbn [negb orb].
  eexists. split; [reflexivity|]. apply list_elem_of_omap. exists qname. split; [apply qpath_listed|apply held_entry].
Qed.

End Roundtrip.

(** C31. Quarantining a regular file, when nothing is refused and no file of the
    same path is in quarantine yet, takes it away from its path, keeps it in the
    quarantine directory without permissions, and the listing succeeds and has
    it; restoring the path brings back the same file (content, inode, size; the
    mode is 0600) and leaves every other file as it was, the quarantine
    directory apart. *)
Theorem quarantine_restore {UC : GoUnicode} dir path rule a fs data ino size mode :
  ready dir path rule a fs data ino size mode ->
  exists detail fs1,
    ApplyQuarantine (mkQuarantine dir false) a fs path rule = (mkResult "quarantine" true detail, fs1)
    /\ fs1 !! path = None
    /\ (exists name, fs1 !! joinPath dir name = Some (mkNode (KFile data) ino size 0))
    /\ (exists ms, ListQuarantined (mkQuarantine dir false) false fs1 = Some ms /\ mkMeta path (an_now a) ino size rule ∈ ms)
    /\ Restore (mkQuarantine dir false) None None None fs1 path
       = (mkResult "quarantine_restore" true ("restored " +:+ path),
          <[path := mkNode (KFile data) ino size mode600]> (ensureDir dir (an_newdir a) fs)).
Proof.
  intros Hr. destruct (names_apart _ _ _ _ _ _ _ _ _ Hr) as (Hn1 & Hn2 & Hn3 & Hn4 & Hn5).
  eexists _, (held dir path rule a fs data ino size mode). split_and!.
  - by apply apply_holds.
  - unfold held. by rewrite !lookup_insert_ne, lookup_delete_eq by done.
  - exists (qname a data ino size mode). unfold held. fold (qpath dir a data ino size mode).
    by rewrite lookup_insert_ne, lookup_insert_eq by done.
  - by eapply held_listed.
  - by apply restore_held.
Qed.

(** ** Concrete files *)

Module Sample.

#[local] Instance unicode : GoUnicode := {| uni_equalFold := String.eqb; uni_toLower := id |}.

Definition dnode : node := mkNode KDir 2 4096 448.
Definition ans : answers := mkAnswers 5 (mkTime 2024 5 1 12 0 0 0 0) dnode 9 None None None None None None None.
Definition fs0 : tree := {[ "/a" := mkNode (KFile (bytes "x")) 7 1 493 ]}.

Lemma ready0 : ready "/q" "/a" "r" ans fs0 (bytes "x") 7 1 493.
Proof.
  assert (forall k n, fs0 !! k = Some n -> k = "/a") as H0.
  { intros k n H. destruct (decide (k = "/a")); [done|]. unfold fs0 in H. by rewrite lookup_singleton_ne in H. }
  unfold ready. split_and!; try done.
  intros n m. unfold entryMeta. destruct (_ || _); [done|]. rewrite readData_missing; [done|].
  destruct (fs0 !! (joinPath "/q" n +:+ ".meta")) as [d|] eqn:E; [|done]. by apply H0 in E.
Qed.

Lemma quarantine_restore_witness :
  exists detail fs1,
    ApplyQuarantine (mkQuarantine "/q" false) ans fs0 "/a" "r" = (mkResult "quarantine" true detail, fs1)
    /\ (Restore (mkQuarantine "/q" false) None None None fs1 "/a").1 = mkResult "quarantine_restore" true "restored /a".
Proof.
  destruct (quarantine_restore "/q" "/a" "r" ans fs0 (bytes "x") 7 1 493 ready0) as (detail & fs1 & H1 & _ & _ & _ & H2).
  exists detail, fs1. split; [exact H1|]. by rewrite H2.
Defined.

(** A link is moved before the second [open] refuses it: it is gone from its
    path, the result is a failure, and without metadata it cannot be restored. *)
Example symlink_lost :
  let '(res, fs1) := ApplyQuarantine (mkQuarantine "/q" false) ans {[ "/l" := mkNode (KLink "/etc") 7 4 511 ]} "/l" "r" in
  (r_Success res, fs1 !! "/l", r_Success (Restore (mkQuarantine "/q" false) None None None fs1 "/l").1)
  = (false, None, false).
Proof. vm_compute. reflexivity. Qed.

(** A directory is quarantined and listed nowhere, so it is not restored. *)
Example directory_not_restored :
  let '(res, fs1) := ApplyQuarantine (mkQuarantine "/q" false) ans {[ "/d" := dnode ]} "/d" "r" in
  (r_Success res, fs1 !! "/d", r_Success (Restore (mkQuarantine "/q" false) None None None fs1 "/d").1)
  = (true, None, false).
Proof. vm_compute. reflexivity. Qed.

(** Of two files of the same path the one whose name is first in the directory
    comes back, here the second one, and the other stays. *)
Example same_path_shadowed :
  let second := mkAnswers 6 (mkTime 2024 5 1 12 0 0 0 0) dnode 10 None None None None None None None in
  let q := mkQuarantine "/q" false in
  let fs1 := (ApplyQuarantine q ans fs0 "/a" "r").2 in
  let fs2 := (ApplyQuarantine q second (<["/a" := mkNode (KFile (bytes "y")) 11 1 493]> fs1) "/a" "r").2 in
  let '(res, fs3) := Restore q None None None fs2 "/a" in
  (r_Success res, n_ino <$> fs3 !! "/a", n_ino <$> fs3 !! "/q/7_5") = (true, Some 11, Some 7).
Proof. vm_compute. reflexivity. Qed.

(** Without a directory, as the agent's main program builds the provider,
    every quarantine fails. *)
Example unconfigured_fails :
  (ApplyQuarantine (mkQuarantine "" false) ans fs0 "/a" "r").1
  = mkResult "quarantine" false "mkdir quarantine dir: mkdir : no such file or directory".
Proof. vm_compute. reflexivity. Qed.

End Sample.
