(* ===== verification/Responder.v ===== *)
(** * The responder ([internal/response/response.go], [SoftResponder])

    [Apply] dispatches an action to the routines of [Response], [Nft] and
    [Quarantine].  What the operating system answers during the call is the
    argument [Host]; what a response changes is the [Machine] (files and the
    record of stopped processes), the signals it sends and the commands it
    runs. *)

From S2P Require Import Prelude GoStrings Json GoJson GoTime EventLog Response Nft Quarantine.

#[local] Open Scope string_scope.
#[local] Open Scope list_scope.
#[local] Open Scope Z_scope.

Record SoftResponder := mkResponder { sr_DryRun : bool; NFT : NFTProvider; Quarantine_ : QuarantineProvider }.

Record Host := mkHost {
  h_sys : Sys; h_at_kill : Z -> Sys; h_shell : Shell; h_answers : answers; h_chmod : option string;
}.

Record Machine := mkMachine { files_ : tree; suspended : suspended_map }.

Record outcome := mkOutcome { o_result : Result; o_machine : Machine; o_sent : list (Z * Signal); o_ran : list (list string) }.

Section Responder.
Context {UC : GoUnicode}.
Variable iter : nat -> gmap Z Z -> list (Z * Z).
Variable sort_slice : list procNode -> list procNode.

Definition Apply (r : SoftResponder) (h : Host) (m : Machine) (req : ActionRequest) : outcome :=
  let act := req.(Action) in
  let only ok detail := mkOutcome (mkResult act ok detail) m [] [] in
  let s := h.(h_sys) in
  if r.(sr_DryRun) || (act == "") || (act == "none") then only true "recorded only"
  else if act == "kill" then
    if req.(PID) <=? 1 then only false "refusing to kill protected pid"
    else if negb (sameProcess s req) then only false "process identity changed before kill"
    else let '(res, sent) := killPID s act req.(PID) in mkOutcome res m sent []
  else if act == "fix_permissions" then
    if req.(Path) == "" then only false "path required"
    else match chmodNoFollow m.(files_) req.(Path) mode600 h.(h_chmod) with
    | (Some e, _) => only false e
    | (None, fs) => mkOutcome (mkResult act true "chmod 0600 applied") (mkMachine fs m.(suspended)) [] []
    end
  else if act == "quarantine" then
    if req.(Path) == "" then only false "path required for quarantine"
    else
      let '(res, fs) := ApplyQuarantine r.(Quarantine_) h.(h_answers) m.(files_) req.(Path) req.(RuleID) in
      mkOutcome res (mkMachine fs m.(suspended)) [] []
  else if act == "kill_tree" then
    if req.(PID) <=? 1 then only false "refusing to kill protected pid"
    else
      let '(res, sent) := KillTree iter sort_slice s h.(h_at_kill) req.(PID) req.(ProcessPath) req.(StartTicks) in
      mkOutcome res m sent []
  else if act == "process_suspend" then
    if req.(PID) <=? 1 then only false "refusing to suspend protected pid"
    else
      let '(res, susp, sent) := Suspend s m.(suspended) req.(PID) req.(ProcessPath) req.(StartTicks) in
      mkOutcome res (mkMachine m.(files_) susp) sent []
  else if act == "network_isolate" then
    let '(res, ran) := ApplyIsolate r.(NFT) h.(h_shell) in mkOutcome res m [] ran
  else if act == "nft_block" then
    let '(res, ran) := ApplyBlock r.(NFT) h.(h_shell) req in mkOutcome res m [] ran
  else if act == "fanotify_deny" then only true "fanotify deny recorded"
  else only false "unsupported action".

Definition NFTList (r : SoftResponder) (sh : Shell) : Result * list (list string) := ListRules r.(NFT) sh.
Definition NFTRollback (r : SoftResponder) (sh : Shell) : Result * list (list string) := Rollback r.(NFT) sh.

End Responder.

(** ** What a response may touch *)

Definition is_kill (sent : list (Z * Signal)) : Prop := Forall (fun ps => 1 < ps.1 /\ ps.2 = SIGKILL) sent.

Lemma killSingle_is_kill s pid path ticks : is_kill (killSingleProcess s pid path ticks).2.
Proof.
  rewrite killSingleProcess_sent. destruct (r_Success _) eqn:E; [|constructor].
  repeat constructor. by eapply killSingleProcess_success.
Qed.

Lemma kill_all_is_kill at_kill root ds : is_kill (kill_all at_kill root ds).2.
Proof.
  induction ds as [|d ds IH]; [constructor|]. cbn [kill_all]. case_bool_decide; [done|].
  pose proof (killSingle_is_kill (at_kill (n_pid d)) (n_pid d) "" "") as H1.
  destruct (killSingleProcess _ _ _ _) as [r sent]. destruct (kill_all at_kill root ds) as [[k errs] sent2].
  destruct (r_Success r); by apply Forall_app.
Qed.

Lemma KillTree_is_kill iter sort_slice s at_kill pid path ticks : is_kill (KillTree iter sort_slice s at_kill pid path ticks).2.
Proof.
  unfold KillTree. destruct (pid <=? 1); [constructor|]. destruct (buildProcessTree s); [|constructor].
  destruct (findDescendants iter a pid) as [|d ds]; [apply killSingle_is_kill|].
  pose proof (kill_all_is_kill at_kill pid (sort_slice (d :: ds))) as H1.
  destruct (kill_all at_kill pid _) as [[k errs] sent].
  pose proof (killSingle_is_kill (at_kill pid) pid path ticks) as H2.
  destruct (killSingleProcess _ _ _ _) as [r sent2]. by apply Forall_app.
Qed.

Lemma Suspend_sent s m pid path ticks :
  Forall (fun ps => ps = (pid, SIGSTOP)) (Suspend s m pid path ticks).2.
Proof.
  unfold Suspend, signalPID, pidfdSignal. repeat case_match; simplify_eq/=; repeat constructor.
Qed.

Lemma isolate_dry `{GoUnicode} p sh : (ApplyIsolate p sh).2 <> [] -> DryRun p = false /\ Enabled p = true.
Proof.
  unfold ApplyIsolate. destruct (DryRun p), (Enabled p); simpl; try done.
Qed.

Lemma block_dry `{GoUnicode} p sh req : (ApplyBlock p sh req).2 <> [] -> DryRun p = false /\ Enabled p = true.
Proof.
  unfold ApplyBlock. case_bool_decide; simpl; [|done]. destruct (DryRun p), (Enabled p); simpl; done.
Qed.

(** The process of a request is the one it names. *)
Lemma sameProcess_req s req : sameProcess s req = true -> identified s (PID req) (ProcessPath req) (StartTicks req).
Proof. intros H. apply sameProcess_iff. exact H. Qed.

(** C30. What a response touches is confined to its action.  A dry run and the
    empty actions touch nothing.  A process is killed only by [kill], and then
    only the named one whose executable and start time agree with the request,
    or by [kill_tree]; it is stopped only by [process_suspend], and then only
    the named one; never pid 1 or below.  Files change only under
    [fix_permissions] and [quarantine], commands run only under [nft_block] and
    [network_isolate] on a live and enabled provider. *)
Theorem responder_confined {UC : GoUnicode} iter sort_slice r h m req :
  let o := Apply iter sort_slice r h m req in
  (sr_DryRun r = true \/ Action req = "" \/ Action req = "none" ->
     o_machine o = m /\ o_sent o = [] /\ o_ran o = [] /\ r_Success (o_result o) = true)
  /\ Forall (fun ps => 1 < ps.1 /\
       match ps.2 with
       | SIGKILL => (Action req = "kill" /\ ps.1 = PID req
                     /\ identified (h_sys h) (PID req) (ProcessPath req) (StartTicks req)) \/ Action req = "kill_tree"
       | SIGSTOP => Action req = "process_suspend" /\ ps.1 = PID req
       | SIGCONT => False
       end) (o_sent o)
  /\ (files_ (o_machine o) <> files_ m -> Action req = "fix_permissions" \/ Action req = "quarantine")
  /\ (suspended (o_machine o) <> suspended m -> Action req = "process_suspend")
  /\ (o_ran o <> [] -> (Action req = "nft_block" \/ Action req = "network_isolate")
                       /\ DryRun (NFT r) = false /\ Enabled (NFT r) = true).
Proof.
  unfold Apply. cbv zeta.
  destruct (sr_DryRun r || (Action req == "") || (Action req == "none")) eqn:Ed; [split_and!; try done; auto|].
  assert (~ (sr_DryRun r = true \/ Action req = "" \/ Action req = "none")) as Hnot.
  { apply orb_false_iff in Ed as [[E1 E2]%orb_false_iff E3]. bool_props. intros [?|[?|?]]; congruence. }
  split; [intros ?; by destruct Hnot|]. clear Ed Hnot.
  repeat (case_bool_decide as Ea; [|clear Ea]).
  - destruct (Z.leb_spec (PID req) 1); [split_and!; try done; auto|].
    destruct (sameProcess (h_sys h) req) eqn:Es; simpl; [|split_and!; try done; auto].
    pose proof (killPID_sent (h_sys h) (Action req) (PID req)) as Hs.
    destruct (killPID _ _ _) as [res sent]. simpl in *. split_and!; try done. subst sent.
    destruct (r_Success res); [apply Forall_cons_2|]; try apply Forall_nil_2. simpl. split; [done|left].
    split_and!; [done|done|by apply sameProcess_req].
  - destruct (Path req == ""); [split_and!; try done; auto|].
    destruct (chmodNoFollow _ _ _ _) as [[e|] fs]; split_and!; simpl; try done; try apply Forall_nil_2; auto.
  - destruct (Path req == ""); [split_and!; try done; auto|].
    destruct (ApplyQuarantine _ _ _ _ _) as [res fs]. split_and!; simpl; try done; try apply Forall_nil_2; auto.
  - destruct (Z.leb_spec (PID req) 1); [split_and!; try done; auto|].
    pose proof (KillTree_is_kill iter sort_slice (h_sys h) (h_at_kill h) (PID req) (ProcessPath req) (StartTicks req)) as Hk.
    destruct (KillTree _ _ _ _ _ _ _) as [res sent]. simpl in *. split_and!; try done.
    eapply Forall_impl; [exact Hk|]. intros [p sg] [Hp ->]. simpl in *. auto.
  - destruct (Z.leb_spec (PID req) 1); [split_and!; try done; auto|].
    pose proof (Suspend_sent (h_sys h) (suspended m) (PID req) (ProcessPath req) (StartTicks req)) as Hk.
    destruct (Suspend _ _ _ _ _) as [[res susp] sent]. simpl in *. split_and!; try done.
    eapply Forall_impl; [exact Hk|]. intros [p sg] [= -> ->]. simpl. auto.
  - pose proof (isolate_dry (NFT r) (h_shell h)) as Hi. destruct (ApplyIsolate _ _) as [res ran]. simpl in *.
    split_and!; try done; auto.
  - pose proof (block_dry (NFT r) (h_shell h) req) as Hi. destruct (ApplyBlock _ _ _) as [res ran]. simpl in *.
    split_and!; try done; auto.
  - split_and!; try done; auto.
  - split_and!; try done; auto.
Qed.
