(* ===== verification/Agent.v ===== *)
(** * The agent ([internal/control/agent.go])

    The agent as a state-passing program: a state ([St]) with the agent's
    fields, the suppressor's state file and the effects so far, and an
    environment ([Env]) that answers its questions.  Every question (the clock,
    a file of /proc, the responder, the collector) carries the number of
    questions asked before it, so the environment may answer differently each
    time.  A goroutine's channel is a bounded queue, and one round of the
    goroutine is an operation.  The locks make each operation on the agent's
    fields atomic; the logger and the responder are known through their
    interfaces, as the effects [ELog] and [EApply]. *)

From S2P Require Import Prelude GoStrings GoTime GoJson Crypto EventLog Response BpfEvent Loader Collector Suppress Policy.

(** ** Data *)

(** The values of [map[string]any] the agent builds; [.(int)] and [.(string)]
    tell the integer types apart. *)
Inductive any :=
| AInt (z : Z) | AI32 (z : Z) | AU32 (z : Z) | AI64 (z : Z) | AStr (s : string) | ATime (t : Time) | AResult (r : Result).

Definition attrs := list (string * any).

Definition attr (m : attrs) (k : string) : option any := snd <$> List.find (fun kv => kv.1 == k) m.
Definition as_int (v : option any) : option Z := match v with Some (AInt z) => Some z | _ => None end.
Definition as_string (v : option any) : option string := match v with Some (AStr s) => Some s | _ => None end.

(** A fresh map with the same entries. *)
Definition copyMap (m : option attrs) : option attrs := m.

Definition result_value (r : Result) : gval :=
  GStruct [("action", GStr (Response.r_Action r)); ("success", GBool (r_Success r)); ("detail", GStr (r_Detail r))].

Definition any_value (v : any) : gval :=
  match v with
  | AInt z | AI32 z | AU32 z | AI64 z => GInt z
  | AStr s => GStr s
  | ATime t => GStr (text (time_print t))
  | AResult r => result_value r
  end.

Record ResponseRecord := mkRecord {
  rr_Timestamp : Z; rr_RuleID : string; rr_Category : string; rr_Subject : option attrs; rr_Object : option attrs;
  rr_Request : ActionRequest; rr_Result : Result;
}.

(** The fields of an [eventlog.Event] the agent sets. *)
Record Entry := mkEntry {
  en_EventID : string; en_Category : string; en_Severity : string; en_Subject : option attrs;
  en_Object : option attrs; en_Action : string; en_Decision : string; en_RuleID : string; en_Evidence : attrs;
}.

(** The event handed to the logger. *)
Definition entry_event (e : Entry) : EventLog.Event :=
  let values m := map (fun kv => (kv.1, any_value kv.2)) (default [] m) in
  EventLog.mkEvent "" "" "" 0 "" "" "" timeZero e.(en_EventID) "" e.(en_Category) e.(en_Severity)
    (values e.(en_Subject)) (values e.(en_Object)) e.(en_Action) e.(en_Decision) e.(en_RuleID)
    (values (Some e.(en_Evidence))).

Record deferredEval := mkDeferred {
  de_pid : Z; de_ppid : Z; de_uid : Z; de_comm : string; de_filename : string; de_ts : Z;
}.

Section Agent.
Context {UC : GoUnicode} {FO : FloatOps}.

Record Counters := mkCounters {
  RunCount : Z; EventCount : Z; ResponseCount : Z; SuppressedTotal : Z;
  SuppressionReasons : gmap string Z; RuleHits : gmap string Z;
}.

(** The two channels are open here, as they are from [Init] to [Shutdown]; what
    a closed channel does to the goroutines that send on it is in [Workers]. *)
Record Agent := mkAgent {
  a_Policy : Policy; a_Suppressor : option Suppressor; a_SuppressorStatePath : string;
  a_History : list ResponseRecord; a_MaxHistory : Z; a_ResponsePath : string; a_counters : Counters;
  a_responseCh : option (list ResponseRecord); a_deferredCh : option (list deferredEval); a_Logger : bool;
}.

Inductive effect :=
| ELog (e : Entry)
| EApply (req : ActionRequest) (res : Result)
| ESignal (pid : Z) (sig : Signal)
| EAppend (rec : ResponseRecord)          (** a line of the response file *)
| EDropRecord (rec : ResponseRecord)      (** the response channel is full *)
| EDropExec (pid : Z).                    (** the deferred channel is full *)

Record St := mkSt { ag : Agent; stateFile_ : stateFile; tick : nat; effects : list effect }.

Record Env := mkEnv {
  clock : nat -> Z;                                   (** [time.Now], in Unix nanoseconds *)
  local : Z -> Clock;                                 (** its local hour and minute *)
  apply_ : nat -> ActionRequest -> Result;            (** [Responder.Apply] *)
  snapshot : nat -> option Snapshot;                  (** [Collector.Snapshot] *)
  alive : nat -> Z -> bool;                           (** [kill(pid, 0)] *)
  readlink : nat -> string -> option string;
  readfile : nat -> string -> option string;
  readmaps : nat -> string -> option string;          (** a first read of at most 4096 bytes *)
  sys : nat -> Sys;
  getpid : Z;
}.

Variable env : Env.

(** ** The state monad *)

Definition M (A : Type) : Type := St -> A * St.

Definition ret {A} (x : A) : M A := fun s => (x, s).
Definition bind {A B} (m : M A) (k : A -> M B) : M B := fun s => let '(x, s) := m s in k x s.
#[local] Notation "x <~ m ; k" := (bind m (fun x => k)) (at level 100, m at next level, right associativity).
#[local] Notation "m ;; k" := (bind m (fun _ => k)) (at level 100, k at level 200, right associativity).

(** The [tick]-th answer of the environment. *)
Definition ask {A} (f : nat -> A) : M A := fun s =>
  (f s.(tick), mkSt s.(ag) s.(stateFile_) (S s.(tick)) s.(effects)).
Definition now_ : M Z := ask env.(clock).
Definition emit (e : effect) : M () := fun s =>
  (tt, mkSt s.(ag) s.(stateFile_) s.(tick) (s.(effects) ++ [e])).
Definition getA : M Agent := fun s => (s.(ag), s).
Definition modA (f : Agent -> Agent) : M () := fun s =>
  (tt, mkSt (f s.(ag)) s.(stateFile_) s.(tick) s.(effects)).
Definition log_ (e : Entry) : M () := emit (ELog e).
Definition when (c : bool) (m : M ()) : M () := if c then m else ret ().

Fixpoint each {A} (l : list A) (f : A -> M ()) : M () :=
  match l with [] => ret () | x :: l => bind (f x) (fun _ => each l f) end.

(** Field updates. *)
Definition set_counters (a : Agent) (c : Counters) : Agent :=
  mkAgent a.(a_Policy) a.(a_Suppressor) a.(a_SuppressorStatePath) a.(a_History) a.(a_MaxHistory) a.(a_ResponsePath)
    c a.(a_responseCh) a.(a_deferredCh) a.(a_Logger).
Definition set_suppressor (a : Agent) (s : option Suppressor) : Agent :=
  mkAgent a.(a_Policy) s a.(a_SuppressorStatePath) a.(a_History) a.(a_MaxHistory) a.(a_ResponsePath)
    a.(a_counters) a.(a_responseCh) a.(a_deferredCh) a.(a_Logger).
Definition set_history (a : Agent) (h : list ResponseRecord) (n : Z) : Agent :=
  mkAgent a.(a_Policy) a.(a_Suppressor) a.(a_SuppressorStatePath) h n a.(a_ResponsePath)
    a.(a_counters) a.(a_responseCh) a.(a_deferredCh) a.(a_Logger).
Definition set_channels (a : Agent) (r : option (list ResponseRecord)) (d : option (list deferredEval)) : Agent :=
  mkAgent a.(a_Policy) a.(a_Suppressor) a.(a_SuppressorStatePath) a.(a_History) a.(a_MaxHistory) a.(a_ResponsePath)
    a.(a_counters) r d a.(a_Logger).

Definition incr (z : Z) : Z := wrapu 64 (z + 1).
Definition incr_at (k : string) (m : gmap string Z) : gmap string Z := <[k := incr (default 0 (m !! k))]> m.

Definition add_run (c : Counters) : Counters :=
  mkCounters (incr c.(RunCount)) c.(EventCount) c.(ResponseCount) c.(SuppressedTotal) c.(SuppressionReasons) c.(RuleHits).
Definition add_event (c : Counters) : Counters :=
  mkCounters c.(RunCount) (incr c.(EventCount)) c.(ResponseCount) c.(SuppressedTotal) c.(SuppressionReasons) c.(RuleHits).
Definition add_response (c : Counters) (event : bool) : Counters :=
  mkCounters c.(RunCount) (if event then incr c.(EventCount) else c.(EventCount)) (incr c.(ResponseCount))
    c.(SuppressedTotal) c.(SuppressionReasons) c.(RuleHits).
Definition add_hit (ruleID : string) (c : Counters) : Counters :=
  mkCounters c.(RunCount) c.(EventCount) c.(ResponseCount) c.(SuppressedTotal) c.(SuppressionReasons)
    (incr_at ruleID c.(RuleHits)).
Definition add_suppressed (reason : option string) (c : Counters) : Counters :=
  mkCounters c.(RunCount) c.(EventCount) c.(ResponseCount) (incr c.(SuppressedTotal))
    (match reason with Some r => incr_at r c.(SuppressionReasons) | None => c.(SuppressionReasons) end) c.(RuleHits).

Definition count (f : Counters -> Counters) : M () := modA (fun a => set_counters a (f a.(a_counters))).

(** ** Records and counters *)

Definition channelCap : nat := 256.

Definition Init : M () :=
  modA (fun a => set_channels a
    (match a.(a_responseCh) with
     | None => if a.(a_ResponsePath) != "" then Some [] else None
     | ch => ch end)
    (match a.(a_deferredCh) with None => Some [] | ch => ch end));;
  a <~ getA;
  match a.(a_Suppressor) with
  | Some sup =>
      if a.(a_SuppressorStatePath) != ""
      then fun s => (tt, mkSt (set_suppressor s.(ag) (Some (LoadState sup s.(stateFile_)).2))
                          s.(stateFile_) s.(tick) s.(effects))
      else ret ()
  | None => ret ()
  end.

Definition recordRuleHit (ruleID : string) : M () := count (add_hit ruleID).
Definition recordSuppressed (ruleID reason : string) : M () := count (add_suppressed (Some reason)).

(** The history after a record was added: the last [max] records. *)
Definition push_history (max : Z) (h : list ResponseRecord) (rec : ResponseRecord) : list ResponseRecord :=
  let h := h ++ [rec] in
  if max <? Z.of_nat (length h) then drop (Z.to_nat (Z.of_nat (length h) - max)) h else h.

Definition stamp (rec : ResponseRecord) (ts : Z) : ResponseRecord :=
  mkRecord ts rec.(rr_RuleID) rec.(rr_Category) rec.(rr_Subject) rec.(rr_Object) rec.(rr_Request) rec.(rr_Result).

Definition recordResponse (rec : ResponseRecord) : M () :=
  ts <~ now_;
  let rec := stamp rec ts in
  a <~ getA;
  let max := if a.(a_MaxHistory) <=? 0 then 256 else a.(a_MaxHistory) in
  modA (fun a => set_history a (push_history max a.(a_History) rec) max);;
  count (fun c => add_response c (r_Success rec.(rr_Result) || (r_Detail rec.(rr_Result) != "")));;
  if a.(a_ResponsePath) != "" then
    match a.(a_responseCh) with
    | Some q =>
        let '(sent, q) := try_send channelCap rec q in
        modA (fun a => set_channels a (Some q) a.(a_deferredCh));; when (negb sent) (emit (EDropRecord rec))
    | None => emit (EDropRecord rec)
    end
  else ret ().

(** One round of the goroutine that writes the response file. *)
Definition responseWriter : M () :=
  a <~ getA;
  match a.(a_responseCh) with
  | Some (rec :: q) => modA (fun a => set_channels a (Some q) a.(a_deferredCh));; emit (EAppend rec)
  | _ => ret ()
  end.

Definition ResponseHistory (a : Agent) (limit : Z) : list ResponseRecord :=
  let n := Z.of_nat (length a.(a_History)) in
  let limit := if (limit <=? 0) || (n <? limit) then n else limit in
  drop (Z.to_nat (n - limit)) a.(a_History).

(** ** Gates *)

Definition allowAndRecord (category ruleID key : string) : M bool :=
  recordRuleHit ruleID;;
  a <~ getA;
  match a.(a_Suppressor) with
  | None => ret true
  | Some sup =>
      t <~ now_;
      let '(ok, reason, sup) := Allow sup category ruleID key t in
      modA (fun a => set_suppressor a (Some sup));;
      when (negb ok) (recordSuppressed ruleID reason);;
      ret ok
  end.

Definition dedupKeyForRule (category : string) (rule : Rule) (subject object : option attrs) (proc : option Process) : string :=
  let str m k := default "" (as_string (attr (default [] m) k)) in
  let num m k := match as_int (attr (default [] m) k) with Some z => itoa z | None => "" end in
  if category == "process" then
    let '(pid, ticks) :=
      match proc with
      | Some p => (itoa p.(Collector.PID), p.(Collector.StartTicks))
      | None => (num subject "pid", str subject "start_ticks")
      end in
    DedupKey "process" rule.(r_ID) [pid; ticks]
  else if category == "file" then DedupKey "file" rule.(r_ID) [str object "path"; str object "op"]
  else if category == "network" then
    DedupKey "network" rule.(r_ID) [str object "remote_addr"; num object "local_port"; str object "protocol"]
  else DedupKey category rule.(r_ID) [].

(** ** Responses *)

(** The request of a rule; [None] is the early return. *)
Definition response_request (rule : Rule) (category : string) (object : option attrs) (proc : option Process)
    : option ActionRequest :=
  let req path pid exe ticks addr port proto :=
    mkRequest rule.(Policy.r_Action) pid path rule.(r_ID) addr port proto exe ticks in
  if category == "process" then
    match proc with
    | None => None
    | Some p => Some (req "" p.(Collector.PID) p.(Collector.Path) p.(Collector.StartTicks) "" 0 "")
    end
  else if category == "file" then
    match object with
    | None => None
    | Some o => Some (req (default "" (as_string (attr o "path"))) 0 "" "" "" 0 "")
    end
  else if category == "network" then
    match object with
    | None => None
    | Some o =>
        Some (req "" 0 "" "" (default "" (as_string (attr o "remote_addr")))
                (default 0 (as_int (attr o "local_port"))) (default "" (as_string (attr o "protocol"))))
    end
  else Some (req "" 0 "" "" "" 0 "").

Definition Apply (req : ActionRequest) : M Result :=
  res <~ ask (fun n => env.(apply_) n req); emit (EApply req res);; ret res.

Definition applyResponse (rule : Rule) (category : string) (subject object : option attrs) (proc : option Process) : M () :=
  match response_request rule category object proc with
  | None => ret ()
  | Some req =>
      res <~ Apply req;
      recordResponse (mkRecord 0 rule.(r_ID) category (copyMap subject) (copyMap object) req res);;
      t <~ now_;
      log_ (mkEntry (category +:+ "-" +:+ rule.(r_ID) +:+ "-resp-" +:+ itoa t) category rule.(r_Severity)
              (copyMap subject) (copyMap object) rule.(Policy.r_Action) rule.(r_Decision) rule.(r_ID)
              [("response", AResult res)])
  end.

Definition handleProcessResponse (rule : Rule) (proc : Process) (subject : option attrs) : M () :=
  applyResponse rule "process" subject None (Some proc).

Definition audit_entry (now : Z) (category : string) (subject object : option attrs) (rule : Rule) : Entry :=
  mkEntry (category +:+ "-" +:+ rule.(r_ID) +:+ "-" +:+ itoa now) category rule.(r_Severity)
    (copyMap subject) (copyMap object) rule.(Policy.r_Action) rule.(r_Decision) rule.(r_ID) [].

Definition applyMatchSet (now : Z) (matches : list Rule) (category : string) (subject object : option attrs)
    (proc : option Process) : M () :=
  let '(resp, audit) := AggregatedDecision matches in
  each audit (fun rule =>
    ok <~ allowAndRecord category rule.(r_ID) (dedupKeyForRule category rule subject object proc);
    when ok (log_ (audit_entry now category subject object rule)));;
  match resp with
  | None => ret ()
  | Some rule =>
      ok <~ allowAndRecord category rule.(r_ID) (dedupKeyForRule category rule subject object proc);
      when ok (applyResponse rule category subject object proc)
  end.

(** ** The polling round *)

Definition subject_of (p : Process) : Subject :=
  mkSubject p.(Collector.Name) p.(Collector.Path) p.(Collector.Cmdline) p.(Collector.User) "" "" false "" "" "".

Definition run_process (pol : Policy) (now : Z) (proc : Process) : M () :=
  let subj := subject_of proc in
  match EvaluateProcessAccess pol subj with
  | Some rule =>
      if rule.(r_Decision) == "allow" then ret ()
      else
        let subject := [("pid", AInt proc.(Collector.PID)); ("name", AStr proc.(Collector.Name));
                        ("path", AStr proc.(Collector.Path)); ("cmdline", AStr proc.(Collector.Cmdline))] in
        ok <~ allowAndRecord "process" rule.(r_ID)
               (DedupKey "process" rule.(r_ID) [itoa proc.(Collector.PID); proc.(Collector.StartTicks)]);
        when ok (handleProcessResponse rule proc (Some subject))
  | None =>
      match EvaluateAll pol (env.(local) now) subj emptyObject with
      | [] => ret ()
      | matches =>
          applyMatchSet now matches "process"
            (Some [("pid", AInt proc.(Collector.PID)); ("name", AStr proc.(Collector.Name));
                   ("path", AStr proc.(Collector.Path)); ("cmdline", AStr proc.(Collector.Cmdline));
                   ("user", AStr proc.(Collector.User))]) None (Some proc)
      end
  end.

Definition run_file (pol : Policy) (now : Z) (fe : FileEvent) : M () :=
  let object := [("path", AStr fe.(fe_Path)); ("op", AStr fe.(fe_Op)); ("size", AI64 fe.(fe_Size));
                 ("mode", AStr fe.(fe_Mode)); ("mod_time", ATime fe.(fe_ModTime))] in
  match EvaluateAll pol (env.(local) now) emptySubject (mkObject fe.(fe_Path) fe.(fe_Op) "" 0 "" "" 0) with
  | [] =>
      recordRuleHit "file-watch";; count add_event;;
      t <~ now_;
      log_ (mkEntry ("file-" +:+ fe.(fe_Op) +:+ "-" +:+ itoa t) "file" "medium" None (Some object)
              "observe" "alert" "file-watch" [])
  | matches => applyMatchSet now matches "file" None (Some object) None
  end.

Definition run_conn (pol : Policy) (now : Z) (c : Connection) : M () :=
  match EvaluateAll pol (env.(local) now) emptySubject
          (mkObject "" "" c.(Collector.RemoteAddr) c.(Collector.LocalPort) c.(Collector.Protocol) "" 0) with
  | [] => ret ()
  | matches =>
      applyMatchSet now matches "network" None
        (Some [("protocol", AStr c.(Collector.Protocol)); ("local_addr", AStr c.(LocalAddr));
               ("local_port", AInt c.(Collector.LocalPort)); ("remote_addr", AStr c.(Collector.RemoteAddr));
               ("state", AStr c.(Collector.State))]) None
  end.

(** Saving the suppressor's state at the end of a round. *)
Definition save_state : M () := fun s =>
  match s.(ag).(a_Suppressor) with
  | Some sup =>
      if s.(ag).(a_SuppressorStatePath) != ""
      then (tt, mkSt s.(ag) (StateDecoded (SaveState sup)) s.(tick) s.(effects))
      else (tt, s)
  | None => (tt, s)
  end.

(** [RunOnce]: whether it returned an error. [cancelled] is [ctx.Err() != nil]. *)
Definition RunOnce (cancelled : bool) : M bool :=
  if cancelled then ret true
  else
    Init;; count add_run;;
    snap <~ ask env.(snapshot);
    match snap with
    | None => ret true
    | Some snap =>
        a <~ getA;
        now <~ now_;
        each snap.(Processes) (run_process a.(a_Policy) now);;
        each snap.(FileEvents) (run_file a.(a_Policy) now);;
        each snap.(Connections) (run_conn a.(a_Policy) now);;
        save_state;;
        ret false
    end.

(** ** Reading /proc *)

Definition proc_path (pid : Z) (name : string) : string := ("/proc/" +:+ itoa pid +:+ "/" +:+ name)%string.

Definition resolveProcExe (pid : Z) : M string :=
  r <~ ask (fun n => env.(readlink) n (proc_path pid "exe")); ret (default "" r).

(** The parts between NULs, without a last empty one. *)
Definition nul_parts (data : string) : list string :=
  let parts := split (byte 0) data in
  match last parts with Some "" => removelast parts | _ => parts end.

Definition readProcCmdline (pid : Z) : M string :=
  r <~ ask (fun n => env.(readfile) n (proc_path pid "cmdline"));
  ret (match r with Some data => join " " (nul_parts data) | None => "" end).

Definition readProcEnviron (pid : Z) : M string :=
  r <~ ask (fun n => env.(readfile) n (proc_path pid "environ"));
  ret (match r with Some data => join nl (nul_parts data) | None => "" end).

Definition readProcMaps (pid : Z) : M string :=
  r <~ ask (fun n => env.(readmaps) n (proc_path pid "maps")); ret (default "" r).

Definition isProcessAlive (pid : Z) : M bool := ask (fun n => env.(alive) n pid).

(** ** The fast path *)

(** The body of [handleFastPathExec]. *)
Definition handleFastPathExec (ev : Event) : M () :=
  let subj := mkSubject ev.(Comm) ev.(Filename) "" (itoa ev.(UID)) "" "" false "" "" "" in
  a <~ getA;
  let defer_eval :=
    t <~ now_;
    let de := mkDeferred ev.(BpfEvent.PID) ev.(BpfEvent.PPID) ev.(UID) ev.(Comm) ev.(Filename) t in
    match a.(a_deferredCh) with
    | Some q =>
        let '(sent, q) := try_send channelCap de q in
        modA (fun a => set_channels a a.(a_responseCh) (Some q));;
        when (negb sent) (emit (EDropExec ev.(BpfEvent.PID)))
    | None => emit (EDropExec ev.(BpfEvent.PID))
    end in
  match EvaluateProcessAccess a.(a_Policy) subj with
  | None => defer_eval
  | Some rule =>
      if rule.(r_Decision) == "allow" then defer_eval
      else
        let req := mkRequest rule.(Policy.r_Action) ev.(BpfEvent.PID) "" rule.(r_ID) "" 0 "" ev.(Filename) "" in
        res <~ Apply req;
        recordResponse (mkRecord 0 rule.(r_ID) "process"
          (Some [("pid", AU32 ev.(BpfEvent.PID)); ("name", AStr ev.(Comm)); ("path", AStr ev.(Filename))]) None req res)
  end.

(** One round of the second-stage goroutine, [handleDeferredEval]. *)
Definition processDeferredEval (de : deferredEval) : M () :=
  alive1 <~ isProcessAlive de.(de_pid);
  if negb alive1 then
    count (add_suppressed None);;
    log_ (mkEntry ("deferred-exit-" +:+ itoa de.(de_pid) +:+ "-" +:+ itoa de.(de_ts)) "process" "low"
            (Some [("pid", AU32 de.(de_pid)); ("name", AStr de.(de_comm))]) None "observe" "skip"
            "deferred-eval-exit" [])
  else
    exe <~ resolveProcExe de.(de_pid);
    let procPath := if exe == "" then de.(de_filename) else exe in
    cmdline <~ readProcCmdline de.(de_pid);
    environ <~ readProcEnviron de.(de_pid);
    maps <~ readProcMaps de.(de_pid);
    let subj := mkSubject de.(de_comm) procPath cmdline (itoa de.(de_uid)) environ maps false "" "" "" in
    a <~ getA;
    now <~ now_;
    match EvaluateAll a.(a_Policy) (env.(local) now) subj emptyObject with
    | [] => ret tt
    | matches =>
        alive2 <~ isProcessAlive de.(de_pid);
        if negb alive2 then ret tt
        else
          stat <~ ask (fun n => env.(readfile) n (proc_path de.(de_pid) "stat"));
          let proc :=
            match stat with
            | Some st =>
                Some (mkProcess de.(de_pid) de.(de_comm) procPath cmdline (itoa de.(de_uid))
                        (StartTicksFromStat st) 0 "" "" "")
            | None => None
            end in
          applyMatchSet now matches "process"
            (Some [("pid", AU32 de.(de_pid)); ("name", AStr de.(de_comm)); ("path", AStr procPath);
                   ("cmdline", AStr cmdline); ("user", AStr (itoa de.(de_uid)))]) None proc
    end.

Definition handleDeferredEval : M () :=
  a <~ getA;
  match a.(a_deferredCh) with
  | Some (de :: q) => modA (fun a => set_channels a a.(a_responseCh) (Some q));; processDeferredEval de
  | _ => ret tt
  end.

(** The part the three probe handlers share: one audit event per audit rule,
    without a gate, and the response of the first response rule. *)
Definition handle_probe (ev : Event) (label procPath : string) (subj : Subject) (auditSubject respSubject : attrs) : M () :=
  a <~ getA;
  now <~ now_;
  match EvaluateAll a.(a_Policy) (env.(local) now) subj emptyObject with
  | [] => ret tt
  | rules =>
      let '(resp, audits) := AggregatedDecision rules in
      each audits (fun r =>
        log_ (mkEntry (label +:+ "-" +:+ itoa ev.(BpfEvent.PID) +:+ "-" +:+ itoa now) "process" r.(r_Severity)
                (Some auditSubject) None r.(Policy.r_Action) r.(r_Decision) r.(r_ID) []));;
      match resp with
      | None => ret tt
      | Some rule =>
          if rule.(Policy.r_Action) == "none" then ret tt
          else
            let req := mkRequest rule.(Policy.r_Action) ev.(BpfEvent.PID) "" rule.(r_ID) "" 0 "" procPath "" in
            res <~ Apply req;
            recordResponse (mkRecord 0 rule.(r_ID) "process" (Some respSubject) None req res)
      end
  end.

Definition handleFastPathPtraceEnh (ev : Event) : M () :=
  procPath <~ resolveProcExe ev.(BpfEvent.PID);
  let pid := ("pid", AU32 ev.(BpfEvent.PID)) in
  handle_probe ev "ptrace-enh" procPath
    (mkSubject ev.(Comm) procPath "" (itoa ev.(UID)) "" "" (ev.(Reserved) == 0) "" "" "")
    [pid; ("name", AStr ev.(Comm)); ("ptrace_request", AU32 ev.(Reserved)); ("ptrace_label", AStr ev.(Filename));
     ("target_pid", AU32 ev.(BpfEvent.PPID))]
    [pid; ("name", AStr ev.(Comm)); ("ptrace_request", AU32 ev.(Reserved))].

Definition handleFastPathLDPreload (ev : Event) : M () :=
  procPath <~ resolveProcExe ev.(BpfEvent.PID);
  let attrs := [("pid", AU32 ev.(BpfEvent.PID)); ("name", AStr ev.(Comm)); ("ld_preload", AStr ev.(Filename))] in
  handle_probe ev "ldpreload" procPath
    (mkSubject ev.(Comm) procPath "" (itoa ev.(UID)) ("LD_PRELOAD=" +:+ ev.(Filename)) "" false "" "" "")
    attrs attrs.

Definition handleFastPathInstrument (ev : Event) : M () :=
  mapped <~ (if 0 <? ev.(Reserved)
             then r <~ ask (fun n => env.(readlink) n (proc_path ev.(BpfEvent.PID) ("fd/" +:+ itoa ev.(Reserved))));
                  ret (default "" r)
             else ret "");
  procPath <~ resolveProcExe ev.(BpfEvent.PID);
  let pid := ("pid", AU32 ev.(BpfEvent.PID)) in
  handle_probe ev "instrument" procPath
    (mkSubject ev.(Comm) procPath "" (itoa ev.(UID)) "" mapped false "" "" "")
    [pid; ("name", AStr ev.(Comm)); ("mapped_file", AStr mapped); ("fd", AU32 ev.(Reserved))]
    [pid; ("name", AStr ev.(Comm)); ("mapped_file", AStr mapped)].

Definition handleFastPathSelfProtect (ev : Event) : M () :=
  a <~ getA;
  if negb a.(a_Logger) then ret tt
  else
    let id := itoa ev.(BpfEvent.PID) in
    t <~ now_;
    log_ (mkEntry ("selfprotect-" +:+ id +:+ "-" +:+ itoa t) "self_protection" "critical"
            (Some [("attacker_pid", AU32 ev.(BpfEvent.PID)); ("attacker_comm", AStr ev.(Comm));
                   ("target_pid", AU32 ev.(BpfEvent.PPID)); ("syscall", AStr ev.(Filename));
                   ("attacker_uid", AU32 ev.(UID))]) None "alert" "alert" "self-protect-detect" []);;
    if a.(a_Policy).(p_SelfProtection).(sp_EnforceMode) != "kill" then ret tt
    else if (ev.(BpfEvent.PID) <=? 1) || (ev.(BpfEvent.PID) == env.(getpid)) then ret tt
    else
      s <~ ask env.(sys);
      match PidfdKill s ev.(BpfEvent.PID) with
      | (None, sent) => each sent (fun ps => emit (ESignal ps.1 ps.2))
      | (Some _, _) =>
          when (plain_signal s ev.(BpfEvent.PID) == None) (emit (ESignal ev.(BpfEvent.PID) SIGKILL))
      end;;
      t2 <~ now_;
      log_ (mkEntry ("selfprotect-enforce-" +:+ id +:+ "-" +:+ itoa t2) "self_protection" "critical"
              (Some [("attacker_pid", AU32 ev.(BpfEvent.PID)); ("attacker_comm", AStr ev.(Comm));
                     ("syscall", AStr ev.(Filename))]) None "kill" "block" "self-protect-enforce" []).

(** One event of the fast-path channel ([StartFastPath]). *)
Definition handle_fast (ev : Event) : M () :=
  match ev.(Type_) with
  | EventExec => handleFastPathExec ev
  | EventSelfProtect => handleFastPathSelfProtect ev
  | EventPtraceEnh => handleFastPathPtraceEnh ev
  | EventLDPreload => handleFastPathLDPreload ev
  | EventInstrument => handleFastPathInstrument ev
  | _ => ret tt
  end.
End Agent.
