(* ===== verification/AgentProofs.v ===== *)
(** * Properties of the agent

    The gates and responses of a match set, what justifies a response in a
    polling round, the bounded history, and the fast path. *)

From S2P Require Import Prelude GoStrings GoTime GoJson Crypto EventLog Response BpfEvent Loader Collector Suppress Policy Agent.

Section Proofs.
Context {UC : GoUnicode} {FO : FloatOps} (env : Env).

(** ** Gates *)

Lemma allowAndRecord_spec cat id key s sup ok reason sup' :
  a_Suppressor (ag s) = Some sup -> do_call sup (mkCall cat id key (clock env (tick s))) = (ok, reason, sup') ->
  exists s', allowAndRecord env cat id key s = (ok, s') /\ effects s' = effects s /\ tick s' = S (tick s) /\
    a_Suppressor (ag s') = Some sup'.
Proof.
  intros Hs Hc. unfold allowAndRecord, recordRuleHit, count, modA, getA, now_, ask, bind, ret, when, recordSuppressed.
  cbn [ag set_counters a_Suppressor]. rewrite Hs. unfold do_call in Hc. cbn [c_category c_rule c_key c_now] in Hc.
  cbn [tick]. rewrite Hc. destruct ok; eexists; (split; [reflexivity|]); split_and!; done.
Qed.

(** The gate calls of a list of rules, the first at question [n]. *)
Fixpoint gate_calls (cat : string) (subject object : option attrs) (proc : option Process) (n : nat) (rs : list Rule)
    : list call :=
  match rs with
  | [] => []
  | r :: rs =>
      mkCall cat (r_ID r) (dedupKeyForRule cat r subject object proc) (clock env n)
      :: gate_calls cat subject object proc (S n) rs
  end.

Lemma gate_calls_app cat su ob pr n rs1 rs2 :
  gate_calls cat su ob pr n (rs1 ++ rs2)
  = gate_calls cat su ob pr n rs1 ++ gate_calls cat su ob pr (n + length rs1)%nat rs2.
Proof.
  revert n. induction rs1 as [|r rs1 IH]; intros n; simpl; [by rewrite Nat.add_0_r|].
  rewrite IH. by rewrite Nat.add_succ_comm.
Qed.

Lemma gate_calls_length cat su ob pr n rs : length (gate_calls cat su ob pr n rs) = length rs.
Proof. revert n. induction rs as [|r rs IH]; intros n; simpl; [done|]. by rewrite IH. Qed.

Lemma run_length s cs : length (run s cs).1 = length cs.
Proof.
  revert s. induction cs as [|c cs IH]; intros s; simpl; [done|].
  destruct (do_call s c) as [[ok reason] s1]. specialize (IH s1). destruct (run s1 cs). simpl in *. by rewrite IH.
Qed.

Lemma run_app s cs1 cs2 :
  run s (cs1 ++ cs2) = ((run s cs1).1 ++ (run (run s cs1).2 cs2).1, (run (run s cs1).2 cs2).2).
Proof.
  revert s. induction cs1 as [|c cs1 IH]; intros s; simpl; [by destruct (run s cs2)|].
  destruct (do_call s c) as [[ok reason] s1]. rewrite IH.
  destruct (run s1 cs1) as [o1 s2]. simpl. by destruct (run s2 cs2).
Qed.

Lemma zip_with_app_prefix {A B C} (f : A -> B -> C) l k k' :
  (length l <= length k)%nat -> zip_with f l (k ++ k') = zip_with f l k.
Proof. revert k. induction l as [|x l IH]; intros [|y k] H; simpl in *; [by destruct k'|done|lia|]. f_equal. apply IH. lia. Qed.

(** The audit events of the rules whose call was allowed. *)
Definition allowed_audits (now : Z) (cat : string) (subject object : option attrs) (rs : list Rule)
    (verdicts : list (bool * string)) : list effect :=
  concat (zip_with (fun r v => if (v.1 : bool) then [ELog (audit_entry now cat subject object r)] else []) rs verdicts).

Lemma audit_loop now cat su ob pr rs s sup :
  a_Suppressor (ag s) = Some sup ->
  exists s', each rs (fun rule =>
      bind (allowAndRecord env cat (r_ID rule) (dedupKeyForRule cat rule su ob pr))
        (fun ok => when ok (log_ (audit_entry now cat su ob rule)))) s = (tt, s') /\
    effects s' = effects s ++ allowed_audits now cat su ob rs (run sup (gate_calls cat su ob pr (tick s) rs)).1 /\
    tick s' = (tick s + length rs)%nat /\
    a_Suppressor (ag s') = Some (run sup (gate_calls cat su ob pr (tick s) rs)).2.
Proof.
  revert s sup. induction rs as [|r rs IH]; intros s sup Hs.
  { exists s. unfold allowed_audits. simpl. rewrite app_nil_r, Nat.add_0_r. done. }
  cbn [each gate_calls run]. unfold bind at 1 2.
  destruct (do_call sup _) as [[ok reason] sup1] eqn:Hc.
  destruct (allowAndRecord_spec _ _ _ _ _ _ _ _ Hs Hc) as (s1 & -> & He & Ht & Hs1).
  assert (exists s2, when ok (log_ (audit_entry now cat su ob r)) s1 = (tt, s2) /\
    effects s2 = effects s ++ (if ok then [ELog (audit_entry now cat su ob r)] else []) /\
    tick s2 = S (tick s) /\ a_Suppressor (ag s2) = Some sup1) as (s2 & -> & He2 & Ht2 & Hs2).
  { destruct ok; eexists; (split; [reflexivity|]); simpl; rewrite He, ?app_nil_r; done. }
  destruct (IH s2 sup1 Hs2) as (s' & -> & He' & Ht' & Hs'). rewrite Ht2 in *.
  destruct (run sup1 _) as [vs sup2] eqn:Er. exists s'. cbn [fst snd] in *. split_and!; [done| |simpl; lia|done].
  rewrite He', He2, <- app_assoc. unfold allowed_audits. simpl. by destruct ok.
Qed.

(** ** Responses *)

Definition is_apply (e : effect) : Prop := match e with EApply _ _ => True | _ => False end.

Lemma recordResponse_effects rec s : exists s' rest,
  recordResponse env rec s = (tt, s') /\ effects s' = effects s ++ rest /\ Forall (fun e => ~ is_apply e) rest /\
  a_Suppressor (ag s') = a_Suppressor (ag s).
Proof.
  unfold recordResponse, now_, ask, getA, modA, count, bind, ret, when, emit. cbn [ag tick effects stateFile_].
  destruct (a_ResponsePath (ag s) != ""); [|by eexists _, []; rewrite app_nil_r; split_and!].
  destruct (a_responseCh (ag s)) as [q|]; [destruct (try_send _ _ _) as [[] q']|].
  - by eexists _, []; rewrite app_nil_r; split_and!.
  - eexists _, [_]. split_and!; [done|done|by repeat constructor; intros ?|done].
  - eexists _, [_]. split_and!; [done|done|by repeat constructor; intros ?|done].
Qed.

Lemma applyResponse_effects rule cat su ob pr s : exists s' tail,
  applyResponse env rule cat su ob pr s = (tt, s') /\ effects s' = effects s ++ tail /\
  a_Suppressor (ag s') = a_Suppressor (ag s) /\
  match response_request rule cat ob pr with
  | None => tail = []
  | Some req => exists rest, tail = EApply req (apply_ env (tick s) req) :: rest /\ Forall (fun e => ~ is_apply e) rest
  end.
Proof.
  unfold applyResponse. destruct (response_request rule cat ob pr) as [req|].
  2:{ exists s, []. by rewrite app_nil_r. }
  unfold Apply. unfold bind at 1 2. unfold ask at 1. unfold bind at 1. cbn [emit ret].
  unfold bind at 1. match goal with |- context [recordResponse env ?rec ?s0] =>
    destruct (recordResponse_effects rec s0) as (s1 & rest & -> & He & HF & Hs) end.
  unfold now_, ask, bind, log_, emit. eexists _, (EApply req _ :: rest ++ [_]).
  split; [reflexivity|]. cbn [effects ag] in *. split; [|split; [done|]].
  - rewrite He. simpl. rewrite <- !app_assoc. done.
  - eexists. split; [done|]. apply Forall_app. split; [done|]. by repeat constructor; intros ?.
Qed.

(** What a match set does, given the verdicts [vs] of its gates. *)
Definition gated (now : Z) (resp : option Rule) (audit : list Rule) (cat : string) (su ob : option attrs)
    (pr : option Process) (vs : list (bool * string)) (new : list effect) : Prop :=
  exists tail, new = allowed_audits now cat su ob audit vs ++ tail /\
    match resp with
    | None => tail = []
    | Some rule =>
        match vs !! length audit, response_request rule cat ob pr with
        | Some (true, _), Some req =>
            exists res rest, tail = EApply req res :: rest /\ Forall (fun e => ~ is_apply e) rest
        | _, _ => tail = []
        end
    end.

Lemma match_set_run now matches cat su ob pr s sup :
  a_Suppressor (ag s) = Some sup ->
  let '(resp, audit) := AggregatedDecision matches in
  exists new, effects (applyMatchSet env now matches cat su ob pr s).2 = effects s ++ new /\
    gated now resp audit cat su ob pr
      (run sup (gate_calls cat su ob pr (tick s) (audit ++ option_list resp))).1 new.
Proof.
  intros Hs. unfold applyMatchSet. destruct (AggregatedDecision matches) as [resp audit].
  destruct (audit_loop now cat su ob pr audit s sup Hs) as (s1 & E1 & He1 & Ht1 & Hs1).
  unfold bind at 1. rewrite E1. cbv zeta.
  set (calls := gate_calls cat su ob pr (tick s) audit) in *.
  destruct (run sup calls) as [vs sup1] eqn:Er. cbn [fst snd] in *.
  pose proof (run_length sup calls) as Hlen. rewrite Er in Hlen. cbn [fst] in Hlen.
  assert (length vs = length audit) as Hlv by (rewrite Hlen; apply gate_calls_length).
  rewrite gate_calls_app. fold calls. rewrite run_app, Er. cbn [fst snd].
  destruct resp as [rule|].
  2:{ exists (allowed_audits now cat su ob audit vs). cbn [ret snd fst]. split; [done|]. exists []. change (option_list (@None Rule)) with (@nil Rule). cbn. by rewrite !app_nil_r. }
  change (option_list (Some rule)) with [rule]. cbn [gate_calls run]. rewrite <- Ht1. destruct (do_call sup1 _) as [[ok reason] sup2] eqn:Hc.
  destruct (allowAndRecord_spec _ _ _ _ _ _ _ _ Hs1 Hc) as (s2 & E2 & He2 & Ht2 & Hs2).
  unfold bind at 1. rewrite E2. cbn [fst].
  assert ((vs ++ [(ok, reason)]) !! length audit = Some (ok, reason)) as Hlook
    by (by rewrite (lookup_app_r vs), Hlv, Nat.sub_diag by lia).
  assert (allowed_audits now cat su ob audit (vs ++ [(ok, reason)]) = allowed_audits now cat su ob audit vs) as Haud.
  { unfold allowed_audits. f_equal. apply zip_with_app_prefix. lia. }
  unfold gated. rewrite Haud. destruct ok; cbn [when].
  - destruct (applyResponse_effects rule cat su ob pr s2) as (s3 & tail & E3 & He3 & _ & Htail).
    rewrite E3. eexists. cbn [snd]. split; [by rewrite He3, He2, He1, <- app_assoc|]. exists tail. split; [done|].
    rewrite Hlook.
    destruct (response_request rule cat ob pr) as [req|]; [|done]. destruct Htail as (rest & -> & HF). eauto.
  - eexists. cbn [ret snd]. split; [by rewrite He2, He1|]. exists []. split; [by rewrite app_nil_r|]. by rewrite Hlook.
Qed.

(** C3. A match set is handled rule by rule through the suppressor: the audit
    events are those of the audit rules the suppressor allowed, in order; then
    the response rule, if there is one, passes its own gate, and the responder is
    asked once, exactly when the gate allows it and the subject is known. *)
Theorem match_set_gated now matches cat su ob pr s sup :
  a_Suppressor (ag s) = Some sup ->
  let '(resp, audit) := AggregatedDecision matches in
  exists new, effects (applyMatchSet env now matches cat su ob pr s).2 = effects s ++ new /\
    gated now resp audit cat su ob pr
      (run sup (gate_calls cat su ob pr (tick s) (audit ++ option_list resp))).1 new.
Proof. apply match_set_run. Qed.

(** ** One key for the audit and the response *)

Lemma run_config s cs : cooldowns_ok s -> same_config s (run s cs).2.
Proof.
  revert s. induction cs as [|c cs IH]; intros s Hs; simpl; [done|].
  destruct (do_call s c) as [[ok reason] s1] eqn:Hc. destruct (do_call_spec _ _ _ _ _ Hs Hc) as (Hcfg & _).
  destruct (same_config_facts _ _ Hcfg Hs) as (Hs1 & _). specialize (IH s1 Hs1). destruct (run s1 cs).
  by eapply same_config_trans.
Qed.

(** The verdict of the call after [pre]. *)
Lemma run_lookup s pre c post : (run s (pre ++ c :: post)).1 !! length pre = Some (do_call (run s pre).2 c).1.
Proof.
  rewrite run_app. cbn [fst]. rewrite lookup_app_r by (by rewrite run_length).
  rewrite run_length, Nat.sub_diag. cbn [run].
  destruct (do_call _ c) as [[ok reason] s1]. by destruct (run s1 post).
Qed.

(** A key that was just allowed is refused until its cooldown is over. *)
Lemma repeated_key_refused s pre c mid d r :
  cooldowns_ok s -> in_time_order (pre ++ c :: mid ++ [d]) -> c_key c = c_key d ->
  0 < cooldownFor s (c_category d) -> c_now d < c_now c + cooldownFor s (c_category d) ->
  (run s (pre ++ c :: mid ++ [d])).1 !! length pre = Some (true, r) ->
  exists r', (run s (pre ++ c :: mid ++ [d])).1 !! length (pre ++ c :: mid) = Some (false, r').
Proof.
  intros Hs HT Hk Hpos Hlt Hc. rewrite run_lookup in Hc. injection Hc as Hc.
  replace (pre ++ c :: mid ++ [d]) with ((pre ++ c :: mid) ++ d :: []) by (by rewrite <- app_assoc).
  rewrite run_lookup. destruct (do_call _ d) as [[[] reason] s'] eqn:Hd; [|by eexists].
  exfalso. rewrite run_app in Hd. cbn [snd run] in Hd.
  pose proof (run_config s pre Hs) as Hcfg. destruct (same_config_facts _ _ Hcfg Hs) as (Hs1 & _ & Hcd).
  set (s1 := (run s pre).2) in *.
  apply StronglySorted_app in HT as (_ & _ & HT).
  pose proof (emits_apart s1 c mid d Hs1 HT Hk) as Hsep. rewrite Hc in Hsep. specialize (Hsep eq_refl).
  rewrite Hcd in Hsep. destruct (do_call s1 c) as [[ok1 r1] s2]. cbn [snd] in *.
  destruct (run s2 mid) as [vs s3] eqn:Em. cbn [snd] in *. rewrite Hd in Hsep. specialize (Hsep eq_refl Hpos). lia.
Qed.

Lemma gate_calls_order cat su ob pr n rs :
  (forall i j, (i <= j)%nat -> clock env i <= clock env j) -> in_time_order (gate_calls cat su ob pr n rs) /\
  Forall (fun c => clock env n <= c_now c) (gate_calls cat su ob pr n rs).
Proof.
  intros Hm. revert n. induction rs as [|r rs IH]; intros n; simpl; [split; constructor|].
  destruct (IH (S n)) as [IH1 IH2].
  assert (Forall (fun c => clock env n <= c_now c) (gate_calls cat su ob pr (S n) rs)) as HF.
  { eapply Forall_impl; [exact IH2|]. simpl. intros c Hc. specialize (Hm n (S n)). lia. }
  split; [by constructor|]. constructor; [simpl; lia|done].
Qed.

Lemma allowed_audits_no_apply now cat su ob rs vs : Forall (fun e => ~ is_apply e) (allowed_audits now cat su ob rs vs).
Proof.
  unfold allowed_audits. revert vs. induction rs as [|r rs IH]; intros [|[[] ?] vs]; simpl; try constructor; auto.
Qed.

Lemma allowed_audits_elem now cat su ob rs vs i r reason :
  rs !! i = Some r -> vs !! i = Some (true, reason) ->
  ELog (audit_entry now cat su ob r) ∈ allowed_audits now cat su ob rs vs.
Proof.
  unfold allowed_audits. revert vs i. induction rs as [|x rs IH]; intros [|[b w] vs] [|i] H1 H2; simplify_eq/=; [left|].
  destruct b; [right|]; by eapply IH.
Qed.

(** C21. A rule with both effects is gated twice under one key.  In an agent
    with a suppressor whose cooldown for the category is positive and longer
    than the match set takes, on a clock that does not go back: when the first
    gate lets the audit event of the rule through, the event is logged, the
    second gate finds the key in its cooldown, and the responder is not asked.
    Without a suppressor it is asked ([ungated_rule_enforced]). *)
Theorem audited_rule_not_enforced now matches cat su ob pr s sup rule pre post reason :
  a_Suppressor (ag s) = Some sup -> cooldowns_ok sup -> 0 < cooldownFor sup cat ->
  AggregatedDecision matches = (Some rule, pre ++ rule :: post) ->
  (forall i j, (i <= j)%nat -> clock env i <= clock env j) ->
  clock env (tick s + length (pre ++ rule :: post)) < clock env (tick s) + cooldownFor sup cat ->
  (run sup (gate_calls cat su ob pr (tick s) (pre ++ rule :: post ++ [rule]))).1 !! length pre = Some (true, reason) ->
  exists new, effects (applyMatchSet env now matches cat su ob pr s).2 = effects s ++ new /\
    ELog (audit_entry now cat su ob rule) ∈ new /\ Forall (fun e => ~ is_apply e) new.
Proof.
  intros Hs Hok Hcd Hagg Hmono Hfast Hv.
  pose proof (match_set_run now matches cat su ob pr s sup Hs) as H. rewrite Hagg in H.
  destruct H as (new & He & tail & -> & Htail). eexists. split; [exact He|].
  change (option_list (Some rule)) with [rule] in *.
  split.
  { apply elem_of_app. left. eapply allowed_audits_elem; [by apply list_lookup_middle|].
    rewrite <- app_assoc. exact Hv. }
  apply Forall_app. split; [apply allowed_audits_no_apply|].
  replace ((pre ++ rule :: post) ++ [rule]) with (pre ++ rule :: post ++ [rule]) in Htail by (by rewrite <- app_assoc).
  rewrite gate_calls_app in Hv, Htail. cbn [gate_calls] in Hv, Htail. rewrite gate_calls_app in Hv, Htail.
  cbn [gate_calls] in Hv, Htail. set (cs := gate_calls cat su ob pr (tick s) pre) in *.
  set (mid := gate_calls cat su ob pr (S (tick s + length pre)) post) in *.
  set (c := mkCall cat (r_ID rule) _ (clock env (tick s + length pre))) in *.
  set (d := mkCall cat (r_ID rule) _ (clock env (S (tick s + length pre) + length post))) in *.
  destruct (repeated_key_refused sup cs c mid d reason) as [r' Hr]; try done.
  - pose proof (proj1 (gate_calls_order cat su ob pr (tick s) (pre ++ rule :: post ++ [rule]) Hmono)) as HT.
    rewrite gate_calls_app in HT. cbn [gate_calls] in HT. rewrite gate_calls_app in HT. exact HT.
  - subst c d. cbn [c_now c_category]. rewrite length_app in Hfast. cbn [length] in Hfast.
    specialize (Hmono (tick s) (tick s + length pre)%nat ltac:(lia)).
    replace (S (tick s + length pre) + length post)%nat with (tick s + (length pre + S (length post)))%nat by lia. lia.
  - by replace (length cs) with (length pre) by (symmetry; apply gate_calls_length).
  - replace (length (cs ++ c :: mid)) with (length (pre ++ rule :: post)) in Hr.
    2:{ rewrite !length_app. cbn [length]. unfold cs, mid. by rewrite !gate_calls_length. }
    rewrite Hr in Htail. subst. constructor.
Qed.

(** ** What justifies a response *)

(** [m] only appends effects that satisfy [P]. *)
Definition emits {A} (P : effect -> Prop) (m : M A) : Prop :=
  forall s, exists l, effects (m s).2 = effects s ++ l /\ Forall P l.

Lemma emits_ret {A} P (x : A) : emits P (ret x).
Proof. intros s. exists []. by rewrite app_nil_r. Qed.

Lemma emits_bind {A B} P (m : M A) (k : A -> M B) : emits P m -> (forall x, emits P (k x)) -> emits P (bind m k).
Proof.
  intros Hm Hk s. unfold bind. destruct (Hm s) as (l & E & Hl). destruct (m s) as [x s1]. simpl in E.
  destruct (Hk x s1) as (l' & E' & Hl'). exists (l ++ l'). rewrite E', E, app_assoc. split; [done|].
  by apply Forall_app.
Qed.

Lemma emits_ask {A} P (f : nat -> A) : emits P (ask f).
Proof. intros s. exists []. by rewrite app_nil_r. Qed.

Lemma emits_getA P : emits P getA.
Proof. intros s. exists []. by rewrite app_nil_r. Qed.

Lemma emits_modA P f : emits P (modA f).
Proof. intros s. exists []. by rewrite app_nil_r. Qed.

Lemma emits_emit P e : P e -> emits P (emit e).
Proof. intros HP s. exists [e]. split; [done|]. by constructor. Qed.

Lemma emits_when P c m : (c = true -> emits P m) -> emits P (when c m).
Proof. destruct c; [by intros H; apply H|intros _; apply emits_ret]. Qed.

Lemma emits_each {A} P (l : list A) f : (forall x, x ∈ l -> emits P (f x)) -> emits P (each l f).
Proof.
  induction l as [|x l IH]; intros H; simpl; [apply emits_ret|].
  apply emits_bind; [apply H; by left|]. intros _. apply IH. intros y Hy. apply H. by right.
Qed.

Lemma emits_recordResponse (P : effect -> Prop) rec : (forall e, ~ is_apply e -> P e) -> emits P (recordResponse env rec).
Proof.
  intros HP s. destruct (recordResponse_effects rec s) as (s' & rest & -> & He & HF & _). exists rest.
  split; [done|]. eapply Forall_impl; [exact HF|]. exact HP.
Qed.

Lemma emits_allow P cat id key : emits P (allowAndRecord env cat id key).
Proof.
  unfold allowAndRecord, recordRuleHit, count, recordSuppressed, now_. apply emits_bind; [apply emits_modA|]. intros _.
  apply emits_bind; [apply emits_getA|]. intros a. destruct (a_Suppressor a); [|apply emits_ret].
  apply emits_bind; [apply emits_ask|]. intros t. destruct (Allow _ _ _ _ _) as [[ok reason] sup].
  apply emits_bind; [apply emits_modA|]. intros _. apply emits_bind; [|intros _; apply emits_ret].
  apply emits_when. intros _. apply emits_modA.
Qed.

Lemma emits_applyResponse (P : effect -> Prop) rule cat su ob pr :
  (forall e, ~ is_apply e -> P e) ->
  (forall req res, response_request rule cat ob pr = Some req -> P (EApply req res)) ->
  emits P (applyResponse env rule cat su ob pr).
Proof.
  intros HP Hreq s. destruct (applyResponse_effects rule cat su ob pr s) as (s' & tail & -> & He & _ & Ht).
  exists tail. split; [done|]. destruct (response_request rule cat ob pr) as [req|]; [|by subst].
  destruct Ht as (rest & -> & HF). constructor; [by apply Hreq|]. eapply Forall_impl; [exact HF|]. exact HP.
Qed.

Lemma emits_applyMatchSet (P : effect -> Prop) now matches cat su ob pr :
  (forall e, ~ is_apply e -> P e) ->
  (forall rule req res, (AggregatedDecision matches).1 = Some rule ->
    response_request rule cat ob pr = Some req -> P (EApply req res)) ->
  emits P (applyMatchSet env now matches cat su ob pr).
Proof.
  intros HP Hreq. unfold applyMatchSet. destruct (AggregatedDecision matches) as [resp audit]. simpl in Hreq.
  apply emits_bind.
  - apply emits_each. intros rule _. apply emits_bind; [apply emits_allow|]. intros ok. apply emits_when. intros _.
    apply emits_emit. apply HP. by intros ?.
  - intros _. destruct resp as [rule|]; [|apply emits_ret]. apply emits_bind; [apply emits_allow|].
    intros ok. apply emits_when. intros _. apply emits_applyResponse; [done|]. eauto.
Qed.

(** The object of a file event and of a connection, as the rules see them. *)
Definition file_object (fe : FileEvent) : Object := mkObject (fe_Path fe) (fe_Op fe) "" 0 "" "" 0.
Definition conn_object (c : Connection) : Object :=
  mkObject "" "" (Collector.RemoteAddr c) (Collector.LocalPort c) (Collector.Protocol c) "" 0.

(** The request carries the rule's action and the identity of a process of the
    snapshot that the rule decided on, or the file or the connection. *)
Inductive justified (pol : Policy) (now : Z) (snap : Snapshot) : ActionRequest -> Prop :=
| just_access p rule :
    p ∈ Processes snap -> EvaluateProcessAccess pol (subject_of p) = Some rule -> r_Decision rule <> "allow" ->
    justified pol now snap (mkRequest (Policy.r_Action rule) (Collector.PID p) "" (r_ID rule) "" 0 ""
      (Collector.Path p) (Collector.StartTicks p))
| just_process p rule :
    p ∈ Processes snap -> EvaluateProcessAccess pol (subject_of p) = None ->
    (AggregatedDecision (EvaluateAll pol (local env now) (subject_of p) emptyObject)).1 = Some rule ->
    justified pol now snap (mkRequest (Policy.r_Action rule) (Collector.PID p) "" (r_ID rule) "" 0 ""
      (Collector.Path p) (Collector.StartTicks p))
| just_file fe rule :
    fe ∈ FileEvents snap ->
    (AggregatedDecision (EvaluateAll pol (local env now) emptySubject (file_object fe))).1 = Some rule ->
    justified pol now snap (mkRequest (Policy.r_Action rule) 0 (fe_Path fe) (r_ID rule) "" 0 "" "" "")
| just_conn c rule :
    c ∈ Connections snap ->
    (AggregatedDecision (EvaluateAll pol (local env now) emptySubject (conn_object c))).1 = Some rule ->
    justified pol now snap (mkRequest (Policy.r_Action rule) 0 "" (r_ID rule) (Collector.RemoteAddr c)
      (Collector.LocalPort c) (Collector.Protocol c) "" "").

Definition justified_effect (pol : Policy) (now : Z) (snap : Snapshot) (e : effect) : Prop :=
  match e with EApply req _ => justified pol now snap req | _ => True end.

Lemma not_apply_justified pol now snap e : ~ is_apply e -> justified_effect pol now snap e.
Proof. destruct e; simpl; tauto. Qed.

Lemma run_process_justified pol now snap p :
  p ∈ Processes snap -> emits (justified_effect pol now snap) (run_process env pol now p).
Proof.
  intros Hp. unfold run_process. destruct (EvaluateProcessAccess pol (subject_of p)) as [rule|] eqn:Ea.
  - case_bool_decide as Ed; [apply emits_ret|]. apply emits_bind; [apply emits_allow|]. intros ok.
    apply emits_when. intros _. apply emits_applyResponse; [apply not_apply_justified|].
    intros req res [= <-]. by eapply just_access.
  - destruct (EvaluateAll _ _ _ _) as [|r rs] eqn:Em; [apply emits_ret|].
    apply emits_applyMatchSet; [apply not_apply_justified|]. intros rule req res Hr [= <-].
    eapply just_process; [done|done|]. by rewrite Em.
Qed.

Lemma run_file_justified pol now snap fe :
  fe ∈ FileEvents snap -> emits (justified_effect pol now snap) (run_file env pol now fe).
Proof.
  intros Hp. unfold run_file. destruct (EvaluateAll _ _ _ _) as [|r rs] eqn:Em.
  - do 2 (apply emits_bind; [apply emits_modA|intros _]). apply emits_bind; [apply emits_ask|]. intros t.
    by apply emits_emit.
  - apply emits_applyMatchSet; [apply not_apply_justified|]. intros rule req res Hr [= <-].
    eapply (just_file _ _ _ fe); [done|]. unfold file_object. by rewrite Em.
Qed.

Lemma run_conn_justified pol now snap c :
  c ∈ Connections snap -> emits (justified_effect pol now snap) (run_conn env pol now c).
Proof.
  intros Hp. unfold run_conn. destruct (EvaluateAll _ _ _ _) as [|r rs] eqn:Em; [apply emits_ret|].
  apply emits_applyMatchSet; [apply not_apply_justified|]. intros rule req res Hr [= <-].
  eapply (just_conn _ _ _ c); [done|]. unfold conn_object. by rewrite Em.
Qed.

Lemma save_state_effects s : effects (save_state s).2 = effects s.
Proof. unfold save_state. by repeat case_match. Qed.

Lemma Init_frame s :
  effects (Init s).2 = effects s /\ tick (Init s).2 = tick s /\ a_Policy (ag (Init s).2) = a_Policy (ag s).
Proof. unfold Init, modA, getA, bind, ret. simpl. by repeat case_match. Qed.

(** The three loops of a round and the save. *)
Definition round_body (pol : Policy) (now : Z) (snap : Snapshot) : M bool :=
  bind (each snap.(Processes) (run_process env pol now)) (fun _ =>
  bind (each snap.(FileEvents) (run_file env pol now)) (fun _ =>
  bind (each snap.(Connections) (run_conn env pol now)) (fun _ =>
  bind save_state (fun _ => ret false)))).

Lemma round_body_justified pol now snap s :
  exists l, effects (round_body pol now snap s).2 = effects s ++ l /\
    Forall (justified_effect pol now snap) l /\ (round_body pol now snap s).1 = false.
Proof.
  destruct (emits_bind (justified_effect pol now snap) (each snap.(Processes) (run_process env pol now)) (fun _ =>
    bind (each snap.(FileEvents) (run_file env pol now)) (fun _ =>
    bind (each snap.(Connections) (run_conn env pol now)) (fun _ => bind save_state (fun _ => ret false)))))
    with (s := s) as (l & E & HF).
  - apply emits_each. apply run_process_justified.
  - intros _. apply emits_bind; [apply emits_each, run_file_justified|]. intros _.
    apply emits_bind; [apply emits_each, run_conn_justified|]. intros _.
    apply emits_bind; [|intros _; apply emits_ret]. intros s'. exists []. by rewrite save_state_effects, app_nil_r.
  - exists l. split_and!; [done|done|]. unfold round_body, bind, ret. by repeat case_match.
Qed.

Lemma RunOnce_unfold s : exists s1, effects s1 = effects s /\
  RunOnce env false s = match snapshot env (tick s) with
                        | None => (true, s1)
                        | Some snap => round_body (a_Policy (ag s)) (clock env (S (tick s))) snap s1
                        end.
Proof.
  destruct (Init_frame s) as (Hi1 & Hi2 & Hi3). unfold RunOnce. unfold bind at 1.
  destruct (Init s) as [[] s1]. simpl in Hi1, Hi2, Hi3. rewrite <- Hi2, <- Hi3, <- Hi1.
  unfold count, modA. unfold bind at 1 2. unfold ask at 1. cbn [tick ag effects stateFile_].
  destruct (snapshot env (tick s1)) as [snap|]; eexists; (split; [|reflexivity]); done.
Qed.

(** C4. In a polling round the responder is asked only on account of the
    policy in force: every request names a process of the snapshot, with the
    identity read there, that the access lists do not allow or that a response
    rule decided on, or a file event or connection of the snapshot with its
    response rule. *)
Theorem round_justified s :
  exists new, effects (RunOnce env false s).2 = effects s ++ new /\
    match snapshot env (tick s) with
    | None => new = [] /\ (RunOnce env false s).1 = true
    | Some snap =>
        (RunOnce env false s).1 = false /\
        Forall (justified_effect (a_Policy (ag s)) (clock env (S (tick s))) snap) new
    end.
Proof.
  destruct (RunOnce_unfold s) as (s1 & He & ->). destruct (snapshot env (tick s)) as [snap|].
  - destruct (round_body_justified (a_Policy (ag s)) (clock env (S (tick s))) snap s1) as (l & E & HF & Hr).
    exists l. by rewrite E, He, Hr.
  - exists []. cbn [fst snd]. by rewrite He, app_nil_r.
Qed.

(** ** The history *)

(** The last [n] elements. *)
Definition lastn {A} (n : nat) (l : list A) : list A := drop (length l - n) l.

Lemma lastn_snoc {A} (n : nat) (l : list A) x : (0 < n)%nat -> lastn n (lastn n l ++ [x]) = lastn n (l ++ [x]).
Proof.
  intros Hn. unfold lastn. rewrite !length_app, !length_drop. cbn [length].
  rewrite !drop_app, !drop_drop, !length_drop. f_equal; f_equal; lia.
Qed.

Lemma push_history_lastn max h rec : 0 < max -> push_history max h rec = lastn (Z.to_nat max) (h ++ [rec]).
Proof.
  intros Hm. unfold push_history, lastn. destruct (Z.ltb_spec max (Z.of_nat (length (h ++ [rec])))).
  - f_equal. lia.
  - replace (length (h ++ [rec]) - Z.to_nat max)%nat with 0%nat by lia. by rewrite drop_0.
Qed.

Lemma recordResponse_history rec s :
  let max := if a_MaxHistory (ag s) <=? 0 then 256 else a_MaxHistory (ag s) in
  a_History (ag (recordResponse env rec s).2) = push_history max (a_History (ag s)) (stamp rec (clock env (tick s))) /\
  a_MaxHistory (ag (recordResponse env rec s).2) = max /\ tick (recordResponse env rec s).2 = S (tick s).
Proof.
  unfold recordResponse, now_, ask, getA, modA, count, bind, ret, when, emit. cbn [ag tick].
  destruct (a_ResponsePath (ag s) != ""); [|done].
  destruct (a_responseCh (ag s)) as [q|]; [|done]. destruct (try_send _ _ _) as [[] q']; done.
Qed.

(** The records of a run, stamped in order. *)
Fixpoint stamped (n : nat) (recs : list ResponseRecord) : list ResponseRecord :=
  match recs with [] => [] | r :: recs => stamp r (clock env n) :: stamped (S n) recs end.

(** The number of records kept. *)
Definition max_history (a : Agent) : Z := if a_MaxHistory a <=? 0 then 256 else a_MaxHistory a.

Lemma max_history_pos a : 0 < max_history a.
Proof. unfold max_history. destruct (Z.leb_spec (a_MaxHistory a) 0); lia. Qed.

Lemma history_run recs s old :
  a_History (ag s) = lastn (Z.to_nat (max_history (ag s))) old ->
  a_History (ag (each recs (recordResponse env) s).2)
  = lastn (Z.to_nat (max_history (ag s))) (old ++ stamped (tick s) recs).
Proof.
  revert s old. induction recs as [|r recs IH]; intros s old Hs; [simpl; by rewrite app_nil_r|].
  cbn [each]. unfold bind. destruct (recordResponse_history r s) as (E1 & E2 & E3).
  destruct (recordResponse env r s) as [[] s1]. cbn [snd] in *. fold (max_history (ag s)) in E1, E2.
  pose proof (max_history_pos (ag s)) as Hpos.
  assert (max_history (ag s1) = max_history (ag s)) as Em.
  { unfold max_history at 1. rewrite E2. destruct (Z.leb_spec (max_history (ag s)) 0); [lia|done]. }
  rewrite Hs, push_history_lastn, lastn_snoc in E1 by lia.
  rewrite (IH s1 (old ++ [stamp r (clock env (tick s))])); rewrite Em; [|done].
  rewrite E3, <- app_assoc. done.
Qed.

(** The history holds the latest records, at most the configured number (256
    when none is configured), oldest first and each stamped with the clock, and a
    query with a limit returns the latest ones of it. *)
Theorem history_keeps_latest recs s limit :
  a_History (ag s) = [] ->
  let max := max_history (ag s) in
  let a' := ag (each recs (recordResponse env) s).2 in
  a_History a' = lastn (Z.to_nat max) (stamped (tick s) recs) /\
  Z.of_nat (length (a_History a')) <= max /\
  ResponseHistory a' limit =
    (if limit <=? 0 then a_History a' else lastn (Z.to_nat limit) (a_History a')).
Proof.
  intros Hh max a'. pose proof (max_history_pos (ag s)) as Hmax. fold max in Hmax.
  assert (a_History a' = lastn (Z.to_nat max) (stamped (tick s) recs)) as Hres.
  { subst a' max. rewrite (history_run recs s []); [done|]. rewrite Hh. done. }
  split_and!; [done| |].
  - rewrite Hres. unfold lastn. rewrite length_drop. lia.
  - unfold ResponseHistory. destruct (Z.leb_spec limit 0); cbn [orb].
    + by rewrite Z.sub_diag.
    + unfold lastn. destruct (Z.ltb_spec (Z.of_nat (length (a_History a'))) limit); f_equal; lia.
Qed.

(** ** The fast path *)

Definition exec_subject (ev : Event) : Subject :=
  mkSubject (Comm ev) (Filename ev) "" (itoa (UID ev)) "" "" false "" "" "".

(** The access lists deny the process of the event. *)
Definition denied (pol : Policy) (ev : Event) : option Rule :=
  match EvaluateProcessAccess pol (exec_subject ev) with
  | Some rule => if r_Decision rule == "allow" then None else Some rule
  | None => None
  end.

Lemma recordResponse_queues rec s :
  a_deferredCh (ag (recordResponse env rec s).2) = a_deferredCh (ag s).
Proof.
  unfold recordResponse, now_, ask, getA, modA, count, bind, ret, when, emit. cbn [ag tick].
  destruct (a_ResponsePath (ag s) != ""); [|done].
  destruct (a_responseCh (ag s)) as [q|]; [|done]. destruct (try_send _ _ _) as [[] q']; done.
Qed.

(** C35. An exec event that the access lists deny reaches the responder at once,
    exactly once, with the pid and the executable of the event, whatever the
    suppressor holds; it leaves the suppressor and the second stage alone.  Any
    other exec event is queued for the second stage in order, or, when its queue
    of 256 is full, reported as dropped, and the responder is not asked. *)
Theorem exec_enforced_or_deferred ev s :
  exists new, effects (handleFastPathExec env ev s).2 = effects s ++ new /\
  a_Suppressor (ag (handleFastPathExec env ev s).2) = a_Suppressor (ag s) /\
  match denied (a_Policy (ag s)) ev with
  | Some rule =>
      let req := mkRequest (Policy.r_Action rule) (BpfEvent.PID ev) "" (r_ID rule) "" 0 "" (Filename ev) "" in
      a_deferredCh (ag (handleFastPathExec env ev s).2) = a_deferredCh (ag s) /\
      exists rest, new = EApply req (apply_ env (tick s) req) :: rest /\ Forall (fun e => ~ is_apply e) rest
  | None =>
      let de := mkDeferred (BpfEvent.PID ev) (BpfEvent.PPID ev) (UID ev) (Comm ev) (Filename ev) (clock env (tick s)) in
      match a_deferredCh (ag s) with
      | Some q =>
          if (length q <? channelCap)%nat
          then new = [] /\ a_deferredCh (ag (handleFastPathExec env ev s).2) = Some (q ++ [de])
          else new = [EDropExec (BpfEvent.PID ev)] /\ a_deferredCh (ag (handleFastPathExec env ev s).2) = Some q
      | None => new = [EDropExec (BpfEvent.PID ev)]
      end
  end.
Proof.
  destruct (handleFastPathExec env ev s) as [u s'] eqn:E. cbn [snd].
  unfold handleFastPathExec, getA in E. unfold bind at 1 in E. unfold denied, exec_subject.
  set (deferring := bind (now_ env) _) in E.
  assert (deferring s = (u, s') -> exists new, effects s' = effects s ++ new /\
    a_Suppressor (ag s') = a_Suppressor (ag s) /\
    match a_deferredCh (ag s) with
    | Some q =>
        if (length q <? channelCap)%nat
        then new = [] /\ a_deferredCh (ag s') = Some (q ++ [mkDeferred (BpfEvent.PID ev) (BpfEvent.PPID ev) (UID ev)
               (Comm ev) (Filename ev) (clock env (tick s))])
        else new = [EDropExec (BpfEvent.PID ev)] /\ a_deferredCh (ag s') = Some q
    | None => new = [EDropExec (BpfEvent.PID ev)]
    end) as Hdefer.
  { unfold deferring, now_, ask, bind, modA, when, emit, ret, try_send.
    destruct (a_deferredCh (ag s)) as [q|]; [destruct (length q <? channelCap)%nat|]; intros [= <- <-];
      eexists; (split; [try reflexivity; symmetry; apply app_nil_r|]); done. }
  destruct (EvaluateProcessAccess _ _) as [rule|]; [|by apply Hdefer].
  destruct (r_Decision rule == "allow"); [by apply Hdefer|]. clear Hdefer deferring.
  unfold Apply in E. unfold bind at 1 2 in E. unfold ask in E. unfold bind in E. cbn [emit ret tick ag effects] in E.
  match type of E with recordResponse env ?rec ?s0 = _ =>
    destruct (recordResponse_effects rec s0) as (s1 & rest & E1 & He & HF & Hs);
    pose proof (recordResponse_queues rec s0) as Hq end.
  rewrite E1 in E, Hq. simplify_eq. cbn [effects ag snd] in *. eexists. rewrite He, <- app_assoc.
  split_and!; [reflexivity|done|done|]. eexists. done.
Qed.

(** C36. A self-protection event is logged first; a process is signalled only
    when the policy enforces kills, only the attacker of the event, at most once
    and with a kill, and never pid 1 or below nor the agent itself. *)
Theorem self_protect_guarded ev s :
  a_Logger (ag s) = true ->
  exists e rest, effects (handleFastPathSelfProtect env ev s).2 = effects s ++ ELog e :: rest /\
    en_RuleID e = "self-protect-detect" /\
    (exists sent tail, rest = sent ++ tail /\
      (sent = [] \/ sent = [ESignal (BpfEvent.PID ev) SIGKILL] /\ 1 < BpfEvent.PID ev /\ BpfEvent.PID ev <> getpid env /\
        sp_EnforceMode (p_SelfProtection (a_Policy (ag s))) = "kill") /\
      Forall (fun e => match e with ELog e => en_RuleID e = "self-protect-enforce" | _ => False end) tail).
Proof.
  intros Hl. unfold handleFastPathSelfProtect, getA. unfold bind at 1. rewrite Hl. cbn [negb].
  unfold now_, ask, log_, emit. unfold bind at 1 2. cbn [tick ag effects stateFile_].
  destruct (sp_EnforceMode _ != "kill") eqn:Ek.
  { eexists _, []. split_and!; [done|done|]. exists [], []. split_and!; [done|by left|constructor]. }
  destruct ((BpfEvent.PID ev <=? 1) || _) eqn:Ep.
  { eexists _, []. split_and!; [done|done|]. exists [], []. split_and!; [done|by left|constructor]. }
  apply negb_false_iff, bool_decide_eq_true in Ek. apply orb_false_iff in Ep as [Ep1 Ep2].
  apply Z.leb_gt in Ep1. apply bool_decide_eq_false in Ep2. unfold bind at 1. cbn [tick ag effects stateFile_].
  set (s0 := mkSt _ _ _ _).
  match goal with |- context [bind ?m _] =>
    assert (exists sent s1, m s0 = (tt, s1) /\ effects s1 = effects s0 ++ sent /\
      (sent = [] \/ sent = [ESignal (BpfEvent.PID ev) SIGKILL])) as (sent & s1 & Em & He & Hsent) end.
  { unfold PidfdKill, when.
    repeat case_match; simplify_eq; cbn [each];
      first [exists [], s0; rewrite app_nil_r; by auto | eexists _, _; split; [reflexivity|]; by auto]. }
  unfold bind. rewrite Em. cbn [snd effects ag]. rewrite He. subst s0. cbn [effects].
  eexists _, (sent ++ [_]). split_and!; [by rewrite <- !app_assoc|done|].
  eexists sent, [_]. split_and!; [done| |by repeat constructor].
  destruct Hsent as [->| ->]; [by left|right]. done.
Qed.
End Proofs.

(** ** Sample runs *)

Module Sample.
#[local] Instance unicode : GoUnicode := {| uni_equalFold := String.eqb; uni_toLower := id |}.
#[local] Instance floats : FloatOps := Suppress.binary64.

Definition rule : Rule := litRule "r1" "process" "high" "block" "kill" emptyMatch.
Definition policy : Policy :=
  mkPolicy "v0.5" (mkProcessAccess "" [] [] "" "") (mkSelfProtection true "" "kill" false) [rule].
Definition proc : Process := mkProcess 40 "nc" "/bin/nc" "nc -l" "root" "991" 1 "" "" "".

(** The clock advances by a nanosecond per question, every process is alive,
    the responder succeeds, the table of processes holds one. *)
Definition env : Env :=
  mkEnv Z.of_nat (fun _ => mkClock 0 0) (fun _ req => mkResult (Action req) true "done")
    (fun _ => Some (mkSnapshot [] [] [])) (fun _ _ => true) (fun _ _ => Some "/bin/nc") (fun _ _ => Some "")
    (fun _ _ => None)
    (fun _ => mkSys (Ok ∅) (fun _ => NotSupported) (fun _ => None) (fun _ => None) (fun _ => None)) 7.

Definition sup : Suppressor := NewSuppressor (mkOptions (30 * second) 0 0 0 0).
Definition agent (statePath : string) : Agent :=
  mkAgent policy (Some sup) statePath [] 2 "" (mkCounters 0 0 0 0 ∅ ∅) None None true.
Definition start (statePath : string) : St := mkSt (agent statePath) StateMissing 0 [].

Lemma sup_ok : cooldowns_ok sup.
Proof. vm_compute. repeat split; reflexivity. Qed.

Lemma match_set_gated_witness :
  exists new, effects (applyMatchSet env 5 [rule] "process" None None (Some proc) (start "")).2 = [] ++ new /\
    gated 5 (Some rule) [rule] "process" None None (Some proc) [(true, ""); (false, "cooldown")] new.
Proof.
  pose proof (match_set_gated env 5 [rule] "process" None None (Some proc) (start "") sup eq_refl) as H.
  assert (AggregatedDecision [rule] = (Some rule, [rule])) as E by (vm_compute; reflexivity).
  rewrite E in H. exact H.
Defined.

(** The audit is logged and the kill the rule asks for is not attempted. *)
Lemma audited_rule_not_enforced_witness :
  exists new, effects (applyMatchSet env 5 [rule] "process" None None (Some proc) (start "")).2 = [] ++ new /\
    ELog (audit_entry 5 "process" None None rule) ∈ new /\ Forall (fun e => ~ is_apply e) new.
Proof.
  apply (audited_rule_not_enforced env 5 [rule] "process" None None (Some proc) (start "") sup rule [] [] "").
  - reflexivity.
  - exact sup_ok.
  - vm_compute. reflexivity.
  - vm_compute. reflexivity.
  - intros i j H. simpl. lia.
  - vm_compute. reflexivity.
  - vm_compute. reflexivity.
Defined.

Example kill_not_attempted :
  effects (applyMatchSet env 5 [rule] "process" None None (Some proc) (start "")).2
  = [ELog (audit_entry 5 "process" None None rule)].
Proof. vm_compute. reflexivity. Qed.

(** Without a suppressor the rule is logged and responded to. *)
Example ungated_rule_enforced :
  let a := mkAgent policy None "" [] 2 "" (mkCounters 0 0 0 0 ∅ ∅) None None true in
  map (fun e => match e with ELog _ => "log" | EApply req _ => Action req | _ => "" end)
    (effects (applyMatchSet env 5 [rule] "process" None None (Some proc) (mkSt a StateMissing 0 [])).2)
  = ["log"; "kill"; "log"].
Proof. vm_compute. reflexivity. Qed.

Definition rec (id : string) : ResponseRecord :=
  mkRecord 0 id "process" None None (mkRequest "kill" 40 "" id "" 0 "" "" "") (mkResult "kill" true "").

Lemma history_keeps_latest_witness :
  a_History (ag (each [rec "a"; rec "b"; rec "c"] (recordResponse env) (start "")).2)
  = [stamp (rec "b") 1; stamp (rec "c") 2].
Proof.
  destruct (history_keeps_latest env [rec "a"; rec "b"; rec "c"] (start "") 0 eq_refl) as [H _].
  exact H.
Defined.

Definition attack : Event := mkEvent EventSelfProtect 0 66 7 66 0 0 "evil" "kill" "" 0 0.

Lemma self_protect_guarded_witness :
  exists e rest, effects (handleFastPathSelfProtect env attack (start "")).2 = [] ++ ELog e :: rest /\
    en_RuleID e = "self-protect-detect".
Proof.
  destruct (self_protect_guarded env attack (start "") eq_refl) as (e & rest & H1 & H2 & _).
  exists e, rest. split; [exact H1|exact H2].
Defined.

(** The suppressor's state is read back from its file at the start of every
    round, and is written only at the end of one: what the second stage recorded
    in between is forgotten, and the same event is emitted again. *)
Definition deferred : deferredEval := mkDeferred 40 1 0 "nc" "/bin/nc" 0.
Definition emitted (s : St) : nat := length (effects s).

Example reload_forgets_cooldown :
  let s1 := (RunOnce env false (start "sup.json")).2 in
  let s2 := (processDeferredEval env deferred s1).2 in
  let s3 := (processDeferredEval env deferred s2).2 in
  let s4 := (RunOnce env false s2).2 in
  let s5 := (processDeferredEval env deferred s4).2 in
  (emitted s1, emitted s2, emitted s3, emitted s5) = (0, 1, 1, 2)%nat.
Proof. vm_compute. reflexivity. Qed.
End Sample.
