(* ===== verification/Security.v ===== *)
(** * Authorization and path containment ([internal/control/security.go])

    Absolute clean paths are lists of components; relative and unclean ones are
    strings that [abs] cleans.  The file system is a map from paths to
    directories, files and links, fixed during one call, in which an ancestor of
    an existing entry is a directory ([well_formed]).  The kernel follows at most
    40 links in a lookup, [filepath.EvalSymlinks] at most 255. *)

From S2P Require Import Prelude GoStrings.

#[local] Open Scope string_scope.
#[local] Open Scope list_scope.
#[local] Open Scope Z_scope.

(** ** Credentials *)

Record peerCred := mkCred { uid : Z; gid : Z; pid : Z }.

(** [ConnContext]: the credentials kept in the context of a connection. *)
Definition ConnContext (unix : bool) (ucred : option peerCred) : option peerCred :=
  if negb unix then None
  else
    let cred := default (mkCred 0 0 0) ucred in
    if (cred.(uid) == 0) && (cred.(gid) == 0) && (cred.(pid) == 0) then None else Some cred.

Definition auditLoginUIDUnset : Z := 4294967295.

Definition readProcLoginUID (read : Z -> option string) (pid : Z) : option Z :=
  if pid <=? 0 then None
  else match read pid with
  | None => None
  | Some raw => match parseUint 10 32 (trimSpace raw) with (n, None) => Some n | _ => None end
  end.

Inductive auth_err :=
| ErrNoUIDs | ErrMissingCred | ErrLoginUID | ErrUID (uid : Z) | ErrPeerLogin (uid : Z).

Definition shutdownCredential (read : Z -> option string) (ctx : option peerCred) : result auth_err (peerCred * Z) :=
  match ctx with
  | None => Err ErrMissingCred
  | Some cred =>
      match readProcLoginUID read cred.(pid) with
      | None => Err ErrLoginUID
      | Some loginUID => Ok (cred, loginUID)
      end
  end.

Definition authorizeRootLogin (read : Z -> option string) (ctx : option peerCred) : result auth_err (peerCred * Z) :=
  let? (cred, loginUID) := shutdownCredential read ctx in
  fail_if cred.(uid) != 0 with ErrUID cred.(uid) ;;
  fail_if (loginUID != 0) && (loginUID != auditLoginUIDUnset) with ErrPeerLogin loginUID ;;
  Ok (cred, loginUID).

Definition authorize (ctx : option peerCred) (allowedUIDs : list Z) : result auth_err () :=
  fail_if allowedUIDs == [] with ErrNoUIDs ;;
  match ctx with
  | None => Err ErrMissingCred
  | Some cred => if existsb (fun u => cred.(uid) == wrapu 32 u) allowedUIDs then Ok () else Err (ErrUID cred.(uid))
  end.

(** ** Paths *)

Definition path := list string.

(** [filepath.Clean] of a rooted path, by components. *)
Fixpoint clean (acc : path) (l : list string) : path :=
  match l with
  | [] => acc
  | c :: l =>
      if (c == "") || (c == ".") then clean acc l
      else if c == ".." then clean (removelast acc) l
      else clean (acc ++ [c]) l
  end.

Definition is_abs (s : string) : bool := hasPrefix s "/".

(** [filepath.Abs] with the working directory [cwd]. *)
Definition abs (cwd : path) (s : string) : path := clean (if is_abs s then [] else cwd) (split "/"%char s).

(** [filepath.Rel] of two clean absolute paths. *)
Fixpoint rel (base targ : path) : path :=
  match base, targ with
  | b :: base', t :: targ' => if b == t then rel base' targ' else map (fun _ => "..") base ++ targ
  | _, _ => map (fun _ => "..") base ++ targ
  end.

(** ** The file system *)

Inductive node := NDir | NFile | NLink (target : string).
Definition fsys := gmap path node.

Inductive os_err := ENOENT | ENOTDIR | ELOOP.

(** The root always exists. *)
Definition look (fs : fsys) (p : path) : option node := if p == [] then Some NDir else fs !! p.

(** A lookup of [todo] from the directory [acc], following at most [links]
    links, the last component's too when [follow]. *)
Fixpoint walk (fs : fsys) (follow : bool) (links : nat) : path -> list string -> result os_err path :=
  fix go (acc : path) (todo : list string) {struct todo} : result os_err path :=
    match todo with
    | [] => Ok acc
    | c :: rest =>
        if (c == "") || (c == ".") then go acc rest
        else if c == ".." then go (removelast acc) rest
        else match look fs (acc ++ [c]) with
        | None => Err ENOENT
        | Some NDir => go (acc ++ [c]) rest
        | Some NFile => match rest with [] => Ok (acc ++ [c]) | _ => Err ENOTDIR end
        | Some (NLink t) =>
            if negb follow && (rest == []) then Ok (acc ++ [c])
            else match links with
            | O => Err ELOOP
            | S links => walk fs follow links (if is_abs t then [] else acc) (split "/"%char t ++ rest)
            end
        end
    end.

(** [os.Lstat] and [filepath.EvalSymlinks] of a clean absolute path. *)
Definition lstat (fs : fsys) (p : path) : result os_err node :=
  let? q := walk fs false 40 [] p in
  match look fs q with Some n => Ok n | None => Err ENOENT end.
Definition evalSymlinks (fs : fsys) (p : path) : result os_err path := walk fs true 255 [] p.

Definition is_link (n : node) : bool := match n with NLink _ => true | _ => false end.

(** The loop of [resolvePathAllowMissing]: [cur] is [rev rcur], [suffix] the
    components that do not exist, outermost first. *)
Fixpoint resolve_loop (fs : fsys) (rcur : list string) (suffix : path) : result os_err (path * path) :=
  match lstat fs (rev rcur) with
  | Ok n =>
      if is_link n then let? r := evalSymlinks fs (rev rcur) in Ok (r, suffix) else Ok (rev rcur, suffix)
  | Err ENOENT =>
      match rcur with
      | [] => Ok ([], suffix)
      | c :: rcur => resolve_loop fs rcur (c :: suffix)
      end
  | Err e => Err e
  end.

Definition resolvePathAllowMissing (fs : fsys) (cwd : path) (s : string) : result os_err path :=
  let? (cur, suffix) := resolve_loop fs (rev (abs cwd s)) [] in
  let? resolved := match evalSymlinks fs cur with
                   | Ok r => Ok r
                   | Err ENOENT => Ok cur
                   | Err e => Err e
                   end in
  Ok (clean [] (resolved ++ suffix)).

Inductive path_err := PErrBase | PErrEmpty | PErrOS (e : os_err) | PErrBaseLink | PErrEscapes.

Definition lift {A} (r : result os_err A) : result path_err A :=
  match r with Ok a => Ok a | Err e => Err (PErrOS e) end.

Definition safePathUnder (fs : fsys) (cwd : path) (baseDir candidate : string) : result path_err path :=
  fail_if trimSpace baseDir == "" with PErrBase ;;
  fail_if trimSpace candidate == "" with PErrEmpty ;;
  let? candAbs := lift (resolvePathAllowMissing fs cwd candidate) in
  let baseAbs := abs cwd baseDir in
  fail_if match lstat fs baseAbs with Ok n => is_link n | Err _ => false end with PErrBaseLink ;;
  fail_if head (rel baseAbs candAbs) == Some ".." with PErrEscapes ;;
  Ok candAbs.

(** ** Directories checked at startup *)

(** [os.MkdirAll] of a path none of whose ancestors is a link. *)
Fixpoint mkdirAll (fs : fsys) (acc : path) (l : list string) : result os_err fsys :=
  match l with
  | [] => Ok fs
  | c :: l =>
      match look fs (acc ++ [c]) with
      | Some NDir => mkdirAll fs (acc ++ [c]) l
      | None => mkdirAll (<[acc ++ [c] := NDir]> fs) (acc ++ [c]) l
      | Some _ => Err ENOTDIR
      end
  end.

Inductive base_err := BErrLstat (p : path) | BErrCreate | BErrLink (p : path) | BErrRecheck (p : path).

Fixpoint recheckNoSymlink (fs : fsys) (cur : path) (parts : list string) : result base_err () :=
  match parts with
  | [] => Ok ()
  | c :: parts =>
      match lstat fs (cur ++ [c]) with
      | Err _ => Err (BErrRecheck (cur ++ [c]))
      | Ok n => if is_link n then Err (BErrRecheck (cur ++ [c])) else recheckNoSymlink fs (cur ++ [c]) parts
      end
  end.

(** The loop of [ValidateBaseNotSymlink] over the components of [full]. *)
Fixpoint validate_loop (fs : fsys) (full cur : path) (parts : list string) : result base_err fsys :=
  match parts with
  | [] => Ok fs
  | c :: parts =>
      match lstat fs (cur ++ [c]) with
      | Err ENOENT =>
          match mkdirAll fs [] full with
          | Err _ => Err BErrCreate
          | Ok fs' => let? _ := recheckNoSymlink fs' [] full in Ok fs'
          end
      | Err _ => Err (BErrLstat (cur ++ [c]))
      | Ok n => if is_link n then Err (BErrLink (cur ++ [c])) else validate_loop fs full (cur ++ [c]) parts
      end
  end.

Definition ValidateBaseNotSymlink (fs : fsys) (cwd : path) (s : string) : result base_err fsys :=
  if trimSpace s == "" then Ok fs else validate_loop fs (abs cwd s) [] (abs cwd s).

(** ** Who is let in *)

(** A request is authorized exactly when its connection carries peer
    credentials whose uid is one of the configured ones, taken modulo [2 ^ 32];
    with no uid configured nobody is. *)
Lemma authorize_ok_iff (ctx : option peerCred) (allowed : list Z) :
  authorize ctx allowed = Ok () <-> exists cred u, ctx = Some cred /\ u ∈ allowed /\ uid cred = wrapu 32 u.
Proof.
  unfold authorize. destruct allowed as [|u us]; [simpl; split; [done|set_solver]|].
  rewrite bool_decide_false by done. destruct ctx as [cred|]; [|naive_solver].
  destruct (existsb _ (u :: us)) eqn:E.
  - apply existsb_exists in E as (v & Hv & E). bool_props. split; [|done]. intros _. exists cred, v.
    split_and!; [done| |done]. by apply list_elem_of_In.
  - split; [done|]. intros (c & v & [= <-] & Hv & Hu). exfalso.
    assert (existsb (fun u => uid cred == wrapu 32 u) (u :: us) = true) as E'; [|congruence].
    apply existsb_exists. exists v. split; [by apply list_elem_of_In|]. by apply bool_decide_eq_true.
Qed.

(** A shutdown needs uid 0 and a login uid that is 0 or unset. *)
Lemma authorizeRootLogin_ok_iff (ctx : option peerCred) (read : Z -> option string) cred l :
  authorizeRootLogin read ctx = Ok (cred, l) <->
  ctx = Some cred /\ uid cred = 0 /\ readProcLoginUID read (pid cred) = Some l /\ (l = 0 \/ l = auditLoginUIDUnset).
Proof.
  unfold authorizeRootLogin, shutdownCredential.
  destruct ctx as [c|]; [|naive_solver]. destruct (readProcLoginUID read (pid c)) as [l'|] eqn:El; cbn [res_bind];
    [|naive_solver].
  case_bool_decide as Eu; cbn [negb]; [|naive_solver].
  destruct (_ && _) eqn:E; [bool_props; naive_solver|].
  apply andb_false_iff in E as [E|E]; bool_props; naive_solver.
Qed.

(** ** Lookups *)

Definition well_formed (fs : fsys) : Prop :=
  forall p c n, fs !! (p ++ [c]) = Some n -> look fs p = Some NDir.

(** No prefix of the path is a link. *)
Definition real (fs : fsys) (p : path) : Prop := forall q t, q `prefix_of` p -> look fs q <> Some (NLink t).

Definition plain (c : string) : Prop := c <> "" /\ c <> "." /\ c <> "..".

Lemma look_snoc fs p c : look fs (p ++ [c]) = fs !! (p ++ [c]).
Proof. unfold look. rewrite bool_decide_false; [done|]. by destruct p. Qed.

Lemma look_nil fs : look fs [] = Some NDir.
Proof. done. Qed.

Lemma prefix_snoc_inv {A} (q p : list A) c : q `prefix_of` p ++ [c] -> q `prefix_of` p \/ q = p ++ [c].
Proof.
  intros [k E]. destruct k as [|x k _] using rev_ind; [right; by rewrite app_nil_r in E|left].
  rewrite app_assoc in E. apply app_inj_tail in E as [-> _]. by exists k.
Qed.

Lemma real_snoc fs p c : real fs p -> (forall t, look fs (p ++ [c]) <> Some (NLink t)) -> real fs (p ++ [c]).
Proof. intros Hp Hc q t [Hq| ->]%prefix_snoc_inv; [by apply Hp|apply Hc]. Qed.

Lemma removelast_prefix (p : path) : removelast p `prefix_of` p.
Proof.
  destruct p as [|c p _] using rev_ind; [done|]. rewrite removelast_last. by exists [c].
Qed.

Lemma real_removelast fs p : real fs p -> real fs (removelast p).
Proof. intros Hp q t Hq. apply Hp. etrans; [exact Hq|]. apply removelast_prefix. Qed.

Lemma real_nil fs : real fs [].
Proof. intros q t Hq. apply prefix_nil_inv in Hq as ->. done. Qed.

Lemma plain_removelast (p : path) : Forall plain p -> Forall plain (removelast p).
Proof.
  destruct p as [|c p _] using rev_ind; [done|]. rewrite removelast_last. by intros [? _]%Forall_app.
Qed.

Lemma walk_cons fs follow links acc c rest :
  walk fs follow links acc (c :: rest) =
    if (c == "") || (c == ".") then walk fs follow links acc rest
    else if c == ".." then walk fs follow links (removelast acc) rest
    else match look fs (acc ++ [c]) with
    | None => Err ENOENT
    | Some NDir => walk fs follow links (acc ++ [c]) rest
    | Some NFile => match rest with [] => Ok (acc ++ [c]) | _ => Err ENOTDIR end
    | Some (NLink t) =>
        if negb follow && (rest == []) then Ok (acc ++ [c])
        else match links with
        | O => Err ELOOP
        | S links => walk fs follow links (if is_abs t then [] else acc) (split "/"%char t ++ rest)
        end
    end.
Proof. by destruct links. Qed.

Lemma walk_nil fs follow links acc : walk fs follow links acc [] = Ok acc.
Proof. by destruct links. Qed.

Section Walk.
Context (fs : fsys) (Hwf : well_formed fs).

Lemma dir_removelast p n : look fs p = Some n -> look fs (removelast p) = Some NDir.
Proof.
  destruct p as [|c p _] using rev_ind; [done|]. rewrite removelast_last, look_snoc. apply Hwf.
Qed.

(** A path the walk may have reached: plain, existing, through no link. *)
Definition reached (p : path) : Prop := Forall plain p /\ real fs p /\ look fs p <> None.

(** What a walk that follows every link returns. *)
Lemma walk_reached links acc todo r :
  Forall plain acc -> real fs acc -> look fs acc = Some NDir -> walk fs true links acc todo = Ok r -> reached r.
Proof.
  revert acc todo. induction links as [links IHl] using lt_wf_ind.
  intros acc todo. revert acc. induction todo as [|c rest IH]; intros acc Hpl Hr Hd E.
  { destruct links; simpl in E; simplify_eq; (split_and!; [done|done|congruence]). }
  rewrite walk_cons in E. cbn [negb andb] in E.
  case_bool_decide as E1; [by apply (IH acc)|]. case_bool_decide as E2; [by apply (IH acc)|].
  cbn [orb] in E. case_bool_decide as E3.
  { apply (IH (removelast acc)); [by apply plain_removelast|by apply real_removelast|by eapply dir_removelast|done]. }
  assert (Forall plain (acc ++ [c])) as Hpl' by (apply Forall_app; split; [done|by repeat constructor]).
  destruct (look fs (acc ++ [c])) as [[| |t]|] eqn:El; [| | |done].
  - apply (IH (acc ++ [c])); [done| |done|done]. apply real_snoc; [done|]. intros t. by rewrite El.
  - destruct rest; [|done]. simplify_eq. split_and!; [done| |congruence].
    apply real_snoc; [done|]. intros t. by rewrite El.
  - destruct links as [|links]; [done|].
    eapply (IHl links); [lia| | | |exact E]; destruct (is_abs t); done || apply real_nil || constructor.
Qed.

(** More links allowed do not change an answer other than [ELOOP]. *)
Lemma walk_mono follow links links' acc todo :
  (links <= links')%nat -> walk fs follow links acc todo <> Err ELOOP ->
  walk fs follow links' acc todo = walk fs follow links acc todo.
Proof.
  revert links' acc todo. induction links as [links IHl] using lt_wf_ind.
  intros links' acc todo Hle. revert acc. induction todo as [|c rest IH]; intros acc Hne; [by rewrite !walk_nil|].
  rewrite walk_cons in Hne. rewrite !walk_cons.
  destruct (_ || _); [by apply IH|]. destruct (c == ".."); [by apply IH|].
  destruct (look fs (acc ++ [c])) as [[| |t]|]; [by apply IH|done| |done].
  destruct (negb follow && _); [done|]. destruct links as [|links]; [done|]. destruct links' as [|links']; [lia|].
  apply IHl; [lia|lia|done].
Qed.

(** When a lookup of one more plain component finds nothing, that component
    does not exist in the directory the path leads to. *)
Lemma walk_missing links acc todo c r :
  plain c -> walk fs false links acc (todo ++ [c]) = Err ENOENT -> walk fs true links acc todo = Ok r ->
  look fs (r ++ [c]) = None.
Proof.
  intros (Hc1 & Hc2 & Hc3). revert acc todo. induction links as [links IHl] using lt_wf_ind.
  intros acc todo. revert acc. induction todo as [|x rest IH]; intros acc E1 E2.
  { rewrite walk_nil in E2. simplify_eq. cbn [app] in E1. rewrite walk_cons in E1.
    rewrite !bool_decide_false in E1 by done. cbn [orb negb andb] in E1.
    destruct (look fs (r ++ [c])) as [[| |t]|]; [by rewrite walk_nil in E1|done| |done].
    by rewrite bool_decide_true in E1. }
  cbn [app] in E1. rewrite walk_cons in E1, E2. destruct (_ || _); [by apply (IH acc)|].
  destruct (x == ".."); [by apply (IH (removelast acc))|].
  destruct (look fs (acc ++ [x])) as [[| |t]|]; [by apply (IH (acc ++ [x]))| | |done].
  - destruct (rest ++ [c]) eqn:E; [by destruct rest|done].
  - rewrite (bool_decide_false (rest ++ [c] = [])) in E1 by (by destruct rest). cbn [negb andb] in E1, E2.
    destruct links as [|links]; [done|]. rewrite app_assoc in E1. by apply (IHl links ltac:(lia) _ _ E1).
Qed.

(** A lookup that ends at something else than a link is what following gives. *)
Lemma walk_agree links acc todo r :
  walk fs false links acc todo = Ok r -> (forall t, look fs r <> Some (NLink t)) ->
  walk fs true links acc todo = Ok r.
Proof.
  revert acc todo. induction links as [links IHl] using lt_wf_ind.
  intros acc todo. revert acc. induction todo as [|x rest IH]; intros acc E Hl; [by rewrite walk_nil in *|].
  rewrite walk_cons in E. rewrite walk_cons. destruct (_ || _); [by apply IH|]. destruct (x == ".."); [by apply IH|].
  destruct (look fs (acc ++ [x])) as [[| |t]|] eqn:El; [by apply IH|done| |done].
  cbn [negb andb] in *. case_bool_decide; [simplify_eq; by destruct (Hl t)|].
  destruct links as [|links]; [done|]. by apply IHl; [lia|..].
Qed.

(** A reached path is its own resolution. *)
Lemma walk_self links p : reached p -> walk fs true links [] p = Ok p.
Proof.
  intros (Hpl & Hr & He).
  enough (forall q k, p = q ++ k -> walk fs true links q k = Ok p) as H by (by apply (H [] p)).
  intros q k. revert q. induction k as [|c k IH]; intros q Ep.
  { rewrite walk_nil, app_nil_r in *. by subst. }
  rewrite walk_cons. rewrite Ep in Hpl. apply Forall_app in Hpl as [_ Hpl]. apply Forall_cons in Hpl as [(? & ? & ?) _].
  rewrite !bool_decide_false by done. cbn [orb negb andb].
  assert (p = (q ++ [c]) ++ k) as Ep' by (by rewrite <- app_assoc).
  assert (look fs (q ++ [c]) <> None /\ (k <> [] -> look fs (q ++ [c]) = Some NDir)) as [Hex Hdir].
  { rewrite Ep' in He. clear -He Hwf. induction k as [|d k IH] using rev_ind; [by rewrite app_nil_r in He|].
    rewrite app_assoc, look_snoc in He. destruct (fs !! _) as [n|] eqn:E; [|done]. apply Hwf in E.
    destruct k as [|e k]; [rewrite app_nil_r in E; by rewrite E|]. destruct IH as [? IH]; [by rewrite E|].
    split; [done|]. intros _. by apply IH. }
  destruct (look fs (q ++ [c])) as [[| |t]|] eqn:El; [by apply IH| | |done].
  - destruct k; [by rewrite Ep|]. by discriminate Hdir.
  - exfalso. apply (Hr (q ++ [c]) t); [|done]. rewrite Ep'. by exists k.
Qed.
End Walk.

(** ** Containment *)

Lemma clean_plain acc l : Forall plain acc -> Forall plain (clean acc l).
Proof.
  revert acc. induction l as [|c l IH]; intros acc Ha; simpl; [done|].
  case_bool_decide; [by apply IH|]. case_bool_decide; [by apply IH|]. cbn [orb].
  case_bool_decide; [by apply IH, plain_removelast|]. apply IH, Forall_app. split; [done|]. by repeat constructor.
Qed.

Lemma clean_id acc l : Forall plain l -> clean acc l = acc ++ l.
Proof.
  intros Hl. revert acc. induction Hl as [|c l (? & ? & ?) Hl IH]; intros acc; simpl; [by rewrite app_nil_r|].
  rewrite !bool_decide_false by done. cbn [orb]. by rewrite IH, <- app_assoc.
Qed.

Lemma lstat_ok fs p n : lstat fs p = Ok n -> exists q, walk fs false 40 [] p = Ok q /\ look fs q = Some n.
Proof.
  unfold lstat. destruct (walk fs false 40 [] p) as [q|]; simpl; [|done].
  destruct (look fs q) as [n'|] eqn:E; [|done]. intros [= ->]. eauto.
Qed.

(** In a directory tree a lookup that succeeds ends at something that exists. *)
Lemma walk_exists fs links acc todo r :
  well_formed fs -> look fs acc = Some NDir -> walk fs false links acc todo = Ok r -> look fs r <> None.
Proof.
  intros Hwf. revert acc todo. induction links as [links IHl] using lt_wf_ind.
  intros acc todo. revert acc. induction todo as [|x rest IH]; intros acc Hd E.
  { rewrite walk_nil in E. simplify_eq. congruence. }
  rewrite walk_cons in E. destruct (_ || _); [by apply (IH acc)|].
  destruct (x == ".."); [by apply (IH (removelast acc)); [eapply dir_removelast|]|].
  destruct (look fs (acc ++ [x])) as [[| |t]|] eqn:El; [by apply (IH (acc ++ [x]))| | |done].
  - destruct rest; [|done]. simplify_eq. congruence.
  - destruct (negb false && _); [simplify_eq; congruence|]. destruct links as [|links]; [done|].
    eapply (IHl links); [lia| |exact E]. by destruct (is_abs t).
Qed.

#[local] Opaque walk.

Lemma lstat_missing fs p :
  well_formed fs -> lstat fs p = Err ENOENT -> walk fs false 255 [] p = Err ENOENT.
Proof.
  intros Hwf. unfold lstat. destruct (walk fs false 40 [] p) as [q|e] eqn:E; simpl.
  - apply walk_exists in E; [|done|done]. by destruct (look fs q).
  - intros [= ->]. rewrite (walk_mono fs false 40 255); [done|lia|by rewrite E].
Qed.

Lemma lstat_resolves fs p n :
  lstat fs p = Ok n -> is_link n = false -> exists r, evalSymlinks fs p = Ok r.
Proof.
  intros (q & E & Hl)%lstat_ok Hn. exists q. unfold evalSymlinks.
  assert (walk fs true 40 [] p = Ok q) as E' by (apply walk_agree; [done|]; intros t; rewrite Hl; by intros [= ->]).
  rewrite (walk_mono fs true 40 255); [done|lia|by rewrite E'].
Qed.

(** The missing components below an existing path. *)
Definition missing_below (fs : fsys) (p suffix : path) : Prop :=
  Forall plain suffix /\ forall c rest, suffix = c :: rest -> lstat fs (p ++ [c]) = Err ENOENT.

Lemma resolved_spec fs p suffix r :
  well_formed fs -> missing_below fs p suffix -> evalSymlinks fs p = Ok r ->
  reached fs r /\ forall c rest, suffix = c :: rest -> look fs (r ++ [c]) = None.
Proof.
  intros Hwf [Hsuf Hmiss] Hr. split.
  - by apply (walk_reached fs Hwf 255 [] p r); [constructor|apply real_nil|..].
  - intros c rest E. apply (walk_missing fs 255 [] p c r); [|by eapply lstat_missing, Hmiss|done].
    rewrite E in Hsuf. by apply Forall_cons in Hsuf as [? _].
Qed.

Lemma eval_self fs p : well_formed fs -> reached fs p -> evalSymlinks fs p = Ok p.
Proof. intros Hwf Hp. by apply walk_self. Qed.

(** What the search has found when it stops at the path [cur]. *)
Definition found (fs : fsys) (cur suf : path) : Prop :=
  exists r, evalSymlinks fs cur = Ok r /\ reached fs r /\ Forall plain suf /\
    forall c rest, suf = c :: rest -> look fs (r ++ [c]) = None.

Lemma resolve_stop fs p n suffix cur suf :
  well_formed fs -> missing_below fs p suffix -> lstat fs p = Ok n ->
  (if is_link n then let? r := evalSymlinks fs p in Ok (r, suffix) else Ok (p, suffix)) = Ok (cur, suf) ->
  found fs cur suf.
Proof.
  intros Hwf Hm El E. pose proof (resolved_spec fs p suffix) as Hres. destruct (is_link n) eqn:En.
  - destruct (evalSymlinks fs p) as [r|e] eqn:Er; cbn [res_bind] in E; [|discriminate E]. injection E as <- <-.
    destruct (Hres r Hwf Hm eq_refl) as [? ?]. exists r. split_and!; [by apply eval_self|done|apply Hm|done].
  - injection E as <- <-. destruct (lstat_resolves fs p n El En) as [r Hr]. destruct (Hres r Hwf Hm Hr) as [? ?].
    exists r. split_and!; [done|done|apply Hm|done].
Qed.

Lemma lstat_root fs : lstat fs [] = Ok NDir.
Proof. unfold lstat. rewrite walk_nil. done. Qed.

#[local] Opaque evalSymlinks lstat.

(** The loop ends at an existing path whose resolution lacks the first of the
    missing components. *)
Lemma resolve_loop_spec fs rcur suffix cur suf :
  well_formed fs -> Forall plain rcur -> missing_below fs (rev rcur) suffix ->
  resolve_loop fs rcur suffix = Ok (cur, suf) -> found fs cur suf.
Proof.
  intros Hwf. revert suffix. induction rcur as [|c rcur IH]; intros suffix Hpl Hm E; cbn [resolve_loop] in E.
  - rewrite (lstat_root fs : lstat fs (rev []) = _) in E. by eapply (resolve_stop fs (rev [])); [| |apply lstat_root|].
  - destruct (lstat fs (rev (c :: rcur))) as [n|e] eqn:El; [by eapply resolve_stop|].
    destruct e; [|done|done]. apply Forall_cons in Hpl as [Hc Hpl].
    eapply (IH (c :: suffix)); [done| |exact E]. split; [constructor; [done|apply Hm]|].
    intros x rest [= <- _]. exact El.
Qed.

Lemma rel_prefix base targ : Forall plain targ -> head (rel base targ) <> Some ".." -> base `prefix_of` targ.
Proof.
  revert targ. induction base as [|b base IH]; intros targ Hpl Hh; [apply prefix_nil|].
  destruct targ as [|t targ]; simpl in Hh; [done|]. case_bool_decide; [subst|done].
  apply prefix_cons, IH; [by apply Forall_cons in Hpl as [_ ?]|done].
Qed.

Lemma missing_below_deep fs r c rest q :
  well_formed fs -> look fs (r ++ [c]) = None -> q `prefix_of` r ++ c :: rest -> ~ q `prefix_of` r -> look fs q = None.
Proof.
  intros Hwf Hnone Hq Hnr.
  assert (r ++ [c] `prefix_of` q) as [k ->].
  { destruct (prefix_weak_total q (r ++ [c]) (r ++ c :: rest)) as [H|H]; [done|by exists rest; rewrite <- app_assoc| |done].
    apply prefix_snoc_inv in H as [?| ->]; [done|done]. }
  clear Hq Hnr. induction k as [|d k IH] using rev_ind; [by rewrite app_nil_r|].
  rewrite app_assoc, look_snoc. destruct (fs !! _) as [n|] eqn:E; [|done]. apply Hwf in E. congruence.
Qed.

(** C5. A path that [safePathUnder] returns lies under the base directory, and
    reading or writing it goes through no link at all: none of its prefixes is
    one.  So links under the base, in the candidate or above cannot lead out. *)
Theorem safe_path_contained (fs : fsys) (cwd : path) (baseDir candidate : string) (p : path) :
  well_formed fs -> Forall plain cwd -> safePathUnder fs cwd baseDir candidate = Ok p ->
  abs cwd baseDir `prefix_of` p /\ real fs p.
Proof.
  intros Hwf Hcwd. unfold safePathUnder, resolvePathAllowMissing.
  destruct (trimSpace baseDir == ""); [done|]. destruct (trimSpace candidate == ""); [done|].
  assert (forall s, Forall plain (abs cwd s)) as Habs by (intros s; apply clean_plain; by destruct (is_abs s)).
  destruct (resolve_loop _ _ _) as [[cur suf]|] eqn:E; [|done]. cbn [res_bind].
  apply resolve_loop_spec in E as (r & Hr & (Hpl & Hreal & _) & Hsuf & Hmiss);
    [|done|by apply Forall_rev|split; [constructor|done]].
  rewrite Hr. cbn [res_bind lift]. rewrite clean_id by (by apply Forall_app). cbn [app].
  destruct (match lstat _ _ with Ok _ => _ | Err _ => _ end); [done|].
  case_bool_decide as Eh; [done|]. intros [= <-]. split; [apply rel_prefix; [by apply Forall_app|done]|].
  intros q t Hq. destruct (decide (q `prefix_of` r)) as [?|Hnr]; [by apply Hreal|].
  destruct suf as [|c rest]; [by rewrite app_nil_r in Hq|].
  rewrite (missing_below_deep fs r c rest q); [done|done|by eapply Hmiss|done|done].
Qed.

(** ** Startup directories *)

(** The path exists, its proper prefixes are directories and it is no link. *)
Definition firm (fs : fsys) (p : path) : Prop :=
  (forall q c, q ++ [c] `prefix_of` p -> look fs q = Some NDir) /\ (look fs p = Some NDir \/ look fs p = Some NFile).

Lemma walk_dirs fs links q k rest :
  Forall plain k -> (forall j, j `prefix_of` k -> look fs (q ++ j) = Some NDir) ->
  walk fs false links q (k ++ rest) = walk fs false links (q ++ k) rest.
Proof.
  revert q. induction k as [|c k IH]; intros q Hpl Hd; [by rewrite app_nil_r|].
  apply Forall_cons in Hpl as [(? & ? & ?) Hpl]. cbn [app]. rewrite walk_cons, !bool_decide_false by done. cbn [orb].
  rewrite (Hd [c]) by (by apply prefix_cons, prefix_nil). rewrite (IH (q ++ [c]) Hpl).
  - by rewrite <- app_assoc.
  - intros j Hj. rewrite <- app_assoc. by apply (Hd (c :: j)), prefix_cons.
Qed.

Lemma firm_dirs fs p : firm fs p -> look fs p = Some NDir -> forall j, j `prefix_of` p -> look fs ([] ++ j) = Some NDir.
Proof.
  intros [Hpre _] Hp j [[|c k] ->]; [by rewrite app_nil_r in Hp|]. apply (Hpre j c).
  exists k. by rewrite <- app_assoc.
Qed.

#[local] Transparent lstat.

Lemma lstat_firm fs p c n :
  firm fs p -> Forall plain p -> plain c -> lstat fs (p ++ [c]) = Ok n -> is_link n = false -> firm fs (p ++ [c]).
Proof.
  intros Hf Hpl (Hc1 & Hc2 & Hc3) E Hn. destruct (proj2 Hf) as [Hd|Hfile].
  - unfold lstat in E. rewrite (walk_dirs fs 40 [] p [c] Hpl (firm_dirs fs p Hf Hd)) in E.
    rewrite walk_cons, !bool_decide_false in E by done. cbn [orb negb andb app] in E.
    split.
    + intros q d Hq. apply prefix_snoc_inv in Hq as [Hq|Hq]; [by apply (proj1 Hf q d)|].
      by apply app_inj_tail in Hq as [-> _].
    + destruct (look fs (p ++ [c])) as [[| |t]|] eqn:El; [by left|by right| |done].
      rewrite bool_decide_true in E by done. cbn [res_bind] in E. rewrite El in E. by simplify_eq.
  - exfalso. destruct p as [|d p _] using rev_ind; [done|].
    assert (Forall plain p) as Hpl' by (by apply Forall_app in Hpl as [? _]).
    assert (plain d) as (? & ? & ?) by (apply Forall_app in Hpl as [_ Hd]; by apply Forall_inv in Hd).
    unfold lstat in E. rewrite <- app_assoc in E. rewrite (walk_dirs fs 40 [] p _ Hpl') in E.
    + cbn [app] in E. rewrite walk_cons, !bool_decide_false in E by done. cbn [orb] in E. by rewrite Hfile in E.
    + intros j Hj. destruct Hj as [k ->]. destruct k as [|x k].
      * cbn [app]. apply (proj1 Hf j d). by rewrite app_nil_r.
      * apply (proj1 Hf j x). exists (k ++ [d]). by rewrite <- !app_assoc.
Qed.

Lemma recheck_firm fs cur parts :
  firm fs cur -> Forall plain cur -> Forall plain parts -> recheckNoSymlink fs cur parts = Ok () -> firm fs (cur ++ parts).
Proof.
  revert cur. induction parts as [|c parts IH]; intros cur Hf Hcur Hpl E; [by rewrite app_nil_r|].
  cbn [recheckNoSymlink] in E. apply Forall_cons in Hpl as [Hc Hpl].
  destruct (lstat fs (cur ++ [c])) as [n|] eqn:El; [|done]. destruct (is_link n) eqn:En; [done|].
  replace (cur ++ c :: parts) with ((cur ++ [c]) ++ parts) by (by rewrite <- app_assoc).
  apply IH; [by eapply lstat_firm| |done|done]. apply Forall_app. split; [done|]. by constructor.
Qed.

Lemma validate_firm fs full cur parts fs' :
  full = cur ++ parts -> Forall plain full -> firm fs cur -> validate_loop fs full cur parts = Ok fs' -> firm fs' full.
Proof.
  revert cur. induction parts as [|c parts IH]; intros cur Efull Hpl Hf E.
  { cbn in E. simplify_eq. by rewrite app_nil_r. }
  assert (Forall plain cur /\ plain c) as [Hcur Hc].
  { rewrite Efull in Hpl. apply Forall_app in Hpl as [? Hp]. by apply Forall_cons in Hp as [? _]. }
  cbn [validate_loop] in E. destruct (lstat fs (cur ++ [c])) as [n|[]] eqn:El; [|clear El|done|done].
  - destruct (is_link n) eqn:En; [done|]. apply (IH (cur ++ [c])); [by rewrite <- app_assoc|done| |done].
    by eapply lstat_firm.
  - destruct (mkdirAll fs [] full) as [fs1|]; [|done].
    destruct (recheckNoSymlink fs1 [] full) as [[]|] eqn:Er; [|done]. cbn [res_bind] in E. injection E as <-.
    apply (recheck_firm fs1 [] full); [|constructor|done|done]. split; [|by left].
    intros q x Hq. apply prefix_nil_inv in Hq. by destruct q.
Qed.

(** A directory that passes the startup check exists afterwards, and neither
    it nor any directory above it is a link. *)
Theorem validated_base_real (fs fs' : fsys) (cwd : path) (s : string) :
  trimSpace s <> "" -> Forall plain cwd -> ValidateBaseNotSymlink fs cwd s = Ok fs' ->
  real fs' (abs cwd s) /\ look fs' (abs cwd s) <> None.
Proof.
  intros Hs Hcwd. unfold ValidateBaseNotSymlink. rewrite bool_decide_false by done. intros E.
  apply validate_firm in E as [Hpre Hend]; [|done|by apply clean_plain; destruct (is_abs s)|].
  - split; [|by destruct Hend as [-> | ->]]. intros q t [[|c k] Hq].
    + rewrite app_nil_r in Hq. subst q. by destruct Hend as [-> | ->].
    + rewrite (Hpre q c); [done|]. rewrite Hq. exists k. by rewrite <- app_assoc.
  - split; [|by left]. intros q x Hq. apply prefix_nil_inv in Hq. by destruct q.
Qed.

(** The checks only ever add directories. *)
Definition grows (fs fs' : fsys) : Prop :=
  forall p, look fs' p = look fs p \/ (look fs p = None /\ look fs' p = Some NDir).

#[global] Instance grows_po : PreOrder grows.
Proof.
  split; [by left|]. intros fs1 fs2 fs3 H1 H2 p. destruct (H1 p) as [E1|[E1 E2]], (H2 p) as [E3|[E3 E4]].
  - left. congruence.
  - right. split; congruence.
  - right. split; congruence.
  - congruence.
Qed.

Lemma mkdirAll_grows fs acc l fs' : mkdirAll fs acc l = Ok fs' -> grows fs fs'.
Proof.
  revert fs acc. induction l as [|c l IH]; intros fs acc E; cbn [mkdirAll] in E; [by simplify_eq|].
  destruct (look fs (acc ++ [c])) as [[]|] eqn:El; [by eapply IH|done..|].
  transitivity (<[acc ++ [c] := NDir]> fs); [|by eapply IH]. intros p. rewrite look_snoc in El. unfold look.
  case_bool_decide; [by left|]. destruct (decide (p = acc ++ [c])) as [->|Hp].
  - right. split; [done|]. apply (lookup_insert_eq (M := gmap path)).
  - left. by apply (lookup_insert_ne (M := gmap path)).
Qed.

Lemma validate_grows fs cwd s fs' : ValidateBaseNotSymlink fs cwd s = Ok fs' -> grows fs fs'.
Proof.
  unfold ValidateBaseNotSymlink. case_bool_decide; [by intros [= <-]|]. generalize (abs cwd s) at 1 as full. intros full.
  generalize (@nil string) as cur. induction (abs cwd s) as [|c parts IH]; intros cur E; cbn [validate_loop] in E; [by simplify_eq|].
  destruct (lstat fs (cur ++ [c])) as [n|[]]; [destruct (is_link n); [done|by eapply IH]| |done|done].
  destruct (mkdirAll fs [] full) as [fs1|] eqn:Em; [|done]. destruct (recheckNoSymlink fs1 [] full); [|done].
  cbn [res_bind] in E. injection E as <-. by eapply mkdirAll_grows.
Qed.

Lemma grows_real fs fs' p : grows fs fs' -> real fs p -> real fs' p.
Proof. intros Hg Hr q t Hq. destruct (Hg q) as [-> |[_ ->]]; [by apply Hr|done]. Qed.

Lemma grows_look fs fs' p : grows fs fs' -> look fs p <> None -> look fs' p <> None.
Proof. intros Hg H. by destruct (Hg p) as [-> |[_ ->]]. Qed.

(** ** A sample file system *)

Module Sample.
Definition tree : fsys :=
  {[ ["etc"] := NDir; ["etc"; "edr"] := NDir; ["etc"; "edr"; "p.json"] := NFile;
     ["etc"; "edr"; "out"] := NLink "/tmp"; ["etc"; "edr"; "in"] := NLink "p.json"; ["tmp"] := NDir ]}.

Lemma wf_check fs : map_Forall (fun p _ => look fs (removelast p) = Some NDir) fs -> well_formed fs.
Proof. intros H p c n Hp. specialize (H _ _ Hp). simpl in H. by rewrite removelast_last in H. Qed.

Lemma tree_wf : well_formed tree.
Proof. apply wf_check. apply map_Forall_to_list. vm_compute. repeat constructor. Qed.

(** A link inside the base that stays inside is followed, one that leads out is
    refused, and so is a climb. *)
Example containment :
  (safePathUnder tree [] "/etc/edr" "/etc/edr/in", safePathUnder tree [] "/etc/edr" "/etc/edr/out/x",
   safePathUnder tree [] "/etc/edr" "/etc/edr/../passwd", safePathUnder tree ["etc"] "edr" "edr/new/x.json")
  = (Ok ["etc"; "edr"; "p.json"], Err PErrEscapes, Err PErrEscapes, Ok ["etc"; "edr"; "new"; "x.json"]).
Proof. vm_compute. reflexivity. Qed.

Lemma safe_path_contained_witness :
  abs [] "/etc/edr" `prefix_of` ["etc"; "edr"; "p.json"] /\ real tree ["etc"; "edr"; "p.json"].
Proof.
  apply (safe_path_contained tree [] "/etc/edr" "/etc/edr/in" ["etc"; "edr"; "p.json"]);
    [apply tree_wf|constructor|vm_compute; reflexivity].
Defined.

Definition bare : fsys := ∅.
Definition made : fsys := {[ ["e"] := NDir ]}.

Lemma validated_base_real_witness : real made (abs [] "/e") /\ look made (abs [] "/e") <> None.
Proof.
  apply (validated_base_real bare made [] "/e").
  - intros H. vm_compute in H. discriminate H.
  - constructor.
  - vm_compute. reflexivity.
Defined.

Example linked_base_refused : ValidateBaseNotSymlink tree [] "/etc/edr/out/x" = Err (BErrLink ["etc"; "edr"; "out"]).
Proof. vm_compute. reflexivity. Qed.
End Sample.
