(* ===== verification/Query.v ===== *)
(** * Event queries of the control server ([internal/control/server.go])

    [queryEvents] pages through the log under filters and [verifyEventSeq]
    checks one event of the log by its number.  The request is known through
    its decoded URL parameters.  Events of a query are maps ([map[string]any]);
    a nil map and an empty one are not told apart. *)

From S2P Require Import Prelude GoStrings Json GoJson GoTime Crypto EventLog ChainProofs LogRun.

#[local] Open Scope string_scope.
#[local] Open Scope list_scope.
#[local] Open Scope Z_scope.

(** ** Instants *)

(** Days from 1970-01-01 to a civil date, by 400-year eras starting in March. *)
Definition days_from_civil (y m d : Z) : Z :=
  let y := if m <=? 2 then y - 1 else y in
  let era := y / 400 in
  let yoe := y - era * 400 in
  let doy := (153 * ((m + 9) mod 12) + 2) / 5 + d - 1 in
  let doe := yoe * 365 + yoe / 4 - yoe / 100 + doy in
  era * 146097 + doe - 719468.

(** Nanoseconds since the epoch; the zone offset is in minutes. *)
Definition instant (t : Time) : Z :=
  ((days_from_civil (t_year t) (t_month t) (t_day t) * 24 + t_hour t) * 60 + t_min t - t_off t) * minute
  + t_sec t * second + t_nsec t.

Definition isZero (t : Time) : bool := instant t =? instant timeZero.

(** [time.Parse] with [RFC3339Nano].  It accepts what [Time.UnmarshalJSON]
    refuses: an hour of one digit, a comma before the fraction, and zone
    offsets of up to 24 hours and 60 minutes. *)
Definition num12 (l : list ascii) : option (Z * list ascii) :=
  match num 2 0 l with Some r => Some r | None => num 1 0 l end.

Definition frac_any (l : list ascii) : Z * list ascii :=
  match l with
  | a :: b :: t =>
      if ((a == "."%char) || (a == ","%char)) && ((48 <=? code b) && (code b <=? 57)) then frac 9 0 (b :: t) else (0, l)
  | _ => (0, l)
  end.

Definition zone_any (l : list ascii) : option Z :=
  match l with
  | [] => None
  | s :: t =>
      if s == "Z"%char then match t with [] => Some 0 | _ => None end
      else
        '(h, t) ← num 2 0 t; t ← char ":"%char t; '(m, t) ← num 2 0 t;
        match t with
        | [] =>
            if (h <=? 24) && (m <=? 60) then
              if s == "+"%char then Some (h * 60 + m)
              else if s == "-"%char then Some (- (h * 60 + m)) else None
            else None
        | _ => None
        end
  end.

Definition parseRFC3339Nano (l : list ascii) : option Time :=
  '(y, l) ← num 4 0 l; l ← char "-"%char l;
  '(mo, l) ← num 2 0 l; l ← char "-"%char l;
  '(d, l) ← num 2 0 l; l ← char "T"%char l;
  '(h, l) ← num12 l; l ← char ":"%char l;
  '(mi, l) ← num 2 0 l; l ← char ":"%char l;
  '(s, l) ← num 2 0 l;
  let '(ns, l) := frac_any l in
  off ← zone_any l;
  if time_ok (mkTime y mo d h mi s ns 0) then Some (mkTime y mo d h mi s ns off) else None.

Example parse_lax : parseRFC3339Nano (bytes "2024-02-29T7:08:09,05-24:00") = Some (mkTime 2024 2 29 7 8 9 50000000 (-1440)).
Proof. vm_compute. reflexivity. Qed.

Example instant_1 : instant (mkTime 2024 2 29 7 8 9 50000000 90) = 1709185089050000000.
Proof. vm_compute. reflexivity. Qed.

(** ** Parameters *)

(** [r.URL.Query()]: the decoded parameters in order; [Get] is the first value
    of a key. *)
Definition params := list (string * string).
Definition Get (p : params) (key : string) : string := default "" (snd <$> List.find (fun kv => kv.1 == key) p).

Definition timeParam (p : params) (key : string) : Time :=
  let v := trimSpace (Get p key) in
  if v == "" then timeZero else default timeZero (parseRFC3339Nano (bytes v)).

Definition intParam (p : params) (key : string) (fallback : Z) : Z :=
  let v := trimSpace (Get p key) in
  if v == "" then fallback
  else match atoi v with
  | (n, None) => if n <? 0 then fallback else n
  | _ => fallback
  end.

Definition defaultEventLimit : Z := 50.
Definition maxEventLimit : Z := 1000.

Definition clampEventLimit (n : Z) : Z :=
  if n <=? 0 then defaultEventLimit else if maxEventLimit <? n then maxEventLimit else n.

Record eventQuery := mkQuery {
  q_Limit : Z; q_Offset : Z; q_Category : string; q_Severity : string; q_RuleID : string; q_FilePath : string;
  q_FileOp : string; q_SubjectName : string; q_SubjectPath : string; q_SubjectCmdline : string;
  q_Since : Time; q_Until : Time;
}.

Definition eventQueryFromRequest (p : params) : eventQuery :=
  mkQuery (intParam p "limit" defaultEventLimit) (intParam p "offset" 0) (Get p "category") (Get p "severity")
    (Get p "rule_id") (Get p "file_path") (Get p "file_op") (Get p "subject_name") (Get p "subject_path")
    (Get p "subject_cmdline") (timeParam p "since") (timeParam p "until").

(** ** Filters *)

Definition gmap_any := list (string * gval).

Definition field (m : gmap_any) (k : string) : option gval := snd <$> List.find (fun kv => kv.1 == k) m.
(** [m[k].(string)]: the zero string when it is not one. *)
Definition str_field (m : gmap_any) (k : string) : string :=
  match field m k with Some (GStr s) => s | _ => "" end.
Definition map_field (m : gmap_any) (k : string) : option gmap_any :=
  match field m k with Some (GMap l) => Some l | _ => None end.
(** [m[k] != v] for a string [v]. *)
Definition differs (m : gmap_any) (k v : string) : bool :=
  match field m k with Some (GStr s) => s != v | _ => true end.

Definition eventMatchesSubject (event : gmap_any) (name path cmdline : string) : bool :=
  if (name == "") && (path == "") && (cmdline == "") then true
  else match map_field event "subject" with
  | None => false
  | Some subj =>
      if (name != "") && (str_field subj "name" != name) then false
      else if (path != "") && (str_field subj "path" != path) then false
      else if (cmdline != "") && negb (contains (str_field subj "cmdline") cmdline) then false
      else true
  end.

Definition eventMatchesFile `{GoUnicode} (event : gmap_any) (filePath fileOp : string) : bool :=
  if (filePath == "") && (fileOp == "") then true
  else match map_field event "object" with
  | None => false
  | Some obj =>
      if (filePath != "") && (str_field obj "path" != filePath) then false
      else if (fileOp != "") && negb (equalFold (str_field obj "op") fileOp) then false
      else true
  end.

Definition eventInTimeRange (event : gmap_any) (since until : Time) : bool :=
  if isZero since && isZero until then true
  else match field event "timestamp" with
  | Some (GStr raw) =>
      if raw == "" then false
      else match parseRFC3339Nano (bytes raw) with
      | None => false
      | Some ts =>
          if negb (isZero since) && (instant ts <? instant since) then false
          else if negb (isZero until) && (instant until <? instant ts) then false
          else true
      end
  | _ => false
  end.

(** ** The query *)

(** What opening and reading a file gives: the bytes up to the end, or up to a
    read error. *)
Inductive opened := Missing | Refused | Opened (b : list ascii) (broken : bool).

Record eventQueryResult := mkQueryResult {
  qr_Events : list gmap_any; qr_Count : Z; qr_Total : Z; qr_Offset : Z; qr_Limit : Z;
}.

Inductive query_err := QErrPath | QErrOpen | QErrRead.

Section Query.
Context {FT : FloatText} {UC : GoUnicode}.

Definition unmarshal_map (line : list ascii) : option gmap_any := parse line ≫= set_map [].

(** The filters of the loop, in order. *)
Definition accepts (q : eventQuery) (event : gmap_any) : bool :=
  if (q.(q_Category) != "") && differs event "category" q.(q_Category) then false
  else if (q.(q_Severity) != "") && differs event "severity" q.(q_Severity) then false
  else if (q.(q_RuleID) != "") && differs event "rule_id" q.(q_RuleID) then false
  else if negb (eventMatchesFile event q.(q_FilePath) q.(q_FileOp)) then false
  else if negb (eventMatchesSubject event q.(q_SubjectName) q.(q_SubjectPath) q.(q_SubjectCmdline)) then false
  else eventInTimeRange event q.(q_Since) q.(q_Until).

(** The loop over the scanned lines: the page and the total so far. *)
Fixpoint query_loop (q : eventQuery) (offset limit : Z) (page : list gmap_any) (total : Z) (lines : list (list ascii))
    : list gmap_any * Z :=
  match lines with
  | [] => (page, total)
  | line :: lines =>
      match unmarshal_map line with
      | None => query_loop q offset limit page total lines
      | Some event =>
          if negb (accepts q event) then query_loop q offset limit page total lines
          else
            let page := if (offset <=? total) && (Z.of_nat (length page) <? limit) then page ++ [event] else page in
            query_loop q offset limit page (total + 1) lines
      end
  end.

(** A line the scanner's buffer does not hold. *)
Definition tooLong (b : list ascii) : bool :=
  existsb (fun l => negb (Z.of_nat (length l) <? maxLine)) (split_lines b []).

Definition queryEvents (path : string) (f : opened) (q : eventQuery) : result query_err eventQueryResult :=
  if path == "" then Err QErrPath
  else match f with
  | Missing => Ok (mkQueryResult [] 0 0 q.(q_Offset) (clampEventLimit q.(q_Limit)))
  | Refused => Err QErrOpen
  | Opened b broken =>
      let limit := clampEventLimit q.(q_Limit) in
      let offset := if q.(q_Offset) <? 0 then 0 else q.(q_Offset) in
      let '(page, total) := query_loop q offset limit [] 0 (scanLines b) in
      if negb (tooLong b) && broken then Err QErrRead
      else
        let offset := if total <? offset then total else offset in
        Ok (mkQueryResult page (Z.of_nat (length page)) total offset limit)
  end.

End Query.

(** ** One event by its number *)

Record seqIssue := mkSeqIssue { si_kind : string; si_expected : string; si_actual : string }.

Record seqReport := mkSeqReport {
  sr_ok : bool; sr_hash : string; sr_prev_hash : string; sr_chain_id : string; sr_has_hmac : bool; sr_hmac_ok : bool;
  sr_issues : list seqIssue;
}.

Inductive seq_answer := SeqFileNotFound | SeqNotFound | SeqFound (r : seqReport).

Section VerifySeq.
Context {DG : Digest} {FT : FloatText} {UC : GoUnicode}.

(** The checks on the event found, after its predecessor's hash. *)
Definition seq_check (key : list ascii) (targetSeq : Z) (prevHash : string) (e : Event) : seqReport :=
  let linkBad := (e.(e_PrevHash) != prevHash) && (1 <? targetSeq) in
  let want := hexEncode (sum256 (bytes prevHash ++ event_text (set_digests e "" ""))) in
  let hashBad := e.(e_Hash) != want in
  let hasHMAC := present key in
  let wantHMAC := macOf key e.(e_Hash) in
  let hmacBad := hasHMAC && (wantHMAC != e.(e_HMAC)) in
  mkSeqReport (negb linkBad && negb hashBad && negb hmacBad) e.(e_Hash) e.(e_PrevHash) e.(e_ChainID) hasHMAC (negb hmacBad)
    ((if linkBad then [mkSeqIssue "prev_hash_break" prevHash e.(e_PrevHash)] else [])
     ++ (if hashBad then [mkSeqIssue "hash_mismatch" want e.(e_Hash)] else [])
     ++ (if hmacBad then [mkSeqIssue "hmac_mismatch" wantHMAC e.(e_HMAC)] else [])).

Fixpoint seq_loop (key : list ascii) (targetSeq : Z) (prevHash : string) (lines : list (list ascii)) : option seqReport :=
  match lines with
  | [] => None
  | line :: lines =>
      match event_unmarshal line with
      | None => seq_loop key targetSeq prevHash lines
      | Some e =>
          if e.(e_IntegrityVersion) != IntegrityVersion then seq_loop key targetSeq prevHash lines
          else if e.(e_Seq) == targetSeq then Some (seq_check key targetSeq prevHash e)
          else seq_loop key targetSeq e.(e_Hash) lines
      end
  end.

Definition verifyEventSeq (f : opened) (key : list ascii) (targetSeq : Z) : result query_err seq_answer :=
  match f with
  | Missing => Ok SeqFileNotFound
  | Refused => Err QErrOpen
  | Opened b broken =>
      match seq_loop key targetSeq "" (scanLines b) with
      | Some r => Ok (SeqFound r)
      | None => if tooLong b || broken then Err QErrRead else Ok SeqNotFound
      end
  end.

End VerifySeq.

(** ** Pages of a query *)

Section Pages.
Context {FT : FloatText} {UC : GoUnicode}.

(** The events of the log a query selects, in order. *)
Definition matching_lines (q : eventQuery) (lines : list (list ascii)) : list gmap_any :=
  List.filter (accepts q) (omap unmarshal_map lines).
Definition matching (q : eventQuery) (b : list ascii) : list gmap_any := matching_lines q (scanLines b).

(** The same query at another offset. *)
Definition at_offset (q : eventQuery) (off : Z) : eventQuery :=
  mkQuery q.(q_Limit) off q.(q_Category) q.(q_Severity) q.(q_RuleID) q.(q_FilePath) q.(q_FileOp) q.(q_SubjectName)
    q.(q_SubjectPath) q.(q_SubjectCmdline) q.(q_Since) q.(q_Until).

Definition page {A} (off n : nat) (l : list A) : list A := take n (drop off l).

Lemma page_snoc {A} off n (l : list A) x :
  page off n (l ++ [x]) = if decide (off <= length l /\ length (page off n l) < n)%nat then page off n l ++ [x] else page off n l.
Proof.
  unfold page. rewrite length_take, length_drop. case_decide as H; destruct (decide (off <= length l)%nat).
  - rewrite drop_app_le by done. rewrite take_app, length_drop, (take_ge (drop off l)) by (rewrite length_drop; lia).
    f_equal. destruct (n - (length l - off))%nat eqn:E; [lia|]. simpl. by rewrite take_nil.
  - lia.
  - rewrite drop_app_le by done. rewrite take_app_le by (rewrite length_drop; lia). done.
  - rewrite (drop_ge l), (drop_ge (l ++ [x])) by (rewrite ?length_app; simpl; lia). done.
Qed.

Lemma query_loop_spec q off n done lines :
  query_loop q (Z.of_nat off) (Z.of_nat n) (page off n done) (Z.of_nat (length done)) lines
  = (page off n (done ++ matching_lines q lines), Z.of_nat (length (done ++ matching_lines q lines))).
Proof.
  revert done. induction lines as [|line lines IH]; intros done; cbn [query_loop].
  { unfold matching_lines. simpl. by rewrite app_nil_r. }
  unfold matching_lines. cbn [omap list_omap]. destruct (unmarshal_map line) as [event|]; [|apply IH].
  cbn [List.filter]. destruct (accepts q event); cbn [negb]; [|apply IH].
  fold (matching_lines q lines). specialize (IH (done ++ [event])). rewrite <- app_assoc in IH. cbn [app] in IH. rewrite <- IH.
  f_equal; [|rewrite length_app; simpl; lia]. rewrite page_snoc.
  destruct (Z.leb_spec (Z.of_nat off) (Z.of_nat (length done))),
    (Z.ltb_spec (Z.of_nat (length (page off n done))) (Z.of_nat n)); simpl; case_decide; try done; lia.
Qed.

Lemma accepts_at_offset q off : accepts (at_offset q off) = accepts q.
Proof. done. Qed.

Lemma clamp_pos n : 1 <= clampEventLimit n <= maxEventLimit.
Proof.
  unfold clampEventLimit, defaultEventLimit, maxEventLimit. destruct (Z.leb_spec n 0); [lia|]. destruct (Z.ltb_spec 1000 n); lia.
Qed.

Lemma queryEvents_page path b q (off : nat) :
  path <> "" ->
  let ms := matching q b in
  let limit := clampEventLimit q.(q_Limit) in
  queryEvents path (Opened b false) (at_offset q (Z.of_nat off))
  = Ok (mkQueryResult (page off (Z.to_nat limit) ms) (Z.of_nat (length (page off (Z.to_nat limit) ms)))
          (Z.of_nat (length ms)) (Z.min (Z.of_nat off) (Z.of_nat (length ms))) limit).
Proof.
  intros Hp ms limit. unfold queryEvents. rewrite bool_decide_eq_false_2 by done. cbn [q_Limit q_Offset at_offset].
  rewrite (proj2 (Z.ltb_ge _ 0)) by lia. fold limit.
  pose proof (query_loop_spec (at_offset q (Z.of_nat off)) off (Z.to_nat limit) [] (scanLines b)) as E.
  replace (page off (Z.to_nat limit) []) with (@nil gmap_any) in E by (unfold page; by rewrite drop_nil, take_nil).
  pose proof (clamp_pos q.(q_Limit)). rewrite Z2Nat.id in E by (subst limit; lia). change (Z.of_nat (length [])) with 0 in E. rewrite E.
  rewrite andb_false_r. change (matching_lines (at_offset q (Z.of_nat off)) (scanLines b)) with ms. simpl ([] ++ ms).
  do 2 f_equal. destruct (Z.ltb_spec (Z.of_nat (length ms)) (Z.of_nat off)); lia.
Qed.

Lemma pages_concat {A} (n L : nat) (l : list A) : concat (map (fun i => page (i * L) L l) (seq 0 n)) = take (n * L) l.
Proof.
  induction n as [|n IH]; [done|]. rewrite seq_S, map_app, concat_app, IH. cbn [map concat plus]. rewrite app_nil_r.
  unfold page. rewrite <- (take_drop (n * L) (take (S n * L) l)), take_take, Nat.min_l by lia. f_equal.
  rewrite skipn_firstn_comm. f_equal. lia.
Qed.

(** The events of the [i]-th page. *)
Definition page_events (path : string) (f : opened) (q : eventQuery) (i : nat) : list gmap_any :=
  match queryEvents path f (at_offset q (Z.of_nat i * clampEventLimit q.(q_Limit))) with
  | Ok r => r.(qr_Events)
  | Err _ => []
  end.

End Pages.

(** A query on a readable log returns the selected events from its offset
    on, at most the clamped limit of them, with the number of all selected
    events; and the consecutive pages put together are the selected events in
    log order, each exactly once. *)
Theorem query_pages {FT : FloatText} {UC : GoUnicode} path b q n :
  path <> "" ->
  (forall off, 0 <= off ->
    queryEvents path (Opened b false) (at_offset q off)
    = Ok (let events := take (Z.to_nat (clampEventLimit q.(q_Limit))) (drop (Z.to_nat off) (matching q b)) in
          mkQueryResult events (Z.of_nat (length events)) (Z.of_nat (length (matching q b)))
            (Z.min off (Z.of_nat (length (matching q b)))) (clampEventLimit q.(q_Limit))))
  /\ concat (map (page_events path (Opened b false) q) (seq 0 n))
     = take (n * Z.to_nat (clampEventLimit q.(q_Limit))) (matching q b)
  /\ 1 <= clampEventLimit q.(q_Limit) <= 1000.
Proof.
  intros Hp. pose proof (clamp_pos q.(q_Limit)) as Hc. split_and!; [| |apply Hc|apply Hc].
  - intros off Ho. pose proof (queryEvents_page path b q (Z.to_nat off) Hp) as E. by rewrite Z2Nat.id in E.
  - rewrite <- pages_concat. f_equal. apply map_ext. intros i. unfold page_events.
    replace (Z.of_nat i * clampEventLimit (q_Limit q)) with (Z.of_nat (i * Z.to_nat (clampEventLimit (q_Limit q)))) by lia.
    by rewrite queryEvents_page.
Qed.

(** ** One event against the chain *)

Section SeqProofs.
Context {DG : Digest} {FT : FloatText} {UC : GoUnicode}.
Variable key : list ascii.

(** A readable line of a chain event. *)
Definition chain_line (e : Event) : Prop := event_ok e /\ short e /\ e.(e_IntegrityVersion) = IntegrityVersion.

Lemma event_unmarshal_text e : event_ok e -> exists e', event_unmarshal (event_text e) = Some e' /\ same e e'.
Proof.
  intros Hok. destruct (event_roundtrip e Hok) as (e' & He' & Hs). exists e'. split; [|done].
  unfold event_unmarshal, event_text. rewrite <- (app_nil_r (print _)).
  rewrite parse_print by (constructor || by apply event_json_ok). exact He'.
Qed.

Lemma seq_check_same target prev e e' : same e e' -> seq_check key target prev e' = seq_check key target prev e.
Proof.
  intros Hs. pose proof (same_bytes _ _ Hs) as Hb. unfold chainEventBytes, stripIntegrity in Hb.
  destruct Hs as (su & ob & ev & -> & _). unfold seq_check. rewrite Hb. done.
Qed.

Lemma seq_loop_found target prev pre e post :
  Forall chain_line (pre ++ e :: post) -> Forall (fun x => e_Seq x <> target) pre -> e_Seq e = target ->
  seq_loop key target prev (map event_text (pre ++ e :: post)) = Some (seq_check key target (head_hash prev pre) e).
Proof.
  intros Hl Hpre He. revert prev. induction pre as [|x pre IH]; intros prev; cbn [app map seq_loop] in *.
  - apply Forall_cons in Hl as [(Hok & _ & Hv) _]. destruct (event_unmarshal_text e Hok) as (e' & -> & Hs).
    pose proof (seq_check_same target prev _ _ Hs) as Hc. destruct Hs as (su & ob & ev & -> & _).
    cbn [e_IntegrityVersion e_Seq] in *.
    rewrite (bool_decide_eq_true_2 _ Hv), (bool_decide_eq_true_2 _ He). cbn [negb]. by rewrite Hc.
  - apply Forall_cons in Hl as [(Hok & _ & Hv) Hl]. apply Forall_cons in Hpre as [Hx Hpre].
    destruct (event_unmarshal_text x Hok) as (e' & -> & Hs). destruct Hs as (su & ob & ev & -> & _).
    cbn [e_IntegrityVersion e_Seq e_Hash] in *. rewrite (bool_decide_eq_true_2 _ Hv). cbn [negb].
    rewrite bool_decide_eq_false_2 by done. rewrite IH by done. do 2 f_equal.
    unfold head_hash. rewrite last_cons. by destruct (last pre).
Qed.

Lemma seq_check_ok target prev e :
  sr_ok (seq_check key target prev e) = true
  <-> (1 < target -> e_PrevHash e = prev) /\ e_Hash e = recomputeHash e prev
      /\ (present key = true -> e_HMAC e = macOf key (e_Hash e)).
Proof.
  unfold seq_check, recomputeHash, chainEventBytes, stripIntegrity. cbn [sr_ok].
  rewrite !andb_true_iff, !negb_true_iff, !andb_false_iff, !negb_false_iff, !bool_decide_eq_true, Z.ltb_ge.
  destruct (present key); split; intros H; destruct_and?; split_and!; try naive_solver lia.
  all: try (destruct (decide (1 < target)); [left; naive_solver|right; lia]).
  all: naive_solver.
Qed.

Lemma seq_check_issues target prev e :
  sr_ok (seq_check key target prev e) = true <-> sr_issues (seq_check key target prev e) = [].
Proof.
  unfold seq_check. cbn [sr_ok sr_issues]. rewrite !andb_true_iff, !negb_true_iff.
  destruct (_ && (1 <? target)), (negb (e_Hash e == _)), (present key && _); simpl; split; intros; destruct_and?; done.
Qed.

Lemma seq_loop_absent target prev es :
  Forall chain_line es -> target ∉ map e_Seq es -> seq_loop key target prev (map event_text es) = None.
Proof.
  intros Hl. revert prev. induction Hl as [|x es (Hok & _ & Hv) _ IH]; intros prev; cbn [map seq_loop]; [done|].
  rewrite not_elem_of_cons. intros [Hx Hn]. destruct (event_unmarshal_text x Hok) as (e' & -> & su & ob & ev & -> & _).
  cbn [e_IntegrityVersion e_Seq e_Hash] in *. rewrite (bool_decide_eq_true_2 _ Hv). cbn [negb].
  rewrite bool_decide_eq_false_2 by done. by apply IH.
Qed.

(** What the request answers on the current file. *)
Lemma verifyEventSeq_lines es target :
  Forall chain_line es ->
  verifyEventSeq (Opened (log_of es) false) key target
  = Ok (match seq_loop key target "" (map event_text es) with Some r => SeqFound r | None => SeqNotFound end).
Proof.
  intros Hl. unfold verifyEventSeq.
  assert (Forall event_ok es) as Hok by (eapply Forall_impl; [exact Hl|]; intros x Hx; apply Hx).
  assert (Forall short es) as Hs by (eapply Forall_impl; [exact Hl|]; intros x Hx; apply Hx).
  rewrite scanLines_log by done. destruct (seq_loop _ _ _ _); [done|].
  assert (tooLong (log_of es) = false) as ->; [|done]. unfold tooLong. rewrite split_lines_log by done.
  clear Hl Hok. induction Hs as [|x es Hx _ IH]; simpl; [done|]. rewrite IH, orb_false_r, negb_false_iff. by apply Z.ltb_lt.
Qed.

(** A scan of written events finds no issue exactly when they are a chain. *)
Lemma scan_log_chain s es :
  Forall chain_line es -> s_issues (scan_text key s (log_of es)) = s_issues s -> chain key (s_prev s) es.
Proof.
  intros Hl. revert s. induction Hl as [|e es (Hok & _ & Hv) _ IH]; intros s Hi; [done|].
  unfold log_of in Hi. cbn [map concat] in Hi. rewrite <- app_assoc in Hi. cbn [app] in Hi. unfold event_text in Hi at 1.
  rewrite scan_text_value in Hi by (by apply event_json_ok). fold (log_of es) in Hi.
  destruct (verify_value_issues key s (JObj (event_members e))) as [i1 H1].
  destruct (verify_stream_issues key (length (log_of es)) (verify_value key s (JObj (event_members e))) (log_of es)) as [i2 H2].
  unfold scan_text in Hi. rewrite H2, H1, <- app_assoc in Hi. rewrite <- (app_nil_r (s_issues s)) in Hi at 2.
  apply app_inv_head, app_nil in Hi as [-> ->]. rewrite app_nil_r in H1, H2. specialize (IH _ H2).
  destruct (event_roundtrip e Hok) as (e' & He' & Hs). unfold verify_value in H1, IH. rewrite He' in H1, IH.
  assert (is_chain_event e' = true) as Hv' by (destruct Hs as (su & ob & ev & -> & _); by apply bool_decide_eq_true_2).
  unfold is_chain_event in Hv'. rewrite Hv' in H1, IH. cbn [negb s_issues s_prev] in H1, IH.
  rewrite <- (app_nil_r (s_issues s)) in H1 at 2. apply app_inv_head in H1.
  destruct (chain_issues_nil key _ _ _ Hv' H1) as (_ & Hp & Hh & Hm). unfold recomputeHash in Hh. rewrite (same_bytes _ _ Hs) in Hh.
  destruct Hs as (su & ob & ev & -> & _). by split.
Qed.

(** [Verify] on a log of one file. *)
Lemma Verify_one_file fs path es :
  rotatedFiles fs path = [path] -> fs !! path = Some (log_of es) -> Forall chain_line es ->
  v_OK (Verify key fs path) = true <-> chain key "" es.
Proof.
  intros Hr Hf Hl. unfold Verify. rewrite Hr. cbn [foldl v_OK]. unfold verifyOneFile. rewrite Hf.
  fold (scan_text key scan0 (log_of es)). rewrite negb_true_iff. split.
  - intros H. apply (scan_log_chain scan0); [done|]. by destruct (s_issues _).
  - intros H. rewrite <- (app_nil_r (log_of es)), scan_text_chain; [|eapply Forall_impl; [exact Hl|]; intros x Hx; apply Hx|done].
    rewrite scan_text_nil. destruct (foldl_accepted scan0 es) as (_ & _ & -> & _). done.
Qed.

(** The event with this number is reported sound. *)
Definition reported_sound (es : list Event) (n : Z) : Prop :=
  exists r, verifyEventSeq (Opened (log_of es) false) key n = Ok (SeqFound r) /\ sr_ok r = true.

Lemma reported_sound_iff pre e post :
  Forall chain_line (pre ++ e :: post) -> Forall (fun x => e_Seq x <> e_Seq e) pre ->
  reported_sound (pre ++ e :: post) (e_Seq e) <-> sr_ok (seq_check key (e_Seq e) (head_hash "" pre) e) = true.
Proof.
  intros Hl Hpre. unfold reported_sound. rewrite verifyEventSeq_lines, seq_loop_found by done.
  split; [intros (r & [= <-] & H); exact H|intros H; by eexists].
Qed.

Lemma chain_pointwise prev es :
  (forall pre e post, es = pre ++ e :: post -> linked key (head_hash prev pre) e) -> chain key prev es.
Proof.
  revert prev. induction es as [|x es IH]; intros prev H; [done|]. split; [apply (H [] x es eq_refl)|].
  apply IH. intros pre e post ->. specialize (H (x :: pre) e post eq_refl). unfold head_hash in *. rewrite last_cons in H.
  by destruct (last pre).
Qed.

(** Events numbered from one on: an event is not preceded by its number. *)
Lemma numbered_fresh pre e post k :
  map e_Seq (pre ++ e :: post) = seqZ k (Z.of_nat (length (pre ++ e :: post))) ->
  Forall (fun x => e_Seq x <> e_Seq e) pre /\ e_Seq e = k + Z.of_nat (length pre).
Proof.
  intros H. pose proof (NoDup_seqZ k (Z.of_nat (length (pre ++ e :: post)))) as Hn. rewrite <- H, map_app in Hn. split.
  - apply Forall_forall. intros x Hx E. apply NoDup_app in Hn as (_ & Hn & _). eapply (Hn (e_Seq x)).
    + by apply list_elem_of_fmap_2.
    + rewrite E. by left.
  - assert (map e_Seq (pre ++ e :: post) !! length pre = Some (e_Seq e)) as Hi
      by (rewrite map_app, lookup_app_r by (by rewrite length_map); by rewrite length_map, Nat.sub_diag).
    rewrite H in Hi. apply lookup_seqZ in Hi. lia.
Qed.

End SeqProofs.

(** C32. On a log that is one file, of readable lines of chain events, with no
    rotated predecessor: the request for a number answers with the first event
    of that number, or that there is none; the event is reported sound, without
    an issue, exactly when it is hashed and signed as the chain requires after
    the event before it in the file and, unless its number is at most one, links
    to it.  When the events are numbered from one on, the requests for all of
    them agree with [Verify]: the whole log is accepted exactly when each of its
    events is reported sound and the first one, whose link the request does not
    compare, links to the empty hash. *)
Theorem verify_seq_iff {DG : Digest} {FT : FloatText} {UC : GoUnicode} key fs path es :
  rotatedFiles fs path = [path] -> fs !! path = Some (log_of es) -> Forall chain_line es ->
  (forall pre e post, es = pre ++ e :: post -> Forall (fun x => e_Seq x <> e_Seq e) pre ->
    exists r, verifyEventSeq (Opened (log_of es) false) key (e_Seq e) = Ok (SeqFound r)
      /\ (sr_ok r = true <-> (1 < e_Seq e -> e_PrevHash e = head_hash "" pre)
                              /\ e_Hash e = recomputeHash e (head_hash "" pre)
                              /\ (present key = true -> e_HMAC e = macOf key (e_Hash e)))
      /\ (sr_ok r = true <-> sr_issues r = []))
  /\ (forall n, n ∉ map e_Seq es -> verifyEventSeq (Opened (log_of es) false) key n = Ok SeqNotFound)
  /\ (map e_Seq es = seqZ 1 (Z.of_nat (length es)) ->
      v_OK (Verify key fs path) = true
      <-> (forall e, e ∈ es -> reported_sound key es (e_Seq e)) /\ (forall e, head es = Some e -> e_PrevHash e = "")).
Proof.
  intros Hr Hf Hl. split_and!.
  - intros pre e post -> Hpre. exists (seq_check key (e_Seq e) (head_hash "" pre) e).
    rewrite verifyEventSeq_lines, seq_loop_found by done. split_and!; [done|apply seq_check_ok|apply seq_check_issues].
  - intros n Hn. by rewrite verifyEventSeq_lines, seq_loop_absent.
  - intros Hn. rewrite (Verify_one_file key fs path es) by done. split.
    + intros Hc. split; [|intros e He; destruct es; simplify_eq/=; apply Hc].
      intros e (pre & post & ->)%list_elem_of_split. apply numbered_fresh in Hn as [Hpre _].
      apply reported_sound_iff, seq_check_ok; [done..|]. apply chain_app in Hc as [_ [(_ & Hp & Hh & Hm) _]]. by split_and!.
    + intros [Hall Hhead]. apply chain_pointwise. intros pre e post ->. destruct (numbered_fresh _ _ _ _ Hn) as [Hpre Hs].
      assert (reported_sound key (pre ++ e :: post) (e_Seq e)) as Hsound by (apply Hall; set_solver).
      apply reported_sound_iff, seq_check_ok in Hsound as (Hp & Hh & Hm); [|done..].
      apply Forall_app in Hl as [_ [(_ & _ & Hv) _]%Forall_cons]. split_and!; try done.
      destruct pre as [|x pre]; [by apply Hhead|apply Hp; simpl in Hs; lia].
Qed.

(** ** Concrete logs *)

Module Sample.

#[local] Instance unicode : GoUnicode := {| uni_equalFold := String.eqb; uni_toLower := id |}.
#[local] Instance floats : FloatText := {| float_text _ := None |}.
#[local] Existing Instance checksum_digest.

Definition key : list ascii := bytes "k".
Definition entry (cat : string) : Event :=
  mkEvent "" "" "" 0 "" "" "" (mkTime 2024 5 1 12 0 0 0 0) "id" "h" cat "high" [] [] "none" "alert" "r1" [].

Definition seal1 (st : ChainState) (cat : string) : ChainState * Event :=
  match sealChain st (entry cat) key "sha256" "c" with Some (_, st, e) => (st, e) | None => (st, zeroEvent) end.

Definition first := seal1 zeroState "file".
Definition next := seal1 first.1 "network".

Definition byCategory (cat : string) (limit : Z) : eventQuery :=
  mkQuery limit 0 cat "" "" "" "" "" "" "" timeZero timeZero.

Lemma query_pages_witness :
  concat (map (page_events "log" (Opened (log_of [entry "file"; entry "network"; entry "file"]) false) (byCategory "file" 1)) (seq 0 2))
  = take 2 (matching (byCategory "file" 1) (log_of [entry "file"; entry "network"; entry "file"])).
Proof.
  apply (query_pages "log" (log_of [entry "file"; entry "network"; entry "file"]) (byCategory "file" 1) 2). discriminate.
Defined.

Example query_counts :
  (fun r => (qr_Count r, qr_Total r)) <$> match queryEvents "log"
    (Opened (log_of [entry "file"; entry "network"; entry "file"]) false) (byCategory "file" 1) with Ok r => Some r | Err _ => None end
  = Some (1, 2).
Proof. vm_compute. reflexivity. Qed.

Lemma chain_lines : Forall chain_line [first.2; next.2].
Proof.
  repeat (apply Forall_cons_2; [split; [split; [|split; [vm_compute; split; [discriminate|reflexivity]|split; [vm_compute; reflexivity|]]]|
    split; [vm_compute; reflexivity|reflexivity]];
    repeat (apply Forall_cons_2; [vm_compute; reflexivity|]); apply Forall_nil_2|]).
  apply Forall_nil_2.
Qed.

Definition one_file : files := {["log" := log_of [first.2; next.2]]}.

Lemma verify_seq_iff_witness :
  v_OK (Verify key one_file "log") = true /\ reported_sound key [first.2; next.2] (e_Seq next.2).
Proof.
  destruct (verify_seq_iff key one_file "log" [first.2; next.2]) as (_ & _ & H).
  - vm_compute. reflexivity.
  - reflexivity.
  - exact chain_lines.
  - assert (v_OK (Verify key one_file "log") = true) as Hv by (vm_compute; reflexivity).
    split; [exact Hv|]. apply H; [vm_compute; reflexivity|exact Hv|]. right. left.
Defined.

(** Only the current file is read: after a rotation its first event is
    reported broken although the log verifies. *)
Example rotated_event_rejected :
  match verifyEventSeq (Opened (log_of [next.2]) false) key 2 with
  | Ok (SeqFound r) => (sr_ok r, map si_kind (sr_issues r))
  | _ => (true, [])
  end = (false, ["prev_hash_break"; "hash_mismatch"]).
Proof. vm_compute. reflexivity. Qed.

End Sample.
