(* ===== verification/Disk.v ===== *)
(** * Files by name

    What the program asks of the file system when only the contents matter:
    [os.ReadFile], [os.WriteFile], [os.MkdirAll] and [os.Rename] on a map from
    names to contents.  The operating system may refuse any of them; which
    calls it refuses is part of the disk. *)

From S2P Require Import Prelude GoStrings.

Record Disk := mkDisk {
  content : gmap string (list ascii);
  no_read : string -> bool; no_write : string -> bool; no_mkdir : bool;
}.

Inductive disk_err := NotExist | Denied.

Definition with_content (d : Disk) (m : gmap string (list ascii)) : Disk :=
  mkDisk m d.(no_read) d.(no_write) d.(no_mkdir).

Definition readFile (d : Disk) (path : string) : result disk_err (list ascii) :=
  if d.(no_read) path then Err Denied
  else match d.(content) !! path with Some b => Ok b | None => Err NotExist end.

Definition writeFile (d : Disk) (path : string) (b : list ascii) : result disk_err Disk :=
  if d.(no_write) path then Err Denied else Ok (with_content d (<[path := b]> d.(content))).

(** [os.MkdirAll] of the directory of a file about to be written. *)
Definition mkdirFor (d : Disk) : result disk_err () := if d.(no_mkdir) then Err Denied else Ok ().

Definition renameFile (d : Disk) (src dst : string) : result disk_err Disk :=
  if d.(no_write) dst then Err Denied
  else match d.(content) !! src with
  | Some b => Ok (with_content d (<[dst := b]> (delete src d.(content))))
  | None => Err NotExist
  end.

Definition removeFile (d : Disk) (path : string) : Disk :=
  if d.(no_write) path then d else with_content d (delete path d.(content)).

Lemma readFile_written d path b d' :
  writeFile d path b = Ok d' -> d.(no_read) path = false -> readFile d' path = Ok b.
Proof.
  unfold writeFile, readFile. destruct (no_write d path); [done|]. intros [= <-] Hr. simpl.
  by rewrite Hr, lookup_insert_eq.
Qed.

Lemma readFile_other d path b d' p :
  writeFile d path b = Ok d' -> p <> path -> readFile d' p = readFile d p.
Proof.
  unfold writeFile, readFile. destruct (no_write d path); [done|]. intros [= <-] Hp. simpl.
  by rewrite lookup_insert_ne by done.
Qed.

Lemma writeFile_refusals d path b d' :
  writeFile d path b = Ok d' -> no_read d' = no_read d /\ no_write d' = no_write d /\ no_mkdir d' = no_mkdir d.
Proof. unfold writeFile. destruct (no_write d path); [done|]. by intros [= <-]. Qed.
