(* ===== verification/SuppressFile.v ===== *)
(** * The state file of the suppressor ([internal/control/suppress.go])

    [Suppress] keeps the state that is saved as a value; here is the file: the
    JSON text [SaveState] writes and what [LoadState] reads from any text.
    Instants are nanoseconds in the suppressor and RFC 3339 texts in the file:
    [civil] is the civil time of an instant in the zone of the host. *)

From S2P Require Import Prelude GoStrings Json GoJson GoTime Crypto EventLog ChainProofs Disk Suppress.

#[local] Open Scope string_scope.
#[local] Open Scope list_scope.
#[local] Open Scope Z_scope.

(** ** Instants *)

Definition days_before_year (y : Z) : Z := 365 * (y - 1) + (y - 1) / 4 - (y - 1) / 100 + (y - 1) / 400.
Definition days_before_month (m y : Z) : Z :=
  foldr (fun k acc => days_in (Z.of_nat k) y + acc) 0 (seq 1 (Z.to_nat (m - 1))).

(** The Unix time of a civil time, in nanoseconds. *)
Definition instant (t : Time) : Z :=
  let days := days_before_year t.(t_year) + days_before_month t.(t_month) t.(t_year) + t.(t_day) - 1 - 719162 in
  (days * 86400 + t.(t_hour) * 3600 + t.(t_min) * 60 + t.(t_sec) - t.(t_off) * 60) * second + t.(t_nsec).

(** ** Numbers *)

(** The text of a [float64] ([None] for a value JSON does not have), and the
    number a literal stands for ([None] when it is out of range). *)
Class FloatJson {FO : FloatOps} := {
  f_text : F -> option string;
  f_read : string -> option F;
}.

Section File.
Context {UC : GoUnicode} {FO : FloatOps} {FJ : FloatJson}.
Variable civil : Z -> Time.

(** ** Writing *)

Definition time_value (z : Z) : option json :=
  if time_ok (civil z) then Some (JStr (text (time_print (civil z)))) else None.

Definition bucket_pieces (lit : string) (last : json) : list piece := [(true, "tokens", JNum lit); (true, "last", last)].
Definition bucket_value (b : tokenBucket) : option json :=
  lit ← f_text b.(Tokens); last ← time_value b.(Last); Some (JObj (members_of (bucket_pieces lit last))).

(** A map: its keys are written in order. *)
Definition map_value {A} (f : A -> option json) (m : gmap string A) : option json :=
  l ← mapM (fun kv => pair kv.1 <$> f kv.2) (map_to_list m); Some (JObj (msort l)).

Definition persist_names : list string := ["last_seen"; "bucket_tokens"].
Definition persist_pieces (ls bt : json) : list piece := [(true, "last_seen", ls); (true, "bucket_tokens", bt)].

(** [json.Marshal] of the state. *)
Definition persist_text (s : Suppressor) : option (list ascii) :=
  ls ← map_value time_value s.(lastSeen); bt ← map_value bucket_value s.(buckets);
  Some (print (JObj (members_of (persist_pieces ls bt)))).

Inductive state_err := SEncode | SDisk (e : disk_err) | SDecode.

Definition SaveFile (d : Disk) (path : string) (s : Suppressor) : result state_err Disk :=
  match persist_text s with
  | None => Err SEncode
  | Some raw =>
      match mkdirFor d with
      | Err e => Err (SDisk e)
      | Ok _ => match writeFile d path raw with Ok d => Ok d | Err e => Err (SDisk e) end
      end
  end.

(** ** Reading *)

(** A map field: null empties it, an object adds its members. *)
Definition set_entries {A} (elem : json -> option A) (old : option (gmap string A)) (j : json) : option (option (gmap string A)) :=
  match j with
  | JNull => Some None
  | JObj ms => Some <$> foldl (fun acc kv => m ← acc; a ← elem kv.2; Some (<[kv.1 := a]> m)) (Some (default ∅ old)) ms
  | _ => None
  end.

Definition time_elem (j : json) : option Z := instant <$> set_time timeZero j.

Definition bucket_names : list string := ["tokens"; "last"].
Definition set_float (old : F) (j : json) : option F :=
  match j with JNum lit => f_read lit | JNull => Some old | _ => None end.

(** A bucket is a pointer: null is nil. *)
Definition bucket_elem (j : json) : option (option tokenBucket) :=
  match j with
  | JNull => Some None
  | JObj ms =>
      tk ← get_field set_float bucket_names "tokens" (f_of_Z 0) ms;
      ts ← get_field set_time bucket_names "last" timeZero ms;
      Some (Some (mkBucket tk (instant ts)))
  | _ => None
  end.

(** The two maps of the file. *)
Definition persist_decode (j : json) : option (option (gmap string Z) * option (gmap string (option tokenBucket))) :=
  match j with
  | JNull => Some (None, None)
  | JObj ms =>
      ls ← get_field (set_entries time_elem) persist_names "last_seen" None ms;
      bt ← get_field (set_entries bucket_elem) persist_names "bucket_tokens" None ms;
      Some (ls, bt)
  | _ => None
  end.

(** [LoadState]: the error, the state, and whether a nil bucket was put into
    the map, which the next event of its rule dereferences. *)
Definition LoadFile (d : Disk) (path : string) (s : Suppressor) : option state_err * Suppressor * bool :=
  match readFile d path with
  | Err NotExist => (None, s, false)
  | Err e => (Some (SDisk e), s, false)
  | Ok raw =>
      match parse raw ≫= persist_decode with
      | None => (Some SDecode, s, false)
      | Some (ls, bt) =>
          let s := match ls with Some l => with_lastSeen s l | None => s end in
          match bt with
          | Some b => (None, with_buckets s (omap id b), existsb (fun kv => match kv.2 with None => true | Some _ => false end) (map_to_list b))
          | None => (None, s, false)
          end
      end
  end.

(** ** The round trip *)

Lemma entries_fold {A} (elem : json -> option A) (M m0 : gmap string A) l :
  NoDup l.*1 -> Forall (fun kj => elem kj.2 = M !! kj.1 /\ is_Some (M !! kj.1)) l ->
  exists m', foldl (fun acc kv => m ← acc; a ← elem kv.2; Some (<[kv.1 := a]> m)) (Some m0) l = Some m'
  /\ forall k, m' !! k = if decide (k ∈ l.*1) then M !! k else m0 !! k.
Proof.
  revert m0. induction l as [|[k j] l IH]; intros m0 Hn Hl.
  { exists m0. split; [done|]. intros k. by rewrite decide_False by set_solver. }
  apply Forall_cons in Hl as [[He [a Ha]] Hl]. cbn [fmap list_fmap fst snd foldl] in *. apply NoDup_cons in Hn as [Hk Hn].
  rewrite He, Ha. cbn [mbind option_bind].
  destruct (IH (<[k := a]> m0) Hn Hl) as (m' & E & Hm). exists m'. split; [exact E|]. intros k'. rewrite Hm.
  destruct (decide (k' = k)) as [->|Hne].
  - rewrite decide_False by done. rewrite decide_True by set_solver. by rewrite lookup_insert_eq.
  - rewrite lookup_insert_ne by done. repeat case_decide; try done; set_solver.
Qed.

(** A map that is written is read back, value by value. *)
Lemma map_roundtrip {A B} (f : A -> option json) (elem : json -> option B) (g : A -> B) (m : gmap string A) j d :
  map_value f m = Some j ->
  (forall k a i, m !! k = Some a -> f a = Some i -> elem i = Some (g a) /\ valid_utf8 k = true /\ json_ok d i = true) ->
  set_entries elem None j = Some (Some (g <$> m)) /\ json_ok (S d) j = true.
Proof.
  unfold map_value. intros Hm Hf. apply bind_Some in Hm as (l & Hl & [= <-]).
  apply mapM_Some in Hl. 
  assert (Forall (fun kj => exists a, m !! kj.1 = Some a /\ f a = Some kj.2) l /\ l.*1 = (map_to_list m).*1) as [HF E1].
  { assert (forall k a, (k, a) ∈ map_to_list m -> m !! k = Some a) as Hin by (intros; by apply elem_of_map_to_list).
    induction Hl as [|[k a] [k' i] ml l Hi _ IH]; [by split|]. apply fmap_Some in Hi as (i' & Hi & [= <- <-]).
    destruct IH as [IH1 IH2]; [intros; apply Hin; by right|]. cbn [fmap list_fmap fst] in *. split; [|by f_equal].
    constructor; [|done]. exists a. split; [apply Hin; left|done]. }
  assert (NoDup (msort l).*1) as Hn by (rewrite msort_perm, E1; apply NoDup_fst_map_to_list).
  assert (Forall (fun kj => exists a, m !! kj.1 = Some a /\ f a = Some kj.2) (msort l)) as HF' by (by rewrite msort_perm).
  split.
  - cbn [set_entries default from_option]. destruct (entries_fold elem (g <$> m) ∅ (msort l) Hn) as (m' & -> & Hm').
    { eapply Forall_impl; [exact HF'|]. intros [k i] (a & Ha & Hi). cbn [fst snd] in *. rewrite lookup_fmap, Ha.
      split; [by apply (Hf k a i)|by eexists]. }
    cbn [fmap option_fmap option_map]. do 2 f_equal. apply map_eq. intros k. rewrite Hm'. case_decide as Hk; [done|].
    rewrite lookup_empty, lookup_fmap. destruct (m !! k) as [a|] eqn:Ea; [|done]. exfalso. apply Hk.
    rewrite msort_perm, E1. apply list_elem_of_fmap. exists (k, a). split; [done|]. by apply elem_of_map_to_list.
  - cbn [json_ok]. apply forallb_Forall. eapply Forall_impl; [exact HF'|]. intros [k i] (a & Ha & Hi). cbn [fst snd] in *.
    destruct (Hf k a i Ha Hi) as (_ & H1 & H2). by rewrite H1, H2.
Qed.

(** A state the file keeps without loss: UTF-8 keys, instants the civil times
    give back, and finite numbers that are read as they were written. *)
Definition instant_ok (z : Z) : Prop := instant (civil z) = z.
Definition float_ok (x : F) : Prop :=
  forall lit, f_text x = Some lit -> f_read lit = Some x /\ number (bytes lit) = Some (bytes lit, []).
Definition persistable (s : Suppressor) : Prop :=
  (forall k z, lastSeen s !! k = Some z -> valid_utf8 k = true /\ instant_ok z)
  /\ (forall k b, buckets s !! k = Some b -> valid_utf8 k = true /\ instant_ok (Last b) /\ float_ok (Tokens b)).

Lemma time_roundtrip z j : time_value z = Some j -> instant_ok z -> time_elem j = Some z /\ forall d, json_ok d j = true.
Proof.
  unfold time_value. destruct (time_ok (civil z)) eqn:E; [|done]. intros Hj Hz.
  assert (j = JStr (text (time_print (civil z)))) as -> by congruence. split.
  - unfold time_elem. cbn [set_time]. rewrite bytes_text, time_parse_print by done. cbn. by rewrite Hz.
  - intros d. apply time_text_utf8.
Qed.

Lemma bucket_roundtrip b j d :
  bucket_value b = Some j -> instant_ok (Last b) -> float_ok (Tokens b) ->
  bucket_elem j = Some (Some b) /\ json_ok (S d) j = true.
Proof.
  unfold bucket_value. intros Hb Hz Hx. apply bind_Some in Hb as (lit & Hlit & Hb). apply bind_Some in Hb as (last & Hlast & [= <-]).
  destruct (Hx lit Hlit) as [Hr Hn]. destruct (time_roundtrip _ _ Hlast Hz) as [Ht Hj].
  assert (NoDup (map piece_name (bucket_pieces lit last))) as Hnd by (apply (bool_decide_unpack _); by vm_compute).
  assert (Forall (fun p => piece_name p ∈ bucket_names) (bucket_pieces lit last)) as Hall by (by repeat constructor).
  split.
  - unfold bucket_elem. rewrite (get_piece set_float bucket_names "tokens" _ true (JNum lit) _ Hall Hnd) by (by repeat constructor).
    rewrite (get_piece set_time bucket_names "last" _ true last _ Hall Hnd) by (by repeat constructor).
    cbn [set_float]. rewrite Hr. cbn [mbind option_bind]. unfold time_elem in Ht. apply fmap_Some in Ht as (t & Et & El).
    rewrite Et. cbn [mbind option_bind]. rewrite <- El. by destruct b.
  - apply json_ok_members. repeat constructor; cbn [piece_name fst snd]; [|apply Hj]. cbn [json_ok]. rewrite Hn.
    by apply bool_decide_eq_true.
Qed.

Lemma persist_roundtrip s raw :
  persistable s -> persist_text s = Some raw ->
  parse raw ≫= persist_decode = Some (Some (lastSeen s), Some (Some <$> buckets s)).
Proof.
  intros [Hl Hb] Ht. unfold persist_text in Ht.
  apply bind_Some in Ht as (ls & Els & Ht). apply bind_Some in Ht as (bt & Ebt & Ht).
  assert (raw = print (JObj (members_of (persist_pieces ls bt)))) as -> by congruence. clear Ht.
  set (n := (max_depth - 3)%nat). assert (max_depth = S (S (S n))) as En by (vm_compute; reflexivity).
  destruct (map_roundtrip time_value time_elem id (lastSeen s) ls (S n) Els) as [Dl Jl].
  { intros k z i Hz Hi. destruct (Hl k z Hz) as [Hk Hi']. destruct (time_roundtrip z i Hi Hi') as [? ?]. by split_and!. }
  destruct (map_roundtrip bucket_value bucket_elem Some (buckets s) bt (S n) Ebt) as [Db Jb].
  { intros k b i Hz Hi. destruct (Hb k b Hz) as (Hk & Hi' & Hf). destruct (bucket_roundtrip b i n Hi Hi' Hf). by split_and!. }
  rewrite <- (app_nil_r (print _)), parse_print; [|rewrite En; apply json_ok_members; by repeat constructor|constructor].
  cbn [mbind option_bind]. unfold persist_decode.
  assert (NoDup (map piece_name (persist_pieces ls bt))) as Hnd by (apply (bool_decide_unpack _); by vm_compute).
  assert (Forall (fun p => piece_name p ∈ persist_names) (persist_pieces ls bt)) as Hall by (by repeat constructor).
  rewrite (get_piece (set_entries time_elem) persist_names "last_seen" _ true ls _ Hall Hnd) by (by repeat constructor).
  rewrite (get_piece (set_entries bucket_elem) persist_names "bucket_tokens" _ true bt _ Hall Hnd) by (by repeat constructor).
  rewrite Dl, Db. cbn [mbind option_bind]. by rewrite map_fmap_id.
Qed.

Lemma no_nil_bucket {A} (m : gmap string A) :
  existsb (fun kv => match kv.2 with None => true | Some _ => false end) (map_to_list (Some <$> m)) = false
  /\ omap id (Some <$> m) = m.
Proof.
  split.
  - apply not_true_is_false. intros H. apply existsb_exists in H as ([k o] & Hin & Ho). cbn [snd] in Ho.
    apply list_elem_of_In, elem_of_map_to_list in Hin. rewrite lookup_fmap in Hin. destruct (m !! k); by simplify_eq/=.
  - apply map_eq. intros k. rewrite lookup_omap, lookup_fmap. by destruct (m !! k).
Qed.
End File.

(** C29. The state file survives a restart: the state that was saved is loaded from
    the bytes of the file as it was, so that a freshly configured suppressor
    with the same options gives the same verdicts and reasons from then on as
    the one that kept running. *)
Theorem restart_from_file {UC : GoUnicode} {FO : FloatOps} {FJ : FloatJson} (civil : Z -> Time)
    (s : Suppressor) (opts : SuppressorOptions) (d d' : Disk) (path : string) (cs : list call) :
  persistable civil s -> SaveFile civil d path s = Ok d' -> no_read d path = false ->
  cooldowns_ok s -> same_config s (NewSuppressor opts) -> in_time_order cs ->
  exists s', LoadFile d' path (NewSuppressor opts) = (None, s', false) /\ (Suppress.run s' cs).1 = (Suppress.run s cs).1.
Proof.
  intros Hp Hs Hr Hc Hcfg Ht. unfold SaveFile in Hs. destruct (persist_text civil s) as [raw|] eqn:Et; [|done].
  destruct (mkdirFor d); [|done]. destruct (writeFile d path raw) as [d1|] eqn:Ew; [|done]. injection Hs as <-.
  unfold LoadFile. rewrite (readFile_written _ _ _ _ Ew Hr), (persist_roundtrip civil s raw Hp Et). cbv iota zeta.
  destruct (no_nil_bucket (buckets s)) as [-> ->]. eexists. split; [reflexivity|].
  exact (restart_transparent s opts cs Hc Hcfg Ht).
Qed.

(** ** Concrete files *)

Module Sample.
#[local] Instance unicode : GoUnicode := {| uni_equalFold := String.eqb; uni_toLower := id |}.
#[local] Instance floats : FloatOps := Suppress.binary64.
(** Small whole numbers only. *)
Definition whole_text (x : F) : option string := itoa <$> List.find (fun z => f_eqb (f_of_Z z) x) (seqZ 0 64).
Definition whole_read (lit : string) : option F := match atoi lit with (z, None) => Some (f_of_Z z) | _ => None end.
#[local] Instance numbers : FloatJson := @Build_FloatJson floats whole_text whole_read.

Definition noon : Z := 1750000000 * second.
Definition civil (z : Z) : Time := if z == noon then mkTime 2025 6 15 17 6 40 0 120 else timeZero.
Definition opts : SuppressorOptions := mkOptions (30 * second) 0 0 10 0.
Definition state : Suppressor := mkSuppressor (30 * second) (60 * second) (30 * second) (f_of_Z 10) (f_of_Z 10)
  {["process:r:7" := noon]} {["r" := mkBucket (f_of_Z 9) noon]} 1.
Definition disk : Disk := mkDisk ∅ (fun _ => false) (fun _ => false) false.
Definition written : Disk := match SaveFile civil disk "/s" state with Ok d => d | Err _ => disk end.

(** The text of the file. *)
Example state_text :
  persist_text civil state
  = Some (jtext "{'last_seen':{'process:r:7':'2025-06-15T17:06:40+02:00'},'bucket_tokens':{'r':{'tokens':9,'last':'2025-06-15T17:06:40+02:00'}}}").
Proof. vm_compute. reflexivity. Qed.

Lemma state_persistable : persistable civil state.
Proof.
  split.
  - intros k z Hz. cbn [lastSeen state] in Hz. apply lookup_singleton_Some in Hz as [<- <-]. split; vm_compute; reflexivity.
  - intros k b Hz. cbn [buckets state] in Hz. apply lookup_singleton_Some in Hz as [<- <-]. split; [vm_compute; reflexivity|]. split; [vm_compute; reflexivity|].
    intros lit [= <-]. split; vm_compute; reflexivity.
Qed.

Lemma restart_from_file_witness :
  exists s', LoadFile written "/s" (NewSuppressor opts) = (None, s', false)
  /\ (Suppress.run s' [mkCall "process" "r" "process:r:7" (noon + 5 * second)]).1
     = (Suppress.run state [mkCall "process" "r" "process:r:7" (noon + 5 * second)]).1.
Proof.
  apply (restart_from_file civil state opts disk written "/s").
  - exact state_persistable.
  - vm_compute. reflexivity.
  - reflexivity.
  - vm_compute. repeat split; discriminate.
  - vm_compute. repeat split; reflexivity.
  - repeat constructor.
Defined.

(** A null bucket is accepted: the rule's next event dereferences nil. *)
Example null_bucket_loaded :
  let d := mkDisk {["/s" := jtext "{'bucket_tokens':{'r':null}}"]} (fun _ => false) (fun _ => false) false in
  let '(err, _, nil_bucket) := LoadFile d "/s" (NewSuppressor opts) in (err, nil_bucket) = (None, true).
Proof. vm_compute. reflexivity. Qed.
End Sample.
