(* ===== verification/Workers.v ===== *)
(** * The goroutines of the agent ([internal/control/agent.go])

    [Agent] has one round of each goroutine; here are their lives: the writer of
    the response file, the second-stage evaluation, the callers that hand them
    work, and [Shutdown], as a step relation over the two channels.  The lines of
    the response file are the JSON text of the records. *)

From S2P Require Import Prelude GoStrings GoTime Json GoJson Crypto EventLog ChainProofs Response BpfEvent Loader Collector Suppress Policy Agent AgentProofs Disk.

#[local] Open Scope string_scope.
#[local] Open Scope list_scope.
#[local] Open Scope Z_scope.

(** ** The response file *)

Section File.
Variable utc : Z -> Time.        (** the civil time of a Unix nanosecond *)

Definition opt_str (name s : string) : list (string * gval) := if s == "" then [] else [(name, GStr s)].
Definition opt_int (name : string) (z : Z) : list (string * gval) := if z =? 0 then [] else [(name, GInt z)].
Definition opt_attrs (name : string) (m : option attrs) : list (string * gval) :=
  match m with Some (x :: l) => [(name, GMap (map (fun kv => (kv.1, any_value kv.2)) (x :: l)))] | _ => [] end.

Definition request_value (r : ActionRequest) : gval :=
  GStruct ([("action", GStr (Response.Action r))] ++ opt_int "pid" (Response.PID r) ++ opt_str "path" (Response.Path r) ++ opt_str "rule_id" (Response.RuleID r)
    ++ opt_str "remote_addr" (Response.RemoteAddr r) ++ opt_int "local_port" (Response.LocalPort r) ++ opt_str "protocol" (Response.Protocol r)
    ++ opt_str "process_path" (Response.ProcessPath r) ++ opt_str "start_ticks" (Response.StartTicks r)).

Definition record_value (r : ResponseRecord) : gval :=
  GStruct ([("timestamp", GStr (text (time_print (utc r.(rr_Timestamp))))); ("rule_id", GStr r.(rr_RuleID));
      ("category", GStr r.(rr_Category))]
    ++ opt_attrs "subject" r.(rr_Subject) ++ opt_attrs "object" r.(rr_Object)
    ++ [("request", request_value r.(rr_Request)); ("result", result_value r.(rr_Result))]).

Definition record_line (r : ResponseRecord) : list ascii := print (marshal (record_value r)) ++ [byte 10].

(** A record that cannot be written is lost; the time of the clock can always
    be encoded. *)
Definition appendResponseRecord (path : string) (d : Disk) (r : ResponseRecord) : Disk :=
  match mkdirFor d with
  | Err _ => d
  | Ok _ => if d.(no_write) path then d else with_content d (<[path := default [] (d.(content) !! path) ++ record_line r]> d.(content))
  end.

(** ** The goroutines *)

(** The second stage: idle, with records of an evaluation still to be handed on,
    or over. *)
Inductive stage := EIdle | EBusy (recs : list ResponseRecord) | EDone.

(** [Shutdown]: not called, waiting for the writer, waiting for the second
    stage, returned. *)
Inductive place := MRun | MWriter | MStage | MBack.

(** The disk, the response channel with its writer, the deferred channel with
    the second stage, the place of [Shutdown], whether a goroutine has panicked;
    [w_taken] are the records that went into the channel, [w_gone] those the
    writer took out. *)
Record Workers := mkWorkers {
  w_disk : Disk; w_resp : list ResponseRecord; w_respClosed : bool; w_writerDone : bool;
  w_def : list deferredEval; w_defClosed : bool; w_stage : stage; w_main : place; w_panic : bool;
  w_taken : list ResponseRecord; w_gone : list ResponseRecord;
}.

(** After [Init], with a response path. *)
Definition workers0 (d : Disk) : Workers := mkWorkers d [] false false [] false EIdle MRun false [] [].

Definition chanCap : nat := 256.

(** The send of [recordResponse]; on a closed channel it panics, the [default]
    branch notwithstanding. *)
Definition send (w : Workers) (r : ResponseRecord) : Workers :=
  let '(ok, q) := try_send chanCap r w.(w_resp) in
  if w.(w_respClosed)
  then mkWorkers w.(w_disk) w.(w_resp) w.(w_respClosed) w.(w_writerDone) w.(w_def) w.(w_defClosed) w.(w_stage) w.(w_main) true
         w.(w_taken) w.(w_gone)
  else mkWorkers w.(w_disk) q w.(w_respClosed) w.(w_writerDone) w.(w_def) w.(w_defClosed) w.(w_stage) w.(w_main) w.(w_panic)
         (w.(w_taken) ++ if ok then [r] else []) w.(w_gone).

(** The send of [handleFastPathExec]. *)
Definition defer (w : Workers) (de : deferredEval) : Workers :=
  mkWorkers w.(w_disk) w.(w_resp) w.(w_respClosed) w.(w_writerDone)
    (if w.(w_defClosed) then w.(w_def) else (try_send chanCap de w.(w_def)).2) w.(w_defClosed) w.(w_stage) w.(w_main)
    (w.(w_panic) || w.(w_defClosed)) w.(w_taken) w.(w_gone).

Definition set_stage (w : Workers) (q : list deferredEval) (s : stage) : Workers :=
  mkWorkers w.(w_disk) w.(w_resp) w.(w_respClosed) w.(w_writerDone) q w.(w_defClosed) s w.(w_main) w.(w_panic) w.(w_taken) w.(w_gone).

Definition set_writer (w : Workers) (d : Disk) (q gone : list ResponseRecord) (done : bool) : Workers :=
  mkWorkers d q w.(w_respClosed) done w.(w_def) w.(w_defClosed) w.(w_stage) w.(w_main) w.(w_panic) w.(w_taken) gone.

Definition set_main (w : Workers) (rc dc : bool) (m : place) : Workers :=
  mkWorkers w.(w_disk) w.(w_resp) rc w.(w_writerDone) w.(w_def) dc w.(w_stage) m w.(w_panic) w.(w_taken) w.(w_gone).

Variable path : string.

(** A panic ends the program. *)
Inductive wk : Workers -> Workers -> Prop :=
(** the polling round, the fast path or a handler records a response; the fast
    path hands on an exec event *)
| wk_record w r : w.(w_panic) = false -> wk w (send w r)
| wk_defer w de : w.(w_panic) = false -> wk w (defer w de)
(** [responseWriter] *)
| wk_write w r q : w.(w_panic) = false -> w.(w_writerDone) = false -> w.(w_resp) = r :: q ->
    wk w (set_writer w (appendResponseRecord path w.(w_disk) r) q (w.(w_gone) ++ [r]) false)
| wk_writer_end w : w.(w_panic) = false -> w.(w_writerDone) = false -> w.(w_resp) = [] -> w.(w_respClosed) = true ->
    wk w (set_writer w w.(w_disk) [] w.(w_gone) true)
(** [handleDeferredEval]: an evaluation leads to any records *)
| wk_eval w de q recs : w.(w_panic) = false -> w.(w_stage) = EIdle -> w.(w_def) = de :: q -> wk w (set_stage w q (EBusy recs))
| wk_eval_send w r recs : w.(w_panic) = false -> w.(w_stage) = EBusy (r :: recs) -> wk w (send (set_stage w w.(w_def) (EBusy recs)) r)
| wk_eval_back w : w.(w_panic) = false -> w.(w_stage) = EBusy [] -> wk w (set_stage w w.(w_def) EIdle)
| wk_eval_end w : w.(w_panic) = false -> w.(w_stage) = EIdle -> w.(w_def) = [] -> w.(w_defClosed) = true -> wk w (set_stage w [] EDone)
(** [Shutdown] *)
| wk_close w : w.(w_panic) = false -> w.(w_main) = MRun -> wk w (set_main w true w.(w_defClosed) MWriter)
| wk_close2 w : w.(w_panic) = false -> w.(w_main) = MWriter -> w.(w_writerDone) = true -> wk w (set_main w w.(w_respClosed) true MStage)
| wk_back w : w.(w_panic) = false -> w.(w_main) = MStage -> w.(w_stage) = EDone -> wk w (set_main w w.(w_respClosed) w.(w_defClosed) MBack).

(** ** What Shutdown leaves *)

Record workers_ok (d0 : Disk) (w : Workers) : Prop := {
  ok_taken : w.(w_taken) = w.(w_gone) ++ w.(w_resp);
  ok_disk : w.(w_disk) = foldl (appendResponseRecord path) d0 w.(w_gone);
  ok_caps : (length w.(w_resp) <= chanCap)%nat /\ (length w.(w_def) <= chanCap)%nat;
  ok_closed : w.(w_respClosed) = true <-> w.(w_main) <> MRun;
  ok_writer : w.(w_writerDone) = true -> w.(w_resp) = [] /\ w.(w_respClosed) = true;
  ok_defClosed : w.(w_defClosed) = true <-> w.(w_main) = MStage \/ w.(w_main) = MBack;
  ok_stage : w.(w_stage) = EDone -> w.(w_def) = [] /\ w.(w_defClosed) = true;
  ok_order : w.(w_main) = MStage \/ w.(w_main) = MBack -> w.(w_writerDone) = true;
  ok_back : w.(w_main) = MBack -> w.(w_stage) = EDone;
  ok_panic : w.(w_panic) = true -> w.(w_respClosed) = true;
}.

Lemma send_ok d0 w r : workers_ok d0 w -> workers_ok d0 (send w r).
Proof.
  intros [H1 H2 [H3 H4] H5 H6 H7 H8 H9 H10 H11]. unfold send.
  destruct (Live.try_send_spec chanCap r (w_resp w) H3) as [Hq [E|[E _]]]; rewrite E in Hq |- *;
    destruct (w_respClosed w) eqn:Ec; (constructor; simpl; rewrite ?app_nil_r; try done; try tauto).
  - by rewrite H1, app_assoc.
  - intros Hw. apply H6 in Hw as [_ ?]. done.
Qed.

Lemma defer_ok d0 w de : workers_ok d0 w -> workers_ok d0 (defer w de).
Proof.
  intros [H1 H2 [H3 H4] H5 H6 H7 H8 H9 H10 H11]. unfold defer.
  destruct (Live.try_send_spec chanCap de (w_def w) H4) as [Hq _].
  constructor; simpl; try done.
  - split; [done|]. by destruct (w_defClosed w).
  - intros Hs. destruct (H8 Hs) as [-> ->]. done.
  - intros [Hp|Hd]%orb_true_iff; [auto|]. apply H5. apply H7 in Hd. destruct Hd; congruence.
Qed.

Lemma wk_ok d0 w w' : wk w w' -> workers_ok d0 w -> workers_ok d0 w'.
Proof.
  intros Hs Hw. destruct Hs as [w r _|w de _|w r q _ Hd Hq|w _ Hd Hq Hc|w de q recs _ Hst Hq|w r recs _ Hst|w _ Hst|w _ Hst Hq Hc|w _ Hm|w _ Hm Hd|w _ Hm Hst].
  - by apply send_ok.
  - by apply defer_ok.
  - destruct Hw as [H1 H2 [H3 H4] H5 H6 H7 H8 H9 H10 H11]. rewrite Hq in H1, H3. simpl in H3.
    constructor; simpl; try done.
    + by rewrite H1, <- app_assoc.
    + by rewrite H2, foldl_snoc.
    + split; [lia|done].
    + intros Hm. apply H9 in Hm. congruence.
  - destruct Hw as [H1 H2 [H3 H4] H5 H6 H7 H8 H9 H10 H11]. rewrite Hq in H1. constructor; simpl; try done; try (split; [lia|done]).
  - destruct Hw as [H1 H2 [H3 H4] H5 H6 H7 H8 H9 H10 H11]. rewrite Hq in H4. simpl in H4. constructor; simpl; try done.
    + split; [done|lia].
    + intros Hm. apply H10 in Hm. congruence.
  - apply send_ok. destruct Hw as [H1 H2 H3 H5 H6 H7 H8 H9 H10 H11]. constructor; simpl; try done.
    intros Hm. apply H10 in Hm. congruence.
  - destruct Hw as [H1 H2 H3 H5 H6 H7 H8 H9 H10 H11]. constructor; simpl; try done. intros Hm. apply H10 in Hm. congruence.
  - destruct Hw as [H1 H2 [H3 H4] H5 H6 H7 H8 H9 H10 H11]. constructor; simpl; try done. split; [done|unfold chanCap; lia].
  - destruct Hw as [H1 H2 H3 H5 H6 H7 H8 H9 H10 H11]. constructor; simpl; try done; rewrite ?Hm in *; try naive_solver.
  - destruct Hw as [H1 H2 H3 H5 H6 H7 H8 H9 H10 H11]. constructor; simpl; try done; rewrite ?Hm in *; try naive_solver.
  - destruct Hw as [H1 H2 H3 H5 H6 H7 H8 H9 H10 H11]. constructor; simpl; try done; rewrite ?Hm in *; try naive_solver.
Qed.

Lemma workers_run d0 w : rtc wk (workers0 d0) w -> workers_ok d0 w.
Proof.
  intros Hr. remember (workers0 d0) as w0 eqn:E.
  assert (workers_ok d0 w0) as H0.
  { subst. constructor; simpl; try done; naive_solver (apply Nat.le_0_l). }
  clear E. induction Hr as [|w0 w1 w2 Hs _ IH]; [done|]. by eapply IH, wk_ok.
Qed.

Definition file (d : Disk) : list ascii := default [] (d.(content) !! path).

Lemma append_file recs d : d.(no_mkdir) = false -> d.(no_write) path = false ->
  file (foldl (appendResponseRecord path) d recs) = file d ++ concat (map record_line recs).
Proof.
  revert d. induction recs as [|r recs IH]; intros d Hm Hw; cbn [foldl map concat]; [symmetry; apply app_nil_r|].
  assert (appendResponseRecord path d r = with_content d (<[path := file d ++ record_line r]> (content d))) as ->.
  { unfold appendResponseRecord, mkdirFor. by rewrite Hm, Hw. }
  rewrite IH by done. unfold file at 1. cbn [with_content content]. rewrite lookup_insert_eq. symmetry. apply app_assoc.
Qed.

(** The writer goes through its channel. *)
Lemma writer_ends d0 w : workers_ok d0 w -> w.(w_panic) = false -> w.(w_main) = MWriter ->
  exists w', rtc wk w w' /\ w'.(w_main) = MStage.
Proof.
  remember (length (w_resp w)) as n eqn:Hn. revert w Hn. induction n as [|n IH]; intros w Hn Hw Hp Hm.
  - destruct (w_resp w) eqn:Hq; [|done].
    assert (w_respClosed w = true) as Hc by (apply (ok_closed _ _ Hw); congruence).
    destruct (w_writerDone w) eqn:Hd.
    + eexists. split; [eapply rtc_once, wk_close2; done|done].
    + eexists. split; [eapply rtc_l; [by apply wk_writer_end|]; apply rtc_once; by apply wk_close2|done].
  - destruct (w_resp w) as [|r q] eqn:Hq; [done|]. simpl in Hn. injection Hn as Hn.
    assert (w_writerDone w = false) as Hd.
    { destruct (w_writerDone w) eqn:E; [|done]. apply (ok_writer _ _ Hw) in E as [E _]. congruence. }
    pose proof (wk_write w r q Hp Hd Hq) as Hs. match type of Hs with wk _ ?w1 => destruct (IH w1 Hn (wk_ok _ _ _ Hs Hw) Hp Hm) as (w' & Hr & Hm') end.
    exists w'. split; [by eapply rtc_l|done].
Qed.

End File.

(** C16. The response file and [Shutdown]: on a disk that takes writes, when the
    writer is over the file holds what it held before and then one line for each
    record that went into the channel, in their order; [Shutdown] waits for that
    (the wait for the writer always ends), and returns only when the second stage
    is over too.  A goroutine can panic on a closed channel only after [Shutdown]
    was called. *)
Theorem shutdown_writes_all (utc : Z -> Time) (path : string) (d0 : Disk) (w : Workers) :
  d0.(no_mkdir) = false -> d0.(no_write) path = false -> rtc (wk utc path) (workers0 d0) w ->
  (w.(w_writerDone) = true -> file path w.(w_disk) = file path d0 ++ concat (map (record_line utc) w.(w_taken)))
  /\ (w.(w_main) = MWriter -> w.(w_panic) = false -> exists w', rtc (wk utc path) w w' /\ w'.(w_main) = MStage)
  /\ (w.(w_main) = MBack -> w.(w_writerDone) = true /\ w.(w_stage) = EDone /\ w.(w_def) = [])
  /\ (w.(w_panic) = true -> w.(w_main) <> MRun)
  /\ (length w.(w_resp) <= chanCap)%nat /\ (length w.(w_def) <= chanCap)%nat.
Proof.
  intros Hm Hn Hr. pose proof (workers_run utc path d0 w Hr) as Hw. destruct (ok_caps _ _ _ _ Hw). split_and!; try done.
  - intros Hd. apply (ok_writer _ _ _ _ Hw) in Hd as [Hq _]. rewrite (ok_taken _ _ _ _ Hw), Hq, app_nil_r, (ok_disk _ _ _ _ Hw).
    by apply append_file.
  - intros Hmain Hp. by eapply writer_ends.
  - intros Hb. pose proof (ok_back _ _ _ _ Hw Hb) as Hs. split_and!; [apply (ok_order _ _ _ _ Hw); auto|done|].
    by apply (ok_stage _ _ _ _ Hw).
  - intros Hp. by apply (ok_closed _ _ _ _ Hw), (ok_panic _ _ _ _ Hw).
Qed.

(** ** Concrete runs *)

Module Sample.
#[local] Instance unicode : GoUnicode := {| uni_equalFold := String.eqb; uni_toLower := id |}.
#[local] Instance floats : FloatOps := Suppress.binary64.

Definition utc (_ : Z) : Time := mkTime 2024 5 6 7 8 9 0 0.
Definition disk : Disk := mkDisk ∅ (fun _ => false) (fun _ => false) false.
Definition rec : ResponseRecord := AgentProofs.Sample.rec "r1".
Definition exec : deferredEval := mkDeferred 40 1 0 "nc" "/bin/nc" 5.

Definition w1 : Workers := set_main (send (workers0 disk) rec) true false MWriter.
Definition w2 : Workers := set_writer (set_writer w1 (appendResponseRecord utc "/r" disk rec) [] [rec] false)
  (appendResponseRecord utc "/r" disk rec) [] [rec] true.

Lemma w2_reached : rtc (wk utc "/r") (workers0 disk) w2.
Proof.
  eapply rtc_l; [by apply (wk_record utc "/r" _ rec)|]. eapply rtc_l; [by apply wk_close|].
  eapply rtc_l; [by eapply (wk_write utc "/r" w1 rec [])|]. eapply rtc_l; [by apply wk_writer_end|]. apply rtc_refl.
Defined.

Lemma shutdown_writes_all_witness : file "/r" w2.(w_disk) = [] ++ concat (map (record_line utc) [rec]).
Proof. apply (shutdown_writes_all utc "/r" disk w2 eq_refl eq_refl w2_reached). reflexivity. Defined.

(** [Shutdown] closes the response channel before the second stage has worked
    off its own: an exec event that was queued and matches a rule panics. *)
Example shutdown_panics : exists w,
  rtc (wk utc "/r") (workers0 disk) w /\ w.(w_panic) = true /\ w.(w_main) = MWriter.
Proof.
  eexists. split.
  - eapply rtc_l; [by apply (wk_defer utc "/r" _ exec)|]. eapply rtc_l; [by apply wk_close|].
    eapply rtc_l; [by eapply (wk_eval utc "/r" _ exec [] [rec])|]. eapply rtc_l; [by eapply (wk_eval_send utc "/r" _ rec [])|].
    apply rtc_refl.
  - done.
Qed.

(** Such an evaluation does lead to a record. *)
Definition quiet_rule : Rule := mkRule "r1" "" None "process" "high" "block" "kill" emptyMatch None [] 0 ["response"].
Definition agent : Agent :=
  mkAgent (mkPolicy "v0.5" (mkProcessAccess "" [] [] "" "") (mkSelfProtection true "" "kill" false) [quiet_rule])
    (Some AgentProofs.Sample.sup) "" [] 2 "/r" (mkCounters 0 0 0 0 ∅ ∅) (Some []) (Some []) true.

Example deferred_exec_recorded :
  length <$> a_responseCh (ag (processDeferredEval AgentProofs.Sample.env exec (mkSt agent StateMissing 0 [])).2) = Some 1%nat.
Proof. vm_compute. reflexivity. Qed.

Example line_1 : text (record_line utc rec)
  = text (jtext ("{'timestamp':'2024-05-06T07:08:09Z','rule_id':'r1','category':'process','request':{'action':'kill','pid':40,'rule_id':'r1'},'result':{'action':'kill','success':true,'detail':''}}" +:+ nl)).
Proof. vm_compute. reflexivity. Qed.

End Sample.
