(* ===== verification/Keys.v ===== *)
(** * Keys and signatures ([internal/integrity/sign.go], [keystore.go])

    Ed25519 is known through its interface; a private key is its 32-byte seed
    followed by the public key, as in [crypto/ed25519].  The HMAC key of the
    log comes from the environment, from a file, or is generated once. *)

From S2P Require Import Prelude GoStrings Crypto ChainProofs LogRun Disk.

#[local] Open Scope string_scope.
#[local] Open Scope list_scope.
#[local] Open Scope Z_scope.

(** ** Decoders of the standard library *)

Definition hex_val (a : ascii) : option Z :=
  let c := code a in
  if (48 <=? c) && (c <=? 57) then Some (c - 48)
  else if (97 <=? c) && (c <=? 102) then Some (c - 87)
  else if (65 <=? c) && (c <=? 70) then Some (c - 55) else None.

(** [hex.DecodeString]: an odd length is an error. *)
Fixpoint hexDecode (l : list ascii) : option (list ascii) :=
  match l with
  | [] => Some []
  | p :: q :: l => x ← hex_val p; y ← hex_val q; r ← hexDecode l; Some (byte (x * 16 + y) :: r)
  | _ => None
  end.

Definition b64_val (a : ascii) : option Z :=
  let c := code a in
  if (65 <=? c) && (c <=? 90) then Some (c - 65)
  else if (97 <=? c) && (c <=? 122) then Some (c - 71)
  else if (48 <=? c) && (c <=? 57) then Some (c + 4)
  else if c =? 43 then Some 62 else if c =? 47 then Some 63 else None.

(** Quanta of four characters, the last one padded; bits past the last byte
    are ignored. *)
Fixpoint b64_quanta (l : list ascii) : option (list ascii) :=
  match l with
  | [] => Some []
  | a :: b :: c :: d :: l =>
      x ← b64_val a; y ← b64_val b;
      if (c == "="%char) && (d == "="%char) && negb (bool_decide (l <> [])) then Some [byte (x * 4 + y / 16)]
      else
        z ← b64_val c;
        if (d == "="%char) && negb (bool_decide (l <> [])) then Some [byte (x * 4 + y / 16); byte (y * 16 + z / 4)]
        else
          w ← b64_val d; r ← b64_quanta l;
          Some (byte (x * 4 + y / 16) :: byte (y * 16 + z / 4) :: byte (z * 64 + w) :: r)
  | _ => None
  end.

(** [base64.StdEncoding.DecodeString]: line ends are skipped. *)
Definition b64Decode (l : list ascii) : option (list ascii) :=
  b64_quanta (List.filter (fun a => negb ((code a =? 10) || (code a =? 13))) l).

Example b64_1 : b64Decode (bytes ("YWJj" +:+ nl +:+ "ZA==")) = Some (bytes "abcd").
Proof. vm_compute. reflexivity. Qed.

(** ** Signatures *)

(** [crypto/ed25519] and what it documents: keys and signatures have fixed
    lengths and a signature verifies under the public key of its signer. *)
Class Ed25519 := {
  ed_public : list ascii -> list ascii;
  ed_sign : list ascii -> list ascii -> list ascii;
  ed_verify : list ascii -> list ascii -> list ascii -> bool;
  ed_public_len : forall seed, length (ed_public seed) = 32%nat;
  ed_sign_verify : forall seed data, length seed = 32%nat ->
    ed_verify (ed_public seed) data (ed_sign (seed ++ ed_public seed) data) = true;
}.

Record SigningKey := mkSigningKey { Private : list ascii; Public : list ascii }.

Inductive sign_err :=
| SErrRead (e : disk_err) | SErrHex | SErrLength (n : Z) | SErrNil | SErrPath | SErrRandom | SErrWrite (e : disk_err).

Definition is_tail (a : ascii) : bool := (code a =? 10) || (code a =? 13) || (code a =? 32).
Definition trimString (l : list ascii) : list ascii := rev (dropWhile is_tail (rev l)).

Section Sign.
Context {ED : Ed25519}.

Definition keyFromSeed (seed : list ascii) : SigningKey :=
  let priv := seed ++ ed_public seed in mkSigningKey priv (drop 32 priv).

(** [random] is what [rand.Reader] gives: 32 bytes, or an error. *)
Definition GenerateSigningKey (random : option (list ascii)) : result sign_err SigningKey :=
  match random with Some seed => Ok (keyFromSeed seed) | None => Err SErrRandom end.

Definition LoadSigningKey (d : Disk) (path : string) : result sign_err SigningKey :=
  match readFile d path with
  | Err e => Err (SErrRead e)
  | Ok raw =>
      let raw := trimString raw in
      if (length raw =? 64)%nat then
        match hexDecode raw with Some seed => Ok (keyFromSeed seed) | None => Err SErrHex end
      else if (length raw =? 128)%nat then
        match hexDecode raw with Some full => Ok (keyFromSeed (take 32 full)) | None => Err SErrHex end
      else Err (SErrLength (Z.of_nat (length raw)))
  end.

Definition SaveSigningKey (d : Disk) (key : SigningKey) (path : string) : result disk_err Disk :=
  let? _ := mkdirFor d in
  writeFile d path (bytes (hexEncode (take 32 key.(Private))) ++ [byte 10]).

Definition Sign (key : option SigningKey) (data : list ascii) : result sign_err string :=
  match key with
  | None => Err SErrNil
  | Some key => if (length key.(Private) =? 0)%nat then Err SErrNil else Ok (hexEncode (ed_sign key.(Private) data))
  end.

Definition Verify (pub data : list ascii) (sigHex : list ascii) : result sign_err bool :=
  match hexDecode (trimString sigHex) with
  | None => Err SErrHex
  | Some sig => Ok (ed_verify pub data sig)
  end.

Definition SignatureFile (policyPath : string) : string := policyPath +:+ ".sig".

(** The key, where it came from, and the disk. *)
Definition LoadOrCreateSigningKey (d : Disk) (path : string) (random : option (list ascii))
    : result sign_err (SigningKey * string * Disk) :=
  if path == "" then Err SErrPath
  else match LoadSigningKey d path with
  | Ok key => Ok (key, "loaded", d)
  | Err (SErrRead NotExist) =>
      let? key := GenerateSigningKey random in
      match SaveSigningKey d key path with
      | Ok d => Ok (key, "generated", d)
      | Err e => Err (SErrWrite e)
      end
  | Err e => Err e
  end.

Definition LoadPublicKey (d : Disk) (path : string) : result sign_err (list ascii) :=
  match readFile d path with
  | Err e => Err (SErrRead e)
  | Ok raw =>
      let raw := trimString raw in
      if (length raw =? 64)%nat then
        match hexDecode raw with Some pub => Ok pub | None => Err SErrHex end
      else Err (SErrLength (Z.of_nat (length raw)))
  end.

Definition SavePublicKey (d : Disk) (pub : list ascii) (path : string) : result disk_err Disk :=
  let? _ := mkdirFor d in writeFile d path (bytes (hexEncode pub) ++ [byte 10]).

End Sign.

(** ** The log key *)

Definition keySize : nat := 32.

Inductive KeySource := SourceEnv | SourceFile | SourceGenFile.

Inductive key_err :=
| KErrPath | KErrNoEnv | KErrHex | KErrB64 | KErrSize (n : Z) | KErrFileSize (n : Z) | KErrRead | KErrRandom | KErrPersist.

(** [envValue] is what [os.Getenv] returns. *)
Definition loadFromEnv (envValue : string) : result key_err (list ascii) :=
  let raw := trimSpace envValue in
  let sized b := if (length b =? keySize)%nat then Ok b else Err (KErrSize (Z.of_nat (length b))) in
  if raw == "" then Err KErrNoEnv
  else if hasPrefix raw "hex:" then
    match hexDecode (bytes (trimPrefix raw "hex:")) with Some b => sized b | None => Err KErrHex end
  else if hasPrefix raw "b64:" then
    match b64Decode (bytes (trimPrefix raw "b64:")) with Some b => sized b | None => Err KErrB64 end
  else sized (bytes raw).

(** The key or the error, and the disk. *)
Definition generateAndPersist (d : Disk) (path : string) (random : option (list ascii))
    : result key_err (list ascii) * Disk :=
  match mkdirFor d, random with
  | Err _, _ => (Err KErrPersist, d)
  | Ok _, None => (Err KErrRandom, d)
  | Ok _, Some key =>
      let tmp := path +:+ ".tmp" in
      match writeFile d tmp key with
      | Err _ => (Err KErrPersist, d)
      | Ok d =>
          match renameFile d tmp path with
          | Err _ => (Err KErrPersist, removeFile d tmp)
          | Ok d => (Ok key, d)
          end
      end
  end.

Definition LoadOrCreate (d : Disk) (path envValue : string) (random : option (list ascii))
    : result key_err (list ascii * KeySource) * Disk :=
  if path == "" then (Err KErrPath, d)
  else match loadFromEnv envValue with
  | Ok k => (Ok (k, SourceEnv), d)
  | Err KErrNoEnv =>
      match readFile d path with
      | Ok b =>
          (if (length b =? keySize)%nat then Ok (b, SourceFile) else Err (KErrFileSize (Z.of_nat (length b))), d)
      | Err NotExist =>
          let '(k, d) := generateAndPersist d path random in
          (let? k := k in Ok (k, SourceGenFile), d)
      | Err Denied => (Err KErrRead, d)
      end
  | Err e => (Err e, d)
  end.

Definition EncodeKey (key : list ascii) : string := "hex:" +:+ hexEncode key.

(** ** Round trips *)

Lemma hex_val_char z : 0 <= z < 16 -> hex_val (hex_char z) = Some z.
Proof.
  intros Hz. unfold hex_val, hex_char. destruct (Z.ltb_spec z 10); rewrite code_byte by lia.
  - rewrite (proj2 (Z.leb_le 48 _)), (proj2 (Z.leb_le _ 57)) by lia. simpl. f_equal. lia.
  - rewrite (proj2 (Z.leb_gt _ 57)), andb_false_r by lia.
    rewrite (proj2 (Z.leb_le 97 _)), (proj2 (Z.leb_le _ 102)) by lia. simpl. f_equal. lia.
Qed.

Lemma hexDecode_encode l : hexDecode (bytes (hexEncode l)) = Some l.
Proof.
  unfold hexEncode. rewrite bytes_text. induction l as [|a l IH]; [done|]. cbn [map concat app hexDecode].
  pose proof (code_range a). pose proof (Z.div_mod (code a) 16). pose proof (Z.mod_pos_bound (code a) 16).
  rewrite !hex_val_char by lia. simpl. rewrite IH. simpl. do 2 f_equal. apply code_inj. rewrite code_byte; lia.
Qed.

Lemma hexEncode_length l : length (bytes (hexEncode l)) = (2 * length l)%nat.
Proof. unfold hexEncode. rewrite bytes_text. induction l; simpl in *; lia. Qed.

Lemma hex_char_not_tail z : 0 <= z < 16 -> is_tail (hex_char z) = false.
Proof.
  intros Hz. unfold is_tail, hex_char. destruct (Z.ltb_spec z 10); rewrite code_byte by lia;
    rewrite !(proj2 (Z.eqb_neq _ _)) by lia; done.
Qed.

Lemma dropWhile_all p l r : Forall (fun a => p a = true) l -> dropWhile p (l ++ r) = dropWhile p r.
Proof. induction 1 as [|a l Ha _ IH]; simpl; [done|]. by rewrite Ha. Qed.

Lemma hexEncode_chars l : Forall (fun a => exists z, 0 <= z < 16 /\ a = hex_char z) (bytes (hexEncode l)).
Proof.
  unfold hexEncode. rewrite bytes_text. induction l as [|a l IH]; simpl; [constructor|].
  pose proof (code_range a). pose proof (Z.div_mod (code a) 16). pose proof (Z.mod_pos_bound (code a) 16).
  constructor; [eexists; split; [|done]; lia|]. constructor; [eexists; split; [|done]; lia|]. done.
Qed.

(** Trailing line ends and blanks do not change an encoded value. *)
Lemma trimString_hex l ws : Forall (fun a => is_tail a = true) ws -> trimString (bytes (hexEncode l) ++ ws) = bytes (hexEncode l).
Proof.
  intros Hws. unfold trimString. rewrite rev_app_distr, dropWhile_all by (by apply Forall_rev).
  rewrite <- (rev_involutive (bytes (hexEncode l))) at 2. f_equal.
  pose proof (hexEncode_chars l) as Hc. apply Forall_rev in Hc.
  destruct Hc as [|a t (z & Hz & ->) _]; [done|]. simpl. by rewrite hex_char_not_tail.
Qed.

Lemma hexDecode_length l r : hexDecode l = Some r -> length l = (2 * length r)%nat.
Proof.
  revert r. assert (forall n l r, (length l <= n)%nat -> hexDecode l = Some r -> length l = (2 * length r)%nat) as H; [|eauto].
  intros n. induction n as [|n IH]; intros [|p [|q t]] r Hn; simpl in *; intros E; simplify_eq/=; try done; try lia.
  destruct (hex_val p), (hex_val q); simplify_eq/=. destruct (hexDecode t) as [u|] eqn:Eu; simplify_eq/=.
  rewrite (IH t u) by (done || lia). lia.
Qed.

Section SignProofs.
Context {ED : Ed25519}.

(** A key made from a seed of 32 bytes. *)
Definition proper (key : SigningKey) : Prop := exists seed, length seed = 32%nat /\ key = keyFromSeed seed.

Lemma keyFromSeed_fields seed : length seed = 32%nat ->
  take 32 (Private (keyFromSeed seed)) = seed /\ Public (keyFromSeed seed) = ed_public seed.
Proof. intros H. simpl. split; [by apply take_app_length'|by apply drop_app_length']. Qed.

Lemma LoadSigningKey_proper d path key : LoadSigningKey d path = Ok key -> proper key /\ no_read d path = false.
Proof.
  unfold LoadSigningKey, readFile. destruct (no_read d path) eqn:Hr; [done|]. destruct (content d !! path) as [raw|]; [|done].
  destruct (Nat.eqb_spec (length (trimString raw)) 64) as [E|_]; [|destruct (Nat.eqb_spec (length (trimString raw)) 128) as [E|_]; [|done]];
    destruct (hexDecode (trimString raw)) as [seed|] eqn:Eh; try done; intros [= <-];
    pose proof (hexDecode_length _ _ Eh); split; try done; eexists; (split; [|done]); rewrite ?length_take; lia.
Qed.

Lemma SaveSigningKey_load d key path d' :
  proper key -> SaveSigningKey d key path = Ok d' -> no_read d path = false -> LoadSigningKey d' path = Ok key.
Proof.
  intros (seed & Hs & ->) E Hr. unfold SaveSigningKey in E. destruct (mkdirFor d); [|done]. cbn [res_bind] in E.
  unfold LoadSigningKey. rewrite (readFile_written _ _ _ _ E Hr).
  rewrite trimString_hex by (by repeat constructor). rewrite hexEncode_length, hexDecode_encode.
  destruct (keyFromSeed_fields seed Hs) as [-> _]. by rewrite Hs.
Qed.

Lemma SavePublicKey_load d pub path d' :
  length pub = 32%nat -> SavePublicKey d pub path = Ok d' -> no_read d path = false -> LoadPublicKey d' path = Ok pub.
Proof.
  intros Hp E Hr. unfold SavePublicKey in E. destruct (mkdirFor d); [|done]. cbn [res_bind] in E.
  unfold LoadPublicKey. rewrite (readFile_written _ _ _ _ E Hr).
  rewrite trimString_hex by (by repeat constructor). by rewrite hexEncode_length, hexDecode_encode, Hp.
Qed.

Lemma sign_verifies key data ws :
  proper key -> Forall (fun a => is_tail a = true) ws ->
  exists sig, Sign (Some key) data = Ok sig /\ Verify (Public key) data (bytes sig ++ ws) = Ok true.
Proof.
  intros (seed & Hs & ->) Hws. eexists. split.
  - unfold Sign. cbn [Private keyFromSeed]. rewrite length_app, Hs. done.
  - unfold Verify. rewrite trimString_hex, hexDecode_encode by done. cbn [Public keyFromSeed Private].
    rewrite drop_app_length' by done. by rewrite ed_sign_verify.
Qed.

End SignProofs.

(** The policy signing key: what the first run creates or reads is read
    back by every later run, the public key written beside it is read back,
    and a signature made with the key is accepted under that public key,
    whatever line ends or blanks follow it in the signature file. *)
Theorem signing_roundtrip {ED : Ed25519} d path random key how d' :
  LoadOrCreateSigningKey d path random = Ok (key, how, d') ->
  match random with Some seed => length seed = 32%nat | None => True end ->
  (forall later, LoadOrCreateSigningKey d' path later = Ok (key, "loaded", d'))
  /\ forall pubPath d'' data ws,
       SavePublicKey d' (Public key) pubPath = Ok d'' -> no_read d' pubPath = false ->
       Forall (fun a => is_tail a = true) ws ->
       exists pub sig, LoadPublicKey d'' pubPath = Ok pub /\ Sign (Some key) data = Ok sig
         /\ Verify pub data (bytes sig ++ ws) = Ok true.
Proof.
  unfold LoadOrCreateSigningKey. case_bool_decide as Hp; [done|]. intros E Hrand.
  assert (proper key /\ LoadSigningKey d' path = Ok key) as [Hk Hl].
  { destruct (LoadSigningKey d path) as [k|e] eqn:El.
    - injection E as <- _ <-. split; [by eapply LoadSigningKey_proper|done].
    - assert (no_read d path = false /\ e = SErrRead NotExist) as [Hr ->].
      { revert El E. unfold LoadSigningKey, readFile. destruct (no_read d path) eqn:Hr; [by intros [= <-]|].
        intros El E. split; [done|]. destruct e as [[]| | | | | |]; done. }
      destruct random as [seed|]; [|done]. cbn [GenerateSigningKey res_bind] in E.
      destruct (SaveSigningKey d (keyFromSeed seed) path) as [d1|] eqn:Es; [|done]. injection E as <- _ <-.
      assert (proper (keyFromSeed seed)) as Hk by (by exists seed). split; [done|]. by eapply SaveSigningKey_load. }
  split; [intros later; by rewrite Hl|]. intros pubPath d'' data ws Es Hr Hws.
  destruct (sign_verifies key data ws Hk Hws) as (sig & Hsig & Hv). exists (Public key), sig. split_and!; [|done|done].
  destruct Hk as (seed & Hs & ->). eapply SavePublicKey_load; [|exact Es|done].
  destruct (keyFromSeed_fields seed Hs) as [_ ->]. apply ed_public_len.
Qed.

(** ** The log key *)

Lemma loadFromEnv_size v k : loadFromEnv v = Ok k -> length k = keySize.
Proof.
  unfold loadFromEnv. intros E. repeat case_match; simplify_eq; by apply Nat.eqb_eq.
Qed.

Lemma hex_char_graphic z : 0 <= z < 16 -> graphic (hex_char z).
Proof. intros Hz. unfold graphic, hex_char. destruct (Z.ltb_spec z 10); rewrite code_byte; lia. Qed.

Lemma trimPrefix_app p s : trimPrefix (p +:+ s) p = s.
Proof. unfold trimPrefix. rewrite hasPrefix_app. apply from_app. Qed.

Lemma loadFromEnv_encoded k : length k = keySize -> loadFromEnv (EncodeKey k) = Ok k.
Proof.
  intros Hk. unfold loadFromEnv, EncodeKey.
  assert (trimSpace ("hex:" +:+ hexEncode k) = "hex:" +:+ hexEncode k) as ->.
  { pose proof (hexEncode_chars k) as Hc. destruct (bytes (hexEncode k)) as [|x l] eqn:E using rev_ind.
    { apply (f_equal length) in E. rewrite hexEncode_length, Hk in E. done. }
    clear IHl. apply Forall_app in Hc as [_ [(z & Hz & ->) _]%Forall_cons].
    replace ("hex:" +:+ hexEncode k) with (text ("h"%char :: (bytes "ex:" ++ l) ++ [hex_char z])).
    - apply trimSpace_id; [by vm_compute|by apply hex_char_graphic].
    - rewrite <- app_assoc, <- E. cbn [text bytes string_of_list_ascii list_ascii_of_string app].
      by rewrite string_of_list_ascii_of_string. }
  rewrite bool_decide_eq_false_2 by done. by rewrite hasPrefix_app, trimPrefix_app, hexDecode_encode, Hk.
Qed.

Lemma rename_persist d path key d1 d2 :
  writeFile d (path +:+ ".tmp") key = Ok d1 -> renameFile d1 (path +:+ ".tmp") path = Ok d2 ->
  content d2 = <[path := key]> (delete (path +:+ ".tmp") (content d)) /\ no_read d2 = no_read d.
Proof.
  unfold writeFile, renameFile. destruct (no_write d (path +:+ ".tmp")); [done|]. intros [= <-]. cbn [no_write content with_content].
  destruct (no_write d path); [done|]. rewrite lookup_insert_eq. intros [= <-]. simpl. split; [|done].
  by rewrite delete_insert_eq.
Qed.

(** The log key: it always has 32 bytes; only a missing key file is ever
    written, and then with the key that is returned; every later start without
    the environment variable returns the same key from the file; and a key
    handed over in the encoded form is read back from the environment. *)
Theorem log_key_stable d path envValue random k src d' :
  LoadOrCreate d path envValue random = (Ok (k, src), d') ->
  match random with Some r => length r = keySize | None => True end ->
  length k = keySize
  /\ (src <> SourceGenFile -> d' = d)
  /\ (src = SourceGenFile -> content d !! path = None
        /\ content d' = <[path := k]> (delete (path +:+ ".tmp") (content d)))
  /\ (src <> SourceEnv -> forall envValue' later, loadFromEnv envValue' = Err KErrNoEnv ->
        LoadOrCreate d' path envValue' later = (Ok (k, SourceFile), d'))
  /\ loadFromEnv (EncodeKey k) = Ok k.
Proof.
  unfold LoadOrCreate. case_bool_decide as Hp; [done|]. intros E Hr.
  assert (forall k, length k = keySize -> loadFromEnv (EncodeKey k) = Ok k) as Henc by apply loadFromEnv_encoded.
  destruct (loadFromEnv envValue) as [k0|e] eqn:Ee.
  { injection E as <- <- <-. apply loadFromEnv_size in Ee. split_and!; try done; auto. }
  destruct e; try done. destruct (readFile d path) as [b|[]] eqn:Er; [| |done].
  - destruct (Nat.eqb_spec (length b) keySize) as [Hb|]; [|done]. injection E as <- <- <-.
    split_and!; try done; auto. intros _ v later Hv. rewrite Hv, Er, (proj2 (Nat.eqb_eq _ _) Hb). done.
  - assert (no_read d path = false /\ content d !! path = None) as [Hn Hm].
    { unfold readFile in Er. destruct (no_read d path); [done|]. by destruct (content d !! path). }
    unfold generateAndPersist in E. destruct (mkdirFor d); [|done]. destruct random as [key|]; [|done].
    destruct (writeFile d (path +:+ ".tmp") key) as [d1|] eqn:E1; [|done].
    destruct (renameFile d1 (path +:+ ".tmp") path) as [d2|] eqn:E2; [|done]. injection E as <- <- <-.
    destruct (rename_persist _ _ _ _ _ E1 E2) as [Hc Hnr]. split_and!; try done; auto.
    intros _ v later Hv. rewrite Hv. unfold readFile. rewrite Hnr, Hn, Hc, lookup_insert_eq.
    by rewrite (proj2 (Nat.eqb_eq _ _) Hr).
Qed.

(** ** Concrete keys *)

Module Sample.

Definition blank : Disk := mkDisk ∅ (fun _ => false) (fun _ => false) false.
Definition seed : list ascii := replicate 32 (byte 7).

(** A toy scheme with the laws of the interface: the signature of [data] under
    a key is the key's public half followed by [data]. *)
Definition toy_public (s : list ascii) : list ascii := take 32 (s ++ replicate 32 (byte 0)).
Lemma toy_public_len s : length (toy_public s) = 32%nat.
Proof. unfold toy_public. rewrite length_take, length_app, length_replicate. lia. Qed.
Lemma toy_sign_verify s (data : list ascii) : length s = 32%nat ->
  bool_decide (drop 32 (s ++ toy_public s) ++ data = toy_public s ++ data) = true.
Proof. intros Hs. apply bool_decide_eq_true. by rewrite drop_app_length'. Qed.
Definition toy : Ed25519 :=
  {| ed_public := toy_public; ed_sign priv data := drop 32 priv ++ data;
     ed_verify pub data sig := bool_decide (sig = pub ++ data);
     ed_public_len := toy_public_len; ed_sign_verify := toy_sign_verify |}.
#[local] Existing Instance toy.

Lemma signing_roundtrip_witness :
  exists key d', LoadOrCreateSigningKey blank "k" (Some seed) = Ok (key, "generated", d')
    /\ LoadOrCreateSigningKey d' "k" None = Ok (key, "loaded", d').
Proof.
  do 2 eexists. split; [reflexivity|].
  refine (proj1 (signing_roundtrip blank "k" (Some seed) _ "generated" _ _ _) None); reflexivity.
Defined.

Lemma log_key_stable_witness :
  exists d', LoadOrCreate blank "k" "" (Some seed) = (Ok (seed, SourceGenFile), d')
    /\ LoadOrCreate d' "k" " " None = (Ok (seed, SourceFile), d').
Proof.
  eexists. split; [reflexivity|].
  destruct (log_key_stable blank "k" "" (Some seed) seed SourceGenFile _ eq_refl eq_refl) as (_ & _ & _ & H & _).
  apply H; [discriminate|reflexivity].
Defined.

(** A key file of the wrong size stops the agent; it is not replaced. *)
Example wrong_size_refused :
  (LoadOrCreate (with_content blank {[ "k" := bytes "short" ]}) "k" "" (Some seed)).1 = Err (KErrFileSize 5).
Proof. vm_compute. reflexivity. Qed.

End Sample.
