(* ===== verification/PolicyFile.v ===== *)
(** * Reading the policy file ([internal/policy/policy.go], [Load])

    The decoder of the policy types, which refuses unknown members at every
    level, and [Load].  A member that occurs again is decoded over the value
    that is there, as [encoding/json] does; the elements of a slice are decoded
    over the elements its array held before. *)

From S2P Require Import Prelude GoStrings Json GoJson GoTime EventLog Policy Disk.

#[local] Open Scope string_scope.
#[local] Open Scope list_scope.
#[local] Open Scope Z_scope.

(** ** Fields *)

Section Decode.
Context {UC : GoUnicode}.

(** [DisallowUnknownFields] *)
Definition known (names : list string) (ms : list (string * json)) : bool :=
  forallb (fun kv => bool_decide (is_Some (field_of names kv.1))) ms.

(** A pointer to a scalar: null clears it. *)
Definition set_ptr {A} (set : A -> json -> option A) (zero : A) (old : option A) (j : json) : option (option A) :=
  match j with JNull => Some None | _ => Some <$> set (default zero old) j end.

(** The elements of an array over the old ones. *)
Fixpoint fill {A} (set : A -> json -> option A) (zero : A) (old : list A) (js : list json) : option (list A) :=
  match js with
  | [] => Some old
  | j :: js =>
      x ← set (default zero (head old)) j;
      l ← fill set zero (tail old) js;
      Some (x :: l)
  end.

(** A slice: its array and its length. *)
Definition slice (A : Type) : Type := list A * nat.
Definition elems {A} (s : slice A) : list A := take s.2 s.1.
Definition of_list {A} (l : list A) : slice A := (l, length l).

Definition set_slice {A} (set : A -> json -> option A) (zero : A) (old : slice A) (j : json) : option (slice A) :=
  match j with
  | JNull | JArr [] => Some ([], O)
  | JArr js => (fun l => (l, length js)) <$> fill set zero old.1 js
  | _ => None
  end.

(** ** The policy types *)

Definition match_names : list string :=
  ["process_name"; "process_path"; "cmdline_contains"; "user"; "file_path"; "file_path_prefix"; "file_op"; "remote_addr";
   "local_port"; "protocol"; "env_contains"; "maps_contains"; "ptrace_self_check"; "parent_process_name"; "process_uid";
   "file_content"; "file_path_suffix"; "connection_freq_min"; "beacon_interval_min_sec"; "beacon_interval_max_sec";
   "container_id"].

Definition set_match (old : Match) (j : json) : option Match :=
  match j with
  | JNull => Some old
  | JObj ms =>
      if negb (known match_names ms) then None
      else
        let str name v := get_field set_string match_names name v ms in
        let int name v := get_field set_int match_names name v ms in
        pn ← str "process_name" old.(m_ProcessName); pp ← str "process_path" old.(m_ProcessPath);
        cl ← str "cmdline_contains" old.(m_CmdlineContains); us ← str "user" old.(m_User);
        fp ← str "file_path" old.(m_FilePath); fx ← str "file_path_prefix" old.(m_FilePathPrefix);
        fo ← str "file_op" old.(m_FileOp); ra ← str "remote_addr" old.(m_RemoteAddr);
        lp ← int "local_port" old.(m_LocalPort); pr ← str "protocol" old.(m_Protocol);
        ec ← str "env_contains" old.(m_EnvContains); mc ← str "maps_contains" old.(m_MapsContains);
        ps ← get_field (set_ptr set_bool false) match_names "ptrace_self_check" old.(m_PtraceSelfCheck) ms;
        pa ← str "parent_process_name" old.(m_ParentProcessName); ui ← str "process_uid" old.(m_ProcessUID);
        fc ← str "file_content" old.(m_FileContent); fs ← str "file_path_suffix" old.(m_FilePathSuffix);
        cf ← int "connection_freq_min" old.(m_ConnectionFreqMin);
        bi ← int "beacon_interval_min_sec" old.(m_BeaconIntervalMin);
        ba ← int "beacon_interval_max_sec" old.(m_BeaconIntervalMax);
        ci ← str "container_id" old.(m_ContainerID);
        Some (mkMatch pn pp cl us fp fx fo ra lp pr ec mc ps pa ui fc fs cf bi ba ci)
  | _ => None
  end.

Definition set_window (old : TimeWindow) (j : json) : option TimeWindow :=
  match j with
  | JNull => Some old
  | JObj ms =>
      if negb (known ["start"; "end"] ms) then None
      else
        st ← get_field set_string ["start"; "end"] "start" old.(tw_Start) ms;
        en ← get_field set_string ["start"; "end"] "end" old.(tw_End) ms;
        Some (mkTimeWindow st en)
  | _ => None
  end.

Definition rule_names : list string :=
  ["id"; "description"; "enabled"; "category"; "severity"; "decision"; "action"; "match"; "time_window"; "whitelist";
   "priority"; "effect"].

Definition set_rule (old : Rule) (j : json) : option Rule :=
  match j with
  | JNull => Some old
  | JObj ms =>
      if negb (known rule_names ms) then None
      else
        let str name v := get_field set_string rule_names name v ms in
        id ← str "id" old.(r_ID); de ← str "description" old.(r_Description);
        en ← get_field (set_ptr set_bool false) rule_names "enabled" old.(r_Enabled) ms;
        ca ← str "category" old.(r_Category); se ← str "severity" old.(r_Severity);
        dc ← str "decision" old.(r_Decision); ac ← str "action" old.(r_Action);
        ma ← get_field set_match rule_names "match" old.(r_Match) ms;
        tw ← get_field (set_ptr set_window (mkTimeWindow "" "")) rule_names "time_window" old.(r_TimeWindow) ms;
        wl ← get_field (set_slice set_match emptyMatch) rule_names "whitelist" (of_list old.(r_Whitelist)) ms;
        pr ← get_field set_int rule_names "priority" old.(r_Priority) ms;
        ef ← get_field (set_slice set_string "") rule_names "effect" (of_list old.(r_Effect)) ms;
        Some (mkRule id de en ca se dc ac ma tw (elems wl) pr (elems ef))
  | _ => None
  end.

Definition access_names : list string := ["mode"; "whitelist"; "blacklist"; "action"; "severity"].

Definition set_access (old : ProcessAccess) (j : json) : option ProcessAccess :=
  match j with
  | JNull => Some old
  | JObj ms =>
      if negb (known access_names ms) then None
      else
        let str name v := get_field set_string access_names name v ms in
        mo ← str "mode" old.(pa_Mode);
        wl ← get_field (set_slice set_match emptyMatch) access_names "whitelist" (of_list old.(pa_Whitelist)) ms;
        bl ← get_field (set_slice set_match emptyMatch) access_names "blacklist" (of_list old.(pa_Blacklist)) ms;
        ac ← str "action" old.(pa_Action); se ← str "severity" old.(pa_Severity);
        Some (mkProcessAccess mo (elems wl) (elems bl) ac se)
  | _ => None
  end.

Definition protection_names : list string := ["enabled"; "audit_severity"; "enforce_mode"; "shutdown_enabled"].

Definition set_protection (old : SelfProtection) (j : json) : option SelfProtection :=
  match j with
  | JNull => Some old
  | JObj ms =>
      if negb (known protection_names ms) then None
      else
        en ← get_field set_bool protection_names "enabled" old.(sp_Enabled) ms;
        se ← get_field set_string protection_names "audit_severity" old.(sp_AuditSeverity) ms;
        mo ← get_field set_string protection_names "enforce_mode" old.(sp_EnforceMode) ms;
        sh ← get_field set_bool protection_names "shutdown_enabled" old.(sp_ShutdownEnabled) ms;
        Some (mkSelfProtection en se mo sh)
  | _ => None
  end.

Definition policy_names : list string := ["schema_version"; "process_access"; "self_protection"; "rules"].

Definition zeroPolicy : Policy :=
  mkPolicy "" (mkProcessAccess "" [] [] "" "") (mkSelfProtection false "" "" false) [].

Definition policy_decode (j : json) : option Policy :=
  match j with
  | JNull => Some zeroPolicy
  | JObj ms =>
      if negb (known policy_names ms) then None
      else
        sv ← get_field set_string policy_names "schema_version" "" ms;
        pa ← get_field set_access policy_names "process_access" zeroPolicy.(p_ProcessAccess) ms;
        sp ← get_field set_protection policy_names "self_protection" zeroPolicy.(p_SelfProtection) ms;
        ru ← get_field (set_slice set_rule zeroRule) policy_names "rules" ([], O) ms;
        Some (mkPolicy sv pa sp (elems ru))
  | _ => None
  end.

(** ** Load *)

Definition maxPolicyBytes : Z := 2 ^ 20.

Inductive load_err := LErrOpen (e : disk_err) | LErrSize (n : Z) | LErrDecode | LErrInvalid (e : PolicyErr).

(** The policy in the bytes of a file; what follows the first value is not
    read. *)
Definition load_bytes (b : list ascii) : result load_err Policy :=
  if maxPolicyBytes <? Z.of_nat (length b) then Err (LErrSize (Z.of_nat (length b)))
  else match next_value b with
  | None => Err LErrDecode
  | Some (j, _) =>
      match policy_decode j with
      | None => Err LErrDecode
      | Some p => match Validate p with Ok _ => Ok p | Err e => Err (LErrInvalid e) end
      end
  end.

Definition Load (d : Disk) (path : string) : result load_err Policy :=
  match readFile d path with Ok b => load_bytes b | Err e => Err (LErrOpen e) end.

End Decode.
