(* ===== verification/PolicySave.v ===== *)
(** * Writing the policy file ([internal/policy/policy.go], [Save])

    The encoder of the policy types, [Save], and the round trip: what [Save]
    writes, [Load] reads back. *)

From S2P Require Import Prelude GoStrings Json JsonIndent GoJson GoTime Crypto EventLog ChainProofs Policy Disk PolicyFile.

#[local] Open Scope string_scope.
#[local] Open Scope list_scope.
#[local] Open Scope Z_scope.

(** ** The encoder *)

(** Fields with [omitempty]. *)
Definition p_str (name s : string) : piece := (nonempty s, name, JStr s).
Definition p_int (name : string) (z : Z) : piece := (z != 0, name, JNum (itoa z)).
Definition p_ptr {A} (enc : A -> json) (name : string) (x : option A) : piece :=
  (match x with Some _ => true | None => false end, name, match x with Some v => enc v | None => JNull end).
Definition p_arr {A} (enc : A -> json) (name : string) (l : list A) : piece := (present l, name, JArr (map enc l)).

Definition match_pieces (m : Match) : list piece :=
  [p_str "process_name" m.(m_ProcessName); p_str "process_path" m.(m_ProcessPath);
   p_str "cmdline_contains" m.(m_CmdlineContains); p_str "user" m.(m_User); p_str "file_path" m.(m_FilePath);
   p_str "file_path_prefix" m.(m_FilePathPrefix); p_str "file_op" m.(m_FileOp); p_str "remote_addr" m.(m_RemoteAddr);
   p_int "local_port" m.(m_LocalPort); p_str "protocol" m.(m_Protocol); p_str "env_contains" m.(m_EnvContains);
   p_str "maps_contains" m.(m_MapsContains); p_ptr JBool "ptrace_self_check" m.(m_PtraceSelfCheck);
   p_str "parent_process_name" m.(m_ParentProcessName); p_str "process_uid" m.(m_ProcessUID);
   p_str "file_content" m.(m_FileContent); p_str "file_path_suffix" m.(m_FilePathSuffix);
   p_int "connection_freq_min" m.(m_ConnectionFreqMin); p_int "beacon_interval_min_sec" m.(m_BeaconIntervalMin);
   p_int "beacon_interval_max_sec" m.(m_BeaconIntervalMax); p_str "container_id" m.(m_ContainerID)].
Definition enc_match (m : Match) : json := JObj (members_of (match_pieces m)).

Definition enc_window (w : TimeWindow) : json := JObj [("start", JStr w.(tw_Start)); ("end", JStr w.(tw_End))].

Definition rule_pieces (r : Rule) : list piece :=
  [(true, "id", JStr r.(r_ID)); p_str "description" r.(r_Description); p_ptr JBool "enabled" r.(r_Enabled);
   (true, "category", JStr r.(r_Category)); (true, "severity", JStr r.(r_Severity)); (true, "decision", JStr r.(r_Decision));
   (true, "action", JStr r.(r_Action)); (true, "match", enc_match r.(r_Match)); p_ptr enc_window "time_window" r.(r_TimeWindow);
   p_arr enc_match "whitelist" r.(r_Whitelist); p_int "priority" r.(r_Priority); p_arr JStr "effect" r.(r_Effect)].
Definition enc_rule (r : Rule) : json := JObj (members_of (rule_pieces r)).

Definition access_pieces (a : ProcessAccess) : list piece :=
  [(true, "mode", JStr a.(pa_Mode)); p_arr enc_match "whitelist" a.(pa_Whitelist); p_arr enc_match "blacklist" a.(pa_Blacklist);
   (true, "action", JStr a.(pa_Action)); (true, "severity", JStr a.(pa_Severity))].
Definition enc_access (a : ProcessAccess) : json := JObj (members_of (access_pieces a)).

Definition protection_pieces (s : SelfProtection) : list piece :=
  [(true, "enabled", JBool s.(sp_Enabled)); (true, "audit_severity", JStr s.(sp_AuditSeverity));
   p_str "enforce_mode" s.(sp_EnforceMode); (s.(sp_ShutdownEnabled), "shutdown_enabled", JBool s.(sp_ShutdownEnabled))].
Definition enc_protection (s : SelfProtection) : json := JObj (members_of (protection_pieces s)).

(** A nil slice of rules is written as null; [omitempty] never leaves out a
    struct. *)
Definition policy_pieces (nil_rules : bool) (p : Policy) : list piece :=
  [(true, "schema_version", JStr p.(p_SchemaVersion)); (true, "process_access", enc_access p.(p_ProcessAccess));
   (true, "self_protection", enc_protection p.(p_SelfProtection));
   (true, "rules", match p.(p_Rules) with [] => if nil_rules then JNull else JArr [] | rs => JArr (map enc_rule rs) end)].
Definition enc_policy (nil_rules : bool) (p : Policy) : json := JObj (members_of (policy_pieces nil_rules p)).

Inductive save_err := SErrInvalid (e : PolicyErr) | SErrDir (e : disk_err) | SErrWrite (e : disk_err).

Definition Save (nil_rules : bool) (d : Disk) (path : string) (p : Policy) : result save_err Disk :=
  match Validate p with
  | Err e => Err (SErrInvalid e)
  | Ok _ =>
      match mkdirFor d with
      | Err e => Err (SErrDir e)
      | Ok _ =>
          match writeFile d path (marshalIndent (enc_policy nil_rules p) ++ [byte 10]) with
          | Err e => Err (SErrWrite e)
          | Ok d => Ok d
          end
      end
  end.

(** ** Policies that can be written *)

Definition utf8 (s : string) : Prop := valid_utf8 s = true.
Definition int64 (z : Z) : Prop := - 2 ^ 63 <= z < 2 ^ 63.

Definition match_text (m : Match) : Prop :=
  Forall utf8 [m.(m_ProcessName); m.(m_ProcessPath); m.(m_CmdlineContains); m.(m_User); m.(m_FilePath); m.(m_FilePathPrefix);
    m.(m_FileOp); m.(m_RemoteAddr); m.(m_Protocol); m.(m_EnvContains); m.(m_MapsContains); m.(m_ParentProcessName);
    m.(m_ProcessUID); m.(m_FileContent); m.(m_FilePathSuffix); m.(m_ContainerID)]
  /\ Forall int64 [m.(m_LocalPort); m.(m_ConnectionFreqMin); m.(m_BeaconIntervalMin); m.(m_BeaconIntervalMax)].

Definition window_text (w : TimeWindow) : Prop := utf8 w.(tw_Start) /\ utf8 w.(tw_End).

Definition rule_text (r : Rule) : Prop :=
  Forall utf8 ([r.(r_ID); r.(r_Description); r.(r_Category); r.(r_Severity); r.(r_Decision); r.(r_Action)] ++ r.(r_Effect))
  /\ int64 r.(r_Priority) /\ match_text r.(r_Match) /\ Forall match_text r.(r_Whitelist)
  /\ (forall w, r.(r_TimeWindow) = Some w -> window_text w).

(** Every text is UTF-8 and every number is in the range of its type. *)
Definition policy_text (p : Policy) : Prop :=
  let a := p.(p_ProcessAccess) in let s := p.(p_SelfProtection) in
  Forall utf8 [p.(p_SchemaVersion); a.(pa_Mode); a.(pa_Action); a.(pa_Severity); s.(sp_AuditSeverity); s.(sp_EnforceMode)]
  /\ Forall match_text a.(pa_Whitelist) /\ Forall match_text a.(pa_Blacklist) /\ Forall rule_text p.(p_Rules).

(** ** Reading back *)

Section RoundTrip.
Context {UC : GoUnicode}.

Section Named.
Variables (names : list string) (ps : list piece).
Hypotheses (Hnames : map piece_name ps = names) (Hnd : NoDup names).

Lemma get_named {A} (set : A -> json -> option A) name init c j :
  (c, name, j) ∈ ps -> get_field set names name init (members_of ps) = if (c : bool) then set init j else Some init.
Proof.
  apply get_piece; [|by rewrite Hnames]. apply Forall_forall. intros p Hp. rewrite <- Hnames. by apply list_elem_of_fmap_2.
Qed.

Lemma get_str name s : p_str name s ∈ ps -> get_field set_string names name "" (members_of ps) = Some s.
Proof. intros Hin. rewrite (get_named _ _ _ _ _ Hin). unfold nonempty. by destruct s. Qed.

Lemma get_str_always name s init : (true, name, JStr s) ∈ ps -> get_field set_string names name init (members_of ps) = Some s.
Proof. intros Hin. by rewrite (get_named _ _ _ _ _ Hin). Qed.

Lemma get_int name z : p_int name z ∈ ps -> - 2 ^ 63 <= z < 2 ^ 63 -> get_field set_int names name 0 (members_of ps) = Some z.
Proof.
  intros Hin Hz. rewrite (get_named _ _ _ _ _ Hin). unfold set_int. pose proof (atoi_itoa z Hz) as E. unfold atoi in E. rewrite E.
  by destruct (decide (z = 0)) as [->|Hn]; [|rewrite bool_decide_eq_false_2].
Qed.

Lemma get_ptr {A} (set : A -> json -> option A) enc zero name x :
  p_ptr enc name x ∈ ps -> (forall v, x = Some v -> set zero (enc v) = Some v /\ enc v <> JNull) ->
  get_field (set_ptr set zero) names name None (members_of ps) = Some x.
Proof.
  intros Hin Hv. destruct x as [v|]; simpl in Hin; rewrite (get_named _ _ _ _ _ Hin); [|done].
  destruct (Hv v eq_refl) as [E Hn]. unfold set_ptr. simpl. destruct (enc v); try done; by rewrite E.
Qed.

Lemma fill_enc {A} (set : A -> json -> option A) enc zero l :
  Forall (fun x => set zero (enc x) = Some x) l -> fill set zero [] (map enc l) = Some l.
Proof. induction 1 as [|x l Hx _ IH]; [done|]. simpl. by rewrite Hx, IH. Qed.

Lemma set_slice_enc {A} (set : A -> json -> option A) enc zero l :
  Forall (fun x => set zero (enc x) = Some x) l -> set_slice set zero ([], O) (JArr (map enc l)) = Some (of_list l).
Proof.
  intros Hl. destruct l as [|x l]; [done|]. pose proof (fill_enc set enc zero (x :: l) Hl) as E.
  unfold set_slice. cbn [map fst] in *. rewrite E. unfold of_list. simpl. by rewrite length_map.
Qed.

Lemma get_arr {A} (set : A -> json -> option A) enc zero name l :
  p_arr enc name l ∈ ps -> Forall (fun x => set zero (enc x) = Some x) l ->
  get_field (set_slice set zero) names name (of_list []) (members_of ps) = Some (of_list l).
Proof.
  intros Hin Hl. rewrite (get_named _ _ _ _ _ Hin). destruct l as [|x l]; [done|]. by apply set_slice_enc.
Qed.

Lemma known_named : known names (members_of ps) = true.
Proof.
  unfold known. apply forallb_forall. intros [k j] Hk%list_elem_of_In. apply bool_decide_eq_true_2.
  unfold members_of in Hk. apply list_elem_of_In, in_concat in Hk as (x & Hx & Hk). apply in_map_iff in Hx as ([[c k'] j'] & <- & Hp).
  assert (k' ∈ names) as Hin.
  { rewrite <- Hnames. apply list_elem_of_In, in_map_iff. by exists (c, k', j'). }
  destruct c; [|done]. destruct Hk as [[= <- <-]|[]]. unfold field_of. simpl. by rewrite bool_decide_eq_true_2.
Qed.

End Named.

#[local] Ltac piece_in := repeat first [apply list_elem_of_here | apply list_elem_of_further].
#[local] Ltac all_in H := rewrite !Forall_cons in H; destruct_and! H.
Lemma set_match_enc m : match_text m -> set_match emptyMatch (enc_match m) = Some m.
Proof.
  intros [_ Hz]. all_in Hz. unfold set_match, enc_match.
  assert (NoDup match_names) as Hnd by (apply (bool_decide_unpack _); by vm_compute).
  rewrite (known_named match_names (match_pieces m) eq_refl). cbv beta zeta iota delta [negb].
  unfold emptyMatch; cbn [m_ProcessName m_ProcessPath m_CmdlineContains m_User m_FilePath m_FilePathPrefix m_FileOp m_RemoteAddr m_LocalPort
    m_Protocol m_EnvContains m_MapsContains m_PtraceSelfCheck m_ParentProcessName m_ProcessUID m_FileContent m_FilePathSuffix
    m_ConnectionFreqMin m_BeaconIntervalMin m_BeaconIntervalMax m_ContainerID].
  pose proof (get_str match_names (match_pieces m) eq_refl Hnd) as S_. pose proof (get_int match_names (match_pieces m) eq_refl Hnd) as I_.
  rewrite !(S_ _ _) by piece_in. rewrite !(I_ _ _) by first [assumption | piece_in].
  rewrite (get_ptr match_names (match_pieces m) eq_refl Hnd set_bool JBool false _ (m_PtraceSelfCheck m)); [|piece_in|done].
  by destruct m.
Qed.

Lemma set_window_enc w : set_window (mkTimeWindow "" "") (enc_window w) = Some w.
Proof. by destruct w. Qed.

Lemma set_matches_enc l : Forall match_text l -> Forall (fun m => set_match emptyMatch (enc_match m) = Some m) l.
Proof. intros Hl. eapply Forall_impl; [exact Hl|]. apply set_match_enc. Qed.

Lemma set_rule_enc r : rule_text r -> set_rule zeroRule (enc_rule r) = Some r.
Proof.
  intros (_ & Hp & Hm & Hw & _). unfold set_rule, enc_rule.
  assert (NoDup rule_names) as Hnd by (apply (bool_decide_unpack _); by vm_compute).
  pose proof (@get_named rule_names (rule_pieces r) eq_refl Hnd) as N_. pose proof (get_str rule_names (rule_pieces r) eq_refl Hnd) as S_.
  pose proof (@get_arr rule_names (rule_pieces r) eq_refl Hnd) as A_.
  rewrite (known_named rule_names (rule_pieces r) eq_refl). cbv beta zeta iota delta [negb].
  unfold zeroRule, litRule. cbn [r_ID r_Description r_Enabled r_Category r_Severity r_Decision r_Action r_Match r_TimeWindow r_Whitelist
    r_Priority r_Effect].
  rewrite (S_ "description" (r_Description r)) by piece_in.
  rewrite !(get_str_always rule_names (rule_pieces r) eq_refl Hnd _ _ _) by piece_in.
  rewrite (get_ptr rule_names (rule_pieces r) eq_refl Hnd set_bool JBool false _ (r_Enabled r)); [|piece_in|done].
  rewrite (N_ _ set_match "match" emptyMatch true (enc_match (r_Match r))) by piece_in. rewrite set_match_enc by done.
  rewrite (get_ptr rule_names (rule_pieces r) eq_refl Hnd set_window enc_window (mkTimeWindow "" "") _ (r_TimeWindow r));
    [|piece_in|intros w _; split; [apply set_window_enc|done]].
  rewrite (A_ _ set_match enc_match emptyMatch "whitelist" (r_Whitelist r)); [|piece_in|by apply set_matches_enc].
  rewrite (get_int rule_names (rule_pieces r) eq_refl Hnd "priority" (r_Priority r)) by first [assumption | piece_in].
  rewrite (A_ _ set_string JStr "" "effect" (r_Effect r)); [|piece_in|by apply Forall_true].
  cbn [mbind option_bind]. unfold elems, of_list. cbn [fst snd]. rewrite !firstn_all. by destruct r.
Qed.

Lemma set_access_enc a : Forall match_text a.(pa_Whitelist) -> Forall match_text a.(pa_Blacklist) ->
  set_access (mkProcessAccess "" [] [] "" "") (enc_access a) = Some a.
Proof.
  intros Hw Hb. unfold set_access, enc_access.
  assert (NoDup access_names) as Hnd by (apply (bool_decide_unpack _); by vm_compute).
  pose proof (@get_arr access_names (access_pieces a) eq_refl Hnd) as A_.
  rewrite (known_named access_names (access_pieces a) eq_refl). cbv beta zeta iota delta [negb].
  cbn [pa_Mode pa_Whitelist pa_Blacklist pa_Action pa_Severity].
  rewrite !(get_str_always access_names (access_pieces a) eq_refl Hnd _ _ _) by piece_in.
  rewrite (A_ _ set_match enc_match emptyMatch "whitelist" (pa_Whitelist a)); [|piece_in|by apply set_matches_enc].
  rewrite (A_ _ set_match enc_match emptyMatch "blacklist" (pa_Blacklist a)); [|piece_in|by apply set_matches_enc].
  cbn [mbind option_bind]. unfold elems, of_list. cbn [fst snd]. rewrite !firstn_all. by destruct a.
Qed.

Lemma set_protection_enc s : set_protection (mkSelfProtection false "" "" false) (enc_protection s) = Some s.
Proof. destruct s as [[] a m []]; destruct m; reflexivity. Qed.

Lemma policy_decode_enc b p : policy_text p -> policy_decode (enc_policy b p) = Some p.
Proof.
  intros (_ & Hw & Hb & Hr). unfold policy_decode, enc_policy.
  assert (NoDup policy_names) as Hnd by (apply (bool_decide_unpack _); by vm_compute).
  pose proof (@get_named policy_names (policy_pieces b p) eq_refl Hnd) as N_.
  rewrite (known_named policy_names (policy_pieces b p) eq_refl). cbv beta zeta iota delta [negb].
  rewrite (get_str_always policy_names (policy_pieces b p) eq_refl Hnd "schema_version" (p_SchemaVersion p)) by piece_in.
  erewrite (N_ _ set_access "process_access") by piece_in. cbn [zeroPolicy p_ProcessAccess p_SelfProtection].
  rewrite set_access_enc by done.
  erewrite (N_ _ set_protection "self_protection") by piece_in. rewrite set_protection_enc.
  erewrite (N_ _ (set_slice set_rule zeroRule) "rules") by piece_in.
  assert (set_slice set_rule zeroRule ([], O)
    match p_Rules p with [] => if b then JNull else JArr [] | rs => JArr (map enc_rule rs) end = Some (of_list (p_Rules p))) as ->.
  { destruct (p_Rules p) as [|r rs] eqn:E; [by destruct b|]. apply set_slice_enc. eapply Forall_impl; [exact Hr|]. apply set_rule_enc. }
  cbn [mbind option_bind]. unfold elems, of_list. cbn [fst snd]. rewrite firstn_all. by destruct p.
Qed.

(** ** The text is JSON *)

Definition piece_ok (d : nat) (p : piece) : Prop := json_ok d p.2 = true.

Lemma members_ok d names ps : map piece_name ps = names -> forallb valid_utf8 names = true -> Forall (piece_ok d) ps ->
  json_ok (S d) (JObj (members_of ps)) = true.
Proof.
  intros <- Hn Hp. apply json_ok_members. rewrite forallb_forall in Hn. rewrite Forall_forall in Hp |- *. intros p Hin.
  split; [|by apply Hp]. apply Hn, in_map, list_elem_of_In, Hin.
Qed.

Lemma p_int_ok d name z : piece_ok d (p_int name z).
Proof. unfold piece_ok, p_int. simpl. rewrite number_itoa. by apply bool_decide_eq_true_2. Qed.

Lemma p_arr_ok {A} (enc : A -> json) d name l : Forall (fun x => json_ok d (enc x) = true) l -> piece_ok (S d) (p_arr enc name l).
Proof. intros Hl. unfold piece_ok, p_arr. simpl. by apply forallb_Forall, Forall_map. Qed.

#[local] Ltac pieces_ok :=
  repeat apply List.Forall_cons; try apply List.Forall_nil; first [apply p_int_ok | assumption | reflexivity | idtac].

Lemma enc_match_ok d m : match_text m -> json_ok (S d) (enc_match m) = true.
Proof.
  intros [Ht _]. unfold utf8 in Ht. all_in Ht. eapply members_ok; [reflexivity|by vm_compute|]. unfold match_pieces. pieces_ok.
  unfold piece_ok. simpl. by destruct (m_PtraceSelfCheck m).
Qed.

Lemma enc_matches_ok d l : Forall match_text l -> Forall (fun m => json_ok (S d) (enc_match m) = true) l.
Proof. intros Hl. eapply Forall_impl; [exact Hl|]. intros. by apply enc_match_ok. Qed.

Lemma enc_rule_ok d r : rule_text r -> json_ok (S (S (S d))) (enc_rule r) = true.
Proof.
  intros (Ht & _ & Hm & Hw & Htw). apply Forall_app in Ht as [Ht He]. unfold utf8 in Ht, He. all_in Ht.
  eapply members_ok; [reflexivity|by vm_compute|]. unfold rule_pieces. pieces_ok.
  - unfold piece_ok. simpl. by destruct (r_Enabled r).
  - by apply enc_match_ok.
  - unfold piece_ok. simpl. destruct (r_TimeWindow r) as [w|]; [|done]. destruct (Htw w eq_refl) as [W1 W2]. unfold utf8 in W1, W2.
    simpl. by rewrite W1, W2.
  - by apply p_arr_ok, enc_matches_ok.
  - by apply p_arr_ok.
Qed.

Lemma enc_policy_ok d b p : policy_text p -> json_ok (S (S (S (S (S d))))) (enc_policy b p) = true.
Proof.
  intros (Ht & Hw & Hb & Hr). unfold utf8 in Ht. all_in Ht. eapply members_ok; [reflexivity|by vm_compute|].
  unfold policy_pieces. pieces_ok; unfold piece_ok; cbn [snd].
  - eapply members_ok; [reflexivity|by vm_compute|]. unfold access_pieces. pieces_ok; by apply p_arr_ok, enc_matches_ok.
  - eapply members_ok; [reflexivity|by vm_compute|]. unfold protection_pieces. pieces_ok.
  - destruct (p_Rules p) as [|r rs] eqn:E; [by destruct b|]. cbn [json_ok]. apply forallb_Forall, Forall_map.
    eapply Forall_impl; [exact Hr|]. intros. by apply enc_rule_ok.
Qed.

Lemma next_value_marshalIndent j a r :
  json_ok max_depth j = true -> is_ws a = true -> next_value (marshalIndent j ++ a :: r) = Some (j, a :: r).
Proof.
  intros Hok Ha. unfold next_value, marshalIndent. apply pretty_reads; [done| |rewrite length_app; lia].
  destruct a as [[] [] [] [] [] [] [] []]; first [discriminate Ha | done].
Qed.

Lemma load_saved b p : policy_text p -> is_ok (Validate p) = true ->
  Z.of_nat (length (marshalIndent (enc_policy b p))) < maxPolicyBytes ->
  load_bytes (marshalIndent (enc_policy b p) ++ [byte 10]) = Ok p.
Proof.
  intros Hp Hv Hl. unfold load_bytes. rewrite length_app. cbn [length].
  rewrite (proj2 (Z.ltb_ge _ _)) by lia.
  rewrite next_value_marshalIndent; [|apply (enc_policy_ok (max_depth - 5)%nat b p Hp)|done].
  rewrite policy_decode_enc by done. by destruct (Validate p).
Qed.

End RoundTrip.

(** C27. A policy that was saved is loaded as it was: every field of every rule,
    match and section comes back, the absent ones absent, provided its texts are
    UTF-8 and the file is not longer than the limit of the reader. *)
Theorem policy_save_load {UC : GoUnicode} (nil_rules : bool) (d : Disk) (path : string) (p : Policy) (d' : Disk) :
  policy_text p -> Z.of_nat (length (marshalIndent (enc_policy nil_rules p))) < maxPolicyBytes ->
  Save nil_rules d path p = Ok d' -> d.(no_read) path = false ->
  Load d' path = Ok p.
Proof.
  intros Hp Hl Hs Hr. unfold Save in Hs. destruct (Validate p) eqn:Ev; [|done]. destruct (mkdirFor d); [|done].
  destruct (writeFile _ _ _) as [d1|] eqn:Ew; [|done]. injection Hs as <-. unfold Load.
  rewrite (readFile_written _ _ _ _ Ew Hr). apply load_saved; [done|by rewrite Ev|done].
Qed.

(** ** A concrete policy *)

Module Sample.
#[local] Instance unicode : GoUnicode := {| uni_equalFold := String.eqb; uni_toLower := id |}.

Definition nc : Match := mkMatch "nc" "" "" "" "" "" "" "" 0 "" "" "" (Some false) "" "" "" "" 0 0 0 "".
Definition rule : Rule :=
  mkRule "r1" "" (Some true) "process" "high" "block" "kill" nc (Some (mkTimeWindow "08:00" "18:00")) [nc] 5 ["audit"; "response"].
Definition policy : Policy := mkPolicy "v0.5" (mkProcessAccess "enforce" [] [nc] "kill" "high") (mkSelfProtection true "high" "" false) [rule].
Definition disk : Disk := mkDisk ∅ (fun _ => false) (fun _ => false) false.
Definition saved : Disk := match Save false disk "/p" policy with Ok d => d | Err _ => disk end.

Example policy_valid : is_ok (Validate policy) = true.
Proof. vm_compute. reflexivity. Qed.

Lemma policy_save_load_witness : Load saved "/p" = Ok policy.
Proof.
  apply (policy_save_load false disk "/p" policy saved); [|vm_compute; reflexivity|vm_compute; reflexivity|reflexivity].
  assert (match_text nc) as Hm by (split; repeat constructor; simpl; lia).
  split; [repeat constructor|]. split; [constructor|]. split; [by repeat constructor|].
  constructor; [|constructor]. split; [repeat constructor|]. split; [unfold int64; simpl; lia|]. split; [exact Hm|].
  split; [by repeat constructor|]. intros w [= <-]. split; reflexivity.
Defined.

End Sample.
