(* ===== verification/PolicyStore.v ===== *)
(** * Policy versions and signatures ([internal/control/server.go])

    [backupPolicy], [listPolicyVersions], [rollbackPolicy] and
    [verifyPolicySig].  Other processes work on the same files: before its
    [n]-th access the program finds the disk as [others n] left it.  The order
    of [sort.Slice] on equal times is an argument with its law. *)

From S2P Require Import Prelude GoStrings Json GoJson GoTime EventLog LogRun Policy Disk Keys PolicyFile.

#[local] Open Scope string_scope.
#[local] Open Scope list_scope.
#[local] Open Scope Z_scope.

(** ** Names *)

(** A path up to and including its last slash, and what follows it. *)
Definition dirPrefix (path : string) : string :=
  match lastIndexByte "/"%char path with Some i => text (take (S i) (bytes path)) | None => "" end.
Definition baseName (path : string) : string :=
  match lastIndexByte "/"%char path with Some i => from (S i) path | None => path end.

(** The directory of the versions of a clean path. *)
Definition versionsDir (path : string) : string := dirPrefix path +:+ ".versions".

Definition versionPath (path name : string) : string := versionsDir path +:+ "/" +:+ name.

Record policyVersion := mkVersion { pv_Name : string; pv_Path : string; pv_Size : Z; pv_ModTime : Z }.

Inductive store_err :=
| StOpen (e : disk_err) | StMkdir | StExists | StWrite (e : disk_err) | StList | StNone | StUnknown (version : string).

Inductive sig_err :=
| SgNoKey | SgNoFile (path : string) | SgRead | SgPublic (path : string) (e : sign_err) | SgPolicy (e : disk_err)
| SgVerify (e : sign_err) | SgMismatch.

(** ** The disk, shared with others *)

Record io := mkIo { io_disk : Disk; io_tick : nat }.
Definition IO (A : Type) : Type := io -> A * io.

Definition io_ret {A} (x : A) : IO A := fun s => (x, s).
Definition io_bind {A B} (m : IO A) (k : A -> IO B) : IO B := fun s => let '(x, s) := m s in k x s.
Notation "x <- m ;; k" := (io_bind m (fun x => k)) (at level 100, m at next level, right associativity).

Definition put_disk (d : Disk) : IO () := fun s => (tt, mkIo d s.(io_tick)).

(** The error of a step ends the routine. *)
Definition try {E A B} (m : IO (result E A)) (k : A -> IO (result E B)) : IO (result E B) :=
  r <- m ;; match r with Ok x => k x | Err e => io_ret (Err e) end.

Section Store.
Context {UC : GoUnicode} {ED : Ed25519}.
Variable others : nat -> Disk -> Disk.
Variable sort_versions : list policyVersion -> list policyVersion.

Definition access : IO Disk := fun s =>
  let d := others s.(io_tick) s.(io_disk) in (d, mkIo d (S s.(io_tick))).

(** [stamp] is the formatted time of the call. *)
Definition backupPolicy (stamp path : string) : IO (result store_err ()) :=
  if path == "" then io_ret (Ok ())
  else
    d <- access ;;
    match readFile d path with
    | Err e => io_ret (Err (StOpen e))
    | Ok b =>
        match mkdirFor d with
        | Err _ => io_ret (Err StMkdir)
        | Ok _ =>
            let out := versionPath path (baseName path +:+ "." +:+ stamp +:+ ".bak") in
            if bool_decide (is_Some (d.(content) !! out)) then io_ret (Err StExists)
            else match writeFile d out b with
            | Err e => io_ret (Err (StWrite e))
            | Ok d => _ <- put_disk d ;; io_ret (Ok ())
            end
        end
    end.

(** [mtime] is the modification time of a file. *)
Definition listPolicyVersions (mtime : string -> Z) (policyPath : string) : IO (result store_err (list policyVersion)) :=
  d <- access ;;
  io_ret (if d.(no_read) (versionsDir policyPath) then Err StList
    else Ok (sort_versions
      (omap (fun kb : string * list ascii =>
               name ← entry_name (versionsDir policyPath) kb.1;
               if hasSuffix name ".bak"
               then Some (mkVersion name (versionPath policyPath name) (Z.of_nat (length kb.2)) (mtime kb.1)) else None)
         (map_to_list d.(content))))).

Definition rollbackPolicy (mtime : string -> Z) (stamp policyPath version : string) : IO (result store_err string) :=
  try (listPolicyVersions mtime policyPath) (fun versions =>
    match versions with
    | [] => io_ret (Err StNone)
    | newest :: _ =>
        match (if version == "" then Some newest else List.find (fun v => v.(pv_Name) == version) versions) with
        | None => io_ret (Err (StUnknown version))
        | Some selected =>
            try (backupPolicy stamp policyPath) (fun _ =>
              d <- access ;;
              match readFile d selected.(pv_Path) with
              | Err e => io_ret (Err (StOpen e))
              | Ok b =>
                  match writeFile d policyPath b with
                  | Err e => io_ret (Err (StWrite e))
                  | Ok d => _ <- put_disk d ;; io_ret (Ok selected.(pv_Path))
                  end
              end)
        end
    end).

Definition policySignatureFile (policyPath : string) : string := policyPath +:+ ".sig".

(** [None] when the signature holds. *)
Definition verifyPolicySig (policyPath signingKeyPath : string) : IO (option sig_err) :=
  if signingKeyPath == "" then io_ret (Some SgNoKey)
  else
    let sigPath := policySignatureFile policyPath in
    d <- access ;;
    match readFile d sigPath with
    | Err NotExist => io_ret (Some (SgNoFile sigPath))
    | Err Denied => io_ret (Some SgRead)
    | Ok sigData =>
        let pubKeyPath := signingKeyPath +:+ ".pub" in
        d <- access ;;
        match LoadPublicKey d pubKeyPath with
        | Err e => io_ret (Some (SgPublic pubKeyPath e))
        | Ok pub =>
            d <- access ;;
            io_ret match readFile d policyPath with
            | Err e => Some (SgPolicy e)
            | Ok raw =>
                match Verify pub raw sigData with
                | Err e => Some (SgVerify e)
                | Ok true => None
                | Ok false => Some SgMismatch
                end
            end
        end
    end.

(** [policy.Load] of the policy file. *)
Definition loadPolicy (path : string) : IO (result load_err Policy) := d <- access ;; io_ret (Load d path).

End Store.

(** ** Without interference *)

Section StoreProofs.
Context {UC : GoUnicode} {ED : Ed25519}.
Variable others : nat -> Disk -> Disk.
Variable sort_versions : list policyVersion -> list policyVersion.

(** Nobody else writes. *)
Definition steady : Prop := forall n d, others n d = d.

(** What [sort.Slice] guarantees: the newest first. *)
Definition sorts_versions : Prop := forall l,
  sort_versions l ≡ₚ l /\ StronglySorted (fun v w => pv_ModTime w <= pv_ModTime v) (sort_versions l).

Hypothesis Hsteady : steady.

Lemma access_steady s : access others s = (io_disk s, mkIo (io_disk s) (S (io_tick s))).
Proof. unfold access. by rewrite Hsteady. Qed.

(** A signature that holds, with the files it was checked on. *)
Definition signed (d : Disk) (policyPath signingKeyPath : string) (raw : list ascii) : Prop :=
  exists sig pub, readFile d (policySignatureFile policyPath) = Ok sig
    /\ LoadPublicKey d (signingKeyPath +:+ ".pub") = Ok pub /\ Verify pub raw sig = Ok true.

Lemma verifyPolicySig_steady path key s r s' :
  verifyPolicySig others path key s = (r, s') ->
  io_disk s' = io_disk s
  /\ (r = None -> key <> "" /\ exists raw, readFile (io_disk s) path = Ok raw /\ signed (io_disk s) path key raw).
Proof.
  unfold verifyPolicySig. case_bool_decide as Hk; [by intros [= <- <-]|]. unfold io_bind, io_ret. rewrite access_steady.
  destruct (readFile (io_disk s) (policySignatureFile path)) as [sig|[]] eqn:Es; try (by intros [= <- <-]).
  rewrite access_steady. cbn [io_disk].
  destruct (LoadPublicKey (io_disk s) (key +:+ ".pub")) as [pub|] eqn:Ep; [|by intros [= <- <-]].
  rewrite access_steady. cbn [io_disk]. intros [= <- <-]. split; [done|].
  destruct (readFile (io_disk s) path) as [raw|] eqn:Er; [|done]. destruct (Verify pub raw sig) as [[]|] eqn:Ev; try done.
  intros _. split; [done|]. exists raw. split; [done|]. by exists sig, pub.
Qed.

Lemma loadPolicy_steady path s : loadPolicy others path s = (Load (io_disk s) path, mkIo (io_disk s) (S (io_tick s))).
Proof. unfold loadPolicy, io_bind, io_ret. by rewrite access_steady. Qed.

(** A backup adds the policy's bytes under a new name. *)
Lemma backupPolicy_steady stamp path s s' :
  path <> "" -> backupPolicy others stamp path s = (Ok (), s') ->
  exists b out, readFile (io_disk s) path = Ok b /\ content (io_disk s) !! path = Some b
    /\ content (io_disk s) !! out = None
    /\ io_disk s' = with_content (io_disk s) (<[out := b]> (content (io_disk s))).
Proof.
  intros Hp. unfold backupPolicy. rewrite (bool_decide_eq_false_2 _ Hp). unfold io_bind, io_ret. rewrite access_steady.
  destruct (readFile (io_disk s) path) as [b|] eqn:Er; [|done]. destruct (mkdirFor (io_disk s)); [|done].
  case_bool_decide as Hx; [done|]. unfold writeFile. destruct (no_write (io_disk s) _); [done|]. intros [= <-].
  exists b. eexists. split_and!; [done| | |done].
  - unfold readFile in Er. destruct (no_read (io_disk s) path); [done|]. destruct (content (io_disk s) !! path); congruence.
  - by apply eq_None_not_Some.
Qed.

Lemma entry_name_path dir k n : dir <> "." -> entry_name dir k = Some n -> k = dir +:+ "/" +:+ n.
Proof.
  intros Hd. unfold entry_name. rewrite (bool_decide_eq_false_2 _ Hd).
  destruct (hasPrefix k (dir +:+ "/")) eqn:Hp; [|done]. apply hasPrefix_split in Hp as [t ->]. simpl.
  rewrite string_app_assoc, from_app_sep. destruct (contains t "/"); [done|]. by intros [= ->].
Qed.

Lemma versionsDir_not_dot path : versionsDir path <> ".".
Proof.
  unfold versionsDir. intros E. apply (f_equal String.length) in E. rewrite string_length_app in E. simpl in E. lia.
Qed.

(** A listed version is a file of the directory. *)
Lemma listed mtime policyPath s vs s' v :
  sorts_versions -> listPolicyVersions others sort_versions mtime policyPath s = (Ok vs, s') -> v ∈ vs ->
  pv_Path v = versionPath policyPath (pv_Name v) /\ hasSuffix (pv_Name v) ".bak" = true
  /\ is_Some (content (io_disk s) !! pv_Path v) /\ s' = mkIo (io_disk s) (S (io_tick s)).
Proof.
  intros Hs. unfold listPolicyVersions, io_bind, io_ret. rewrite access_steady. destruct (no_read _ _); [done|].
  intros [= <- <-]. destruct (Hs (omap (fun kb : string * list ascii =>
               name ← entry_name (versionsDir policyPath) kb.1;
               if hasSuffix name ".bak"
               then Some (mkVersion name (versionPath policyPath name) (Z.of_nat (length kb.2)) (mtime kb.1)) else None)
         (map_to_list (content (io_disk s))))) as [Hperm _].
  rewrite Hperm, list_elem_of_omap. intros ([k b] & Hk%elem_of_map_to_list & E). simpl in E.
  destruct (entry_name (versionsDir policyPath) k) as [n|] eqn:En; [|done]. simpl in E.
  destruct (hasSuffix n ".bak") eqn:Hb; [|done]. injection E as <-. simpl. split_and!; try done.
  apply entry_name_path in En; [|apply versionsDir_not_dot]. subst k. by exists b.
Qed.

End StoreProofs.

(** While nobody else writes, a rollback that succeeds makes the policy
    file equal to one of the stored versions (the one named, or the newest),
    keeps what it replaces as a new version, and touches no other file. *)
Theorem rollback_restores others sort_versions mtime stamp policyPath version s path s' :
  steady others -> sorts_versions sort_versions -> policyPath <> "" ->
  rollbackPolicy others sort_versions mtime stamp policyPath version s = (Ok path, s') ->
  exists name b old out,
    path = versionPath policyPath name /\ hasSuffix name ".bak" = true /\ (version <> "" -> name = version)
    /\ content (io_disk s) !! path = Some b /\ content (io_disk s) !! policyPath = Some old
    /\ content (io_disk s) !! out = None
    /\ content (io_disk s') = <[policyPath := b]> (<[out := old]> (content (io_disk s))).
Proof.
  intros Hst Hso Hp. unfold rollbackPolicy, try. unfold io_bind at 1.
  destruct (listPolicyVersions others sort_versions mtime policyPath s) as [[vs|e] s1] eqn:El; [|done].
  destruct vs as [|newest vs]; [done|].
  destruct (if version == "" then _ else _) as [v|] eqn:Ev; [|done].
  assert (v ∈ newest :: vs /\ (version <> "" -> pv_Name v = version)) as [Hin Hver].
  { case_bool_decide as Hv; [injection Ev as <-; by split; [left|]|].
    apply List.find_some in Ev as [H1 H2]. bool_props. by rewrite list_elem_of_In. }
  destruct (listed others sort_versions Hst mtime policyPath s _ s1 v Hso El Hin) as (Hpath & Hbak & [b Hb] & ->).
  unfold io_bind at 1. destruct (backupPolicy others stamp policyPath _) as [[[]|e] s2] eqn:Eb; [|done].
  destruct (backupPolicy_steady others Hst stamp policyPath _ _ Hp Eb) as (old & out & _ & Hold & Hout & Hd).
  cbn [io_disk] in *. unfold io_bind. rewrite (access_steady others Hst). rewrite Hd. unfold readFile, writeFile. cbn [no_read no_write content with_content].
  assert (out <> pv_Path v) as Hne by congruence. rewrite lookup_insert_ne, Hb by done.
  destruct (no_read (io_disk s) (pv_Path v)); [done|]. destruct (no_write (io_disk s) policyPath); [done|].
  intros [= <- <-]. exists (pv_Name v), b, old, out. split_and!; try done.
Qed.

(** ** Concrete stores *)

Module Sample.

Definition alone (n : nat) (d : Disk) : Disk := d.
Definition newest_first : list policyVersion -> list policyVersion :=
  sort_stable (fun v w => - pv_ModTime v <? - pv_ModTime w).

Lemma alone_steady : steady alone.
Proof. done. Qed.

Lemma newest_first_sorts : sorts_versions newest_first.
Proof.
  intros l. split; [apply sort_stable_perm|].
  assert (forall m, StronglySorted (fun v w => - pv_ModTime v <= - pv_ModTime w) m ->
    StronglySorted (fun v w => pv_ModTime w <= pv_ModTime v) m) as Hm.
  { induction 1 as [|v m _ IH HF]; constructor; [done|]. eapply Forall_impl; [exact HF|]. simpl. lia. }
  apply Hm, (sort_stable_sorted (fun v => - pv_ModTime v)).
Qed.

Definition store : io :=
  mkIo (mkDisk (<["p" := bytes "new"]> {[ ".versions/p.1.bak" := bytes "old" ]}) (fun _ => false) (fun _ => false) false) 0.

Definition after := rollbackPolicy alone newest_first (fun _ => 0) "2" "p" "" store.

Lemma rollback_restores_witness :
  exists name b old out,
    ".versions/p.1.bak" = versionPath "p" name /\ hasSuffix name ".bak" = true /\ ("" <> "" -> name = "")
    /\ content (io_disk store) !! ".versions/p.1.bak" = Some b /\ content (io_disk store) !! "p" = Some old
    /\ content (io_disk store) !! out = None
    /\ content (io_disk after.2) = <["p" := b]> (<[out := old]> (content (io_disk store))).
Proof.
  apply (rollback_restores alone newest_first (fun _ => 0) "2" "p" "" store ".versions/p.1.bak" after.2);
    [exact alone_steady|exact newest_first_sorts|discriminate|].
  vm_compute. reflexivity.
Defined.

End Sample.
