(* ===== verification/Baseline.v ===== *)
(** * Baseline checks ([internal/baseline/baseline.go])

    A template of file checks and its run.  [os.Stat] is an argument: the
    permission bits of a path, or the text of an error.  [%o] of [fmt.Sscanf]
    is written out. *)

From S2P Require Import Prelude GoStrings Json GoJson GoTime EventLog PolicyFile Disk.

#[local] Open Scope string_scope.
#[local] Open Scope list_scope.
#[local] Open Scope Z_scope.

Record FileCheck := mkCheck { fc_ID : string; fc_Path : string; fc_MustExist : bool; fc_MaxMode : string }.
Record Template := mkTemplate { t_SchemaVersion : string; t_Checks : list FileCheck }.
Record Finding := mkFinding { f_ID : string; f_Path : string; f_Passed : bool; f_Expected : string; f_Actual : string }.

Definition baselineVersion : string := "v0.1".

(** ** Loading *)

Section Load.
Context {UC : GoUnicode}.

Definition check_names : list string := ["id"; "path"; "must_exist"; "max_mode"].

Definition set_check (old : FileCheck) (j : json) : option FileCheck :=
  match j with
  | JNull => Some old
  | JObj ms =>
      id ← get_field set_string check_names "id" old.(fc_ID) ms;
      pa ← get_field set_string check_names "path" old.(fc_Path) ms;
      mu ← get_field set_bool check_names "must_exist" old.(fc_MustExist) ms;
      mo ← get_field set_string check_names "max_mode" old.(fc_MaxMode) ms;
      Some (mkCheck id pa mu mo)
  | _ => None
  end.

Definition template_decode (j : json) : option Template :=
  match j with
  | JNull => Some (mkTemplate "" [])
  | JObj ms =>
      sv ← get_field set_string ["schema_version"; "checks"] "schema_version" "" ms;
      cs ← get_field (set_slice set_check (mkCheck "" "" false "")) ["schema_version"; "checks"] "checks" ([], O) ms;
      Some (mkTemplate sv (elems cs))
  | _ => None
  end.

Inductive baseline_err := BErrRead (e : disk_err) | BErrDecode | BErrSchema (v : string).

Definition LoadTemplate (d : Disk) (path : string) : result baseline_err Template :=
  match readFile d path with
  | Err e => Err (BErrRead e)
  | Ok raw =>
      match parse raw ≫= template_decode with
      | None => Err BErrDecode
      | Some t => if t.(t_SchemaVersion) != baselineVersion then Err (BErrSchema t.(t_SchemaVersion)) else Ok t
      end
  end.

End Load.

(** ** Running *)

(** [Sscanf(s, "%o", &max)] into a 32-bit value: leading white space, not a
    line end, is skipped; what follows the digits is not read. *)
Fixpoint skip_blanks (fuel : nat) (l : list ascii) : option (list ascii) :=
  match fuel with
  | O => Some l
  | S fuel =>
      match l with
      | a :: b :: _ => if (code a =? 10) || ((code a =? 13) && (code b =? 10)) then None
                       else match space_width (map code l) with O => Some l | S k => skip_blanks fuel (drop (S k) l) end
      | [a] => if code a =? 10 then None
               else match space_width (map code l) with O => Some l | S k => skip_blanks fuel (drop (S k) l) end
      | [] => Some []
      end
  end.

Fixpoint octal_digits (l : list ascii) (acc : Z) : Z :=
  match l with
  | a :: l => if (48 <=? code a) && (code a <=? 55) then octal_digits l (acc * 8 + (code a - 48)) else acc
  | [] => acc
  end.

Definition scanOctal (s : string) : option Z :=
  match skip_blanks (String.length s) (bytes s) with
  | Some ((a :: _) as l) =>
      if (48 <=? code a) && (code a <=? 55) then
        let v := octal_digits l 0 in if v <? 2 ^ 32 then Some v else None
      else None
  | _ => None
  end.

(** [FileMode.Perm().String()] *)
Definition permString (perm : Z) : string :=
  let bit i c := if Z.testbit perm i then c else "-"%char in
  text ["-"%char; bit 8 "r"%char; bit 7 "w"%char; bit 6 "x"%char; bit 5 "r"%char; bit 4 "w"%char; bit 3 "x"%char;
        bit 2 "r"%char; bit 1 "w"%char; bit 0 "x"%char].

Definition runCheck (stat : string -> result string Z) (c : FileCheck) : Finding :=
  match stat c.(fc_Path) with
  | Err e => mkFinding c.(fc_ID) c.(fc_Path) (negb c.(fc_MustExist)) "exists" e
  | Ok perm =>
      if c.(fc_MaxMode) == "" then mkFinding c.(fc_ID) c.(fc_Path) true "exists" (permString perm)
      else match scanOctal c.(fc_MaxMode) with
      | None => mkFinding c.(fc_ID) c.(fc_Path) false "valid max_mode" c.(fc_MaxMode)
      | Some max =>
          if Z.ldiff perm max != 0
          then mkFinding c.(fc_ID) c.(fc_Path) false ("mode <= " +:+ c.(fc_MaxMode)) (permString perm)
          else mkFinding c.(fc_ID) c.(fc_Path) true "exists" (permString perm)
      end
  end.

Definition Run (stat : string -> result string Z) (t : Template) : list Finding := map (runCheck stat) t.(t_Checks).

Example run_1 :
  Run (fun p => if p == "/a" then Ok 420 else Err "gone")
    (mkTemplate "v0.1" [mkCheck "1" "/a" true "0600"; mkCheck "2" "/b" false ""; mkCheck "3" "/a" true "0644"])
  = [mkFinding "1" "/a" false "mode <= 0600" "-rw-r--r--"; mkFinding "2" "/b" true "exists" "gone";
     mkFinding "3" "/a" true "exists" "-rw-r--r--"].
Proof. vm_compute. reflexivity. Qed.

(** A check passes exactly when the file is missing and may be, or exists and
    grants no permission outside the mask. *)
Lemma runCheck_passed stat c :
  f_Passed (runCheck stat c) = true <->
  match stat c.(fc_Path) with
  | Err _ => c.(fc_MustExist) = false
  | Ok perm => c.(fc_MaxMode) = "" \/ exists max, scanOctal c.(fc_MaxMode) = Some max
                 /\ forall i, 0 <= i -> Z.testbit perm i = true -> Z.testbit max i = true
  end.
Proof.
  unfold runCheck. destruct (stat (fc_Path c)) as [perm|e]; simpl; [|apply negb_true_iff].
  case_bool_decide as Hm; simpl; [naive_solver|]. destruct (scanOctal (fc_MaxMode c)) as [max|]; simpl; [|naive_solver].
  case_bool_decide as Hd; simpl.
  - split; [intros _|done]. right. exists max. split; [done|]. intros i Hi Hp.
    apply (f_equal (fun z => Z.testbit z i)) in Hd. rewrite Z.ldiff_spec, Hp, Z.bits_0 in Hd. by destruct (Z.testbit max i).
  - split; [done|]. intros [?|(m & [= <-] & H)]; [done|]. destruct Hd. apply Z.bits_inj'. intros i Hi.
    rewrite Z.ldiff_spec, Z.bits_0. destruct (Z.testbit perm i) eqn:E; [|done]. by rewrite (H i Hi E).
Qed.
