(* ===== verification/Metrics.v ===== *)
(** * Metrics ([internal/metrics/prometheus.go], [Metrics] of
    [internal/control/agent.go], the adapter of [server.go])

    The counters of the agent as a map of dynamically typed values, and their
    text in the Prometheus exposition format.  A [range] over a map visits it in
    an order that is an argument; [%g] of an integral [float64] and the
    conversion of a [float64] to [uint64] are arguments. *)

From S2P Require Import Prelude GoStrings GoTime GoJson Crypto EventLog Response BpfEvent Loader Collector Suppress Policy Agent.

#[local] Open Scope string_scope.
#[local] Open Scope list_scope.
#[local] Open Scope Z_scope.

Inductive mval :=
| VU64 (n : Z) | VI64 (n : Z) | VInt (n : Z) | VFloat (lit : string) | VTime (sec : Z) | VCounts (m : gmap string Z)
| VHealth (h : BPFHealth).

Definition mmap := list (string * mval).
Definition mget (m : mmap) (k : string) : option mval := snd <$> List.find (fun kv => kv.1 == k) m.

(** [MetricsSource], as the adapter fills it. *)
Record MetricsSource := mkSource { ms_Metrics : mmap; ms_BPFHealth : BPFHealth; ms_History : list string }.

Section Metrics.
Context {UC : GoUnicode} {FO : FloatOps}.

(** [Agent.Metrics]: [started] is the Unix second of [StartedAt], [None] when
    it is zero; [elapsed] is [time.Since(StartedAt)] in nanoseconds; [health] is
    what the health callback returns, when there is one. *)
Definition AgentMetrics (a : Agent) (started : option Z) (elapsed : Z) (health : option BPFHealth) : mmap :=
  let c := a.(a_counters) in
  let uptime := match started with None => 0 | Some _ => elapsed end in
  [("started_at", VTime (default (-62135596800) started));
   ("uptime_sec", VI64 (Z.quot uptime second));
   ("run_count", VU64 c.(RunCount)); ("event_count", VU64 c.(EventCount));
   ("response_count", VU64 c.(ResponseCount)); ("suppressed_total", VU64 c.(SuppressedTotal));
   ("suppression_reasons", VCounts c.(SuppressionReasons));
   ("response_history", VInt (Z.of_nat (length a.(a_History))));
   ("rule_hits", VCounts c.(RuleHits))]
  ++ match health with Some h => [("bpf", VHealth h)] | None => [] end.

Definition metricsAdapter (a : Agent) (started : option Z) (elapsed : Z) (health : option BPFHealth) : MetricsSource :=
  mkSource (AgentMetrics a started elapsed health) (default (mkHealth false 0 0 None "") health)
    (map (fun r => Response.r_Action r.(rr_Result)) (ResponseHistory a 0)).

End Metrics.

Section Prometheus.
Variables (range : gmap string Z -> list (string * Z)) (fmt_g : Z -> string) (float_u64 : string -> Z).

Definition toUint64 (v : option mval) : Z :=
  match v with
  | Some (VU64 n) => n
  | Some (VI64 n) | Some (VInt n) => wrapu 64 n
  | Some (VFloat lit) => float_u64 lit
  | _ => 0
  end.

Definition header (name help kind : string) : list string :=
  ["# HELP " +:+ name +:+ " " +:+ help; "# TYPE " +:+ name +:+ " " +:+ kind].

Definition writeCounter (name help : string) (value : Z) : list string :=
  header name help "counter" ++ [name +:+ " " +:+ itoa value].
Definition writeCounterWithLabel (name help label labelValue : string) (value : Z) : list string :=
  header name help "counter"
  ++ [name +:+ "{" +:+ label +:+ "=" +:+ text [byte 34] +:+ labelValue +:+ text [byte 34] +:+ "} " +:+ itoa value].
Definition writeGauge (name help value : string) : list string := header name help "gauge" ++ [name +:+ " " +:+ value].
Definition writeGaugeBool (name help : string) (value : bool) : list string :=
  header name help "gauge" ++ [name +:+ (if value then " 1" else " 0")].

(** The lines of the text. *)
Definition WritePrometheus (src : MetricsSource) : list string :=
  let m := src.(ms_Metrics) in
  writeCounter "edr_events_total" "Total events processed" (toUint64 (mget m "event_count"))
  ++ writeCounter "edr_responses_total" "Total response actions taken" (toUint64 (mget m "response_count"))
  ++ writeCounter "edr_suppressed_total" "Total events suppressed" (toUint64 (mget m "suppressed_total"))
  ++ writeCounter "edr_runs_total" "Total agent run cycles" (toUint64 (mget m "run_count"))
  ++ match mget m "rule_hits" with
     | Some (VCounts hits) =>
         concat (map (fun kv => writeCounterWithLabel "edr_rule_hits_total" "Total rule hits" "rule" kv.1 kv.2) (range hits))
     | _ => []
     end
  ++ match mget m "uptime_sec" with
     | Some (VFloat lit) => writeGauge "edr_uptime_seconds" "Agent uptime in seconds" lit
     | _ => []
     end
  ++ match mget m "started_at" with
     | Some (VTime sec) => writeGauge "edr_started_at_timestamp" "Agent start time as Unix timestamp" (fmt_g sec)
     | _ => []
     end
  ++ writeGaugeBool "edr_bpf_attached" "Whether BPF probes are attached" src.(ms_BPFHealth).(Attached)
  ++ writeCounter "edr_bpf_events_drained_total" "Total BPF events drained from ring buffer" src.(ms_BPFHealth).(EventsDrained)
  ++ writeCounter "edr_bpf_overload_drops_total" "Total BPF events dropped due to ring buffer overload"
       src.(ms_BPFHealth).(OverloadDrops)
  ++ writeGauge "edr_response_history_size" "Number of responses in history" (fmt_g (Z.of_nat (length src.(ms_History)))).

(** The uptime of the agent is an [int64] and the exporter expects a
    [float64]: the gauge is never written. *)
Lemma uptime_never_written {UC : GoUnicode} {FO : FloatOps} a started elapsed health :
  WritePrometheus (metricsAdapter a started elapsed health)
  = WritePrometheus (mkSource (List.filter (fun kv => kv.1 != "uptime_sec") (AgentMetrics a started elapsed health))
      (ms_BPFHealth (metricsAdapter a started elapsed health)) (ms_History (metricsAdapter a started elapsed health))).
Proof. destruct health; reflexivity. Qed.

End Prometheus.
