(* ===== verification/Server.v ===== *)
(** * The control server ([internal/control/server.go], [forensics.go])

    One function per endpoint, and [serve], which dispatches on the path as the
    mux does.  The server's state holds what its handlers change: the agent and
    the kernel blacklists, the disk, the stopped processes and the quarantined
    files, the audit entries, the commands and signals sent and the shutdown
    requests.  Every question to the outside carries the number of questions
    asked before it.  The text of an error is not modelled where nothing reads
    it; the status is. *)

From S2P Require Import Prelude GoStrings GoTime Json GoJson Crypto EventLog LogRun Anchor BpfEvent Loader Collector Suppress Policy MapSync Response Nft Quarantine Responder Agent Security Query Disk Keys PolicyFile PolicyStore Baseline Metrics.

#[local] Open Scope string_scope.
#[local] Open Scope list_scope.
#[local] Open Scope Z_scope.

(** ** Requests and answers *)

Record Request := mkReq {
  rq_Method : string; rq_Path : string; rq_Query : params; rq_Body : list ascii; rq_Peer : option peerCred;
}.

Inductive reason :=
| RAuth (e : auth_err) | RText (s : string) | RPath (e : path_err) | RLoad (e : load_err) | RSig (e : sig_err)
| RStore (e : store_err) | RQuery (e : query_err) | RBaseline (e : baseline_err) | RQuarantine | RExport | RList.

Inductive payload :=
| PMap (l : gmap_any)
| PMetrics (m : mmap)
| PVersions (l : list policyVersion)
| PQuery (r : eventQueryResult)
| PSeq (r : seq_answer)
| PVerify (v : VerifyResult) (st : ChainState) (issues : list anchor_issue)
| PSigRefused (e : sig_err)              (** [ok] false with the text of the error *)
| PResponses (l : list ResponseRecord)
| PResult (r : Result)
| PFrozen (l : list (Z * string))
| PQuarantined (l : list QuarantineMeta)
| PFindings (l : list Finding)
| PBundle (snap : Snapshot) (m : mmap) (p : Policy) (h : list ResponseRecord) (events : eventQueryResult).

Inductive answer := AErr (status : Z) (why : reason) | AJson (v : payload) | AText (lines : list string).

Definition StatusBadRequest : Z := 400.
Definition StatusForbidden : Z := 403.
Definition StatusNotFound : Z := 404.
Definition StatusMethodNotAllowed : Z := 405.
Definition StatusInternalServerError : Z := 500.
Definition StatusServiceUnavailable : Z := 503.

Record ServerOptions := mkServerOptions {
  BaselinePath : string; PolicyPath : string; EventPath : string; ArtifactDir : string; AllowedUIDs : list Z;
  IntegrityKey : list ascii; SigningKeyPath : string; Anchor_ : option Anchor; Shutdown : bool; WebhookTestFn : bool;
  MetricsWriter : option (list string);
}.

Section Server.
Context {UC : GoUnicode} {FO : FloatOps} {FT : FloatText} {DG : Digest} {ED : Ed25519}.
Context {FS : Type} {MF : MapFiller FS}.

Record Srv := mkSrv {
  s_agent : Agent; s_filler : option FS; s_io : io; s_machine : Machine; s_audit : list Entry;
  s_ran : list (list string); s_sent : list (Z * Signal); s_shutdowns : nat;
}.

(** What the outside answers; the number counts the questions. *)
Record SEnv := mkSEnv {
  v_others : nat -> Disk -> Disk;                    (** the disk as others left it *)
  v_sort : list policyVersion -> list policyVersion;
  v_mtime : nat -> string -> Z; v_stamp : nat -> string; v_nano : nat -> Z;
  v_fs : nat -> fsys; v_cwd : path;                  (** the links [safePathUnder] meets *)
  v_open : nat -> string -> opened;                  (** the event log, opened *)
  v_listed : nat -> bool;                            (** the directory of the log can be listed, or is missing *)
  v_logs : nat -> files; v_chain : nat -> ChainState; v_anchor : nat -> option (Z * list ascii);
  v_login : nat -> Z -> option string;
  v_sys : nat -> Sys; v_shell : nat -> Shell;
  v_webhook : nat -> option string;
  v_quarantine : nat -> bool * (option string * option string * option string);
  v_snapshot : nat -> option Snapshot; v_health : nat -> option BPFHealth; v_started : option Z; v_elapsed : nat -> Z;
  v_stat : nat -> string -> result string Z;
  v_bundle_text : payload -> list ascii;             (** the indented JSON of a bundle *)
  v_range : gmap string Z -> list (string * Z); v_frozen : suspended_map -> list (Z * string);
  v_fmt_g : Z -> string; v_float_u64 : string -> Z;
}.

Variable env : SEnv.
Variable opts : ServerOptions.
Variable responder : option SoftResponder.           (** [None] when the responder is another type *)

(** ** The state monad *)

Definition S_ (A : Type) : Type := Srv -> A * Srv.
Definition sret {A} (x : A) : S_ A := fun s => (x, s).
Definition sbind {A B} (m : S_ A) (k : A -> S_ B) : S_ B := fun s => let '(x, s) := m s in k x s.
#[local] Notation "x <~ m ; k" := (sbind m (fun x => k)) (at level 100, m at next level, right associativity).
#[local] Notation "m >>> k" := (sbind m (fun _ => k)) (at level 100, k at level 200, right associativity).

Definition set_io (s : Srv) (i : io) : Srv :=
  mkSrv s.(s_agent) s.(s_filler) i s.(s_machine) s.(s_audit) s.(s_ran) s.(s_sent) s.(s_shutdowns).

(** A routine on the disk. *)
Definition lift_io {A} (m : IO A) : S_ A := fun s => let '(x, i) := m s.(s_io) in (x, set_io s i).

(** A question. *)
Definition ask {A} (f : nat -> A) : S_ A := fun s =>
  (f s.(s_io).(io_tick), set_io s (mkIo s.(s_io).(io_disk) (S s.(s_io).(io_tick)))).

Definition gets {A} (f : Srv -> A) : S_ A := fun s => (f s, s).

Definition audit (e : Entry) : S_ () := fun s =>
  (tt, mkSrv s.(s_agent) s.(s_filler) s.(s_io) s.(s_machine) (s.(s_audit) ++ [e]) s.(s_ran) s.(s_sent) s.(s_shutdowns)).
Definition set_machine (m : Machine) (sent : list (Z * Signal)) : S_ () := fun s =>
  (tt, mkSrv s.(s_agent) s.(s_filler) s.(s_io) m s.(s_audit) s.(s_ran) (s.(s_sent) ++ sent) s.(s_shutdowns)).
Definition ran (cmds : list (list string)) : S_ () := fun s =>
  (tt, mkSrv s.(s_agent) s.(s_filler) s.(s_io) s.(s_machine) s.(s_audit) (s.(s_ran) ++ cmds) s.(s_sent) s.(s_shutdowns)).
Definition request_shutdown : S_ () := fun s =>
  (tt, mkSrv s.(s_agent) s.(s_filler) s.(s_io) s.(s_machine) s.(s_audit) s.(s_ran) s.(s_sent) (S s.(s_shutdowns))).

Definition set_policy (a : Agent) (p : Policy) : Agent :=
  mkAgent p a.(a_Suppressor) a.(a_SuppressorStatePath) a.(a_History) a.(a_MaxHistory) a.(a_ResponsePath)
    a.(a_counters) a.(a_responseCh) a.(a_deferredCh) a.(a_Logger).

(** [agent.ReplacePolicy] *)
Definition replace_policy (p : Policy) : S_ () := fun s =>
  let '(p, f) := ReplacePolicy s.(s_agent).(a_Policy) s.(s_filler) p in
  (tt, mkSrv (set_policy s.(s_agent) p) f s.(s_io) s.(s_machine) s.(s_audit) s.(s_ran) s.(s_sent) s.(s_shutdowns)).

(** ** Guards *)

Definition requireAuthorized (r : Request) (k : S_ answer) : S_ answer :=
  match authorize r.(rq_Peer) opts.(AllowedUIDs) with
  | Err e => sret (AErr StatusForbidden (RAuth e))
  | Ok _ => k
  end.

Definition post_only (r : Request) (k : S_ answer) : S_ answer :=
  if r.(rq_Method) != "POST" then sret (AErr StatusMethodNotAllowed (RText "method not allowed")) else k.

Definition bad (status : Z) (why : reason) : S_ answer := sret (AErr status why).
Definition json_ (v : payload) : S_ answer := sret (AJson v).
Definition refusal (detail : string) : payload := PMap [("ok", GBool false); ("detail", GStr detail)].

(** The path of [filepath.Dir]. *)
Definition dirName (path : string) : string :=
  match lastIndexByte "/"%char path with
  | Some O => "/"
  | Some i => text (take i (bytes path))
  | None => "."
  end.

Definition render (p : path) : string := "/" +:+ join "/" p.

(** The path of a request: the default, or an override under [base]. *)
Definition override_path (base : string) (r : Request) (default_ : string) (k : string -> S_ answer) : S_ answer :=
  let override := Get r.(rq_Query) "path" in
  if override != "" then
    fs <~ ask env.(v_fs);
    match safePathUnder fs env.(v_cwd) base override with
    | Err e => bad StatusBadRequest (RPath e)
    | Ok p => k (render p)
    end
  else k default_.

(** ** Policy *)

(** How both handlers end: the file is loaded, its signature checked, and the
    policy put in force. *)
Definition load_checked (path : string) (reply : Policy -> payload) : S_ answer :=
  pol <~ lift_io (loadPolicy env.(v_others) path);
  match pol with
  | Err e => bad StatusBadRequest (RLoad e)
  | Ok pol =>
      sig <~ lift_io (verifyPolicySig env.(v_others) path opts.(SigningKeyPath));
      match sig with
      | Some e => bad StatusForbidden (RSig e)
      | None => replace_policy pol >>> json_ (reply pol)
      end
  end.

(** A failed backup is only logged. *)
Definition reload_from (path : string) : S_ answer :=
  if path == "" then bad StatusBadRequest (RText "policy path is required")
  else
    (if opts.(PolicyPath) != ""
     then stamp <~ ask env.(v_stamp);
          lift_io (backupPolicy env.(v_others) stamp opts.(PolicyPath)) >>> sret tt
     else sret tt) >>>
    load_checked path (fun pol =>
      PMap [("ok", GBool true); ("policy_path", GStr path); ("policy_rules", GInt (Z.of_nat (length pol.(p_Rules))));
            ("process_access", GStr pol.(p_ProcessAccess).(pa_Mode))]).

Definition handleReload (r : Request) : S_ answer :=
  requireAuthorized r (post_only r (
    override_path (dirName opts.(PolicyPath)) r opts.(PolicyPath) reload_from)).

Definition handleVersions (r : Request) : S_ answer :=
  requireAuthorized r (
    mtime <~ ask env.(v_mtime);
    vs <~ lift_io (listPolicyVersions env.(v_others) env.(v_sort) mtime opts.(PolicyPath));
    match vs with Err e => bad StatusBadRequest (RStore e) | Ok vs => json_ (PVersions vs) end).

Definition handleRollback (r : Request) : S_ answer :=
  requireAuthorized r (post_only r (
    let version := Get r.(rq_Query) "version" in
    mtime <~ ask env.(v_mtime); stamp <~ ask env.(v_stamp);
    path <~ lift_io (rollbackPolicy env.(v_others) env.(v_sort) mtime stamp opts.(PolicyPath) version);
    match path with
    | Err e => bad StatusBadRequest (RStore e)
    | Ok path =>
        load_checked opts.(PolicyPath) (fun pol =>
          PMap [("ok", GBool true); ("restored_from", GStr path); ("policy_rules", GInt (Z.of_nat (length pol.(p_Rules))))])
    end)).

Definition handleVerifySignature (r : Request) : S_ answer :=
  requireAuthorized r (post_only r (
    override_path (dirName opts.(PolicyPath)) r opts.(PolicyPath) (fun path =>
      if path == "" then bad StatusBadRequest (RText "policy path is required")
      else if opts.(SigningKeyPath) == "" then json_ (refusal "signing key is not configured")
      else
        sig <~ lift_io (verifyPolicySig env.(v_others) path opts.(SigningKeyPath));
        match sig with
        | Some e => json_ (PSigRefused e)
        | None => json_ (PMap [("ok", GBool true); ("policy_path", GStr path)])
        end))).

(** ** Reports *)

(** [Suppressor.Snapshot] *)
Definition suppressorSnapshot (s : option Suppressor) : gval :=
  GMap match s with
       | None => [("active", GBool false)]
       | Some s => [("active", GBool true); ("tracked_events", GInt (Z.of_nat (size s.(lastSeen))));
                    ("active_rules", GInt (Z.of_nat (size s.(buckets))))]
       end.

Definition handleHealth (r : Request) : S_ answer :=
  requireAuthorized r (
    sup <~ gets (fun s => a_Suppressor s.(s_agent));
    json_ (PMap [("ok", GBool true); ("schema_version", GStr "v0.1"); ("suppressor_state", suppressorSnapshot sup)])).

Definition handleMetrics (r : Request) : S_ answer :=
  requireAuthorized r (
    elapsed <~ ask env.(v_elapsed); health <~ ask env.(v_health); a <~ gets s_agent;
    json_ (PMetrics (AgentMetrics a env.(v_started) elapsed health))).

Definition handleStatus (r : Request) : S_ answer :=
  requireAuthorized r (
    a <~ gets s_agent; health <~ ask env.(v_health);
    let pol := a.(a_Policy) in
    let ring0 := match health with Some h => if h.(Attached) then "active" else "disabled" | None => "disabled" end in
    json_ (PMap [("policy_rules", GInt (Z.of_nat (length pol.(p_Rules))));
      ("process_access", GBool (pol.(p_ProcessAccess).(pa_Mode) != "")); ("collector", GStr "procfs"); ("ring0", GStr ring0);
      ("response_history", GInt (Z.of_nat (length (ResponseHistory a 0))))])).

Definition handleEvents (r : Request) : S_ answer :=
  requireAuthorized r (
    f <~ ask env.(v_open);
    match queryEvents opts.(EventPath) (f opts.(EventPath)) (eventQueryFromRequest r.(rq_Query)) with
    | Err e => bad StatusBadRequest (RQuery e)
    | Ok res => json_ (PQuery res)
    end).

Definition handleEventsVerify (r : Request) : S_ answer :=
  requireAuthorized r (
    let seqStr := Get r.(rq_Query) "seq" in
    if seqStr != "" then
      match parseUint 10 64 seqStr with
      | (seq, None) =>
          f <~ ask env.(v_open);
          match verifyEventSeq (f opts.(EventPath)) opts.(IntegrityKey) seq with
          | Err e => bad StatusBadRequest (RQuery e)
          | Ok res => json_ (PSeq res)
          end
      | _ => bad StatusBadRequest (RText "invalid seq parameter")
      end
    else
      listed <~ ask env.(v_listed); logs <~ ask env.(v_logs);
      if negb listed then bad StatusBadRequest RList
      else
        chain <~ ask env.(v_chain);
        let res := EventLog.Verify opts.(IntegrityKey) logs opts.(EventPath) in
        match opts.(Anchor_) with
        | None => json_ (PVerify res chain [])
        | Some a =>
            snap <~ ask env.(v_chain); logs <~ ask env.(v_logs); reply <~ ask env.(v_anchor);
            json_ (PVerify res chain (CrossVerify (Some a) logs reply snap.(ChainID) snap.(LastSeq) snap.(LastHash)))
        end).

Definition handleResponses (r : Request) : S_ answer :=
  requireAuthorized r (
    a <~ gets s_agent; json_ (PResponses (ResponseHistory a (intParam r.(rq_Query) "limit" defaultEventLimit)))).

Definition handlePrometheus (r : Request) : S_ answer :=
  requireAuthorized r (
    match opts.(MetricsWriter) with
    | Some lines => sret (AText lines)
    | None =>
        elapsed <~ ask env.(v_elapsed); health <~ ask env.(v_health); a <~ gets s_agent;
        sret (AText (WritePrometheus env.(v_range) env.(v_fmt_g) env.(v_float_u64)
          (metricsAdapter a env.(v_started) elapsed health)))
    end).

Definition handleBaseline (r : Request) : S_ answer :=
  requireAuthorized r (
    d <~ lift_io (access env.(v_others));
    match LoadTemplate d opts.(BaselinePath) with
    | Err e => bad StatusBadRequest (RBaseline e)
    | Ok t => stat <~ ask env.(v_stat); json_ (PFindings (Run stat t))
    end).

(** ** Forensics *)

Definition ExportForensics (outPath : string) (eventLimit : Z) : S_ answer :=
  let eventLimit := if eventLimit <=? 0 then 200 else eventLimit in
  snap <~ ask env.(v_snapshot);
  match snap with
  | None => bad StatusBadRequest RExport
  | Some snap =>
      f <~ ask env.(v_open);
      match queryEvents opts.(EventPath) (f opts.(EventPath))
              (mkQuery eventLimit 0 "" "" "" "" "" "" "" "" timeZero timeZero) with
      | Err e => bad StatusBadRequest (RQuery e)
      | Ok events =>
          elapsed <~ ask env.(v_elapsed); health <~ ask env.(v_health); a <~ gets s_agent;
          let bundle := PBundle snap (AgentMetrics a env.(v_started) elapsed health) a.(a_Policy) (ResponseHistory a 0) events in
          if outPath != "" then
            d <~ lift_io (access env.(v_others));
            match mkdirFor d with
            | Err _ => bad StatusBadRequest RExport
            | Ok _ =>
                match writeFile d outPath (env.(v_bundle_text) bundle ++ [byte 10]) with
                | Err _ => bad StatusBadRequest RExport
                | Ok d => lift_io (put_disk d) >>> json_ bundle
                end
            end
          else json_ bundle
      end
  end.

Definition handleForensics (r : Request) : S_ answer :=
  requireAuthorized r (post_only r (
    override_path opts.(ArtifactDir) r "" (fun outPath =>
      ExportForensics outPath (intParam r.(rq_Query) "event_limit" 200)))).

(** ** Shutdown *)

Definition auditShutdown (cred : peerCred) (loginUID : Z) (decision reason_ : string) : S_ () :=
  logs <~ gets (fun s => a_Logger s.(s_agent));
  if negb logs then sret tt
  else
    nano <~ ask env.(v_nano);
    audit (mkEntry ("shutdown-" +:+ decision +:+ "-" +:+ itoa nano) "self_protection" "critical"
      (Some [("peer_uid", AU32 cred.(uid)); ("peer_gid", AU32 cred.(gid)); ("peer_pid", AI32 cred.(pid));
             ("peer_loginuid", AU32 loginUID)]) None
      (if decision == "allow" then "shutdown" else "shutdown_denied") decision "self-protect-shutdown"
      [("reason", AStr reason_); ("boundary", AStr "uid=0 and loginuid in {0,4294967295}")]).

(** The zero credential a failed lookup returns. *)
Definition cred_of (r : Request) (e : auth_err) : peerCred :=
  match e, r.(rq_Peer) with ErrMissingCred, _ | _, None => mkCred 0 0 0 | _, Some c => c end.

(** The login uid a failed [authorizeRootLogin] returns. *)
Definition login_of (login : Z -> option string) (r : Request) (e : auth_err) : Z :=
  match e, r.(rq_Peer) with
  | ErrMissingCred, _ | ErrLoginUID, _ | _, None => 0
  | _, Some c => default 0 (readProcLoginUID login c.(pid))
  end.

(** The texts of the errors. *)
Variable auth_text : auth_err -> string.

Definition handleShutdown (r : Request) : S_ answer :=
  post_only r (
    login <~ ask env.(v_login);
    match shutdownCredential login r.(rq_Peer) with
    | Err e => auditShutdown (cred_of r e) 0 "deny" (auth_text e) >>> bad StatusForbidden (RAuth e)
    | Ok (cred, loginUID) =>
        pol <~ gets (fun s => a_Policy s.(s_agent));
        if negb pol.(p_SelfProtection).(sp_ShutdownEnabled) then
          auditShutdown cred loginUID "deny" "self_protection.shutdown_enabled is false" >>>
          bad StatusForbidden (RText "self_protection.shutdown_enabled is false")
        else
          login <~ ask env.(v_login);
          match authorizeRootLogin login r.(rq_Peer) with
          | Err e => auditShutdown (cred_of r e) (login_of login r e) "deny" (auth_text e) >>> bad StatusForbidden (RAuth e)
          | Ok (cred, loginUID) =>
              if negb opts.(Shutdown) then
                auditShutdown cred loginUID "deny" "shutdown handler is not configured" >>>
                bad StatusServiceUnavailable (RText "shutdown handler is not configured")
              else
                auditShutdown cred loginUID "allow" "root login shutdown accepted" >>>
                request_shutdown >>>
                json_ (PMap [("ok", GBool true); ("shutdown", GStr "scheduled")])
          end
    end).

(** ** Responses on request *)

Record freezeRequest := mkFreeze { fr_PID : Z; fr_Path : string; fr_Ticks : string }.

Definition freeze_names : list string := ["pid"; "process_path"; "start_ticks"].

(** The first value of at most 4096 bytes of the body. *)
Definition decode_freeze (names : list string) (body : list ascii) : option freezeRequest :=
  match next_value (take 4096 body) with
  | Some (JObj ms, _) =>
      p ← get_field set_int names "pid" 0 ms;
      pp ← get_field set_string names "process_path" "" ms;
      st ← get_field set_string names "start_ticks" "" ms;
      Some (mkFreeze p pp st)
  | Some (JNull, _) => Some (mkFreeze 0 "" "")
  | _ => None
  end.

Definition handleFreeze (r : Request) : S_ answer :=
  requireAuthorized r (post_only r (
    match decode_freeze freeze_names r.(rq_Body) with
    | None => bad StatusBadRequest (RText "invalid request body")
    | Some req =>
        if req.(fr_PID) <=? 0 then bad StatusBadRequest (RText "pid required")
        else
          sys <~ ask env.(v_sys); m <~ gets s_machine;
          let '(res, susp, sent) := Suspend sys m.(suspended) req.(fr_PID) req.(fr_Path) req.(fr_Ticks) in
          set_machine (mkMachine m.(files_) susp) sent >>> json_ (PResult res)
    end)).

Definition handleResume (r : Request) : S_ answer :=
  requireAuthorized r (post_only r (
    match decode_freeze ["pid"] r.(rq_Body) with
    | None => bad StatusBadRequest (RText "invalid request body")
    | Some req =>
        if req.(fr_PID) <=? 0 then bad StatusBadRequest (RText "pid required")
        else
          sys <~ ask env.(v_sys); m <~ gets s_machine;
          let '(res, susp, sent) := Resume sys m.(suspended) req.(fr_PID) in
          set_machine (mkMachine m.(files_) susp) sent >>> json_ (PResult res)
    end)).

Definition handleFrozen (r : Request) : S_ answer :=
  requireAuthorized r (m <~ gets s_machine; json_ (PFrozen (env.(v_frozen) m.(suspended)))).

(** A routine of the firewall provider. *)
Definition with_nft (unavailable : string) (f : SoftResponder -> Shell -> Result * list (list string)) : S_ answer :=
  match responder with
  | None => json_ (refusal unavailable)
  | Some sr =>
      sh <~ ask env.(v_shell);
      let '(res, cmds) := f sr sh in ran cmds >>> json_ (PResult res)
  end.

Definition handleNFTList (r : Request) : S_ answer :=
  requireAuthorized r (with_nft "nft provider is not available" (fun sr sh => NFTList sr sh)).
Definition handleNFTRollback (r : Request) : S_ answer :=
  requireAuthorized r (post_only r (with_nft "nft provider is not available" (fun sr sh => NFTRollback sr sh))).
Definition handleIsolate (r : Request) : S_ answer :=
  requireAuthorized r (post_only r (with_nft "nft provider not available" (fun sr sh => ApplyIsolate sr.(NFT) sh))).
Definition handleRestoreNetwork (r : Request) : S_ answer :=
  requireAuthorized r (post_only r (with_nft "nft provider not available" (fun sr sh => Rollback sr.(NFT) sh))).

Definition handleNotifyTest (r : Request) : S_ answer :=
  requireAuthorized r (post_only r (
    if negb opts.(WebhookTestFn) then json_ (refusal "webhook not configured")
    else
      e <~ ask env.(v_webhook);
      match e with Some e => json_ (refusal e) | None => json_ (PMap [("ok", GBool true)]) end)).

Definition handleQuarantineList (r : Request) : S_ answer :=
  requireAuthorized r (
    match responder with
    | None => json_ (refusal "quarantine provider not available")
    | Some sr =>
        q <~ ask env.(v_quarantine); m <~ gets s_machine;
        match ListQuarantined sr.(Quarantine_) q.1 m.(files_) with
        | None => bad StatusInternalServerError RQuarantine
        | Some l => json_ (PQuarantined l)
        end
    end).

Definition handleQuarantineRestore (r : Request) : S_ answer :=
  requireAuthorized r (post_only r (
    let origPath := Get r.(rq_Query) "path" in
    if origPath == "" then bad StatusBadRequest (RText "path parameter required")
    else match responder with
    | None => json_ (refusal "quarantine provider not available")
    | Some sr =>
        q <~ ask env.(v_quarantine); m <~ gets s_machine;
        let '(readErr, chmodErr, renameErr) := q.2 in
        let '(res, fs) := Restore sr.(Quarantine_) readErr chmodErr renameErr m.(files_) origPath in
        set_machine (mkMachine fs m.(suspended)) [] >>> json_ (PResult res)
    end)).

(** ** The mux *)

Definition routes : list (string * (Request -> S_ answer)) :=
  [("/v0/health", handleHealth); ("/v0/metrics", handleMetrics); ("/v0/status", handleStatus);
   ("/v0/policy/reload", handleReload); ("/v0/policy/versions", handleVersions);
   ("/v0/policy/rollback", handleRollback); ("/v0/policy/verify-signature", handleVerifySignature);
   ("/v0/events", handleEvents); ("/v0/events/verify", handleEventsVerify); ("/v0/responses", handleResponses);
   ("/v0/network/nft/list", handleNFTList); ("/v0/network/nft/rollback", handleNFTRollback);
   ("/v0/forensics/export", handleForensics); ("/v0/shutdown", handleShutdown);
   ("/v0/process/freeze", handleFreeze); ("/v0/process/resume", handleResume); ("/v0/process/frozen", handleFrozen);
   ("/v0/network/isolate", handleIsolate); ("/v0/network/restore", handleRestoreNetwork);
   ("/v0/notify/test", handleNotifyTest); ("/v0/metrics/prometheus", handlePrometheus);
   ("/v0/quarantine/list", handleQuarantineList); ("/v0/quarantine/restore", handleQuarantineRestore);
   ("/v0/baseline/run", handleBaseline)].

(** The patterns have no trailing slash, so they match whole paths only; the
    path is a clean one (the mux redirects any other). *)
Definition serve (r : Request) : S_ answer :=
  match List.find (fun route => route.1 == r.(rq_Path)) routes with
  | Some route => route.2 r
  | None => sret (AErr StatusNotFound (RText "404 page not found"))
  end.

End Server.
