(* ===== verification/ServerProofs.v ===== *)
(** * Properties of the control server

    Who may reach the handlers, what a change of the policy in force requires,
    and what a shutdown requires. *)

From S2P Require Import Prelude GoStrings GoTime Json GoJson Crypto EventLog LogRun Anchor BpfEvent Loader Bridge MapSync BpfMaps Collector Suppress Policy Response Nft Quarantine Responder Agent Security Query Disk Keys PolicyFile PolicyStore Baseline Metrics Server.

#[local] Open Scope string_scope.
#[local] Open Scope list_scope.
#[local] Open Scope Z_scope.

Section Proofs.
Context {UC : GoUnicode} {FO : FloatOps} {FT : FloatText} {DG : Digest} {ED : Ed25519}.
Context {FS : Type} {MF : MapFiller FS}.
Variables (env : SEnv) (opts : ServerOptions) (responder : option SoftResponder) (auth_text : auth_err -> string).

Abbreviation Srv := (@Srv _ FS).
Abbreviation S_ := (@S_ _ FS).

(** ** What a handler leaves alone *)

Section Keeps.
Context {B : Type} (f : Srv -> B).

Definition keeps {A} (m : S_ A) : Prop := forall s, f (m s).2 = f s.

Lemma keeps_ret {A} (x : A) : keeps (sret x).
Proof. intros s. reflexivity. Qed.

Lemma keeps_bind {A C} (m : S_ A) (k : A -> S_ C) : keeps m -> (forall x, keeps (k x)) -> keeps (sbind m k).
Proof. intros Hm Hk s. unfold sbind. specialize (Hm s). destruct (m s) as [x s1]. rewrite Hk. exact Hm. Qed.

Lemma keeps_gets {A} (g : Srv -> A) : keeps (gets g).
Proof. intros s. reflexivity. Qed.

(** [f] reads neither the disk nor what the providers keep. *)
Hypothesis f_io : forall s i, f (set_io s i) = f s.
Hypothesis f_machine : forall m sent, keeps (set_machine m sent).
Hypothesis f_ran : forall cmds, keeps (ran cmds).

Lemma keeps_io {A} (m : IO A) : keeps (lift_io m).
Proof. intros s. unfold lift_io. destruct (m (s_io s)). apply f_io. Qed.

Lemma keeps_ask {A} (g : nat -> A) : keeps (ask g).
Proof. intros s. apply f_io. Qed.

Lemma keeps_guard r m : keeps m -> keeps (requireAuthorized opts r m).
Proof. intros Hm. unfold requireAuthorized. destruct (authorize _ _); [exact Hm|apply keeps_ret]. Qed.

Lemma keeps_post r m : keeps m -> keeps (post_only r m).
Proof. intros Hm. unfold post_only. destruct (rq_Method r != "POST"); [apply keeps_ret|exact Hm]. Qed.

Lemma keeps_override base r d k : (forall p, keeps (k p)) -> keeps (override_path env base r d k).
Proof.
  intros Hk. unfold override_path. destruct (Get (rq_Query r) "path" != ""); [|apply Hk].
  apply keeps_bind; [apply keeps_ask|]. intros fs. destruct (safePathUnder _ _ _ _); [apply Hk|apply keeps_ret].
Qed.

(** Takes a handler apart. *)
Ltac keep :=
  repeat first
    [ apply keeps_guard | apply keeps_post | (apply keeps_override; intros ?)
    | apply keeps_ret | apply keeps_gets | apply keeps_io | apply keeps_ask | apply f_machine | apply f_ran
    | (apply keeps_bind; [|intros ?])
    | match goal with |- keeps (match ?x with _ => _ end) => destruct x end
    | match goal with |- keeps (let _ := ?x in _) => progress cbv zeta end
    | progress cbv beta ].

Lemma keeps_auditShutdown c l d w : (forall e, keeps (audit e)) -> keeps (auditShutdown env c l d w).
Proof. intros Ha. unfold auditShutdown. repeat first [apply Ha | progress keep]. Qed.

Lemma keeps_with_nft u g : keeps (with_nft env responder u g).
Proof. unfold with_nft, json_. keep. Qed.

Lemma keeps_export p n : keeps (ExportForensics env opts p n).
Proof. unfold ExportForensics, bad, json_. keep. Qed.

Lemma keeps_handleShutdown r :
  (forall e, keeps (audit e)) -> keeps request_shutdown -> keeps (handleShutdown env opts auth_text r).
Proof.
  intros Ha Hs. unfold handleShutdown, bad, json_.
  repeat first [apply keeps_auditShutdown; exact Ha | exact Hs | apply Ha | progress keep].
Qed.

Lemma keeps_handleReload r : (forall p, keeps (replace_policy p)) -> keeps (handleReload env opts r).
Proof. intros Hp. unfold handleReload, reload_from, load_checked, bad, json_. repeat first [apply Hp | progress keep]. Qed.

Lemma keeps_handleRollback r : (forall p, keeps (replace_policy p)) -> keeps (handleRollback env opts r).
Proof. intros Hp. unfold handleRollback, load_checked, bad, json_. repeat first [apply Hp | progress keep]. Qed.

(** The three handlers that change the policy or ask for the end. *)
Definition ruling (r : Request) : list (string * S_ answer) :=
  [("/v0/policy/reload", handleReload env opts r); ("/v0/policy/rollback", handleRollback env opts r);
   ("/v0/shutdown", handleShutdown env opts auth_text r)].

(** No other handler touches [f]. *)
Lemma others_keep r :
  Forall (fun route => (route.1, route.2 r) ∈ ruling r \/ keeps (route.2 r)) (routes env opts responder auth_text).
Proof.
  unfold routes. repeat apply Forall_cons_2; [..|apply Forall_nil_2]; cbn [fst snd];
    first [left; by repeat constructor | right].
  all: unfold handleHealth, handleMetrics, handleStatus, handleVersions, handleVerifySignature, handleEvents,
    handleEventsVerify, handleResponses, handleNFTList, handleNFTRollback, handleForensics, handleFreeze,
    handleResume, handleFrozen, handleIsolate, handleRestoreNetwork, handleNotifyTest, handlePrometheus,
    handleQuarantineList, handleQuarantineRestore, handleBaseline, bad, json_;
    repeat first [apply keeps_with_nft | apply keeps_export | progress keep].
Qed.

End Keeps.

(** The route of a path. *)
Lemma serve_route r :
  (exists route, route ∈ routes env opts responder auth_text /\ route.1 = rq_Path r /\ serve env opts responder auth_text r = route.2 r)
  \/ serve env opts responder auth_text r = sret (AErr StatusNotFound (RText "404 page not found")).
Proof.
  unfold serve. destruct (List.find _ _) as [route|] eqn:E; [left|by right].
  apply List.find_some in E as [Hin Hp]. apply bool_decide_eq_true in Hp. exists route. by rewrite list_elem_of_In.
Qed.

(** Every handler but the one for the shutdown starts with the guard. *)
Lemma guarded r :
  Forall (fun route => route.1 = "/v0/shutdown" \/ exists k, route.2 r = requireAuthorized opts r k)
    (routes env opts responder auth_text).
Proof.
  unfold routes. repeat apply Forall_cons_2; [..|apply Forall_nil_2]; cbn [fst snd];
    first [left; reflexivity | right; eexists].
  all: unfold handleHealth, handleMetrics, handleStatus, handleReload, handleVersions, handleRollback, handleVerifySignature,
    handleEvents, handleEventsVerify, handleResponses, handleNFTList, handleNFTRollback, handleForensics, handleFreeze,
    handleResume, handleFrozen, handleIsolate, handleRestoreNetwork, handleNotifyTest, handlePrometheus,
    handleQuarantineList, handleQuarantineRestore, handleBaseline; reflexivity.
Qed.

(** ** A change of the policy *)

Section Policy.
Hypothesis Hsteady : steady (v_others env).

(** The policy in force afterwards came from a signed file. *)
Definition adopted (s s' : Srv) (path : string) : Prop :=
  SigningKeyPath opts <> "" /\
  exists raw pol,
    readFile (io_disk (s_io s')) path = Ok raw /\ signed (io_disk (s_io s')) path (SigningKeyPath opts) raw
    /\ load_bytes raw = Ok pol /\ s_agent s' = set_policy (s_agent s) pol /\ s_filler s' = syncBPFMaps pol (s_filler s).

Lemma load_checked_adopts path reply s :
  s_agent (load_checked env opts path reply s).2 = s_agent s \/ adopted s (load_checked env opts path reply s).2 path.
Proof.
  unfold load_checked, sbind, lift_io, bad, json_, sret. rewrite (loadPolicy_steady _ Hsteady).
  cbn [set_io s_io]. destruct (Load (io_disk (s_io s)) path) as [pol|e] eqn:El; [|by left].
  destruct (verifyPolicySig _ _ _ _) as [r i] eqn:Ev. destruct (verifyPolicySig_steady _ Hsteady _ _ _ _ _ Ev) as [Hd Hs].
  destruct r as [e|]; [by left|]. right. destruct (Hs eq_refl) as (Hk & raw & Hr & Hsig).
  cbn [set_io s_io io_disk] in *.
  unfold replace_policy, ReplacePolicy. cbn [set_io s_io s_agent s_filler snd]. split; [exact Hk|]. exists raw, pol.
  cbn [s_io s_agent s_filler]. rewrite Hd. unfold Load in El. rewrite Hr in El. done.
Qed.

Lemma adopted_ok s s' path : adopted s s' path -> policy_ok (a_Policy (s_agent s')).
Proof.
  intros (_ & raw & pol & _ & _ & Hl & -> & _). apply Validate_ok_iff. cbn [set_policy a_Policy].
  unfold load_bytes in Hl. destruct (_ <? _); [done|]. destruct (next_value raw) as [[j rest]|]; [|done].
  destruct (policy_decode j) as [p|]; [|done]. destruct (Validate p) eqn:E; [|done]. injection Hl as <-. by rewrite E.
Qed.

(** The files a request may name: the policy, or one under its directory. *)
Definition in_reach (r : Request) (path : string) : Prop :=
  path = PolicyPath opts \/ exists n q,
    safePathUnder (v_fs env n) (v_cwd env) (dirName (PolicyPath opts)) (Get (rq_Query r) "path") = Ok q /\ path = render q.

Definition adopts (r : Request) (m : S_ answer) : Prop := forall s,
  s_agent (m s).2 = s_agent s \/ exists path, adopted s (m s).2 path /\ in_reach r path.

Definition held (s : Srv) : Agent * option FS := (s_agent s, s_filler s).

Lemma held_io s i : held (set_io s i) = held s.
Proof. reflexivity. Qed.

(** What happens before leaves the agent and the filler alone. *)
Lemma adopts_bind {A} r (m : S_ A) (k : A -> S_ answer) :
  keeps held m -> (forall x, adopts r (k x)) -> adopts r (sbind m k).
Proof.
  intros Hm Hk s. unfold sbind. specialize (Hm s). destruct (m s) as [x s1]. cbn [snd] in Hm. injection Hm as Ha Hf.
  destruct (Hk x s1) as [E|(path & Hp & Hw)]; [left; by rewrite E|right]. exists path. split; [|exact Hw].
  destruct Hp as (H1 & raw & pol & H2 & H3 & H4 & H5 & H6). split; [exact H1|]. exists raw, pol. rewrite <- Ha, <- Hf. done.
Qed.

Lemma adopts_ret r x : adopts r (sret x).
Proof. intros s. by left. Qed.

Lemma adopts_load_checked r path reply : in_reach r path -> adopts r (load_checked env opts path reply).
Proof. intros Hw s. destruct (load_checked_adopts path reply s) as [E|E]; [by left|right]. by exists path. Qed.

Lemma adopts_reload_from r path : in_reach r path -> adopts r (reload_from env opts path).
Proof.
  intros Hw. unfold reload_from. destruct (path == ""); [apply adopts_ret|].
  apply adopts_bind; [|intros _; by apply adopts_load_checked]. destruct (PolicyPath opts != ""); [|apply keeps_ret].
  apply keeps_bind; [apply keeps_ask, held_io|]. intros stamp.
  apply keeps_bind; [apply keeps_io, held_io|]. intros _. apply keeps_ret.
Qed.

Lemma adopts_override r :
  adopts r (override_path env (dirName (PolicyPath opts)) r (PolicyPath opts) (reload_from env opts)).
Proof.
  unfold override_path. destruct (Get (rq_Query r) "path" != ""); [|apply adopts_reload_from; by left].
  intros s. unfold sbind, ask. set (n := io_tick (s_io s)).
  destruct (safePathUnder (v_fs env n) _ _ _) as [q|e] eqn:Eq; [|by left].
  assert (in_reach r (render q)) as Hw by (right; by exists n, q).
  destruct (adopts_reload_from r (render q) Hw (set_io s (mkIo (io_disk (s_io s)) (S n)))) as [E|E]; [left; exact E|].
  right. exact E.
Qed.

Lemma adopts_rollback r : exists m, handleRollback env opts r = requireAuthorized opts r (post_only r m) /\ adopts r m.
Proof.
  unfold handleRollback. eexists. split; [reflexivity|]. cbv zeta.
  repeat (apply adopts_bind; [first [apply keeps_ask, held_io | apply keeps_io, held_io]|intros ?]).
  destruct x1; [|apply adopts_ret]. apply adopts_load_checked. by left.
Qed.

End Policy.

(** ** The theorems *)

Lemma serve_cases (P : S_ answer -> Prop) r :
  P (sret (AErr StatusNotFound (RText "404 page not found"))) ->
  (forall route, route ∈ routes env opts responder auth_text -> route.1 = rq_Path r -> P (route.2 r)) ->
  P (serve env opts responder auth_text r).
Proof. intros H0 H. destruct (serve_route r) as [(route & Hin & Hp & ->)| ->]; [by apply H|exact H0]. Qed.

(** C8. A request whose peer has none of the allowed user ids is answered
    with an error and changes nothing, on every path but the shutdown's. *)
Theorem unauthorized_refused (r : Request) (s : Srv) :
  rq_Path r <> "/v0/shutdown" ->
  (forall cred u, rq_Peer r = Some cred -> u ∈ AllowedUIDs opts -> uid cred <> wrapu 32 u) ->
  exists status why, serve env opts responder auth_text r s = (AErr status why, s).
Proof.
  intros Hp Hu. assert (exists e, authorize (rq_Peer r) (AllowedUIDs opts) = Err e) as [e He].
  { destruct (authorize (rq_Peer r) (AllowedUIDs opts)) as [[]|e] eqn:E; [|by exists e].
    apply authorize_ok_iff in E as (cred & u & E1 & E2 & E3). by destruct (Hu cred u). }
  apply (serve_cases (fun m => exists status why, m s = (AErr status why, s))); [by do 2 eexists|].
  intros route Hin Er. pose proof (guarded r) as Hg. rewrite Forall_forall in Hg.
  destruct (Hg route Hin) as [E|[k ->]]; [congruence|]. unfold requireAuthorized. rewrite He. by do 2 eexists.
Qed.

Lemma guard_ok r (m : S_ answer) s :
  s_agent (requireAuthorized opts r (post_only r m) s).2 <> s_agent s ->
  authorize (rq_Peer r) (AllowedUIDs opts) = Ok () /\ rq_Method r = "POST" /\
  requireAuthorized opts r (post_only r m) s = m s.
Proof.
  unfold requireAuthorized, post_only. destruct (authorize _ _) as [[]|]; [|done].
  case_bool_decide; [|done]. cbn [negb]. done.
Qed.

(** What only the three handlers change. *)
Definition ruled (s : Srv) : Agent * list Entry * nat := (s_agent s, s_audit s, s_shutdowns s).

Lemma ruling_route r route s :
  route ∈ routes env opts responder auth_text -> (route.1, route.2 r) ∈ ruling r \/ ruled (route.2 r s).2 = ruled s.
Proof.
  intros Hin. assert (Forall (fun route => (route.1, route.2 r) ∈ ruling r \/ keeps ruled (route.2 r))
    (routes env opts responder auth_text)) as HF by (by apply others_keep).
  rewrite Forall_forall in HF. destruct (HF route Hin) as [H|H]; [by left|right; apply H].
Qed.

(** C6. While nobody else writes the files between the reads of the request
    (otherwise a file can be swapped in, [evil_swapped_in]): when a request changes the agent,
    it is an authorised POST to reload or roll back; what changes is the policy
    in force, which is then the content of a file in reach of the request that
    the configured key signed, and which passes the validation; the kernel
    blacklists follow it. *)
Theorem policy_change_signed (r : Request) (s : Srv) :
  steady (v_others env) -> s_agent (serve env opts responder auth_text r s).2 <> s_agent s ->
  (rq_Path r = "/v0/policy/reload" \/ rq_Path r = "/v0/policy/rollback")
  /\ rq_Method r = "POST"
  /\ (exists cred u, rq_Peer r = Some cred /\ u ∈ AllowedUIDs opts /\ uid cred = wrapu 32 u)
  /\ exists path, adopted s (serve env opts responder auth_text r s).2 path /\ in_reach r path
       /\ policy_ok (a_Policy (s_agent (serve env opts responder auth_text r s).2)).
Proof.
  intros Hst. apply (serve_cases (fun m => s_agent (m s).2 <> s_agent s -> _ /\ _ /\ _ /\
    exists path, adopted s (m s).2 path /\ in_reach r path /\ policy_ok (a_Policy (s_agent (m s).2)))); [by intros []|].
  intros [p h] Hin Er Hne. cbn [fst snd] in *.
  destruct (ruling_route r (p, h) s Hin) as [Hr|Hk]; [|exfalso; apply Hne; exact (f_equal (fun x => x.1.1) Hk)].
  unfold ruling in Hr. rewrite !elem_of_cons, elem_of_nil in Hr.
  cbn [fst snd] in Hr. subst p. assert (exists m, h r = requireAuthorized opts r (post_only r m) /\ adopts r m /\
    (rq_Path r = "/v0/policy/reload" \/ rq_Path r = "/v0/policy/rollback")) as (m & Em & Ha & Hpath).
  { destruct Hr as [ [= Ep ->] | [ [= Ep ->] | [ [= Ep E] | [] ] ] ].
    - eexists. split_and!; [reflexivity|by apply adopts_override|by left].
    - destruct (adopts_rollback Hst r) as (m & -> & Hm). exists m. split_and!; [done|done|by right].
    - exfalso. apply Hne. rewrite E. by apply keeps_handleShutdown. }
  rewrite Em in *. destruct (guard_ok _ _ _ Hne) as (Hauth & Hpost & E). rewrite E in *.
  split_and!; [done|done|by apply authorize_ok_iff|].
  destruct (Ha s) as [E'|(path & Had & Hw)]; [done|]. exists path. split_and!; [done|done|]. by eapply adopted_ok.
Qed.

(** ** Shutdown *)

Lemma serve_shutdown r :
  rq_Path r = "/v0/shutdown" -> serve env opts responder auth_text r = handleShutdown env opts auth_text r.
Proof. intros E. unfold serve. rewrite E. reflexivity. Qed.

Lemma auditShutdown_run c l d w (s : Srv) :
  exists s', auditShutdown env c l d w s = (tt, s') /\ s_agent s' = s_agent s /\ s_shutdowns s' = s_shutdowns s
  /\ (a_Logger (s_agent s) = true -> exists e, s_audit s' = s_audit s ++ [e] /\ en_Decision e = d).
Proof.
  unfold auditShutdown, sbind, gets. destruct (a_Logger (s_agent s)) eqn:E; cbn [negb]; eexists; split_and!; try reflexivity.
  - intros _. eexists. split; reflexivity.
  - discriminate.
Qed.

(** The second of the two looks at the login uid counts. *)
Definition may_shutdown (r : Request) (s : Srv) : Prop :=
  rq_Method r = "POST" /\ sp_ShutdownEnabled (p_SelfProtection (a_Policy (s_agent s))) = true /\ Shutdown opts = true
  /\ exists cred l, rq_Peer r = Some cred /\ uid cred = 0
    /\ readProcLoginUID (v_login env (io_tick (s_io s))) (pid cred) <> None
    /\ readProcLoginUID (v_login env (S (io_tick (s_io s)))) (pid cred) = Some l /\ (l = 0 \/ l = auditLoginUIDUnset).

(** Accepted and audited so, or refused and audited so. *)
Definition settled (ok : Prop) (s s' : Srv) : Prop := exists d,
  (ok /\ d = "allow" /\ s_shutdowns s' = S (s_shutdowns s) \/ ~ ok /\ d = "deny" /\ s_shutdowns s' = s_shutdowns s)
  /\ (a_Logger (s_agent s) = true -> exists e, s_audit s' = s_audit s ++ [e] /\ en_Decision e = d).

Lemma refused_settled (ok : Prop) (s s1 : Srv) c l w (a : answer) :
  ruled s1 = ruled s -> ~ ok -> settled ok s (sbind (auditShutdown env c l "deny" w) (fun _ => sret a) s1).2.
Proof.
  intros [= E1 E2 E3] Hno. unfold sbind.
  destruct (auditShutdown_run c l "deny" w s1) as (s' & -> & H1 & H2 & H3). unfold sret. cbn [snd].
  exists "deny". rewrite H2, E3, <- E1, <- E2. split; [by right|done].
Qed.

Lemma accepted_settled (ok : Prop) (s s1 : Srv) c l w (a : answer) :
  ruled s1 = ruled s -> ok ->
  settled ok s (sbind (auditShutdown env c l "allow" w) (fun _ => sbind request_shutdown (fun _ => sret a)) s1).2.
Proof.
  intros [= E1 E2 E3] Hok. unfold sbind.
  destruct (auditShutdown_run c l "allow" w s1) as (s' & -> & H1 & H2 & H3). unfold sret, request_shutdown.
  cbn [snd]. exists "allow". cbn [s_shutdowns s_audit]. rewrite H2, E3, <- E1, <- E2. split; [by left|done].
Qed.

Lemma handleShutdown_run r s :
  rq_Method r = "POST" -> settled (may_shutdown r s) s (handleShutdown env opts auth_text r s).2.
Proof.
  intros Hm. unfold handleShutdown, post_only. rewrite bool_decide_eq_true_2 by done. cbn [negb].
  unfold sbind at 1, ask at 1. set (n := io_tick (s_io s)). unfold bad, json_.
  destruct (shutdownCredential (v_login env n) (rq_Peer r)) as [[c l]|e] eqn:Ec.
  - unfold sbind at 1, gets at 1. cbn [set_io s_agent].
    destruct (sp_ShutdownEnabled (p_SelfProtection (a_Policy (s_agent s)))) eqn:Ep; cbn [negb].
    + unfold sbind at 1, ask at 1. cbn [set_io s_io io_tick].
      destruct (authorizeRootLogin (v_login env (S n)) (rq_Peer r)) as [[c' l']|e] eqn:Er.
      * apply authorizeRootLogin_ok_iff in Er. destruct (Shutdown opts) eqn:Eo; cbn [negb].
        -- apply accepted_settled; [done|]. split_and!; try done. exists c', l'. destruct Er as (H1 & H2 & H3 & H4).
           split_and!; try done. unfold shutdownCredential in Ec. rewrite H1 in Ec. by destruct (readProcLoginUID _ _).
        -- apply refused_settled; [done|]. intros (_ & _ & Ho & _). congruence.
      * apply refused_settled; [done|]. intros (_ & _ & _ & c' & l' & H1 & H2 & _ & H3 & H4).
        assert (authorizeRootLogin (v_login env (S n)) (rq_Peer r) = Ok (c', l')) as E; [|congruence].
        by apply authorizeRootLogin_ok_iff.
    + apply refused_settled; [done|]. intros (_ & Hp & _). congruence.
  - apply refused_settled; [done|]. intros (_ & _ & _ & c & l & H1 & _ & H2 & _).
    unfold shutdownCredential in Ec. rewrite H1 in Ec. by destruct (readProcLoginUID _ _).
Qed.

Lemma shutdowns_elsewhere r s : rq_Path r <> "/v0/shutdown" ->
  s_shutdowns (serve env opts responder auth_text r s).2 = s_shutdowns s.
Proof.
  intros Hp. apply (serve_cases (fun m => s_shutdowns (m s).2 = s_shutdowns s)); [done|].
  intros [p h] Hin Er. cbn [fst snd] in *. subst p.
  destruct (ruling_route r (rq_Path r, h) s Hin) as [Hr|Hk]; [|exact (f_equal snd Hk)].
  unfold ruling in Hr. rewrite !elem_of_cons, elem_of_nil in Hr. cbn [fst snd] in Hr.
  destruct Hr as [ [= Ep ->] | [ [= Ep ->] | [ [= Ep E] | [] ] ] ]; [| |done].
  - by apply keeps_handleReload.
  - by apply keeps_handleRollback.
Qed.

(** C7. The program is asked to end exactly by a POST to the shutdown path from
    a peer with user id 0 whose login uid is 0 or unset, while the policy in
    force enables it and a handler is configured; and when the agent has a log,
    every POST to that path leaves one entry, which says whether it was
    accepted. *)
Theorem shutdown_root_only (r : Request) (s : Srv) :
  let s' := (serve env opts responder auth_text r s).2 in
  (s_shutdowns s' <> s_shutdowns s <-> rq_Path r = "/v0/shutdown" /\ may_shutdown r s)
  /\ (rq_Path r = "/v0/shutdown" -> rq_Method r = "POST" -> a_Logger (s_agent s) = true ->
      exists e, s_audit s' = s_audit s ++ [e] /\ (en_Decision e = "allow" <-> s_shutdowns s' = S (s_shutdowns s))).
Proof.
  cbv zeta. destruct (decide (rq_Path r = "/v0/shutdown")) as [Hp|Hp].
  - rewrite serve_shutdown by done. destruct (decide (rq_Method r = "POST")) as [Hm|Hm].
    + destruct (handleShutdown_run r s Hm) as (d & [(Hok & -> & Hs)|(Hno & -> & Hs)] & Ha); rewrite Hs.
      * split; [split; [done|lia]|]. intros _ _ Hl. destruct (Ha Hl) as (e & He & Hd). by exists e.
      * split; [split; [done|tauto]|]. intros _ _ Hl. destruct (Ha Hl) as (e & He & Hd). exists e. split; [done|].
        rewrite Hd. split; [done|lia].
    + unfold handleShutdown, post_only. rewrite bool_decide_eq_false_2 by done. split; [|done].
      split; [done|]. intros (_ & Hm' & _). done.
  - split; [|done]. split; [|tauto]. intros []. by apply shutdowns_elsewhere.
Qed.

End Proofs.

(** ** Concrete requests *)

Module Sample.
#[local] Instance unicode : GoUnicode := {| uni_equalFold := String.eqb; uni_toLower := id |}.
#[local] Instance floats : FloatOps := Suppress.binary64.
#[local] Instance texts : FloatText := {| float_text _ := None |}.
#[local] Existing Instance checksum_digest.
#[local] Existing Instance Keys.Sample.toy.

Definition key : SigningKey := keyFromSeed Keys.Sample.seed.
Definition text_of (b : string) : list ascii :=
  jtext ("{'schema_version':'v0.5','self_protection':{'enabled':" +:+ b +:+ "}}").
Definition good : list ascii := text_of "true".
Definition evil : list ascii := text_of "false".

(** A policy directory with a signed policy. *)
Definition disk (b : list ascii) : Disk :=
  mkDisk (<["/p/policy.json" := b]> (<["/p/policy.json.sig" := bytes (hexEncode (ed_sign (Private key) good))]>
    {["/k.pub" := bytes (hexEncode (Public key))]})) (fun _ => false) (fun _ => false) false.

Definition opts : ServerOptions := mkServerOptions "" "/p/policy.json" "" "" [1000] [] "/k" None true false None.

Definition env_of (others : nat -> Disk -> Disk) : SEnv :=
  mkSEnv others PolicyStore.Sample.newest_first (fun _ _ => 0) (fun _ => "t") (fun _ => 0) (fun _ => ∅) [] (fun _ _ => Missing)
    (fun _ => true) (fun _ => ∅) (fun _ => zeroState) (fun _ => None) (fun _ _ => Some "0")
    (fun _ => mkSys (Ok ∅) (fun _ => NotSupported) (fun _ => None) (fun _ => None) (fun _ => None))
    (fun _ => mkShell false (fun _ _ => Ok "")) (fun _ => None) (fun _ => (false, (None, None, None)))
    (fun _ => None) (fun _ => None) None (fun _ => 0) (fun _ _ => Err "") (fun _ => []) (fun _ => []) (fun _ => [])
    (fun _ => "") (fun _ => 0).

Definition agent : Agent :=
  mkAgent (mkPolicy "v0.5" (mkProcessAccess "" [] [] "" "") (mkSelfProtection true "" "kill" true) []) None "" [] 2 ""
    (mkCounters 0 0 0 0 ∅ ∅) None None true.

Definition start (b : list ascii) : @Srv floats (libbpfLoader BpfMaps.Sample.table (option Z)) :=
  mkSrv agent None (mkIo (disk b) 0) (mkMachine ∅ ∅) [] [] [] 0.

Definition request (path : string) (u : Z) : Request := mkReq "POST" path [] [] (Some (mkCred u u 7)).

Definition run (others : nat -> Disk -> Disk) (r : Request) (b : list ascii) :=
  serve (env_of others) opts None (fun _ => "") r (start b).

Definition reload : Request := request "/v0/policy/reload" 1000.

Lemma unauthorized_refused_witness :
  exists status why, run PolicyStore.Sample.alone (request "/v0/policy/reload" 1001) good = (AErr status why, start good).
Proof.
  unfold run.
  refine (unauthorized_refused (env_of PolicyStore.Sample.alone) opts None (fun _ => "") (request "/v0/policy/reload" 1001)
    (start good) _ _).
  - discriminate.
  - intros cred u [= <-] [= ->]%list_elem_of_singleton. vm_compute. discriminate.
Defined.

Lemma policy_change_signed_witness :
  exists path, adopted opts (start good) (run PolicyStore.Sample.alone reload good).2 path.
Proof.
  edestruct (policy_change_signed (env_of PolicyStore.Sample.alone) opts None (fun _ => "") reload (start good))
    as (_ & _ & _ & path & H & _).
  - exact PolicyStore.Sample.alone_steady.
  - intros E. apply (f_equal (fun a => sp_EnforceMode (p_SelfProtection (a_Policy a)))) in E. vm_compute in E. discriminate E.
  - exists path. exact H.
Defined.

(** A changed policy is refused. *)
Example evil_refused :
  (run PolicyStore.Sample.alone reload evil).1 = AErr 403 (RSig SgMismatch)
  /\ a_Policy (s_agent (run PolicyStore.Sample.alone reload evil).2) = a_Policy agent.
Proof. split; vm_compute; reflexivity. Qed.

(** The policy is read once to be loaded and again to be checked: one that
    is put in place of the signed file for the first read is accepted. *)
Definition swap (n : nat) (d : Disk) : Disk :=
  with_content d (<["/p/policy.json" := if (n =? 2)%nat then evil else good]> (content d)).

Example evil_swapped_in :
  sp_Enabled (p_SelfProtection (a_Policy (s_agent (run swap reload good).2))) = false.
Proof. vm_compute. reflexivity. Qed.

(** An allowed user id other than 0 does not end the program;
    user id 0 does. *)
Example shutdown_runs :
  s_shutdowns (run PolicyStore.Sample.alone (request "/v0/shutdown" 1000) good).2 = 0%nat
  /\ s_shutdowns (run PolicyStore.Sample.alone (request "/v0/shutdown" 0) good).2 = 1%nat
  /\ length (s_audit (run PolicyStore.Sample.alone (request "/v0/shutdown" 0) good).2) = 1%nat.
Proof. vm_compute. auto. Qed.

End Sample.
