(* ===== verification/Fanotify.v ===== *)
(** * Synchronous file-access control ([internal/fanotify/fanotify.go], and
      [fanotifyHandler] and [fanotifyLogAdapter] of [cmd/edr-agent/main.go])

    The provider reads records from the kernel, asks its handler about each
    permission event, answers the kernel, logs and closes the descriptor.  What
    it does is a list of effects; what the outside answers carries the number
    of questions asked before.  A handler that panics gives [None]. *)

From S2P Require Import Prelude GoStrings GoTime Json GoJson EventLog BpfEvent Policy.

#[local] Open Scope string_scope.
#[local] Open Scope list_scope.
#[local] Open Scope Z_scope.

(** ** Flags *)

Definition FAN_CLASS_PRE_CONTENT : Z := 8.
Definition FAN_CLOEXEC : Z := 1.
Definition FAN_UNLIMITED_QUEUE : Z := 16.
Definition FAN_UNLIMITED_MARKS : Z := 32.
Definition FAN_OPEN_PERM : Z := 65536.
Definition FAN_ACCESS_PERM : Z := 131072.
Definition FAN_OPEN : Z := 32.
Definition FAN_CLOSE_WRITE : Z := 8.
Definition FAN_MODIFY : Z := 2.
Definition FAN_ALLOW : Z := 1.
Definition FAN_DENY : Z := 2.
Definition FAN_AUDIT : Z := 16.
Definition FAN_NOFD : Z := -1.

(** The flags [New] opens the group with. *)
Definition init_flags : Z :=
  Z.lor (Z.lor (Z.lor FAN_CLASS_PRE_CONTENT FAN_CLOEXEC) FAN_UNLIMITED_QUEUE) FAN_UNLIMITED_MARKS.

(** ** Data *)

Record fanotifyEventMetadata := mkMetadata {
  EventLen : Z; Vers : Z; Reserved_ : Z; MetadataLen : Z; Mask : Z; Fd : Z; Pid : Z;
}.

Record AccessInfo := mkInfo {
  ai_PID : Z; ai_UID : Z; ai_Comm : string; ai_Exe : string; ai_Cmdline : string; ai_Path : string; ai_Mask : Z;
}.

(** [fanotify.Event] *)
Record FanEvent := mkFanEvent {
  fe_EventID : string; fe_Category : string; fe_Severity : string; fe_Subject : list (string * gval);
  fe_Object : list (string * gval); fe_Action : string; fe_Decision : string; fe_RuleID : string;
}.

(** [fanotifyLogAdapter.Write]: the event handed to the event log. *)
Definition adapt (hostname : string) (ev : FanEvent) : EventLog.Event :=
  EventLog.mkEvent "" "" "" 0 "" "" "" timeZero ev.(fe_EventID) hostname ev.(fe_Category) ev.(fe_Severity)
    ev.(fe_Subject) ev.(fe_Object) ev.(fe_Action) ev.(fe_Decision) ev.(fe_RuleID) [].

(** The eight bytes of an answer. *)
Definition response_bytes (fd response : Z) : list ascii := le_put 4 (wrapu 32 fd) ++ le_put 4 response.

Inductive fan_effect :=
| FAsked (info : AccessInfo) (verdict : option (bool * string))
| FAnswered (fd response : Z) (accepted : bool)
| FLogged (ev : FanEvent)
| FClosed (fd : Z)
| FMarked (path : string) (ok : bool).

Record fan := mkFan { f_tick : nat; f_done : list fan_effect }.

Record FanEnv := mkFanEnv {
  fv_readlink : nat -> string -> option string;
  fv_readfile : nat -> string -> option string;
  fv_handler : nat -> AccessInfo -> option (bool * string);
  fv_write : nat -> list ascii -> bool;          (** the kernel accepts an answer *)
  fv_mark : nat -> string -> bool;               (** the kernel accepts a mark *)
}.

Section Provider.
Variable env : FanEnv.

Definition F (A : Type) : Type := fan -> A * fan.
Definition fret {A} (x : A) : F A := fun s => (x, s).
Definition fbind {A B} (m : F A) (k : A -> F B) : F B := fun s => let '(x, s) := m s in k x s.
#[local] Notation "x <~ m ; k" := (fbind m (fun x => k)) (at level 100, m at next level, right associativity).
#[local] Notation "m >>> k" := (fbind m (fun _ => k)) (at level 100, k at level 200, right associativity).

Definition ask {A} (f : nat -> A) : F A := fun s => (f s.(f_tick), mkFan (S s.(f_tick)) s.(f_done)).
Definition emit (e : fan_effect) : F () := fun s => (tt, mkFan s.(f_tick) (s.(f_done) ++ [e])).

(** ** What the processes tell *)

Definition proc_file (pid : Z) (file : string) : string := "/proc/" +:+ itoa pid +:+ "/" +:+ file.

Definition resolvePath (fd : Z) : F string :=
  if fd <? 0 then fret ""
  else l <~ ask (fun n => env.(fv_readlink) n ("/proc/self/fd/" +:+ itoa fd)); fret (default "" l).

Definition readProcString (pid : Z) (file : string) : F string :=
  d <~ ask (fun n => env.(fv_readfile) n (proc_file pid file));
  fret match d with Some d => trimSpace d | None => "" end.

Definition readProcLink (pid : Z) (file : string) : F string :=
  l <~ ask (fun n => env.(fv_readlink) n (proc_file pid file)); fret (default "" l).

(** The real uid of the first line with the prefix. *)
Definition uid_of_status (status : string) : Z :=
  match List.find (fun line => hasPrefix line "Uid:") (split (byte 10) status) with
  | None => 0
  | Some line =>
      match fields line with
      | _ :: f :: _ => match parseUint 10 32 f with (u, None) => u | _ => 0 end
      | _ => 0
      end
  end.

Definition readProcUID (pid : Z) : F Z :=
  d <~ ask (fun n => env.(fv_readfile) n (proc_file pid "status"));
  fret match d with Some d => uid_of_status d | None => 0 end.

Definition is_nul (a : ascii) : bool := code a =? 0.

Definition readProcCmdline (pid : Z) : F string :=
  d <~ ask (fun n => env.(fv_readfile) n (proc_file pid "cmdline"));
  fret match d with Some d => replaceByte (byte 0) (byte 32) (trimRight is_nul d) | None => "" end.

Definition resolveAccessInfo (meta : fanotifyEventMetadata) (path : string) : F AccessInfo :=
  uid <~ readProcUID meta.(Pid); comm <~ readProcString meta.(Pid) "comm"; exe <~ readProcLink meta.(Pid) "exe";
  cmdline <~ readProcCmdline meta.(Pid);
  fret (mkInfo meta.(Pid) uid comm exe cmdline path meta.(Mask)).

(** ** One event *)

(** What a panic defaults to. *)
Definition settle (verdict : option (bool * string)) : bool * string := default (true, "") verdict.

Definition safeHandleFileAccess (info : AccessInfo) : F (bool * string) :=
  verdict <~ ask (fun n => env.(fv_handler) n info); emit (FAsked info verdict) >>> fret (settle verdict).

Definition writeResponse (fd response : Z) : F () :=
  ok <~ ask (fun n => env.(fv_write) n (response_bytes fd response)); emit (FAnswered fd response ok).

Definition emitAudit (meta : fanotifyEventMetadata) (path : string) (allowed : bool) (ruleID : string) : F () :=
  comm <~ readProcString meta.(Pid) "comm"; exe <~ readProcLink meta.(Pid) "exe"; cmdline <~ readProcCmdline meta.(Pid);
  emit (FLogged (mkFanEvent ("fanotify-" +:+ itoa meta.(Pid) +:+ "-" +:+ itoa meta.(Mask)) "file"
    (if allowed then "low" else "high")
    [("pid", GInt meta.(Pid)); ("comm", GStr comm); ("exe", GStr exe); ("cmdline", GStr cmdline)]
    [("path", GStr path); ("mask", GInt meta.(Mask))] "fanotify_deny" (if allowed then "allow" else "block") ruleID)).

Definition emitInfo (meta : fanotifyEventMetadata) (path : string) : F () :=
  comm <~ readProcString meta.(Pid) "comm";
  emit (FLogged (mkFanEvent ("fanotify-info-" +:+ itoa meta.(Pid) +:+ "-" +:+ itoa meta.(Mask)) "file" "low"
    [("pid", GInt meta.(Pid)); ("comm", GStr comm)] [("path", GStr path); ("mask", GInt meta.(Mask))]
    "observe" "alert" "file-watch")).

Definition isPerm (mask : Z) : bool := negb (Z.land mask (Z.lor FAN_OPEN_PERM FAN_ACCESS_PERM) =? 0).
Definition isInfo (mask : Z) : bool := negb (Z.land mask (Z.lor (Z.lor FAN_OPEN FAN_CLOSE_WRITE) FAN_MODIFY) =? 0).

Definition answer_for (allow : bool) : Z := if allow then FAN_ALLOW else Z.lor FAN_DENY FAN_AUDIT.

Definition handleEvent (meta : fanotifyEventMetadata) : F () :=
  path <~ resolvePath meta.(Fd);
  (if isPerm meta.(Mask) then
     info <~ resolveAccessInfo meta path;
     v <~ safeHandleFileAccess info;
     writeResponse meta.(Fd) (answer_for v.1) >>>
     emitAudit meta path v.1 v.2
   else if isInfo meta.(Mask) then emitInfo meta path
   else fret tt) >>>
  (if meta.(Fd) =? FAN_NOFD then fret tt else emit (FClosed meta.(Fd))).

(** ** A buffer of events *)

Definition metadataSize : nat := 24.

Definition decode_meta (raw : list ascii) : fanotifyEventMetadata :=
  mkMetadata (uint 0 4 raw) (uint 4 1 raw) (uint 5 1 raw) (uint 6 2 raw) (uint 8 8 raw)
    (wraps 32 (uint 16 4 raw)) (wraps 32 (uint 20 4 raw)).

Definition stops (raw : list ascii) : bool :=
  (length raw <? metadataSize)%nat
  || ((decode_meta raw).(EventLen) <? 24) || (Z.of_nat (length raw) <? (decode_meta raw).(EventLen)).

Fixpoint process_loop (fuel : nat) (raw : list ascii) : F () :=
  match fuel with
  | O => fret tt
  | S fuel =>
      if stops raw then fret tt
      else
        let meta := decode_meta raw in
        handleEvent meta >>> process_loop fuel (drop (Z.to_nat meta.(EventLen)) raw)
  end.

(** A record takes at least one byte. *)
Definition process (raw : list ascii) : F () := process_loop (length raw) raw.



(** ** Marks *)

(** A directory entry; [None] is not a directory, an unreadable directory has
    no entries.  The entries are in the order of their names. *)
Inductive entry := Entry (name : string) (sub : option (list entry)).

Definition markOne (path : string) : F bool :=
  if bool_decide (byte 0 ∈ bytes path) then fret false
  else ok <~ ask (fun n => env.(fv_mark) n path); emit (FMarked path ok) >>> fret ok.

Definition count_slash (s : string) : Z := Z.of_nat (length (List.filter (fun a => a == "/"%char) (bytes s))).
Definition depth_of (root path : string) : Z := if root == path then 0 else count_slash (trimPrefix path root).

(** [filepath.Join] of a clean path and a name. *)
Definition child (path name : string) : string :=
  if path == "/" then "/" +:+ name else if path == "." then name else path +:+ "/" +:+ name.

Definition maxDepth : Z := 16.
Definition maxMarks : Z := 4096.

Definition name_of (e : entry) : string := let 'Entry name _ := e in name.

(** The entries of a directory, until the walk is ended. *)
Definition walk_all (visit : string -> entry -> Z -> F (Z * bool)) (path : string) : list entry -> Z -> F (Z * bool) :=
  fix go (l : list entry) (marked : Z) : F (Z * bool) :=
    match l with
    | [] => fret (marked, false)
    | c :: l =>
        r <~ visit (child path (name_of c)) c marked;
        if r.2 then fret (r.1, true) else go l r.1
    end.

(** [filepath.WalkDir] with the callback of [mark]: the number of marks, and
    whether the walk was ended. *)
Fixpoint walk (root path : string) (e : entry) (marked : Z) {struct e} : F (Z * bool) :=
  match e with
  | Entry _ None => fret (marked, false)
  | Entry _ (Some subs) =>
      if maxDepth <? depth_of root path then fret (marked, false)
      else
        ok <~ markOne path;
        let marked := if ok : bool then marked + 1 else marked in
        if ok && (maxMarks <=? marked) then fret (marked, true)
        else walk_all (walk root) path subs marked
  end.

(** [root] is clean; [tree] is what it names, [None] when it cannot be looked
    at. *)
Definition mark (root : string) (tree : option entry) : F bool :=
  r <~ match tree with Some e => walk root root e 0 | None => fret (0, false) end;
  if r.1 =? 0 then markOne root else fret true.

(** Marks every path, or closes the group at the first that fails. *)
Fixpoint New (fd : Z) (paths : list (string * option entry)) : F bool :=
  match paths with
  | [] => fret true
  | (root, tree) :: paths =>
      ok <~ mark root tree;
      if ok : bool then New fd paths else emit (FClosed fd) >>> fret false
  end.

End Provider.

(** ** The handler of the agent *)

Definition HandleFileAccess `{GoUnicode} (pol : Policy) (now : Clock) (info : AccessInfo) : bool * string :=
  let subj := mkSubject info.(ai_Comm) info.(ai_Exe) info.(ai_Cmdline) (itoa info.(ai_UID)) "" "" false "" "" "" in
  let obj := mkObject info.(ai_Path) "open" "" 0 "" "" 0 in
  match (AggregatedDecision (EvaluateAll pol now subj obj)).1 with
  | Some r => if r.(r_Decision) == "block" then (false, r.(r_ID)) else (true, "")
  | None => (true, "")
  end.

(** ** Events are answered *)

Create HintDb quiet.

Section Answers.
Variable env : FanEnv.

(** Adds no effect. *)
Definition quiet {A} (m : F A) : Prop := forall s, exists x n, m s = (x, mkFan n (f_done s)).

Lemma quiet_ret {A} (x : A) : quiet (fret x).
Proof. intros [n d]. by exists x, n. Qed.
Lemma quiet_ask {A} (f : nat -> A) : quiet (ask f).
Proof. intros s. by eexists _, _. Qed.
Lemma quiet_bind {A B} (m : F A) (k : A -> F B) : quiet m -> (forall x, quiet (k x)) -> quiet (fbind m k).
Proof.
  intros Hm Hk s. unfold fbind. destruct (Hm s) as (x & n & ->). destruct (Hk x (mkFan n (f_done s))) as (y & k' & ->).
  by exists y, k'.
Qed.

#[local] Hint Resolve quiet_ret quiet_ask quiet_bind : quiet.

Lemma quiet_reads pid file fd :
  quiet (readProcString env pid file) /\ quiet (readProcLink env pid file) /\ quiet (readProcUID env pid)
  /\ quiet (readProcCmdline env pid) /\ quiet (resolvePath env fd).
Proof.
  unfold readProcString, readProcLink, readProcUID, readProcCmdline, resolvePath. split_and!; auto with quiet.
  destruct (fd <? 0); auto with quiet.
Qed.

Lemma quiet_string pid file : quiet (readProcString env pid file).
Proof. apply (quiet_reads pid file 0). Qed.
Lemma quiet_link pid file : quiet (readProcLink env pid file).
Proof. apply (quiet_reads pid file 0). Qed.
Lemma quiet_uid pid : quiet (readProcUID env pid).
Proof. apply (quiet_reads pid "" 0). Qed.
Lemma quiet_cmdline pid : quiet (readProcCmdline env pid).
Proof. apply (quiet_reads pid "" 0). Qed.
Lemma quiet_path fd : quiet (resolvePath env fd).
Proof. apply (quiet_reads 0 "" fd). Qed.

#[local] Hint Resolve quiet_string quiet_link quiet_uid quiet_cmdline quiet_path : quiet.

(** Adds effects with the property. *)
Definition adds {A} (m : F A) (P : list fan_effect -> Prop) : Prop := forall s, exists es,
  f_done (m s).2 = f_done s ++ es /\ P es.

Lemma adds_quiet {A B} (m : F A) (k : A -> F B) P : quiet m -> (forall x, adds (k x) P) -> adds (fbind m k) P.
Proof.
  intros Hm Hk s. unfold fbind. destruct (Hm s) as (x & n & ->).
  destruct (Hk x (mkFan n (f_done s))) as (es & E & H). by exists es.
Qed.

Lemma adds_bind {A B} (m : F A) (k : A -> F B) (P Q : list fan_effect -> Prop) :
  adds m P -> (forall x, adds (k x) Q) -> adds (fbind m k) (fun es => exists es1 es2, es = es1 ++ es2 /\ P es1 /\ Q es2).
Proof.
  intros Hm Hk s. unfold fbind. destruct (Hm s) as (es1 & E1 & H1). destruct (m s) as [x s1]. cbn [snd] in *.
  destruct (Hk x s1) as (es2 & E2 & H2). exists (es1 ++ es2). rewrite E2, E1, app_assoc. split; [done|]. by exists es1, es2.
Qed.

Lemma adds_weaken {A} (m : F A) (P Q : list fan_effect -> Prop) : adds m P -> (forall es, P es -> Q es) -> adds m Q.
Proof. intros Hm H s. destruct (Hm s) as (es & E & Hp). exists es. auto. Qed.

Lemma adds_emit e : adds (emit e) (fun es => es = [e]).
Proof. intros s. by exists [e]. Qed.

Lemma adds_ret {A} (x : A) : adds (fret x) (fun es => es = []).
Proof. intros s. exists []. by rewrite app_nil_r. Qed.

(** What handling an event does. *)
Definition closing (fd : Z) : list fan_effect := if fd =? FAN_NOFD then [] else [FClosed fd].

Definition handled (meta : fanotifyEventMetadata) (es : list fan_effect) : Prop :=
  if isPerm meta.(Mask) then
    exists n info verdict accepted ev,
      es = [FAsked info verdict; FAnswered meta.(Fd) (answer_for (settle verdict).1) accepted; FLogged ev]
           ++ closing meta.(Fd)
      /\ verdict = env.(fv_handler) n info /\ ai_PID info = meta.(Pid) /\ ai_Mask info = meta.(Mask)
      /\ accepted = env.(fv_write) (S n) (response_bytes meta.(Fd) (answer_for (settle verdict).1))
      /\ fe_Decision ev = (if (settle verdict).1 then "allow" else "block") /\ fe_RuleID ev = (settle verdict).2
  else exists evs, es = map FLogged evs ++ closing meta.(Fd) /\ (length evs <= 1)%nat.

Lemma adds_closing fd : adds (if fd =? FAN_NOFD then fret tt else emit (FClosed fd)) (fun es => es = closing fd).
Proof. unfold closing. destruct (fd =? FAN_NOFD); [apply adds_ret|apply adds_emit]. Qed.

Lemma adds_audit meta path allowed rule :
  adds (emitAudit env meta path allowed rule)
    (fun es => exists ev, es = [FLogged ev] /\ fe_Decision ev = (if allowed then "allow" else "block") /\ fe_RuleID ev = rule).
Proof.
  unfold emitAudit. repeat (apply adds_quiet; [auto with quiet|intros ?]).
  eapply adds_weaken; [apply adds_emit|]. intros es ->. by eexists.
Qed.

Lemma adds_info meta path : adds (emitInfo env meta path) (fun es => exists ev, es = [FLogged ev]).
Proof.
  unfold emitInfo. apply adds_quiet; [auto with quiet|intros ?].
  eapply adds_weaken; [apply adds_emit|]. intros es ->. by eexists.
Qed.

Lemma quiet_info meta path s :
  exists info n, resolveAccessInfo env meta path s = (info, mkFan n (f_done s))
    /\ ai_PID info = meta.(Pid) /\ ai_Mask info = meta.(Mask).
Proof.
  unfold resolveAccessInfo, fbind. destruct (quiet_uid (Pid meta) s) as (u & n1 & ->).
  destruct (quiet_string (Pid meta) "comm" (mkFan n1 (f_done s))) as (c & n2 & ->). cbn [f_done].
  destruct (quiet_link (Pid meta) "exe" (mkFan n2 (f_done s))) as (x & n3 & ->). cbn [f_done].
  destruct (quiet_cmdline (Pid meta) (mkFan n3 (f_done s))) as (l & n4 & ->). by eexists _, n4.
Qed.

Lemma handleEvent_handled meta : adds (handleEvent env meta) (handled meta).
Proof.
  unfold handleEvent, handled. apply adds_quiet; [auto with quiet|]. intros path.
  destruct (isPerm (Mask meta)).
  - intros s. unfold fbind at 1. unfold fbind at 1. destruct (quiet_info meta path s) as (info & n & -> & Hp & Hm).
    unfold safeHandleFileAccess, writeResponse, fbind, ask, emit, fret. cbn [f_tick f_done].
    set (v := fv_handler env n info). set (a := settle v).
    match goal with |- context [emitAudit env meta path a.1 a.2 ?s1] =>
      destruct (adds_audit meta path a.1 a.2 s1) as (es & E & ev & -> & Hd & Hr);
      destruct (emitAudit env meta path a.1 a.2 s1) as [u s2] end.
    cbn [f_done snd] in E. destruct (adds_closing (Fd meta) s2) as (es2 & E2 & ->). unfold fret, emit in E2.
    eexists. rewrite E2, E. rewrite <- !app_assoc. split; [reflexivity|]. exists n, info, v. do 2 eexists.
    split_and!; done.
  - destruct (isInfo (Mask meta)).
    + eapply adds_weaken; [eapply adds_bind; [apply adds_info|intros _; apply adds_closing]|].
      intros es (es1 & es2 & -> & [ev ->] & ->). exists [ev]. simpl. split; [done|lia].
    + eapply adds_weaken; [eapply adds_bind; [apply adds_ret|intros _; apply adds_closing]|].
      intros es (es1 & es2 & -> & -> & ->). exists []. simpl. split; [done|lia].
Qed.

(** ** The buffer *)

Fixpoint handle_all (l : list fanotifyEventMetadata) : F () :=
  match l with [] => fret tt | m :: l => fbind (handleEvent env m) (fun _ => handle_all l) end.

Lemma handle_all_adds l : adds (handle_all l) (fun es => exists ess, es = concat ess /\ Forall2 handled l ess).
Proof.
  induction l as [|m l IH]; simpl.
  - eapply adds_weaken; [apply adds_ret|]. intros es ->. by exists [].
  - eapply adds_weaken; [eapply adds_bind; [apply handleEvent_handled|intros _; apply IH]|].
    intros es (es1 & es2 & -> & H1 & ess & -> & H2). exists (es1 :: ess). split; [done|by constructor].
Qed.

(** A record of the buffer: its header tells its length. *)
Definition record (r : list ascii) : Prop :=
  (metadataSize <= length r)%nat /\ (decode_meta r).(EventLen) = Z.of_nat (length r).

Lemma field_app off n (r t : list ascii) : (off + n <= length r)%nat -> field off n (r ++ t) = field off n r.
Proof. intros H. unfold field. rewrite drop_app_le, take_app_le; [done|rewrite length_drop; lia|lia]. Qed.

Lemma decode_meta_app r t : (metadataSize <= length r)%nat -> decode_meta (r ++ t) = decode_meta r.
Proof.
  unfold metadataSize. intros H. unfold decode_meta, uint. rewrite !field_app by lia. reflexivity.
Qed.

Lemma stops_record r t : record r -> stops (r ++ t) = false.
Proof.
  intros [Hl He]. unfold stops. rewrite (decode_meta_app r t Hl), He, length_app. unfold metadataSize in *.
  apply orb_false_iff. split; [apply orb_false_iff; split|]; [apply Nat.ltb_ge|apply Z.ltb_ge|apply Z.ltb_ge]; lia.
Qed.

Lemma process_loop_records recs tail fuel s :
  Forall record recs -> stops tail = true -> (length (concat recs ++ tail) <= fuel)%nat ->
  process_loop env fuel (concat recs ++ tail) s = handle_all (map decode_meta recs) s.
Proof.
  intros Hr Ht. revert fuel s. induction Hr as [|r recs [Hl He] Hr IH]; intros fuel s Hf.
  - simpl. destruct fuel; simpl; [done|]. by rewrite Ht.
  - cbn [concat map] in *. rewrite <- app_assoc in *. unfold metadataSize in Hl. rewrite length_app in Hf.
    destruct fuel as [|fuel]; [lia|]. cbn [process_loop]. rewrite stops_record by done.
    rewrite decode_meta_app by (unfold metadataSize; lia). rewrite He, Nat2Z.id, drop_app_length.
    cbn [handle_all]. unfold fbind. destruct (handleEvent env (decode_meta r) s) as [u s1]. apply IH. lia.
Qed.

Lemma records_exist n raw : (length raw <= n)%nat ->
  exists recs tail, raw = concat recs ++ tail /\ stops tail = true /\ Forall record recs.
Proof.
  revert raw. induction n as [|n IH]; intros raw Hn.
  - exists [], raw. destruct raw; [done|simpl in Hn; lia].
  - destruct (stops raw) eqn:Hs; [by exists [], raw|].
    unfold stops in Hs. apply orb_false_iff in Hs as [[H1 H2]%orb_false_iff H3].
    apply Nat.ltb_ge in H1. apply Z.ltb_ge in H2, H3. set (k := Z.to_nat (EventLen (decode_meta raw))) in *.
    destruct (IH (drop k raw)) as (recs & tail & E & Ht & Hr); [rewrite length_drop; lia|].
    assert (length (take k raw) = k) as Hk by (rewrite length_take; lia).
    exists (take k raw :: recs), tail. split_and!; [by rewrite <- (take_drop k raw) at 1; simpl; rewrite E, app_assoc|done|].
    constructor; [|done]. unfold record. rewrite Hk. unfold metadataSize. split; [lia|].
    rewrite <- (decode_meta_app (take k raw) (drop k raw)), take_drop by (unfold metadataSize; lia). lia.
Qed.

Lemma process_records raw : exists recs tail,
  raw = concat recs ++ tail /\ stops tail = true /\ Forall record recs
  /\ forall fuel s, (length raw <= fuel)%nat -> process_loop env fuel raw s = handle_all (map decode_meta recs) s.
Proof.
  destruct (records_exist (length raw) raw) as (recs & tail & -> & Ht & Hr); [done|].
  exists recs, tail. split_and!; try done. intros fuel s Hf. by apply process_loop_records.
Qed.

End Answers.





(** ** Denials and the kernel *)

(** [FAN_ENABLE_AUDIT] *)
Definition audit_enabled (flags : Z) : bool := Z.testbit flags 6.
Definition asks_audit (response : Z) : bool := Z.testbit response 4.

(** The kernel refuses an answer that asks for an audit record from a group
    that was not opened with [FAN_ENABLE_AUDIT] (fanotify_init(2)). *)
Definition audit_needs_flag (env : FanEnv) : Prop :=
  forall n fd response, 0 <= response < 2 ^ 32 -> asks_audit response = true -> audit_enabled init_flags = false ->
    env.(fv_write) n (response_bytes fd response) = false.

(** No effect is a denial the kernel took. *)
Definition not_denied (e : fan_effect) : Prop :=
  match e with FAnswered _ r true => r = FAN_ALLOW | _ => True end.

(** C14. On such a kernel no denial is ever delivered: every answer the kernel
    takes allows the access, whatever the handler says. *)
Theorem denial_never_delivered (env : FanEnv) (raw : list ascii) (s : fan) :
  audit_needs_flag env ->
  exists es, f_done (process env raw s).2 = f_done s ++ es /\ Forall not_denied es.
Proof.
  intros Hk. destruct (process_records env raw) as (recs & _ & _ & _ & _ & Hp).
  destruct (handle_all_adds env (map decode_meta recs) s) as (es & E & ess & -> & H).
  exists (concat ess). split; [unfold process; by rewrite Hp|]. apply Forall_concat.
  eapply Forall2_Forall_r; [exact H|]. apply Forall_forall. intros meta _ es. unfold handled.
  assert (Forall not_denied (closing (Fd meta))) as Hc.
  { unfold closing. destruct (Fd meta =? FAN_NOFD); by repeat constructor. }
  destruct (isPerm (Mask meta)).
  - intros (n & info & v & ok & ev & -> & _ & _ & _ & -> & _). apply Forall_app. split; [|done].
    repeat constructor. simpl. destruct (fv_write _ _ _) eqn:Ew; [|done]. destruct (settle v).1; [done|].
    by rewrite Hk in Ew.
  - intros (evs & -> & _). apply Forall_app. split; [|done]. apply Forall_forall.
    intros e (ev & -> & _)%list_elem_of_fmap. done.
Qed.

(** ** The marks *)

Section Marks.
Variable env : FanEnv.

Section EntryInd.
Variable P : entry -> Prop.
Hypothesis P_file : forall name, P (Entry name None).
Hypothesis P_dir : forall name subs, Forall P subs -> P (Entry name (Some subs)).

Fixpoint entry_rec' (e : entry) : P e :=
  match e with
  | Entry name None => P_file name
  | Entry name (Some subs) =>
      P_dir name subs ((fix all (l : list entry) : Forall P l :=
        match l with [] => Forall_nil_2 P | c :: l => Forall_cons_2 P c l (entry_rec' c) (all l) end) subs)
  end.
End EntryInd.

(** The directories of the tree within the depth, in the order of the walk. *)
Fixpoint dirs (root path : string) (e : entry) {struct e} : list string :=
  match e with
  | Entry _ None => []
  | Entry _ (Some subs) =>
      if maxDepth <? depth_of root path then []
      else path :: flat_map (fun c => dirs root (child path (name_of c)) c) subs
  end.

Lemma dirs_depth root e path : Forall (fun p => depth_of root p <= maxDepth) (dirs root path e).
Proof.
  revert path. induction e as [name|name subs IH] using entry_rec'; intros path; cbn [dirs]; [constructor|].
  destruct (maxDepth <? depth_of root path) eqn:E; [constructor|]. apply Z.ltb_ge in E. constructor; [done|].
  induction IH as [|c subs Hc _ IHl]; cbn [flat_map]; [constructor|]. apply Forall_app. split; [apply Hc|exact IHl].
Qed.

(** The marks the kernel took. *)
Definition taken (es : list fan_effect) : list string :=
  omap (fun e => match e with FMarked p true => Some p | _ => None end) es.

(** Every mark is taken. *)
Definition takes_all : Prop := forall n p, env.(fv_mark) n p = true.
Definition no_nul_path (p : string) : Prop := byte 0 ∉ bytes p.

(** From [k] marks on, a walk over [ds] that ends with [r] in [s']. *)
Definition walked (ds : list string) (k : Z) (s : fan) (r : Z * bool) (s' : fan) : Prop :=
  exists es, f_done s' = f_done s ++ es /\ r.1 = k + Z.of_nat (length (taken es)) /\ taken es `sublist_of` ds
    /\ r.1 <= maxMarks /\ r.2 = (maxMarks <=? r.1)
    /\ (takes_all -> Forall no_nul_path ds -> taken es = take (Z.to_nat (maxMarks - k)) ds).

Lemma walked_nil k s : k < maxMarks -> walked [] k s (k, false) s.
Proof.
  intros Hk. exists []. rewrite app_nil_r. simpl. split_and!; try done; try lia.
  intros _ _. by rewrite take_nil.
Qed.

Lemma walked_app ds1 ds2 k s r1 s1 r2 s2 :
  walked ds1 k s r1 s1 -> r1.2 = false -> walked ds2 r1.1 s1 r2 s2 -> walked (ds1 ++ ds2) k s r2 s2.
Proof.
  intros (es1 & E1 & N1 & S1 & B1 & T1 & A1) Hr (es2 & E2 & N2 & S2 & B2 & T2 & A2).
  exists (es1 ++ es2). unfold taken in *. rewrite omap_app, length_app. split_and!; try done.
  - by rewrite E2, E1, app_assoc.
  - lia.
  - by apply sublist_app.
  - intros Ht [H1 H2]%Forall_app. rewrite A1, A2 by done. rewrite T1 in Hr. apply Z.leb_gt in Hr.
    rewrite (A1 Ht H1) in N1. rewrite length_take in N1.
    rewrite take_app. rewrite (take_ge ds1) by lia. f_equal. f_equal. lia.
Qed.

Lemma walked_stop ds1 ds2 k s r1 s1 : walked ds1 k s r1 s1 -> r1.2 = true -> walked (ds1 ++ ds2) k s r1 s1.
Proof.
  intros (es1 & E1 & N1 & S1 & B1 & T1 & A1) Hr. exists es1. split_and!; try done.
  - by apply sublist_inserts_r.
  - intros Ht [H1 H2]%Forall_app. rewrite (A1 Ht H1). rewrite T1 in Hr. apply Z.leb_le in Hr.
    rewrite (A1 Ht H1) in N1. rewrite length_take in N1. rewrite take_app_le by lia. done.
Qed.

Lemma markOne_walked path k s : k < maxMarks ->
  exists ok s1, markOne env path s = (ok, s1)
    /\ walked [path] k s (if ok : bool then k + 1 else k, maxMarks <=? (if ok then k + 1 else k)) s1.
Proof.
  intros Hk. unfold markOne. case_bool_decide as Hn.
  - exists false, s. split; [done|]. exists []. rewrite app_nil_r. simpl. split_and!; try done; try lia.
    + by apply sublist_nil_l.
    + by intros _ [H _]%Forall_cons.
  - unfold fbind, ask, emit, fret. cbn [f_tick f_done]. set (ok := fv_mark env (f_tick s) path).
    eexists ok, _. split; [reflexivity|]. exists [FMarked path ok]. cbn [f_done]. destruct ok eqn:E; simpl.
    + split_and!; try done; try lia. intros _ _. destruct (Z.to_nat (maxMarks - k)) eqn:En; [lia|simpl; by rewrite take_nil].
    + split_and!; try done; try lia; [by apply sublist_nil_l|]. intros Ht _. pose proof (Ht (f_tick s) path : ok = true) as Ht1. congruence.
Qed.

Lemma walk_walked root e path k s : k < maxMarks ->
  exists r s', walk env root path e k s = (r, s') /\ walked (dirs root path e) k s r s'.
Proof.
  revert path k s. induction e as [name|name subs IH] using entry_rec'; intros path k s Hk.
  { eexists _, s. split; [done|]. by apply walked_nil. }
  cbn [walk dirs]. destruct (maxDepth <? depth_of root path); [eexists _, s; split; [done|by apply walked_nil]|].
  unfold fbind. destruct (markOne_walked path k s Hk) as (ok & s1 & -> & H1). cbv zeta.
  set (k1 := if ok then k + 1 else k) in *.
  destruct (ok && (maxMarks <=? k1)) eqn:Estop.
  - apply andb_true_iff in Estop as [-> Estop]. rewrite Estop in H1. eexists _, s1. split; [reflexivity|].
    exact (walked_stop [path] _ _ _ _ _ H1 eq_refl).
  - assert (k1 < maxMarks) as Hk1 by (subst k1; destruct ok; [by apply Z.leb_gt in Estop|lia]).
    assert ((maxMarks <=? k1) = false) as Eb by (by apply Z.leb_gt). rewrite Eb in H1.
    enough (exists r s', walk_all (walk env root) path subs k1 s1 = (r, s')
      /\ walked (flat_map (fun c => dirs root (child path (name_of c)) c) subs) k1 s1 r s') as (r & s' & E & H2).
    { exists r, s'. split; [exact E|]. exact (walked_app [path] _ _ _ (k1, false) _ _ _ H1 eq_refl H2). }
    clear H1 Estop Eb. clearbody k1. revert k1 s1 Hk1. induction IH as [|c subs Hc _ IHl]; intros k1 s1 Hk1; cbn [walk_all flat_map].
    { eexists _, s1. split; [done|]. by apply walked_nil. }
    unfold fbind. destruct (Hc (child path (name_of c)) k1 s1 Hk1) as ([k2 stop] & s2 & -> & H2). cbn [fst snd].
    destruct stop.
    + eexists _, s2. split; [reflexivity|]. exact (walked_stop _ _ _ _ _ _ H2 eq_refl).
    + assert (k2 < maxMarks) as Hk2 by (destruct H2 as (? & _ & _ & _ & _ & Hs & _); by apply Z.leb_gt).
      destruct (IHl k2 s2 Hk2) as (r & s' & E & H3). exists r, s'. split; [exact E|].
      exact (walked_app _ _ _ _ (k2, false) _ _ _ H2 eq_refl H3).
Qed.

End Marks.

(** A walk marks at most 4096 directories, each at most 16 levels below
    its root and each once, in the order of the walk; and when the kernel takes
    every mark they are the first 4096 directories of the tree within that
    depth. *)
Theorem marks_bounded (env : FanEnv) (root : string) (e : entry) (s : fan) :
  exists r s' es, walk env root root e 0 s = (r, s') /\ f_done s' = f_done s ++ es
    /\ taken es `sublist_of` dirs root root e /\ (length (taken es) <= 4096)%nat
    /\ Forall (fun p => depth_of root p <= maxDepth) (taken es)
    /\ (takes_all env -> Forall no_nul_path (dirs root root e) -> taken es = take 4096 (dirs root root e)).
Proof.
  destruct (walk_walked env root e root 0 s) as (r & s' & E & es & E1 & N & S & B & _ & A); [done|].
  exists r, s', es. unfold maxMarks in *. split_and!; try done; [lia|].
  pose proof (dirs_depth root e root) as Hd. rewrite Forall_forall in *. intros p Hp. eapply Hd, elem_of_sublist; done.
Qed.

(** ** Start and Stop *)

Module Life.

(** Where the goroutine of the loop is: not started, at the check of [stop], in
    its system calls and the handling of what they return, or over ([done] is
    closed). *)
Inductive place := Idle | Checking | Reading | Over.

(** Where a call of [Stop] is: before its check, before [close(p.stop)], before
    the descriptor is closed, waiting for [done], returned. *)
Inductive call := CEnter | CClose | CFd | CWait | CBack.

Record life := mkLife { l_stop : bool; l_fd : bool; l_loop : place; l_calls : list call; l_panic : bool }.

Definition life0 : life := mkLife false true Idle [] false.

Definition moved (l : life) (i : nat) (c : call) : list call := <[i := c]> l.(l_calls).

Inductive loop_move : life -> life -> Prop :=
| lm_check_stop l : l.(l_loop) = Checking -> l.(l_stop) = true -> loop_move l (mkLife l.(l_stop) l.(l_fd) Over l.(l_calls) l.(l_panic))
| lm_check l : l.(l_loop) = Checking -> l.(l_stop) = false -> loop_move l (mkLife l.(l_stop) l.(l_fd) Reading l.(l_calls) l.(l_panic))
| lm_round l : l.(l_loop) = Reading -> loop_move l (mkLife l.(l_stop) l.(l_fd) Checking l.(l_calls) l.(l_panic))
| lm_ebadf l : l.(l_loop) = Reading -> l.(l_fd) = false -> loop_move l (mkLife l.(l_stop) l.(l_fd) Over l.(l_calls) l.(l_panic)).

Inductive call_move : life -> life -> Prop :=
| cm_start l : l.(l_loop) = Idle -> call_move l (mkLife l.(l_stop) l.(l_fd) Checking l.(l_calls) l.(l_panic))
| cm_call l : call_move l (mkLife l.(l_stop) l.(l_fd) l.(l_loop) (l.(l_calls) ++ [CEnter]) l.(l_panic))
| cm_enter l i : l.(l_calls) !! i = Some CEnter ->
    call_move l (mkLife l.(l_stop) l.(l_fd) l.(l_loop) (moved l i (if l.(l_stop) then CBack else CClose)) l.(l_panic))
(** closing a closed channel panics *)
| cm_close l i : l.(l_calls) !! i = Some CClose ->
    call_move l (mkLife true l.(l_fd) l.(l_loop) (moved l i CFd) (l.(l_panic) || l.(l_stop)))
| cm_fd l i : l.(l_calls) !! i = Some CFd -> call_move l (mkLife l.(l_stop) false l.(l_loop) (moved l i CWait) l.(l_panic))
| cm_wait l i : l.(l_calls) !! i = Some CWait -> l.(l_loop) = Over ->
    call_move l (mkLife l.(l_stop) l.(l_fd) l.(l_loop) (moved l i CBack) l.(l_panic)).

Definition lstep (l l' : life) : Prop := loop_move l l' \/ call_move l l'.

(** Once [stop] is closed the loop is over after at most two moves of its own,
    and until then it can always move. *)
Lemma stop_ends l l' : l.(l_stop) = true -> l.(l_loop) <> Idle -> forall n, nsteps loop_move n l l' ->
  (n <= 2)%nat /\ (l'.(l_loop) = Over \/ exists l2, loop_move l' l2).
Proof.
  intros Hs Hl n Hn.
  assert (forall n l, l.(l_stop) = true -> l.(l_loop) <> Idle -> nsteps loop_move n l l' ->
    (n <= match l.(l_loop) with Reading => 2 | Checking => 1 | _ => 0 end)%nat /\ l'.(l_stop) = true /\ l'.(l_loop) <> Idle) as H.
  { clear. induction n as [|n IH]; intros l Hs Hl Hn; inversion Hn as [|? ? l1 ? Hm Hr]; subst; [split; [lia|done]|].
    inversion Hm as [? E1 E2|? E1 E2|? E1|? E1 E2]; subst; rewrite E1; try congruence;
      apply IH in Hr; simpl in *; try done; split_and!; try lia; try apply Hr; destruct Hr; lia. }
  destruct (H n l Hs Hl Hn) as (Hb & Hs' & Hl'). split; [destruct (l_loop l); lia|].
  destruct (l_loop l') eqn:E; [done|right; eexists; by apply lm_check_stop|right; eexists; by apply lm_round|by left].
Qed.

(** A call that has returned found the loop over, or [stop] closed before it. *)
Definition call_ok (l : life) (c : call) : Prop :=
  match c with
  | CEnter | CClose => True
  | CFd | CBack => l.(l_stop) = true
  | CWait => l.(l_stop) = true /\ l.(l_fd) = false
  end.

Lemma calls_ok l : rtc lstep life0 l -> Forall (call_ok l) l.(l_calls) /\ (l.(l_fd) = false -> l.(l_stop) = true).
Proof.
  intros Hr. remember life0 as l0 eqn:E.
  assert (Forall (call_ok l0) l0.(l_calls) /\ (l0.(l_fd) = false -> l0.(l_stop) = true)) as H0 by (by subst).
  clear E. induction Hr as [|l l1 l2 Hs _ IH]; [done|]. apply IH. clear IH. destruct H0 as [HF Hfd].
  assert (forall i c, l.(l_calls) !! i = Some c -> call_ok l c) as HL by (intros i c; by apply Forall_lookup_1).
  assert (forall P : call -> Prop, (forall c, call_ok l c -> P c) -> Forall P l.(l_calls)) as HI
    by (intros P HP; eapply Forall_impl; [exact HF|exact HP]).
  destruct Hs as [Hm|Hm]; destruct Hm; simpl; (split; [|naive_solver]); try (by apply HI);
    try (apply Forall_app_2; [by apply HI|by repeat constructor]); unfold moved;
    match goal with H : l_calls _ !! _ = Some _ |- _ => pose proof (HL _ _ H) as Hc; simpl in Hc end;
    (apply Forall_insert; [apply HI; intros []; simpl; naive_solver|]); simpl; try naive_solver.
  by destruct (l_stop l) eqn:?.
Qed.

(** Two calls that both pass the check before either has closed the channel. *)
Example double_stop_panics : exists l, rtc lstep life0 l /\ l.(l_panic) = true.
Proof.
  eexists. split.
  - eapply rtc_l; [right; apply cm_call|]. eapply rtc_l; [right; apply cm_call|].
    eapply rtc_l; [right; apply (cm_enter _ 0); reflexivity|]. eapply rtc_l; [right; apply (cm_enter _ 1); reflexivity|].
    eapply rtc_l; [right; apply (cm_close _ 0); reflexivity|]. eapply rtc_l; [right; apply (cm_close _ 1); reflexivity|].
    apply rtc_refl.
  - reflexivity.
Qed.

End Life.

(** ** Concrete runs *)

Module Sample.
#[local] Instance unicode : GoUnicode := {| uni_equalFold := String.eqb; uni_toLower := id |}.

Definition deny_nc (n : nat) (info : AccessInfo) : option (bool * string) :=
  if ai_Comm info == "nc" then Some (false, "r1") else None.

(** A kernel that refuses audit answers; every process is called [nc]. *)
Definition strict (n : nat) (raw : list ascii) : bool := negb (asks_audit (le (drop 4 raw))).
Definition env (h : nat -> AccessInfo -> option (bool * string)) : FanEnv :=
  mkFanEnv (fun _ _ => Some "/etc/x") (fun _ p => Some (if hasSuffix p "comm" then "nc" else "")) h strict (fun _ _ => true).

(** An open of descriptor 5 by process 40. *)
Definition open_record : list ascii :=
  le_put 4 24 ++ [byte 3; byte 0] ++ le_put 2 24 ++ le_put 8 FAN_OPEN_PERM ++ le_put 4 5 ++ le_put 4 40.

Definition answers (s : fan) : list (Z * Z * bool) :=
  omap (fun e => match e with FAnswered fd r ok => Some (fd, r, ok) | _ => None end) (f_done s).

Lemma strict_needs_flag h : audit_needs_flag (env h).
Proof.
  intros n fd r Hb Hr _. cbn [env fv_write]. unfold strict, response_bytes.
  rewrite drop_app_length' by (symmetry; apply le_put_len). rewrite le_le_put by (simpl; lia). by rewrite Hr.
Qed.

Definition start : fan := mkFan 0 [].

Lemma denial_never_delivered_witness :
  exists es, f_done (process (env deny_nc) open_record start).2 = [] ++ es /\ Forall not_denied es.
Proof. apply (denial_never_delivered (env deny_nc) open_record start). apply strict_needs_flag. Defined.

(** The handler denies, the kernel refuses the answer; a panic allows. *)
Example denial_refused :
  answers (process (env deny_nc) open_record start).2 = [(5, 18, false)]
  /\ answers (process (env (fun _ _ => None)) open_record start).2 = [(5, 1, true)].
Proof. vm_compute. auto. Qed.

(** Two records and a cut third: both are answered. *)
Example two_answered :
  answers (process (env (fun _ _ => Some (true, ""))) (open_record ++ open_record ++ take 20 open_record) start).2
  = [(5, 1, true); (5, 1, true)].
Proof. vm_compute. reflexivity. Qed.

(** A blocking rule whose action is [none] denies nothing. *)
Definition info : AccessInfo := mkInfo 40 0 "nc" "/bin/nc" "nc" "/etc/shadow" FAN_OPEN_PERM.
Definition policy (action : string) : Policy :=
  mkPolicy "v0.5" (mkProcessAccess "" [] [] "" "") (mkSelfProtection true "" "" false)
    [litRule "r1" "file" "high" "block" action emptyMatch].

Example block_without_action_allows :
  HandleFileAccess (policy "none") (mkClock 0 0) info = (true, "")
  /\ HandleFileAccess (policy "fanotify_deny") (mkClock 0 0) info = (false, "r1").
Proof. vm_compute. auto. Qed.

End Sample.
