(* ===== verification/Procfs.v ===== *)
(** * The procfs collector ([internal/collector/collector.go],
      [internal/procutil/proc.go])

    Processes and connections are read from the texts of [/proc]; changes of
    watched files come from inotify or from the comparison of two scans.  What
    the file system answers to one call is an argument; a file that cannot be
    read has the empty content, which is what the code goes on with. *)

From S2P Require Import Prelude GoStrings GoTime Json EventLog BpfEvent Collector Response Query Baseline.

#[local] Open Scope string_scope.
#[local] Open Scope list_scope.
#[local] Open Scope Z_scope.

(** ** Processes *)

Record ProcRoot := mkProcRoot {
  pr_entries : option (list (string * bool));        (** the names, and whether they are directories *)
  pr_file : string -> string;                        (** a file under the root *)
  pr_link : string -> string;
  pr_login : Z -> option string;                     (** /proc/PID/loginuid *)
  pr_user : Z -> option string;                      (** the user database *)
}.

Definition is_nul (a : ascii) : bool := code a =? 0.

Definition UserFromPID (p : ProcRoot) (pid : Z) : string :=
  match p.(pr_login) pid with
  | None => ""
  | Some data =>
      match parseInt 10 32 (trimSpace data) with
      | (uid, None) => if uid <? 0 then "" else default "" (p.(pr_user) uid)
      | _ => ""
      end
  end.

Definition readProcComm (p : ProcRoot) (pid : Z) : string :=
  if pid <=? 0 then "" else trimSpace (p.(pr_file) (itoa pid +:+ "/comm")).

(** The second field of the first such line that has one. *)
Fixpoint uid_line (lines : list string) : string :=
  match lines with
  | [] => ""
  | line :: lines =>
      if hasPrefix line "Uid:" then match fields line with _ :: f :: _ => f | _ => uid_line lines end
      else uid_line lines
  end.

Definition readProcEUID (p : ProcRoot) (dir : string) : string :=
  uid_line (split (byte 10) (p.(pr_file) (dir +:+ "/status"))).

Fixpoint cgroup_line (lines : list string) : string :=
  match lines with
  | [] => ""
  | line :: lines =>
      if contains line "docker" || contains line "containerd" then
        match last (split (byte 47) (trimSpace line)) with
        | Some id => if 12 <=? slen id then id else cgroup_line lines
        | None => cgroup_line lines
        end
      else cgroup_line lines
  end.

Definition readProcCgroup (p : ProcRoot) (dir : string) : string :=
  cgroup_line (split (byte 10) (p.(pr_file) (dir +:+ "/cgroup"))).

Definition readProcess (p : ProcRoot) (dir : string) (pid : Z) : Process :=
  let stat := p.(pr_file) (dir +:+ "/stat") in
  let ppid := readPPIDFromStat stat in
  mkProcess pid (trimSpace (p.(pr_file) (dir +:+ "/comm"))) (p.(pr_link) (dir +:+ "/exe"))
    (replaceByte (byte 0) (byte 32) (trimRight is_nul (p.(pr_file) (dir +:+ "/cmdline"))))
    (UserFromPID p pid) (StartTicksFromStat stat) ppid (readProcComm p ppid) (readProcEUID p dir) (readProcCgroup p dir).

Definition readProcesses (p : ProcRoot) : list Process :=
  omap (fun e : string * bool =>
    if negb e.2 then None
    else match atoi e.1 with (pid, None) => Some (readProcess p e.1 pid) | _ => None end) (default [] p.(pr_entries)).

(** ** Connections *)

(** [net.IPv4(...).String()] *)
Definition ipv4 (l : list Z) : string := dotted l.

Definition hex_octet (s : string) (i : nat) : Z := (parseUint 16 8 (text (take 2 (drop (2 * i) (bytes s))))).1.

Definition parseProcNetAddr (raw : string) : string * Z :=
  match split ":"%char raw with
  | [addr; port] =>
      let port64 := (parseInt 16 32 port).1 in
      if slen addr != 8 then (addr, port64)
      else (ipv4 [hex_octet addr 3; hex_octet addr 2; hex_octet addr 1; hex_octet addr 0], port64)
  | _ => (raw, 0)
  end.

(** The default buffer of a [bufio.Scanner]. *)
Definition maxScanTokenSize : Z := 65536.

Fixpoint fitting_net (ls : list (list ascii)) : list (list ascii) :=
  match ls with
  | [] => []
  | l :: ls => if Z.of_nat (length l) <? maxScanTokenSize then drop_cr l :: fitting_net ls else []
  end.

Definition net_line (proto : string) (line : list ascii) : option Connection :=
  match fields (text line) with
  | _ :: f1 :: f2 :: f3 :: _ =>
      let '(la, lp) := parseProcNetAddr f1 in let '(ra, rp) := parseProcNetAddr f2 in
      Some (mkConnection proto la lp ra rp f3)
  | _ => None
  end.

Definition net_table (proto : string) (content : option (list ascii)) : list Connection :=
  match content with
  | None => []
  | Some b => omap (net_line proto) (tail (fitting_net (split_lines b [])))
  end.

(** [tcp] and [udp] are the two files, [None] when they cannot be opened. *)
Definition readNet (tcp udp : option (list ascii)) : list Connection := net_table "tcp" tcp ++ net_table "udp" udp.

(** ** File changes *)

(** Modes are those of [os.FileMode]. *)
Record fileState := mkState { fs_Size : Z; fs_Mode : Z; fs_ModTime : Time }.

Record ProcfsCollector := mkProcfs {
  WatchPaths : list string; WatchMode : string; lastFileState : gmap string fileState;
  inotifyFD : Z; watchMap : gmap Z string; inotifyErr : option string;
}.

(** What the outside answers during one scan. *)
Record ScanEnv := mkScanEnv {
  sc_walk : string -> list (string * fileState);     (** the files [filepath.Walk] comes to, directories apart *)
  sc_dirs : string -> list string;                   (** the directories it comes to *)
  sc_init : result string Z;                         (** [InotifyInit1] *)
  sc_watch : string -> option Z;                     (** [InotifyAddWatch] *)
  sc_read : result (option string) (list ascii);     (** [Read]; [Err None] is EAGAIN *)
  sc_stat : string -> option fileState;
  sc_range : gmap string fileState -> list (string * fileState);
}.

Definition newFileEvent (path op : string) (info : fileState) : FileEvent :=
  mkFileEvent path op info.(fs_Size) (permString info.(fs_Mode)) info.(fs_ModTime).

Definition sameState (a b : fileState) : bool :=
  (a.(fs_Size) =? b.(fs_Size)) && (a.(fs_Mode) =? b.(fs_Mode)) && (instant a.(fs_ModTime) =? instant b.(fs_ModTime)).

Section Scan.
Context `{GoUnicode}.
Variable env : ScanEnv.

(** The callback of the walk: the next state and the events. *)
Definition poll_file (last : gmap string fileState) (acc : gmap string fileState * list FileEvent)
    (f : string * fileState) : gmap string fileState * list FileEvent :=
  let '(next, events) := acc in
  let '(path, state) := f in
  (<[path := state]> next,
   events ++ match last !! path with
             | None => [newFileEvent path "create" state]
             | Some prev => if sameState prev state then [] else [newFileEvent path "write" state]
             end).

Definition scanFileChangesPoll (c : ProcfsCollector) : list FileEvent * ProcfsCollector :=
  let last := c.(lastFileState) in
  let '(next, events) := foldl (poll_file last) (∅, []) (concat (map env.(sc_walk) c.(WatchPaths))) in
  let gone := omap (fun kv : string * fileState =>
    if bool_decide (is_Some (next !! kv.1)) then None else Some (newFileEvent kv.1 "delete" kv.2)) (env.(sc_range) last) in
  (events ++ gone, mkProcfs c.(WatchPaths) c.(WatchMode) next c.(inotifyFD) c.(watchMap) c.(inotifyErr)).

(** *** inotify *)

Definition with_watches (c : ProcfsCollector) (fd : Z) (m : gmap Z string) (e : option string) : ProcfsCollector :=
  mkProcfs c.(WatchPaths) c.(WatchMode) c.(lastFileState) fd m e.

(** A watch that fails is passed over. *)
Definition addWatchRecursive (m : gmap Z string) (root : string) : gmap Z string :=
  foldl (fun m path => match env.(sc_watch) path with Some wd => <[wd := path]> m | None => m end) m (env.(sc_dirs) root).

Definition ensureInotify (c : ProcfsCollector) : result string ProcfsCollector :=
  if 0 <? c.(inotifyFD) then Ok c
  else let? fd := env.(sc_init) in
       Ok (with_watches c fd (foldl addWatchRecursive ∅ c.(WatchPaths)) c.(inotifyErr)).

Definition IN_MODIFY : Z := 2.
Definition IN_CLOSE_WRITE : Z := 8.
Definition IN_MOVED_FROM : Z := 64.
Definition IN_MOVED_TO : Z := 128.
Definition IN_CREATE : Z := 256.
Definition IN_DELETE : Z := 512.
Definition IN_ISDIR : Z := 1073741824.

Definition has (mask bits : Z) : bool := Z.land mask bits != 0.

Definition statBackedFileEvent (path op : string) : FileEvent :=
  match env.(sc_stat) path with
  | None => mkFileEvent path op 0 "" timeZero
  | Some info => newFileEvent path op info
  end.

Definition joinName (base name : string) : string :=
  if name == "" then base else if base == "" then name else if base == "/" then "/" +:+ name else base +:+ "/" +:+ name.

Definition ino_events (path : string) (mask : Z) : list FileEvent :=
  (if has mask IN_CREATE || has mask IN_MOVED_TO then [statBackedFileEvent path "create"] else [])
  ++ (if has mask IN_MODIFY || has mask IN_CLOSE_WRITE then [statBackedFileEvent path "write"] else [])
  ++ (if has mask IN_DELETE || has mask IN_MOVED_FROM then [mkFileEvent path "delete" 0 "" timeZero] else []).

(** The records of the buffer; the kernel returns whole records only, so [None]
    (a name that leaves the buffer) does not happen. *)
Fixpoint ino_loop (fuel : nat) (m : gmap Z string) (raw : list ascii) (events : list FileEvent)
    : option (list FileEvent * gmap Z string) :=
  match fuel, raw with
  | _, [] => Some (events, m)
  | O, _ => None
  | S fuel, _ =>
      let wd := wraps 32 (uint 0 4 raw) in
      let mask := uint 4 4 raw in
      let len := Z.to_nat (uint 12 4 raw) in
      if (length raw <? 16 + len)%nat then None
      else
        let name := trimRight is_nul (text (BpfEvent.field 16 len raw)) in
        let path := joinName (default "" (m !! wd)) name in
        let m := if has mask IN_ISDIR && (has mask IN_CREATE || has mask IN_MOVED_TO) then addWatchRecursive m path else m in
        ino_loop fuel m (drop (16 + len) raw) (events ++ ino_events path mask)
  end.

(** The last event of each operation and path, in the order of the first. *)
Definition event_key (e : FileEvent) : string := e.(fe_Op) +:+ ":" +:+ e.(fe_Path).

Definition compact_step (acc : gmap string FileEvent * list string) (e : FileEvent) : gmap string FileEvent * list string :=
  let '(seen, order) := acc in
  let key := event_key e in
  (<[key := e]> seen, if bool_decide (is_Some (seen !! key)) then order else order ++ [key]).

Definition compactFileEvents (events : list FileEvent) : list FileEvent :=
  let '(seen, order) := foldl compact_step (∅, []) events in omap (fun k => seen !! k) order.

(** [None] for the events is the nil slice. *)
Definition scanFileChangesInotify (c : ProcfsCollector) : option (list FileEvent) * ProcfsCollector :=
  match ensureInotify c with
  | Err e => (None, with_watches c c.(inotifyFD) c.(watchMap) (Some e))
  | Ok c =>
      match env.(sc_read) with
      | Err None => (None, c)
      | Err (Some e) => (None, with_watches c c.(inotifyFD) c.(watchMap) (Some e))
      | Ok raw =>
          match ino_loop (length raw) c.(watchMap) raw [] with
          | None => (None, c)
          | Some (events, m) =>
              let c := with_watches c c.(inotifyFD) m c.(inotifyErr) in
              match compactFileEvents events with [] => (None, c) | es => (Some es, c) end
          end
      end
  end.

Definition scanFileChanges (c : ProcfsCollector) : list FileEvent * ProcfsCollector :=
  if c.(WatchPaths) == [] then ([], c)
  else if equalFold c.(WatchMode) "poll" then scanFileChangesPoll c
  else match scanFileChangesInotify c with
  | (Some events, c) => (events, c)
  | (None, c) => scanFileChangesPoll c
  end.

Definition Close (c : ProcfsCollector) : ProcfsCollector :=
  if 0 <? c.(inotifyFD) then with_watches c 0 c.(watchMap) c.(inotifyErr) else c.

Definition ProcSnapshot (p : ProcRoot) (tcp udp : option (list ascii)) (c : ProcfsCollector) : Snapshot * ProcfsCollector :=
  let '(files, c) := scanFileChanges c in (mkSnapshot (readProcesses p) (readNet tcp udp) files, c).

End Scan.

(** ** Polling *)

Section PollProofs.
Context `{GoUnicode}.
Variable env : ScanEnv.










Hypothesis range_perm : forall m, env.(sc_range) m ≡ₚ map_to_list m.



End PollProofs.


(** ** Addresses *)

(** The digits of the kernel's [%X]. *)
Definition hexU (z : Z) : ascii := byte (if z <? 10 then 48 + z else 55 + z).
Definition octetU (v : Z) : list ascii := [hexU (v / 16); hexU (v mod 16)].

(** An IPv4 address and a port as the kernel writes them: the address as a
    little-endian number. *)
Definition net_text (a b c d port : Z) : string :=
  text ((octetU d ++ octetU c ++ octetU b ++ octetU a) ++ ":"%char :: octetU (port / 256) ++ octetU (port mod 256)).

Lemma nibble_cases (P : Z -> Prop) : Forall P [0; 1; 2; 3; 4; 5; 6; 7; 8; 9; 10; 11; 12; 13; 14; 15] ->
  forall z, 0 <= z < 16 -> P z.
Proof.
  intros HP z Hz. rewrite Forall_forall in HP. apply HP. rewrite !elem_of_cons. lia.
Qed.

Lemma hexU_digit z : 0 <= z < 16 -> digit_val (hexU z) = Some z /\ hexU z <> ":"%char /\ hexU z <> "-"%char /\ hexU z <> "+"%char.
Proof. revert z. apply nibble_cases. repeat constructor; done. Qed.

Lemma nibbles v : 0 <= v < 256 -> 0 <= v / 16 < 16 /\ 0 <= v mod 16 < 16 /\ v / 16 * 16 + v mod 16 = v.
Proof.
  intros Hv. pose proof (Z.div_mod v 16 ltac:(lia)). pose proof (Z.mod_pos_bound v 16 ltac:(lia)).
  split_and!; try lia.
Qed.

Lemma octet_parse v m l acc : 0 <= v < 256 -> 0 <= acc -> acc * 256 + v <= m ->
  parse_digits 16 m (octetU v ++ l) acc = parse_digits 16 m l (acc * 256 + v).
Proof.
  intros Hv Ha Hm. destruct (nibbles v Hv) as (H1 & H2 & H3). unfold octetU. cbn [app parse_digits].
  destruct (hexU_digit _ H1) as [-> _]. destruct (hexU_digit _ H2) as [-> _].
  rewrite (proj2 (Z.ltb_lt _ _)) by lia. rewrite (proj2 (Z.ltb_ge m _)) by lia.
  rewrite (proj2 (Z.ltb_lt _ _)) by lia. rewrite (proj2 (Z.ltb_ge m _)) by lia. f_equal. lia.
Qed.

Lemma split_two c l r : c ∉ l -> c ∉ r -> split c (text (l ++ c :: r)) = [text l; text r].
Proof.
  intros Hl Hr. unfold split. rewrite bytes_text.
  assert (forall r cur, c ∉ r -> split_aux c r cur = [text (rev cur ++ r)]) as Hend.
  { clear. induction r as [|a r IH]; intros cur Hr; simpl; [by rewrite app_nil_r|].
    apply not_elem_of_cons in Hr as [Ha Hr]. rewrite bool_decide_eq_false_2 by congruence. rewrite IH by done. simpl.
    by rewrite <- app_assoc. }
  assert (forall l cur, c ∉ l -> split_aux c (l ++ c :: r) cur = text (rev cur ++ l) :: split_aux c r []) as Hgo.
  { clear Hl l. induction l as [|a l IH]; intros cur Hl; simpl.
    - by rewrite bool_decide_eq_true_2, app_nil_r.
    - apply not_elem_of_cons in Hl as [Ha Hl]. rewrite bool_decide_eq_false_2 by congruence. rewrite IH by done. simpl.
      by rewrite <- app_assoc. }
  rewrite Hgo, Hend by done. done.
Qed.

Lemma octet_no_colon v : 0 <= v < 256 -> ":"%char ∉ octetU v.
Proof.
  intros Hv. destruct (nibbles v Hv) as (H1 & H2 & _). unfold octetU. rewrite !not_elem_of_cons.
  destruct (hexU_digit _ H1) as (_ & N1 & _). destruct (hexU_digit _ H2) as (_ & N2 & _). split_and!; try done.
  by apply not_elem_of_nil.
Qed.

Lemma port_parse port : 0 <= port < 65536 ->
  (parseInt 16 32 (text (octetU (port / 256) ++ octetU (port mod 256)))).1 = port.
Proof.
  intros Hp. pose proof (Z.div_mod port 256 ltac:(lia)). pose proof (Z.mod_pos_bound port 256 ltac:(lia)).
  assert (0 <= port / 256 < 256) as H1 by lia. destruct (nibbles _ H1) as (N1 & _ & _).
  destruct (hexU_digit _ N1) as (_ & _ & Hm & Hpl).
  unfold parseInt. cbn [octetU app]. change (text (hexU (port / 256 / 16) :: ?l)) with (String (hexU (port / 256 / 16)) (text l)).
  cbv beta iota zeta. rewrite (bool_decide_eq_false_2 _ Hm), (bool_decide_eq_false_2 _ Hpl). cbn [orb].
  unfold parseUint. cbn [bytes list_ascii_of_string]. fold bytes. rewrite bytes_text.
  change (hexU (port / 256 / 16) :: hexU ((port / 256) mod 16) :: octetU (port mod 256))
    with (octetU (port / 256) ++ octetU (port mod 256)).
  rewrite octet_parse by lia. rewrite <- (app_nil_r (octetU (port mod 256))). rewrite octet_parse by lia.
  cbn [parse_digits]. cbv beta iota. rewrite (proj2 (Z.leb_gt _ _)) by lia. simpl. lia.
Qed.

(** The address and the port of a line of the kernel's tables are read
    back, whatever they are. *)
Theorem net_addr_roundtrip a b c d port :
  Forall (fun v => 0 <= v < 256) [a; b; c; d] -> 0 <= port < 65536 ->
  parseProcNetAddr (net_text a b c d port) = (dotted [a; b; c; d], port).
Proof.
  intros Hall Hp. inversion_clear Hall as [|? ? Ha Hall1]. inversion_clear Hall1 as [|? ? Hb Hall2].
  inversion_clear Hall2 as [|? ? Hc Hall3]. inversion_clear Hall3 as [|? ? Hd _].
  assert (0 <= port / 256 < 256 /\ 0 <= port mod 256 < 256 /\ port / 256 * 256 + port mod 256 = port) as (P1 & P2 & P3).
  { pose proof (Z.div_mod port 256 ltac:(lia)). pose proof (Z.mod_pos_bound port 256 ltac:(lia)). split_and!; lia. }
  unfold parseProcNetAddr, net_text. rewrite split_two; cycle 1.
  { rewrite !not_elem_of_app. split_and!; by apply octet_no_colon. }
  { rewrite !not_elem_of_app. split_and!; by apply octet_no_colon. }
  assert (forall v, 0 <= v < 256 -> (parseUint 16 8 (text (octetU v))).1 = v) as Ho.
  { intros v Hv. unfold parseUint. rewrite bytes_text. pose proof (octet_parse v 255 [] 0 Hv) as E. rewrite app_nil_r in E.
    unfold octetU in *. cbv iota. change (2 ^ 8 - 1) with 255. rewrite E by lia. simpl. lia. }
  unfold hex_octet. rewrite bytes_text. cbn [octetU app drop take Nat.mul Nat.add]. rewrite bool_decide_eq_true_2 by done.
  cbn [negb]. f_equal.
  - unfold ipv4. f_equal. pose proof (Ho a Ha) as Ea. pose proof (Ho b Hb) as Eb. pose proof (Ho c Hc) as Ec.
    pose proof (Ho d Hd) as Ed. unfold octetU in Ea, Eb, Ec, Ed. by rewrite Ea, Eb, Ec, Ed.
  - by apply port_parse.
Qed.

(** ** Compaction *)

(** The last event with a key. *)
Definition last_with (key : string) (l : list FileEvent) : option FileEvent :=
  last (filter (fun e => event_key e = key) l).

Lemma last_with_some k l : is_Some (last_with k l) <-> k ∈ event_key <$> l.
Proof.
  unfold last_with. rewrite last_is_Some, list_elem_of_fmap. split.
  - intros H. destruct (filter _ l) as [|e f] eqn:E; [done|].
    assert (e ∈ filter (fun e => event_key e = k) l) as [He Hl]%list_elem_of_filter by (rewrite E; by left). by exists e.
  - intros (e & -> & He) E. assert (e ∈ filter (fun x => event_key x = event_key e) l) as Hf by by apply list_elem_of_filter.
    rewrite E in Hf. by apply elem_of_nil in Hf.
Qed.

Lemma last_with_key k l e : last_with k l = Some e -> event_key e = k.
Proof.
  intros H. assert (e ∈ filter (fun e => event_key e = k) l) as [He _]%list_elem_of_filter; [|done].
  by apply last_Some_elem_of.
Qed.

Lemma compact_foldl l :
  let '(seen, order) := foldl compact_step (∅, []) l in
  NoDup order /\ (forall k, seen !! k = last_with k l) /\ (forall k, k ∈ order <-> k ∈ event_key <$> l)
  /\ order `sublist_of` (event_key <$> l).
Proof.
  induction l as [|e l IH] using rev_ind; [simpl; split_and!; [constructor|done|done|done]|].
  rewrite foldl_app. simpl. destruct (foldl compact_step (∅, []) l) as [seen order].
  destruct IH as (Hn & Hs & Ho & Hsub). cbn [compact_step].
  assert (forall k, <[event_key e := e]> seen !! k = last_with k (l ++ [e])) as Hs'.
  { intros k. unfold last_with. rewrite filter_app. destruct (decide (event_key e = k)) as [<-|Hk].
    - rewrite lookup_insert_eq, filter_cons_True, filter_nil by done. by rewrite last_snoc.
    - rewrite lookup_insert_ne, filter_cons_False, filter_nil, app_nil_r by done. apply Hs. }
  assert (is_Some (seen !! event_key e) <-> event_key e ∈ order) as Hin by (rewrite Hs, last_with_some, Ho; done).
  rewrite fmap_app. simpl. case_bool_decide as Hb; rewrite Hin in Hb.
  - split_and!; try done; [|by apply sublist_inserts_r].
    intros k. rewrite elem_of_app, list_elem_of_singleton, Ho. rewrite Ho in Hb. split; [by left|intros [?| ->]; done].
  - split_and!; try done.
    + apply NoDup_app. split_and!; [done| |apply NoDup_singleton]. intros k Hk ->%list_elem_of_singleton. done.
    + intros k. rewrite !elem_of_app, Ho. done.
    + by apply sublist_app.
Qed.

(** Of the events read at once, exactly the last one of each operation and
    path is reported, each once, in the order in which the pairs first
    occurred. *)
Theorem compact_spec (l : list FileEvent) :
  NoDup (event_key <$> compactFileEvents l)
  /\ (forall e, e ∈ compactFileEvents l <-> last_with (event_key e) l = Some e)
  /\ (event_key <$> compactFileEvents l) `sublist_of` (event_key <$> l)
  /\ (forall e, e ∈ l -> event_key e ∈ event_key <$> compactFileEvents l).
Proof.
  unfold compactFileEvents. pose proof (compact_foldl l) as H. destruct (foldl compact_step (∅, []) l) as [seen order].
  destruct H as (Hn & Hs & Ho & Hsub).
  assert (Forall (fun k => is_Some (seen !! k)) order) as HF.
  { apply Forall_forall. intros k Hk. rewrite Hs, last_with_some. by apply Ho. }
  assert (event_key <$> omap (fun k => seen !! k) order = order) as E.
  { clear Hn Hsub Ho. induction HF as [|k order [e He] _ IH]; [done|]. simpl. rewrite He. simpl. f_equal; [|exact IH].
    rewrite Hs in He. by apply last_with_key in He. }
  rewrite E. split_and!; try done.
  - intros e. rewrite list_elem_of_omap. split.
    + intros (k & Hk & He). rewrite Hs in He. pose proof (last_with_key _ _ _ He) as Ek. by rewrite Ek.
    + intros He. exists (event_key e). rewrite Hs. split; [|done]. apply Ho, last_with_some. by exists e.
  - intros e He. apply Ho, list_elem_of_fmap. by exists e.
Qed.

(** ** Concrete scans *)

Module Sample.
#[local] Instance unicode : GoUnicode := {| uni_equalFold := String.eqb; uni_toLower := id |}.

Definition st (size : Z) : fileState := mkState size 420 timeZero.
Definition c0 (mode : string) : ProcfsCollector := mkProcfs ["/w"] mode ∅ 0 ∅ None.

Definition env (files : list (string * fileState)) (read : result (option string) (list ascii)) : ScanEnv :=
  mkScanEnv (fun _ => files) (fun r => [r]) (Ok 3) (fun _ => Some 1) read (fun p => snd <$> List.find (fun f => f.1 == p) files)
    map_to_list.

Definition one : ScanEnv := env [("/w/a", st 1)] (Err None).


Lemma net_addr_roundtrip_witness : parseProcNetAddr "0100007F:1F90" = ("127.0.0.1", 8080).
Proof. apply (net_addr_roundtrip 127 0 0 1 8080); [repeat constructor; lia|lia]. Defined.

(** A write to the file the first watch names. *)
Definition write_record : list ascii := le_put 4 1 ++ le_put 4 2 ++ le_put 4 0 ++ le_put 4 4 ++ bytes "a" ++ replicate 3 (byte 0).

Definition ops (l : list FileEvent) : list (string * string) := map (fun e => (fe_Op e, fe_Path e)) l.

(** With inotify and nothing to report the collector polls, and its first scan
    reports every file that is there as created; a write that inotify reported
    is reported again by the next idle scan. *)
Example idle_inotify_polls :
  let '(e1, c1) := scanFileChanges one (c0 "inotify") in
  let '(e2, c2) := scanFileChanges (env [("/w/a", st 2)] (Ok write_record)) c1 in
  let '(e3, c3) := scanFileChanges (env [("/w/a", st 2)] (Err None)) c2 in
  (ops e1, ops e2, ops e3) = ([("create", "/w/a")], [("write", "/w/a")], [("write", "/w/a")]).
Proof. vm_compute. reflexivity. Qed.

(** The field taken for the effective user id is the real one. *)
Example real_uid_reported :
  uid_line ["Name: su"; "Uid: 1000 0 0 0"] = "1000".
Proof. vm_compute. reflexivity. Qed.

End Sample.
