(* ===== verification/Config.v ===== *)
(** * The configuration file ([cmd/edr-agent/main.go])

    The file is JSON with comments: [cleanJSON] takes the comments and the
    blank lines out, and the decoder fills a configuration that already holds
    the defaults and refuses unknown members. *)

From S2P Require Import Prelude GoStrings Json GoJson GoTime EventLog Suppress Anchor Policy Disk Keys PolicyFile Nft.

#[local] Open Scope string_scope.
#[local] Open Scope list_scope.
#[local] Open Scope Z_scope.

(** ** Comments *)

Definition backslash : ascii := "\"%char.

(** The loop of [stripComments] from a position on: what it appends, and
    whether a block comment goes on. *)
Fixpoint strip (l : list ascii) (inBlock inString escape : bool) : list ascii * bool :=
  match l with
  | [] => ([], inBlock)
  | ch :: l1 =>
      let keep r := (ch :: r.1, r.2) in
      if inBlock then
        match l1 with
        | c2 :: l2 => if (ch == "*"%char) && (c2 == "/"%char) then strip l2 false inString escape else strip l1 true inString escape
        | [] => strip l1 true inString escape
        end
      else if escape then keep (strip l1 false inString false)
      else if inString then
        if ch == backslash then keep (strip l1 false true true)
        else if ch == dq then keep (strip l1 false false false)
        else keep (strip l1 false true false)
      else if ch == dq then keep (strip l1 false true false)
      else match l1 with
      | c2 :: l2 =>
          if (ch == "/"%char) && (c2 == "/"%char) then ([], false)
          else if (ch == "/"%char) && (c2 == "*"%char) then strip l2 true false false
          else keep (strip l1 false false false)
      | [] => keep (strip l1 false false false)
      end
  end.

Definition stripComments (line : string) (inBlock : bool) : string * bool :=
  let '(out, b) := strip (bytes line) inBlock false false in (text out, b).

(** The lines that are kept. *)
Fixpoint clean_lines (lines : list string) (inBlock : bool) : list string :=
  match lines with
  | [] => []
  | line :: lines =>
      let '(cleaned, inBlock) := stripComments line inBlock in
      if trimSpace cleaned == "" then clean_lines lines inBlock else cleaned :: clean_lines lines inBlock
  end.

Definition cleanJSON (raw : string) : string := join nl (clean_lines (split (byte 10) raw) false).

(** ** The configuration *)

Record retentionConfig := mkRetention { rc_MaxBytes : Z; rc_MaxBackups : Z }.
Record fileWatchConfig := mkFileWatch { fw_Mode : string; fw_Paths : list string }.
Record nftConfig := mkNftConfig { nc_Enabled : bool; nc_DryRun : bool; nc_Table : string; nc_Chain : string }.
Record integrityConfig := mkIntegrity { ic_EnableChain : bool; ic_KeyPath : string; ic_StatePath : string; ic_Algorithm : string }.
Record suppressionConfig := mkSuppression {
  su_Process : Z; su_File : Z; su_Network : Z; su_RatePerSec : Z; su_Burst : Z; su_StatePath : string;
}.
Record bpfConfig := mkBpf { bc_Enabled : bool; bc_ObjDir : string; bc_RingbufPages : Z; bc_RingbufPath : string }.
Record anchorConfig := mkAnchorConfig { ac_Enabled : bool; ac_URL : string; ac_FilePath : string; ac_Interval : Z }.
Record fanotifyConfig := mkFanotify { fc_Enabled : bool; fc_Paths : list string }.
Record quarantineConfig := mkQuarantineConfig { qc_Dir : string; qc_DryRun : bool }.
Record webhookConfig := mkWebhook {
  wc_URL : string; wc_Headers : list (string * string); wc_TimeoutSec : Z; wc_Format : string; wc_MinSeverity : string;
}.
Record emailAlertConfig := mkEmail {
  em_Enabled : bool; em_SMTPHost : string; em_SMTPPort : Z; em_Username : string; em_Password : string; em_From : string;
  em_To : list string; em_UseTLS : bool; em_MinSeverity : string;
}.
Record syslogRemoteConfig := mkSyslog { sy_Enabled : bool; sy_Host : string; sy_Port : Z; sy_Protocol : string; sy_Facility : string }.
Record dashboardConfig := mkDashboard { da_Enabled : bool; da_Listen : string; da_TLSCert : string; da_TLSKey : string }.

Record config := mkConfig {
  PolicyPath : string; BaselinePath : string; EventPath : string; ResponsePath : string; ArtifactDir : string;
  SocketPath : string; IntervalSec : Z; Syslog : bool; DryRun : bool; Retention : retentionConfig;
  FileWatch : fileWatchConfig; NFT : nftConfig; AllowedUIDs : list Z; Integrity : integrityConfig;
  Suppression : suppressionConfig; BPF : bpfConfig; Fanotify : fanotifyConfig; Anchor : anchorConfig;
  SigningKeyPath : string; Quarantine : quarantineConfig; Webhooks : list webhookConfig; EmailAlerts : emailAlertConfig;
  SyslogRemote : syslogRemoteConfig; Dashboard : dashboardConfig;
}.

Definition defaultIntegrityKeyPath : string := "/var/lib/edr/log.key".

Definition defaults : config :=
  mkConfig "configs/policy.json" "configs/baseline.json" "var/events.jsonl" "var/responses.jsonl" "var/forensics"
    "var/run/edr-agent.sock" 1 false true (mkRetention 1048576 3)
    (mkFileWatch "inotify" ["configs"; "/etc/ld.so.preload"; "/etc/ld.so.conf.d"; "/usr/lib"; "/tmp"; "/dev/shm";
       "/etc/shadow"; "/etc/gshadow"; "/etc/sudoers"; "/etc/sudoers.d"; "/var/spool/cron"; "/etc/cron.d"; "/etc/cron.daily";
       "/etc/systemd/system"; "/root/.ssh"; "/var/log"])
    (mkNftConfig false true "edr" "blocklist") [0] (mkIntegrity true defaultIntegrityKeyPath "" "sha256")
    (mkSuppression 30 60 30 10 10 "var/suppressor.json") (mkBpf false "" 0 "")
    (mkFanotify true ["/etc"; "/tmp"; "/dev/shm"; "/var/spool/cron"; "/usr/local/bin"; "/usr/bin"; "/usr/sbin"; "/root/.ssh";
       "/home"; "/etc/systemd/system"; "/etc/cron.d"; "/etc/cron.daily"])
    (mkAnchorConfig false "" "" 60) "/var/lib/edr/signing.key" (mkQuarantineConfig "var/quarantine" true) []
    (mkEmail false "" 587 "" "" "" [] true "high") (mkSyslog false "" 514 "udp" "daemon")
    (mkDashboard false "127.0.0.1:8443" "" "").

(** ** Decoding *)

Section Decode.
Context {UC : GoUnicode}.

(** A struct: null leaves it, an object is decoded over it, unknown members
    are refused. *)
Definition set_struct {A} (names : list string) (dec : A -> list (string * json) -> option A) (old : A) (j : json) : option A :=
  match j with
  | JNull => Some old
  | JObj ms => if negb (known names ms) then None else dec old ms
  | _ => None
  end.

(** A [map[string]string]. *)
Definition set_headers (old : list (string * string)) (j : json) : option (list (string * string)) :=
  match j with
  | JObj ms =>
      foldl (fun acc (kv : string * json) => m ← acc; v ← set_string "" kv.2;
               Some (List.filter (fun e => e.1 != kv.1) m ++ [(kv.1, v)])) (Some old) ms
  | JNull => Some []
  | _ => None
  end.

(** The field of an object. *)
Definition strs (names : list string) (name : string) (old : list string) (ms : list (string * json)) : option (list string) :=
  elems <$> get_field (set_slice set_string "") names name (of_list old) ms.

Definition retention_names : list string := ["max_bytes"; "max_backups"].
Definition set_retention : retentionConfig -> json -> option retentionConfig :=
  set_struct retention_names (fun o ms =>
    a ← get_field set_int retention_names "max_bytes" o.(rc_MaxBytes) ms;
    b ← get_field set_int retention_names "max_backups" o.(rc_MaxBackups) ms; Some (mkRetention a b)).

Definition watch_names : list string := ["mode"; "paths"].
Definition set_watch : fileWatchConfig -> json -> option fileWatchConfig :=
  set_struct watch_names (fun o ms =>
    a ← get_field set_string watch_names "mode" o.(fw_Mode) ms; b ← strs watch_names "paths" o.(fw_Paths) ms;
    Some (mkFileWatch a b)).

Definition nft_names : list string := ["enabled"; "dry_run"; "table"; "chain"].
Definition set_nft : nftConfig -> json -> option nftConfig :=
  set_struct nft_names (fun o ms =>
    a ← get_field set_bool nft_names "enabled" o.(nc_Enabled) ms; b ← get_field set_bool nft_names "dry_run" o.(nc_DryRun) ms;
    c ← get_field set_string nft_names "table" o.(nc_Table) ms; d ← get_field set_string nft_names "chain" o.(nc_Chain) ms;
    Some (mkNftConfig a b c d)).

Definition integrity_names : list string := ["enable_chain"; "key_path"; "state_path"; "algorithm"].
Definition set_integrity : integrityConfig -> json -> option integrityConfig :=
  set_struct integrity_names (fun o ms =>
    let str name v := get_field set_string integrity_names name v ms in
    a ← get_field set_bool integrity_names "enable_chain" o.(ic_EnableChain) ms; b ← str "key_path" o.(ic_KeyPath);
    c ← str "state_path" o.(ic_StatePath); d ← str "algorithm" o.(ic_Algorithm); Some (mkIntegrity a b c d)).

Definition suppression_names : list string :=
  ["process_cooldown_sec"; "file_cooldown_sec"; "network_cooldown_sec"; "rate_per_sec"; "burst"; "state_path"].
Definition set_suppression : suppressionConfig -> json -> option suppressionConfig :=
  set_struct suppression_names (fun o ms =>
    let int name v := get_field set_int suppression_names name v ms in
    a ← int "process_cooldown_sec" o.(su_Process); b ← int "file_cooldown_sec" o.(su_File);
    c ← int "network_cooldown_sec" o.(su_Network);
    d ← get_field set_uint64 suppression_names "rate_per_sec" o.(su_RatePerSec) ms;
    e ← get_field set_uint64 suppression_names "burst" o.(su_Burst) ms;
    f ← get_field set_string suppression_names "state_path" o.(su_StatePath) ms; Some (mkSuppression a b c d e f)).

Definition bpf_names : list string := ["enabled"; "obj_dir"; "ringbuf_pages"; "ringbuf_path"].
Definition set_bpf : bpfConfig -> json -> option bpfConfig :=
  set_struct bpf_names (fun o ms =>
    a ← get_field set_bool bpf_names "enabled" o.(bc_Enabled) ms; b ← get_field set_string bpf_names "obj_dir" o.(bc_ObjDir) ms;
    c ← get_field set_int bpf_names "ringbuf_pages" o.(bc_RingbufPages) ms;
    d ← get_field set_string bpf_names "ringbuf_path" o.(bc_RingbufPath) ms; Some (mkBpf a b c d)).

Definition anchor_names_ : list string := ["enabled"; "url"; "file_path"; "interval_sec"].
Definition set_anchor : anchorConfig -> json -> option anchorConfig :=
  set_struct anchor_names_ (fun o ms =>
    a ← get_field set_bool anchor_names_ "enabled" o.(ac_Enabled) ms; b ← get_field set_string anchor_names_ "url" o.(ac_URL) ms;
    c ← get_field set_string anchor_names_ "file_path" o.(ac_FilePath) ms;
    d ← get_field set_int anchor_names_ "interval_sec" o.(ac_Interval) ms; Some (mkAnchorConfig a b c d)).

Definition fanotify_names : list string := ["enabled"; "paths"].
Definition set_fanotify : fanotifyConfig -> json -> option fanotifyConfig :=
  set_struct fanotify_names (fun o ms =>
    a ← get_field set_bool fanotify_names "enabled" o.(fc_Enabled) ms; b ← strs fanotify_names "paths" o.(fc_Paths) ms;
    Some (mkFanotify a b)).

Definition quarantine_names : list string := ["dir"; "dry_run"].
Definition set_quarantine : quarantineConfig -> json -> option quarantineConfig :=
  set_struct quarantine_names (fun o ms =>
    a ← get_field set_string quarantine_names "dir" o.(qc_Dir) ms; b ← get_field set_bool quarantine_names "dry_run" o.(qc_DryRun) ms;
    Some (mkQuarantineConfig a b)).

Definition webhook_names : list string := ["url"; "headers"; "timeout_sec"; "format"; "min_severity"].
Definition set_webhook : webhookConfig -> json -> option webhookConfig :=
  set_struct webhook_names (fun o ms =>
    let str name v := get_field set_string webhook_names name v ms in
    a ← str "url" o.(wc_URL); b ← get_field set_headers webhook_names "headers" o.(wc_Headers) ms;
    c ← get_field set_int webhook_names "timeout_sec" o.(wc_TimeoutSec) ms; d ← str "format" o.(wc_Format);
    e ← str "min_severity" o.(wc_MinSeverity); Some (mkWebhook a b c d e)).

Definition email_names : list string :=
  ["enabled"; "smtp_host"; "smtp_port"; "username"; "password"; "from"; "to"; "use_tls"; "min_severity"].
Definition set_email : emailAlertConfig -> json -> option emailAlertConfig :=
  set_struct email_names (fun o ms =>
    let str name v := get_field set_string email_names name v ms in
    a ← get_field set_bool email_names "enabled" o.(em_Enabled) ms; b ← str "smtp_host" o.(em_SMTPHost);
    c ← get_field set_int email_names "smtp_port" o.(em_SMTPPort) ms; d ← str "username" o.(em_Username);
    e ← str "password" o.(em_Password); f ← str "from" o.(em_From); g ← strs email_names "to" o.(em_To) ms;
    h ← get_field set_bool email_names "use_tls" o.(em_UseTLS) ms; i ← str "min_severity" o.(em_MinSeverity);
    Some (mkEmail a b c d e f g h i)).

Definition syslog_names : list string := ["enabled"; "host"; "port"; "protocol"; "facility"].
Definition set_syslog : syslogRemoteConfig -> json -> option syslogRemoteConfig :=
  set_struct syslog_names (fun o ms =>
    let str name v := get_field set_string syslog_names name v ms in
    a ← get_field set_bool syslog_names "enabled" o.(sy_Enabled) ms; b ← str "host" o.(sy_Host);
    c ← get_field set_int syslog_names "port" o.(sy_Port) ms; d ← str "protocol" o.(sy_Protocol);
    e ← str "facility" o.(sy_Facility); Some (mkSyslog a b c d e)).

Definition dashboard_names : list string := ["enabled"; "listen"; "tls_cert"; "tls_key"].
Definition set_dashboard : dashboardConfig -> json -> option dashboardConfig :=
  set_struct dashboard_names (fun o ms =>
    let str name v := get_field set_string dashboard_names name v ms in
    a ← get_field set_bool dashboard_names "enabled" o.(da_Enabled) ms; b ← str "listen" o.(da_Listen);
    c ← str "tls_cert" o.(da_TLSCert); d ← str "tls_key" o.(da_TLSKey); Some (mkDashboard a b c d)).

Definition config_names : list string :=
  ["policy_path"; "baseline_path"; "event_path"; "response_path"; "artifact_dir"; "socket_path"; "interval_sec"; "syslog";
   "dry_run"; "retention"; "file_watch"; "nft"; "allowed_uids"; "integrity"; "suppression"; "bpf"; "fanotify"; "anchor";
   "signing_key_path"; "quarantine"; "webhooks"; "email_alerts"; "syslog_remote"; "dashboard"].

Definition zeroWebhook : webhookConfig := mkWebhook "" [] 0 "" "".

Definition set_config : config -> json -> option config :=
  set_struct config_names (fun o ms =>
    let str name v := get_field set_string config_names name v ms in
    pp ← str "policy_path" o.(PolicyPath); bp ← str "baseline_path" o.(BaselinePath); ep ← str "event_path" o.(EventPath);
    rp ← str "response_path" o.(ResponsePath); ad ← str "artifact_dir" o.(ArtifactDir); sp ← str "socket_path" o.(SocketPath);
    iv ← get_field set_int config_names "interval_sec" o.(IntervalSec) ms;
    sl ← get_field set_bool config_names "syslog" o.(Syslog) ms; dr ← get_field set_bool config_names "dry_run" o.(DryRun) ms;
    re ← get_field set_retention config_names "retention" o.(Retention) ms;
    fw ← get_field set_watch config_names "file_watch" o.(FileWatch) ms; nf ← get_field set_nft config_names "nft" o.(NFT) ms;
    au ← get_field (set_slice set_int 0) config_names "allowed_uids" (of_list o.(AllowedUIDs)) ms;
    ig ← get_field set_integrity config_names "integrity" o.(Integrity) ms;
    su ← get_field set_suppression config_names "suppression" o.(Suppression) ms;
    bc ← get_field set_bpf config_names "bpf" o.(BPF) ms; fa ← get_field set_fanotify config_names "fanotify" o.(Fanotify) ms;
    an ← get_field set_anchor config_names "anchor" o.(Anchor) ms; sk ← str "signing_key_path" o.(SigningKeyPath);
    qu ← get_field set_quarantine config_names "quarantine" o.(Quarantine) ms;
    wh ← get_field (set_slice set_webhook zeroWebhook) config_names "webhooks" (of_list o.(Webhooks)) ms;
    em ← get_field set_email config_names "email_alerts" o.(EmailAlerts) ms;
    sy ← get_field set_syslog config_names "syslog_remote" o.(SyslogRemote) ms;
    da ← get_field set_dashboard config_names "dashboard" o.(Dashboard) ms;
    Some (mkConfig pp bp ep rp ad sp iv sl dr re fw nf (elems au) ig su bc fa an sk qu (elems wh) em sy da)).

Definition with_interval (c : config) (n : Z) : config :=
  mkConfig c.(PolicyPath) c.(BaselinePath) c.(EventPath) c.(ResponsePath) c.(ArtifactDir) c.(SocketPath) n c.(Syslog)
    c.(DryRun) c.(Retention) c.(FileWatch) c.(NFT) c.(AllowedUIDs) c.(Integrity) c.(Suppression) c.(BPF) c.(Fanotify)
    c.(Anchor) c.(SigningKeyPath) c.(Quarantine) c.(Webhooks) c.(EmailAlerts) c.(SyslogRemote) c.(Dashboard).

(** [None] is an error. *)
Definition loadConfig (d : Disk) (path : string) : option config :=
  match readFile d path with
  | Err NotExist => Some defaults
  | Err Denied => None
  | Ok raw =>
      match next_value (bytes (cleanJSON (text raw))) with
      | None => None
      | Some (j, _) =>
          c ← set_config defaults j;
          Some (if c.(IntervalSec) <=? 0 then with_interval c 1 else c)
      end
  end.

End Decode.

(** ** What is stripped *)

(** The inside of a string literal: no bare quote, and no escape left open. *)
Fixpoint closed_body (l : list ascii) : bool :=
  match l with
  | [] => true
  | a :: l1 =>
      if a == backslash then match l1 with _ :: l2 => closed_body l2 | [] => false end
      else if a == dq then false else closed_body l1
  end.

(** Text without comments: string literals, and characters other than quotes
    and slashes. *)
Inductive code_text : list ascii -> Prop :=
| ct_nil : code_text []
| ct_char a l : a <> dq -> a <> "/"%char -> code_text l -> code_text (a :: l)
| ct_string body l : closed_body body = true -> code_text l -> code_text (dq :: body ++ dq :: l).

(** No end of a block comment. *)
Fixpoint no_close (l : list ascii) : bool :=
  match l with
  | a :: (b :: _) as l1 => negb ((a == "*"%char) && (b == "/"%char)) && no_close l1
  | _ => true
  end.

(** [commented b line kept b']: a line that starts inside a block comment when
    [b], the text of it outside comments, and whether a block comment is open
    at its end. *)
Inductive commented : bool -> list ascii -> list ascii -> bool -> Prop :=
| cm_code l : code_text l -> commented false l l false
| cm_line l rest : code_text l -> commented false (l ++ "/"%char :: "/"%char :: rest) l false
| cm_block l r kept b : code_text l -> commented true r kept b -> commented false (l ++ "/"%char :: "*"%char :: r) (l ++ kept) b
| cm_open r : no_close r = true -> commented true r [] true
| cm_close c r kept b :
    no_close c = true -> commented false r kept b -> commented true (c ++ "*"%char :: "/"%char :: r) kept b.

Definition put (l : list ascii) (r : list ascii * bool) : list ascii * bool := (l ++ r.1, r.2).

Lemma strip_string body l : closed_body body = true ->
  strip (body ++ dq :: l) false true false = put (body ++ [dq]) (strip l false false false).
Proof.
  remember (length body) as n eqn:Hn. revert body Hn. induction n as [n IH] using lt_wf_ind. intros body -> Hb.
  destruct body as [|a body]; [done|]. cbn [closed_body] in Hb. cbn [app strip].
  case_bool_decide as Ha.
  - destruct body as [|c body]; [done|]. cbn [app strip]. rewrite (IH (length body)); [done|simpl; lia|done|done].
  - case_bool_decide as Hq; [done|]. rewrite (IH (length body)); [done|simpl; lia|done|done].
Qed.

Lemma code_text_app l r : code_text l -> code_text r -> code_text (l ++ r).
Proof.
  intros Hl Hr. induction Hl as [|a l H1 H2 _ IH|body l Hb _ IH]; simpl; [done|by constructor|].
  rewrite <- app_assoc. by constructor.
Qed.

(** A text without comments before what follows. *)
Lemma strip_code l r : code_text l -> strip (l ++ r) false false false = put l (strip r false false false).
Proof.
  intros Hl. induction Hl as [|a l H1 H2 _ IH|body l Hb _ IH].
  - unfold put. simpl. by destruct (strip r false false false).
  - cbn [app strip]. rewrite (bool_decide_eq_false_2 _ H1), (bool_decide_eq_false_2 _ H2). cbn [andb]. rewrite IH.
    unfold put. by destruct (l ++ r).
  - cbn [app strip]. rewrite (bool_decide_eq_true_2 (dq = dq)) by done. rewrite <- app_assoc. cbn [app].
    rewrite (strip_string body), IH by done. unfold put. simpl. by rewrite <- !app_assoc.
Qed.

Lemma strip_open r : no_close r = true -> strip r true false false = ([], true).
Proof.
  induction r as [|a r IH]; intros Hr; [done|]. destruct r as [|b r]; [done|].
  cbn [no_close] in Hr. apply andb_true_iff in Hr as [H1%negb_true_iff H2]. cbn [strip]. rewrite H1. by apply IH.
Qed.

Lemma strip_close c r : no_close c = true ->
  strip (c ++ "*"%char :: "/"%char :: r) true false false = strip r false false false.
Proof.
  induction c as [|a c IH]; intros Hc; [done|]. destruct c as [|b c].
  - cbn [app strip]. by destruct (bool_decide (a = "*"%char)).
  - cbn [no_close] in Hc. apply andb_true_iff in Hc as [H1%negb_true_iff H2]. cbn [app strip] in *. rewrite H1. by apply IH.
Qed.

Lemma strip_commented b l kept b' : commented b l kept b' -> strip l b false false = (kept, b') /\ code_text kept.
Proof.
  induction 1 as [l Hl|l rest Hl|l r kept b Hl _ [IH Hk]|r Hr|c r kept b Hc _ [IH Hk]].
  - split; [|done]. pose proof (strip_code l [] Hl) as E. rewrite app_nil_r in E. rewrite E. unfold put. simpl. by rewrite app_nil_r.
  - split; [|done]. rewrite strip_code by done. unfold put. simpl. by rewrite app_nil_r.
  - split; [|by apply code_text_app]. rewrite strip_code by done. simpl. by rewrite IH.
  - split; [by apply strip_open|constructor].
  - split; [|done]. by rewrite strip_close.
Qed.

(** The lines of a document, one after the other. *)
Inductive document : bool -> list string -> list string -> Prop :=
| doc_nil b : document b [] []
| doc_line b line kept b' lines keeps :
    commented b (bytes line) (bytes kept) b' -> document b' lines keeps -> document b (line :: lines) (kept :: keeps).

Lemma clean_document b lines keeps :
  document b lines keeps -> clean_lines lines b = filter (fun l => trimSpace l <> "") keeps
    /\ Forall (fun l => code_text (bytes l)) keeps.
Proof.
  induction 1 as [b|b line kept b' lines keeps Hc _ [IH Hk]]; [by split|].
  destruct (strip_commented _ _ _ _ Hc) as [E Ht]. split; [|by constructor].
  cbn [clean_lines]. unfold stripComments. rewrite E, text_bytes. case_bool_decide as Hb.
  - rewrite filter_cons_False; [done|]. tauto.
  - rewrite filter_cons_True by done. by rewrite IH.
Qed.

(** Cleaning a configuration whose lines are text, string literals and
    comments, in any mixture, with block comments over several lines, leaves
    the text outside comments of every line that is not blank then, in order;
    what looks like a comment inside a string stays.  Cleaned lines are left as
    they are when cleaned again. *)
Theorem cleanJSON_spec (raw : string) (keeps : list string) :
  document false (split (byte 10) raw) keeps ->
  cleanJSON raw = join nl (filter (fun l => trimSpace l <> "") keeps)
  /\ Forall (fun l => stripComments l false = (l, false)) keeps.
Proof.
  intros Hd. destruct (clean_document _ _ _ Hd) as [E Hk]. unfold cleanJSON. rewrite E. split; [done|].
  eapply Forall_impl; [exact Hk|]. intros l Hl. unfold stripComments.
  destruct (strip_commented false (bytes l) (bytes l) false (cm_code _ Hl)) as [-> _]. by rewrite text_bytes.
Qed.

(** ** What is loaded *)

Definition int64_ok (z : Z) : Prop := - 2 ^ 63 <= z < 2 ^ 63.
Definition uint64_ok (z : Z) : Prop := 0 <= z < 2 ^ 64.

Record config_ok (c : config) : Prop := {
  ok_interval : 1 <= c.(IntervalSec) < 2 ^ 63;
  ok_retention : int64_ok c.(Retention).(rc_MaxBytes) /\ int64_ok c.(Retention).(rc_MaxBackups);
  ok_uids : Forall int64_ok c.(AllowedUIDs);
  ok_cooldowns : int64_ok c.(Suppression).(su_Process) /\ int64_ok c.(Suppression).(su_File) /\ int64_ok c.(Suppression).(su_Network);
  ok_rate : uint64_ok c.(Suppression).(su_RatePerSec) /\ uint64_ok c.(Suppression).(su_Burst);
  ok_numbers : int64_ok c.(BPF).(bc_RingbufPages) /\ int64_ok c.(Anchor).(ac_Interval) /\ int64_ok c.(EmailAlerts).(em_SMTPPort)
    /\ int64_ok c.(SyslogRemote).(sy_Port);
  ok_webhooks : Forall (fun w => int64_ok w.(wc_TimeoutSec)) c.(Webhooks);
}.

Lemma parse_digits_range base m l acc : 0 <= acc <= m -> 0 <= base -> 0 <= (parse_digits base m l acc).1 <= m.
Proof.
  intros Ha Hb. revert acc Ha. induction l as [|a l IH]; intros acc Ha; cbn [parse_digits]; [done|].
  destruct (digit_val a) as [d|] eqn:Ed; [|simpl; lia]. destruct (d <? base); [|simpl; lia].
  destruct (Z.ltb_spec m (acc * base + d)); [simpl; lia|]. apply IH.
  assert (0 <= d) as Hd; [|nia]. unfold digit_val in Ed.
  repeat (case_match; try done); injection Ed as <-; lia.
Qed.

Lemma parseUint_range s : uint64_ok (parseUint 10 64 s).1.
Proof.
  unfold parseUint, uint64_ok. destruct (bytes s) as [|a l]; [simpl; lia|].
  pose proof (parse_digits_range 10 (2 ^ 64 - 1) (a :: l) 0). lia.
Qed.

Lemma parseInt_range s : int64_ok (parseInt 10 64 s).1.
Proof.
  unfold parseInt, int64_ok. destruct s as [|a s]; [simpl; lia|].
  set (neg := bool_decide (a = "-"%char)). set (t := if neg || _ then s else _).
  pose proof (parseUint_range t) as Hu. unfold uint64_ok in Hu. destruct (parseUint 10 64 t) as [un e]. cbn [fst] in Hu.
  assert (int64_ok (if negb neg && (2 ^ (64 - 1) <=? un) then (2 ^ (64 - 1) - 1, Some ErrRange)
    else if neg && (2 ^ (64 - 1) <? un) then (- 2 ^ (64 - 1), Some ErrRange) else (if neg then - un else un, None)).1) as H.
  { unfold int64_ok. destruct neg; cbn [negb andb].
    - destruct (Z.ltb_spec (2 ^ (64 - 1)) un); cbn [fst]; lia.
    - destruct (Z.leb_spec (2 ^ (64 - 1)) un); cbn [fst]; lia. }
  destruct e as [[]|]; [simpl; lia|exact H|exact H].
Qed.

Section Loaded.
Context {UC : GoUnicode}.

Lemma set_int_ok old j z : int64_ok old -> set_int old j = Some z -> int64_ok z.
Proof.
  intros Ho. destruct j; try done; simpl; [by intros [= <-]|]. pose proof (parseInt_range lit) as Hr.
  destruct (parseInt 10 64 lit) as [v [e|]]; [done|]. by intros [= <-].
Qed.

Lemma set_uint_ok old j z : uint64_ok old -> set_uint64 old j = Some z -> uint64_ok z.
Proof.
  intros Ho. destruct j; try done; simpl; [by intros [= <-]|]. pose proof (parseUint_range lit) as Hr.
  destruct (parseUint 10 64 lit) as [v [e|]]; [done|]. by intros [= <-].
Qed.

(** A field keeps what its setter keeps. *)
Lemma get_field_ok {A} (P : A -> Prop) set names name init ms r :
  (forall a j a', P a -> set a j = Some a' -> P a') -> P init -> get_field set names name init ms = Some r -> P r.
Proof.
  intros Hset Hi. unfold get_field.
  assert (forall acc, (forall a, acc = Some a -> P a) ->
    foldl (fun acc kv => if field_of names kv.1 == Some name then acc ≫= (fun a => set a kv.2) else acc) acc ms = Some r -> P r) as H.
  { induction ms as [|kv ms IH]; intros acc Ha; simpl; [apply Ha|]. apply IH. intros a. case_bool_decide; [|apply Ha].
    destruct acc as [x|]; [|done]. simpl. apply Hset. by apply Ha. }
  apply H. by intros a [= <-].
Qed.

Lemma set_struct_ok {A} (P : A -> Prop) names dec (old : A) j r :
  (forall ms a, dec old ms = Some a -> P a) -> P old -> set_struct names dec old j = Some r -> P r.
Proof.
  intros Hd Ho. destruct j; try done; simpl; [by intros [= <-]|]. destruct (negb _); [done|]. apply Hd.
Qed.

Lemma fill_ok {A} (P : A -> Prop) set zero (old : list A) js l :
  (forall a j a', P a -> set a j = Some a' -> P a') -> P zero -> Forall P old -> fill set zero old js = Some l -> Forall P l.
Proof.
  intros Hset Hz. revert old l. induction js as [|j js IH]; intros old l Ho; simpl; [by intros [= <-]|].
  intros (x & Hx & (l' & Hl & [= <-])%bind_Some)%bind_Some. constructor.
  - eapply Hset; [|exact Hx]. by destruct Ho.
  - eapply IH; [|exact Hl]. by destruct Ho.
Qed.

Lemma set_slice_ok {A} (P : A -> Prop) set zero (old : slice A) j r :
  (forall a j a', P a -> set a j = Some a' -> P a') -> P zero -> Forall P old.1 -> set_slice set zero old j = Some r ->
  Forall P r.1.
Proof.
  intros Hset Hz Ho. destruct j; try done; simpl; [by intros [= <-]|]. destruct l as [|j js]; [by intros [= <-]|].
  intros (l & E & ->)%fmap_Some. simpl. by eapply fill_ok.
Qed.

(** Every number the decoder of a section leaves is in range. *)
Ltac in_range :=
  repeat match goal with
  | H : (let _ := _ in _) = Some _ |- _ => cbv zeta beta in H
  | H : (_ ≫= _) = Some _ |- _ => apply bind_Some in H as (? & ? & H)
  | H : Some _ = Some _ |- _ => injection H as <-
  end;
  repeat match goal with
  | H : get_field set_int _ _ _ _ = Some _ |- _ => apply (get_field_ok int64_ok) in H; [|by apply set_int_ok|tauto]
  | H : get_field set_uint64 _ _ _ _ = Some _ |- _ => apply (get_field_ok uint64_ok) in H; [|by apply set_uint_ok|tauto]
  end.

Definition retention_ok (r : retentionConfig) : Prop := int64_ok r.(rc_MaxBytes) /\ int64_ok r.(rc_MaxBackups).
Lemma set_retention_ok old j r : retention_ok old -> set_retention old j = Some r -> retention_ok r.
Proof.
  intros Ho. apply set_struct_ok; [|done]. intros ms a H. unfold retention_ok in *. in_range. simpl. done.
Qed.

Definition suppression_ok (s : suppressionConfig) : Prop :=
  (int64_ok s.(su_Process) /\ int64_ok s.(su_File) /\ int64_ok s.(su_Network)) /\ uint64_ok s.(su_RatePerSec) /\ uint64_ok s.(su_Burst).
Lemma set_suppression_ok old j r : suppression_ok old -> set_suppression old j = Some r -> suppression_ok r.
Proof.
  intros Ho. apply set_struct_ok; [|done]. intros ms a H. unfold suppression_ok in *. in_range. simpl. done.
Qed.

Lemma set_bpf_ok old j r : int64_ok old.(bc_RingbufPages) -> set_bpf old j = Some r -> int64_ok r.(bc_RingbufPages).
Proof. intros Ho. apply (set_struct_ok (fun r => int64_ok r.(bc_RingbufPages))); [|done]. intros ms a H. in_range. simpl. done. Qed.

Lemma set_anchor_ok old j r : int64_ok old.(ac_Interval) -> set_anchor old j = Some r -> int64_ok r.(ac_Interval).
Proof. intros Ho. apply (set_struct_ok (fun r => int64_ok r.(ac_Interval))); [|done]. intros ms a H. in_range. simpl. done. Qed.

Lemma set_email_ok old j r : int64_ok old.(em_SMTPPort) -> set_email old j = Some r -> int64_ok r.(em_SMTPPort).
Proof. intros Ho. apply (set_struct_ok (fun r => int64_ok r.(em_SMTPPort))); [|done]. intros ms a H. in_range. simpl. done. Qed.

Lemma set_syslog_ok old j r : int64_ok old.(sy_Port) -> set_syslog old j = Some r -> int64_ok r.(sy_Port).
Proof. intros Ho. apply (set_struct_ok (fun r => int64_ok r.(sy_Port))); [|done]. intros ms a H. in_range. simpl. done. Qed.

Lemma set_webhook_ok old j r : int64_ok old.(wc_TimeoutSec) -> set_webhook old j = Some r -> int64_ok r.(wc_TimeoutSec).
Proof. intros Ho. apply (set_struct_ok (fun r => int64_ok r.(wc_TimeoutSec))); [|done]. intros ms a H. in_range. simpl. done. Qed.

Lemma elems_ok {A} (P : A -> Prop) (s : slice A) : Forall P s.1 -> Forall P (elems s).
Proof. intros H. unfold elems. by apply Forall_take. Qed.

(** Before the interval is looked at. *)
Definition decoded_ok (c : config) : Prop :=
  int64_ok c.(IntervalSec) /\ retention_ok c.(Retention) /\ Forall int64_ok c.(AllowedUIDs) /\ suppression_ok c.(Suppression)
  /\ int64_ok c.(BPF).(bc_RingbufPages) /\ int64_ok c.(Anchor).(ac_Interval) /\ int64_ok c.(EmailAlerts).(em_SMTPPort)
  /\ int64_ok c.(SyslogRemote).(sy_Port) /\ Forall (fun w => int64_ok w.(wc_TimeoutSec)) c.(Webhooks).

Lemma set_config_ok old j c : decoded_ok old -> set_config old j = Some c -> decoded_ok c.
Proof.
  intros Ho. apply set_struct_ok; [|done]. intros ms a H. destruct Ho as (H1 & H2 & H3 & H4 & H5 & H6 & H7 & H8 & H9).
  in_range. unfold decoded_ok. cbn [IntervalSec Retention AllowedUIDs Suppression BPF Anchor EmailAlerts SyslogRemote Webhooks].
  split_and!; [done|..].
  - by eapply (get_field_ok retention_ok); [apply set_retention_ok| |eassumption].
  - apply elems_ok. eapply (get_field_ok (fun s : slice Z => Forall int64_ok s.1)); [| |eassumption]; [|exact H3].
    intros a j' a' Ha. by apply set_slice_ok; [apply set_int_ok| |].
  - by eapply (get_field_ok suppression_ok); [apply set_suppression_ok| |eassumption].
  - by eapply (get_field_ok (fun r => int64_ok r.(bc_RingbufPages))); [apply set_bpf_ok| |eassumption].
  - by eapply (get_field_ok (fun r => int64_ok r.(ac_Interval))); [apply set_anchor_ok| |eassumption].
  - by eapply (get_field_ok (fun r => int64_ok r.(em_SMTPPort))); [apply set_email_ok| |eassumption].
  - by eapply (get_field_ok (fun r => int64_ok r.(sy_Port))); [apply set_syslog_ok| |eassumption].
  - apply elems_ok. eapply (get_field_ok (fun s : slice webhookConfig => Forall (fun w => int64_ok w.(wc_TimeoutSec)) s.1));
      [| |eassumption]; [|exact H9].
    intros a j' a' Ha. by apply (set_slice_ok (fun w => int64_ok w.(wc_TimeoutSec))); [apply set_webhook_ok| |].
Qed.

Lemma defaults_ok : decoded_ok defaults.
Proof. unfold decoded_ok, retention_ok, suppression_ok, int64_ok, uint64_ok. simpl. repeat constructor; lia. Qed.

End Loaded.

(** The time between two rounds, as [time.NewTicker] gets it; it panics when
    this is not positive. *)
Definition ticker_period (c : config) : Z := wraps 64 (c.(IntervalSec) * second).

(** C39. A configuration that is loaded has every number in the range of its
    type and an interval of at least a second; up to 9223372036 seconds the
    period of the ticker is that many seconds, so the ticker can be made. *)
Theorem config_well_formed {UC : GoUnicode} (d : Disk) (path : string) (c : config) :
  loadConfig d path = Some c ->
  config_ok c /\ (c.(IntervalSec) <= 9223372036 -> ticker_period c = c.(IntervalSec) * second /\ 0 < ticker_period c).
Proof.
  intros H. assert (exists c0, decoded_ok c0 /\ c = if IntervalSec c0 <=? 0 then with_interval c0 1 else c0) as (c0 & Hd & ->).
  { unfold loadConfig in H. destruct (readFile d path) as [raw|[]]; [|by injection H as <-; exists defaults; split; [apply defaults_ok|]|done].
    destruct (next_value _) as [[j rest]|]; [|done]. apply bind_Some in H as (c0 & Hc & [= <-]). exists c0. split; [|done].
    eapply set_config_ok; [apply defaults_ok|exact Hc]. }
  destruct Hd as (H1 & [H2 H2'] & H3 & [H4 H4'] & H5 & H6 & H7 & H8 & H9). unfold int64_ok in H1.
  destruct (Z.leb_spec (IntervalSec c0) 0) as [Hi|Hi]; (split; [constructor; simpl; try done; lia|]);
    unfold ticker_period, second; cbn [IntervalSec with_interval]; intros Hb; rewrite wraps_small by lia; lia.
Qed.

(** ** The socket *)

(** What [os.Lstat] finds at the path of the socket. *)
Inductive found_at := Nothing | Unreadable | ASymlink | ASocket | SomethingElse.

Inductive socket_err := SkDir | SkStat | SkSymlink | SkOther | SkRemove.

(** Whether the path was removed. *)
Definition prepareSocketPath (mkdir_ok : bool) (st : found_at) (remove_ok : bool) : result socket_err bool :=
  if negb mkdir_ok then Err SkDir
  else match st with
  | Nothing => Ok false
  | Unreadable => Err SkStat
  | ASymlink => Err SkSymlink
  | SomethingElse => Err SkOther
  | ASocket => if remove_ok then Ok true else Err SkRemove
  end.

(** ** The key of the log *)

(** The key, the label of its source, and the disk. *)
Definition resolveSigningKey (d : Disk) (envValue : string) (random : option (list ascii)) (c : integrityConfig)
    : result key_err (list ascii * string) * Disk :=
  if negb c.(ic_EnableChain) then (Ok ([], "disabled"), d)
  else
    let path := trimSpace c.(ic_KeyPath) in
    if path == "" then (Err KErrPath, d)
    else
      let '(r, d) := LoadOrCreate d path envValue random in
      (let? ks := r in
       Ok (ks.1, match ks.2 with SourceEnv => "env:EDR_LOG_KEY" | SourceFile | SourceGenFile => "file:" +:+ path end), d).

(** ** Concrete files *)

Module Sample.
#[local] Instance unicode : GoUnicode := {| uni_equalFold := String.eqb; uni_toLower := id |}.

Definition lines (l : list string) : list ascii := concat (map (fun s => jtext s ++ [byte 10]) l).

Definition file : list ascii :=
  lines ["{ // agent"; "  /* two"; "     lines */ 'interval_sec': 0,"; "  'event_path': '/var//log /* x */' }"].

Definition disk (b : list ascii) : Disk := mkDisk {["c" := b]} (fun _ => false) (fun _ => false) false.

Definition kept : list string :=
  map (fun s => text (jtext s)) ["{ "; "  "; " 'interval_sec': 0,"; "  'event_path': '/var//log /* x */' }"; ""].

Lemma chars_code l : forallb (fun a => negb (a == dq) && negb (a == "/"%char)) l = true -> code_text l.
Proof.
  induction l as [|a l IH]; simpl; [constructor|]. intros [[H1 H2]%andb_true_iff H3]%andb_true_iff.
  apply negb_true_iff in H1, H2. constructor; [by apply bool_decide_eq_false in H1|by apply bool_decide_eq_false in H2|auto].
Qed.

Lemma file_document : document false (split (byte 10) (text file)) kept.
Proof.
  change (split (byte 10) (text file)) with
    (map (fun s => text (jtext s)) ["{ // agent"; "  /* two"; "     lines */ 'interval_sec': 0,";
       "  'event_path': '/var//log /* x */' }"; ""]).
  unfold kept. simpl map.
  eapply doc_line; [apply (cm_line (bytes "{ ") (bytes " agent")), chars_code; reflexivity|].
  eapply doc_line; [apply (cm_block (bytes "  ") (bytes " two") [] true); [by apply chars_code|by apply cm_open]|].
  eapply doc_line.
  { apply (cm_close (bytes "     lines ") (jtext " 'interval_sec': 0,")); [reflexivity|]. apply cm_code.
    change (jtext " 'interval_sec': 0,") with (byte 32 :: dq :: bytes "interval_sec" ++ dq :: bytes ": 0,").
    constructor; [done|done|]. apply (ct_string (bytes "interval_sec") (bytes ": 0,")); [reflexivity|]. by apply chars_code. }
  eapply doc_line.
  { apply cm_code.
    apply (code_text_app (bytes "  ") (dq :: bytes "event_path" ++ dq :: bytes ": " ++ dq :: bytes "/var//log /* x */" ++ dq :: bytes " }"));
      [by apply chars_code|]. apply ct_string; [reflexivity|].
    apply code_text_app; [by apply chars_code|]. apply ct_string; [reflexivity|]. by apply chars_code. }
  eapply doc_line; [apply (cm_code []); constructor|]. constructor.
Qed.

Lemma cleanJSON_spec_witness :
  cleanJSON (text file) = join nl (filter (fun l => trimSpace l <> "") kept)
  /\ Forall (fun l => stripComments l false = (l, false)) kept.
Proof. apply (cleanJSON_spec (text file) kept). exact file_document. Defined.

(** The defaults are kept where the file is silent, the interval is raised. *)
Example loaded :
  match loadConfig (disk file) "c" with
  | Some c => (EventPath c, IntervalSec c, PolicyPath c, DryRun c) = ("/var//log /* x */", 1, "configs/policy.json", true)
  | None => False
  end.
Proof. vm_compute. reflexivity. Qed.

(** Unknown members are refused at every level. *)
Example unknown_refused :
  loadConfig (disk (jtext "{'nft':{'tabel':'x'}}")) "c" = None /\ loadConfig (disk (jtext "{'x':1}")) "c" = None.
Proof. vm_compute. auto. Qed.

Definition slow : config := with_interval defaults 9223372037.

Lemma config_well_formed_witness : config_ok defaults /\ ticker_period defaults = second.
Proof.
  destruct (config_well_formed (disk []) "none" defaults) as [H1 H2]; [reflexivity|]. split; [exact H1|].
  destruct H2 as [E _]; [simpl; lia|]. exact E.
Defined.

(** An interval the file may give, for which the ticker panics. *)
Example slow_period_negative :
  (IntervalSec <$> loadConfig (disk (jtext "{'interval_sec':9223372037}")) "c") = Some 9223372037
  /\ ticker_period slow < 0.
Proof. split; vm_compute; reflexivity. Qed.

End Sample.
