(* ===== verification/Main.v ===== *)
(** * The agent program ([cmd/edr-agent/main.go], [main_libbpf.go],
      [main_stub_bpf.go])

    The start: what is checked, in which order, and how the parts are put
    together from the configuration.  The loop: a step relation over signals,
    ticks and requests to end.  The starting of goroutines, the listening
    socket and the flags of the command line are not modelled. *)

From S2P Require Import Prelude GoStrings GoTime Json GoJson Crypto EventLog LogRun Anchor BpfEvent Loader Bridge MapSync BpfMaps Collector Suppress Policy Response Nft Quarantine Responder Agent Security Query Disk Keys PolicyFile PolicyStore Baseline Metrics Server Config.

#[local] Open Scope string_scope.
#[local] Open Scope list_scope.
#[local] Open Scope Z_scope.

(** ** The start *)

Inductive start_err :=
| StartBase (dir : string) (e : base_err) | StartPolicy (e : load_err) | StartKey (e : key_err) | StartLog | StartLoader.

(** The loader a configuration asks for; [wired] is whether the build has one,
    and [load] its outcome. *)
Definition startBPFLoader {FS} (wired : bool) (load : option FS) (c : bpfConfig) : result start_err (option FS) :=
  if negb c.(bc_Enabled) then Ok None
  else if c.(bc_ObjDir) == "" then Err StartLoader
  else if negb wired then Err StartLoader
  else match load with Some l => Ok (Some l) | None => Err StartLoader end.

(** The directories that are checked. *)
Definition checked_dirs (c : config) : list string :=
  List.filter (fun p => (p != "") && (p != "."))
    [c.(Config.ArtifactDir); dirName c.(Config.EventPath); dirName c.(Config.ResponsePath); dirName c.(SocketPath);
     dirName c.(Config.PolicyPath); dirName c.(Config.BaselinePath); dirName c.(Integrity).(ic_KeyPath);
     dirName c.(Suppression).(su_StatePath)].

Fixpoint check_dirs (fs : fsys) (cwd : path) (dirs : list string) : result start_err fsys :=
  match dirs with
  | [] => Ok fs
  | p :: dirs =>
      match ValidateBaseNotSymlink fs cwd p with
      | Err e => Err (StartBase p e)
      | Ok fs => check_dirs fs cwd dirs
      end
  end.

(** Durations are [int64] nanoseconds. *)
Definition seconds (n : Z) : Z := wraps 64 (n * second).

Definition suppressor_options (c : config) : SuppressorOptions :=
  mkOptions (seconds c.(Suppression).(su_Process)) (seconds c.(Suppression).(su_File)) (seconds c.(Suppression).(su_Network))
    c.(Suppression).(su_RatePerSec) c.(Suppression).(su_Burst).

Definition log_options (c : config) (key : list ascii) : EventLog.Options :=
  mkLogOptions c.(Syslog) c.(Retention).(rc_MaxBytes) c.(Retention).(rc_MaxBackups)
    (mkIntegrityOptions c.(Integrity).(ic_EnableChain) c.(Integrity).(ic_Algorithm) key c.(Integrity).(ic_StatePath)) noRemote.

(** The quarantine section is not handed on. *)
Definition responder_of (c : config) : SoftResponder :=
  mkResponder c.(Config.DryRun)
    (mkNFT c.(Config.NFT).(nc_Enabled) c.(Config.NFT).(nc_DryRun) c.(Config.NFT).(nc_Table) c.(Config.NFT).(nc_Chain))
    (mkQuarantine "" false).

Definition anchor_of (c : config) (host bootID : string) : option Anchor.Anchor :=
  if c.(Config.Anchor).(ac_Enabled)
  then NewAnchor (mkAnchorOptions c.(Config.Anchor).(ac_URL) c.(Config.Anchor).(ac_FilePath)
         (seconds c.(Config.Anchor).(ac_Interval)) host bootID)
  else None.

Definition server_options (c : config) (key : list ascii) (anchor : option Anchor.Anchor) : ServerOptions :=
  mkServerOptions c.(Config.BaselinePath) c.(Config.PolicyPath) c.(Config.EventPath) c.(Config.ArtifactDir)
    c.(Config.AllowedUIDs) key c.(Config.SigningKeyPath) anchor true false None.

Section Start.
Context {UC : GoUnicode} {FO : FloatOps} {FT : FloatText}.
Context {FS : Type} {MF : MapFiller FS}.

(** The maps at the start; in [once] mode the pid is left out. *)
Definition fill_maps (once : bool) (pid : Z) (pol : Policy) (fs : FS) : FS :=
  let fs := if once then fs else (SetAgentPID fs (wrapu 32 pid)).2 in
  foldl (fun fs bl => if m_ProcessName bl != "" then (BlacklistAdd fs (m_ProcessName bl)).2 else fs) fs
    pol.(p_ProcessAccess).(pa_Blacklist).

Record StartEnv := mkStartEnv {
  se_disk : Disk; se_fs : fsys; se_cwd : path; se_keyEnv : string; se_random : option (list ascii);
  se_log : LogEnv;                               (** what the making of the logger meets *)
  se_wired : bool; se_load : option FS; se_host : string; se_bootID : string; se_pid : Z;
}.

Record Started := mkStarted {
  st_disk : Disk; st_fs : fsys; st_policy : Policy; st_key : list ascii; st_keySource : string; st_log : Logger;
  st_agent : Agent; st_filler : option FS; st_responder : SoftResponder; st_server : ServerOptions;
  st_fanotify : list string;                     (** the paths to be marked, none when it is off *)
}.

Definition new_agent (c : config) (pol : Policy) : Agent :=
  mkAgent pol (Some (NewSuppressor (suppressor_options c))) c.(Suppression).(su_StatePath) [] 0 c.(Config.ResponsePath)
    (mkCounters 0 0 0 0 ∅ ∅) None None true.

(** The files that can be read. *)
Definition readable (d : Disk) : files := filter (fun kv => d.(no_read) kv.1 = false) d.(content).

Definition startup (e : StartEnv) (once : bool) (c : config) : result start_err Started :=
  let? fs := check_dirs e.(se_fs) e.(se_cwd) (checked_dirs c) in
  match Load e.(se_disk) c.(Config.PolicyPath) with
  | Err err => Err (StartPolicy err)
  | Ok pol =>
      match resolveSigningKey e.(se_disk) e.(se_keyEnv) e.(se_random) c.(Integrity) with
      | (Err err, _) => Err (StartKey err)
      | (Ok (key, source), d) =>
          let? logger := match NewWithOptions (readable d) e.(se_log) c.(Config.EventPath) (log_options c key) with
                         | Ok l => Ok l | Err _ => Err StartLog
                         end in
          let? loader := startBPFLoader e.(se_wired) e.(se_load) c.(BPF) in
          Ok (mkStarted d fs pol key source logger (new_agent c pol)
                (fill_maps once e.(se_pid) pol <$> loader) (responder_of c)
                (server_options c key (anchor_of c e.(se_host) e.(se_bootID)))
                (if c.(Fanotify).(fc_Enabled) then c.(Fanotify).(fc_Paths) else []))
      end
  end.

(** ** The report on the log at the start *)

Definition verify_severity (res : VerifyResult) : string :=
  if negb res.(v_OK) then "critical" else if present res.(v_LegacySegment) then "warning" else "info".

(** The encoded fields; [detail] is the text of an issue. *)
Definition opt_field (c : bool) (name : string) (v : gval) : list (string * gval) := if c then [(name, v)] else [].

Definition issue_value (detail : IntegrityIssue -> string) (i : IntegrityIssue) : gval :=
  GStruct ([("line", GInt i.(i_Line))] ++ opt_field (i.(i_Seq) != 0) "seq" (GInt i.(i_Seq)) ++ [("kind", GStr i.(i_Kind))]
    ++ opt_field (detail i != "") "detail" (GStr (detail i)) ++ opt_field (i.(i_Expected) != "") "expected" (GStr i.(i_Expected))
    ++ opt_field (i.(i_Actual) != "") "actual" (GStr i.(i_Actual))).

Definition segment_value (g : LegacySegment) : gval :=
  GStruct [("from_line", GInt g.(FromLine)); ("to_line", GInt g.(ToLine)); ("count", GInt g.(Count))].

Definition slice_value {A} (f : A -> gval) (l : list A) : gval := match l with [] => GNil | _ => GSlice (map f l) end.

(** [None] when the log could not be read. *)
Definition emitStartupVerify (detail : IntegrityIssue -> string) (res : option VerifyResult) (host keySource bootID : string)
    (key : list ascii) (uid : Z) : option EventLog.Event :=
  res ← res;
  Some (EventLog.mkEvent "" "" "" 0 "" "" "" timeZero "log-verify-startup" host "audit" (verify_severity res) [] []
    "verify" "alert" "log-verify"
    [("ok", GBool res.(v_OK)); ("chain_id", GStr ""); ("last_seq", GInt res.(v_LastSeq)); ("chain_lines", GInt res.(v_ChainLines));
     ("legacy_lines", GInt res.(v_LegacyLines)); ("issues", slice_value (issue_value detail) res.(v_Issues));
     ("legacy_segments", slice_value segment_value res.(v_LegacySegment));
     ("key_source", GStr keySource); ("hmac_enabled", GBool (present key)); ("agent_uid", GInt uid); ("boot_id", GStr bootID)]).

(** [auditSignalDenied] *)
Definition signal_entry (nano pid : Z) (name : string) : Entry :=
  mkEntry ("signal-deny-" +:+ itoa nano) "self_protection" "critical" (Some [("pid", AInt pid); ("signal", AStr name)]) None
    "signal_denied" "deny" "self-protect-signal"
    [("boundary", AStr "external stop signals are denied; use /v0/shutdown with root-login boundary")].

(** [cleanupNFT]: the commands that are run. *)
Definition cleanupNFT (c : nftConfig) (sh : Shell) : list (list string) :=
  if negb c.(nc_Enabled) || c.(nc_DryRun) then []
  else (Rollback (mkNFT c.(nc_Enabled) false c.(nc_Table) c.(nc_Chain)) sh).2.

End Start.

(** ** The loop *)

Inductive phase := Waiting | Working | Ended.

#[global] Instance phase_eq_dec : EqDecision phase.
Proof. solve_decision. Defined.

(** What the loop does, in order. *)
Inductive act := ADeny (signal : string) | ARun | AClearPID | ACloseServer | ACleanNFT | AShutdown.

(** The phase, the signals and the tick that wait, what was done. *)
Record Loop := mkLoop { l_phase : phase; l_signals : list string; l_tick : bool; l_done : list act }.

Definition loop0 : Loop := mkLoop Waiting [] false [].

(** The end: [ClearAgentPID], the server, the firewall, the agent. *)
Definition ending : list act := [AClearPID; ACloseServer; ACleanNFT; AShutdown].

Inductive happening := HSignal (name : string) | HTicker | HRequest | HLoop.

(** The capacity of the signal channel. *)
Definition signalBuffer : nat := 8.

Inductive step : Loop -> happening -> Loop -> Prop :=
(** a signal arrives; when the channel is full it is dropped *)
| st_signal l s : (length l.(l_signals) < signalBuffer)%nat ->
    step l (HSignal s) (mkLoop l.(l_phase) (l.(l_signals) ++ [s]) l.(l_tick) l.(l_done))
| st_signal_full l s : (signalBuffer <= length l.(l_signals))%nat -> step l (HSignal s) l
| st_ticker l : step l HTicker (mkLoop l.(l_phase) l.(l_signals) true l.(l_done))
(** [requestShutdown] meets the loop only while it waits *)
| st_request l : l.(l_phase) = Waiting -> step l HRequest (mkLoop Ended l.(l_signals) l.(l_tick) (l.(l_done) ++ ending))
| st_request_lost l : l.(l_phase) <> Waiting -> step l HRequest l
(** the loop takes a signal or a tick, and is done with it *)
| st_deny l s ss : l.(l_phase) = Waiting -> l.(l_signals) = s :: ss ->
    step l HLoop (mkLoop Working ss l.(l_tick) (l.(l_done) ++ [ADeny s]))
| st_run l : l.(l_phase) = Waiting -> l.(l_tick) = true ->
    step l HLoop (mkLoop Working l.(l_signals) false (l.(l_done) ++ [ARun]))
| st_idle l : l.(l_phase) = Working -> step l HLoop (mkLoop Waiting l.(l_signals) l.(l_tick) l.(l_done)).

Inductive steps : Loop -> list happening -> Loop -> Prop :=
| steps_nil l : steps l [] l
| steps_cons l h l1 hs l2 : step l h l1 -> steps l1 hs l2 -> steps l (h :: hs) l2.

(** ** The start is sound *)

Section StartProofs.
Context {UC : GoUnicode} {FO : FloatOps} {FT : FloatText}.
Context {FS : Type} {MF : MapFiller FS}.








End StartProofs.


(** ** The loop ends on request only *)

Definition signals_of (hs : list happening) : list string :=
  omap (fun h => match h with HSignal s => Some s | _ => None end) hs.
Definition denied (l : list act) : list string := omap (fun a => match a with ADeny s => Some s | _ => None end) l.
Definition ordinary (a : act) : Prop := a = ARun \/ exists s, a = ADeny s.

Definition loop_ok (hs : list happening) (l : Loop) : Prop :=
  (exists body, l.(l_done) = body ++ (if decide (l.(l_phase) = Ended) then ending else []) /\ Forall ordinary body)
  /\ (l.(l_phase) = Ended -> HRequest ∈ hs)
  /\ (denied l.(l_done) ++ l.(l_signals)) `sublist_of` signals_of hs
  /\ (length l.(l_signals) <= signalBuffer)%nat.

Lemma denied_app l r : denied (l ++ r) = denied l ++ denied r.
Proof. apply omap_app. Qed.

Lemma step_ok hs l h l' : loop_ok hs l -> step l h l' -> loop_ok (hs ++ [h]) l'.
Proof.
  intros ((body & Eb & Hb) & He & Hs & Hl) Hstep. unfold loop_ok, signals_of in *. rewrite omap_app.
  assert (forall t, t `sublist_of` omap (fun h => match h with HSignal s => Some s | _ => None end) hs ->
    t `sublist_of` omap (fun h => match h with HSignal s => Some s | _ => None end) hs
       ++ omap (fun h => match h with HSignal s => Some s | _ => None end) [h]) as Hgrow by (intros; by apply sublist_inserts_r).
  assert (l_phase l = Ended -> HRequest ∈ hs ++ [h]) as He' by (intros; apply elem_of_app; left; auto).
  inversion Hstep; subst; cbn [l_phase l_signals l_tick l_done] in *.
  - split_and!; [by exists body|done| |rewrite length_app; simpl; lia].
    rewrite app_assoc. by apply sublist_app.
  - split_and!; try done; [by exists body|by apply Hgrow].
  - split_and!; try done; [by exists body|by apply Hgrow].
  - rewrite decide_False in Eb by congruence. rewrite app_nil_r in Eb. split_and!; try done.
    + exists body. by rewrite Eb.
    + intros _. apply elem_of_app. right. by left.
    + rewrite denied_app. simpl. rewrite app_nil_r. by apply Hgrow.
  - split_and!; try done; [by exists body|by apply Hgrow].
  - rewrite decide_False in Eb by congruence. rewrite app_nil_r in Eb. split_and!; try done.
    + exists (body ++ [ADeny s]). rewrite Eb, app_nil_r. split; [done|]. apply Forall_app. split; [done|].
      constructor; [right; by exists s|constructor].
    + rewrite denied_app. simpl. rewrite <- app_assoc. simpl. apply Hgrow. by rewrite H0 in Hs.
    + rewrite H0 in Hl. simpl in Hl. lia.
  - rewrite decide_False in Eb by congruence. rewrite app_nil_r in Eb. split_and!; try done.
    + exists (body ++ [ARun]). rewrite Eb, app_nil_r. split; [done|]. apply Forall_app. split; [done|].
      constructor; [by left|constructor].
    + rewrite denied_app. simpl. rewrite app_nil_r. by apply Hgrow.
  - rewrite decide_False in Eb by congruence. split_and!; try done; [by exists body|by apply Hgrow].
Qed.

Lemma steps_ok hs0 hs l l' : loop_ok hs0 l -> steps l hs l' -> loop_ok (hs0 ++ hs) l'.
Proof.
  intros H0 Hs. revert hs0 H0. induction Hs as [l|l h l1 hs l2 Hst _ IH]; intros hs0 H0; [by rewrite app_nil_r|].
  replace (hs0 ++ h :: hs) with ((hs0 ++ [h]) ++ hs) by (by rewrite <- app_assoc). apply IH. by eapply step_ok.
Qed.

(** Whatever signals, ticks and requests come in whatever order: the loop
    ends only after a request to end, and then it has cleared the pid, closed
    the server, cleaned the firewall and shut the agent down, in this order and
    as the last things it did; before that it has only run rounds and denied
    signals; the signals denied and still waiting are signals that came, in
    their order. *)
Theorem loop_ends_on_request (hs : list happening) (l : Loop) : steps loop0 hs l -> loop_ok hs l.
Proof.
  intros Hs. apply (steps_ok [] hs loop0); [|exact Hs]. unfold loop_ok. simpl. split_and!; try done; [by exists []|lia].
Qed.

(** ** Concrete runs *)

Module Sample.
#[local] Instance unicode : GoUnicode := {| uni_equalFold := String.eqb; uni_toLower := id |}.
#[local] Instance floats : FloatOps := Suppress.binary64.
#[local] Instance texts : FloatText := {| float_text _ := None |}.

Definition policy_text : list ascii :=
  jtext "{'schema_version':'v0.5','process_access':{'mode':'enforce','blacklist':[{'process_name':'cryptominer-daemon'}]}}".
Definition disk : Disk := mkDisk {["configs/policy.json" := policy_text]} (fun _ => false) (fun _ => false) false.
Definition senv : StartEnv (FS := libbpfLoader BpfMaps.Sample.table (option Z)) :=
  mkStartEnv disk ∅ [] "" (Some (replicate 32 (byte 7))) (mkLogEnv None "h" false (fun _ _ => false)) true
    (Some BpfMaps.Sample.fresh_maps) "h" "b" 7.
Definition cfg : config := match set_config defaults (JObj [("bpf", JObj [("enabled", JBool true); ("obj_dir", JStr "o")])]) with
  | Some c => c | None => defaults end.



(** At the start a long name goes, cut, into the map of short names; a reload
    of the same policy puts it into the map of file names. *)
Example long_name_cut_at_start :
  match startup senv false cfg with
  | Ok st =>
      match st_filler st with
      | Some fs =>
          (comms fs == {["cryptominer-dae"]}) && (filenames fs == ∅)
          && match (ReplacePolicy (st_policy st) (Some fs) (st_policy st)).2 with
             | Some fs' => (comms fs' == ∅) && (filenames fs' == {["cryptominer-daemon"]})
             | None => false
             end
      | None => false
      end
  | Err _ => false
  end = true.
Proof. vm_compute. reflexivity. Qed.

(** The responder the program builds has no quarantine directory. *)
Example quarantine_unconfigured : q_Dir (Quarantine_ (responder_of cfg)) = "" /\ qc_Dir (Config.Quarantine cfg) = "var/quarantine".
Proof. vm_compute. auto. Qed.

(** A request that comes while a round runs is lost: the loop goes on. *)
Example request_during_round_lost :
  exists l, steps loop0 [HTicker; HLoop; HRequest; HLoop] l /\ l_phase l = Waiting /\ l_done l = [ARun].
Proof.
  eexists. split.
  - eapply steps_cons; [apply st_ticker|]. eapply steps_cons; [by apply st_run|].
    eapply steps_cons; [by apply st_request_lost|]. eapply steps_cons; [by apply st_idle|]. apply steps_nil.
  - done.
Qed.

Lemma loop_ends_on_request_witness :
  loop_ok [HSignal "terminated"; HLoop; HLoop; HRequest] (mkLoop Ended [] false (ADeny "terminated" :: ending)).
Proof.
  apply (loop_ends_on_request [HSignal "terminated"; HLoop; HLoop; HRequest]).
  eapply steps_cons; [apply st_signal; simpl; unfold signalBuffer; lia|].
  eapply steps_cons; [by eapply st_deny|]. eapply steps_cons; [by apply st_idle|].
  eapply steps_cons; [by apply st_request|]. apply steps_nil.
Defined.

End Sample.
