(* ===== verification/Program.v ===== *)
(** * The run of the program ([cmd/edr-agent/main.go], [main])

    [main] from the command line to the exit: what is started, what is written
    and done in which order, and what the deferred calls undo.  A run ends by
    returning (the deferred calls run, last one first), by [fatal] (they do
    not), by a panic (they do), or it is still in its loop. *)

From S2P Require Import Prelude GoStrings GoTime Json GoJson Crypto EventLog LogRun Anchor BpfEvent Loader Bridge MapSync BpfMaps Collector Suppress Policy Response Nft Quarantine Responder Agent Security Query Disk Keys PolicyFile PolicyStore Baseline Metrics Server Config Main.

#[local] Open Scope string_scope.
#[local] Open Scope list_scope.
#[local] Open Scope Z_scope.

(** ** What is cached at the start *)

Record runtime_vars := mkVars { cachedHostname : string; cachedUID : Z; cachedBootID : string }.

(** The host name and the boot identifier are empty when they cannot be read. *)
Definition cacheRuntimeVars (hostname : option string) (uid : Z) (boot_id : option (list ascii)) : runtime_vars :=
  mkVars (default "" hostname) uid (match boot_id with Some raw => trimSpace (text raw) | None => "" end).

(** The event that reports that the guard of file accesses could not start. *)
Definition fanotify_failed (host err : string) : EventLog.Event :=
  EventLog.mkEvent "" "" "" 0 "" "" "" timeZero "fanotify-init-failed" host "audit" "high" [] []
    "startup" "alert" "agent-self-check"
    [("error", GStr err); ("reason", GStr "fanotify initialization failed; file-access interposition is not active")].

(** ** The run *)

(** What has a deferred call that stops it. *)
Inductive service := SLoader | SFanotify | SAnchor | SSignals | STicker.
#[global] Instance service_eq_dec : EqDecision service.
Proof. solve_decision. Defined.

Inductive pact :=
| PStart (s : service) | PStop (s : service)
| PFill | PInit | PFastPath | PWrite (e : EventLog.Event) | PVerify
| PRound | PWarnSigning | PSocketRemoved | PListen | PLoop (a : act).

(** What was done, and the deferred calls, the last one first. *)
Record run := mkRun { trace : list pact; defers : list service }.
Definition did (a : pact) (r : run) : run := mkRun (r.(trace) ++ [a]) r.(defers).
Definition did_if (c : bool) (a : pact) (r : run) : run := if c then did a r else r.
Definition serves (s : service) (r : run) : run := mkRun (r.(trace) ++ [PStart s]) (s :: r.(defers)).
Definition serves_if (c : bool) (s : service) (r : run) : run := if c then serves s r else r.

Inductive outcome := Returned | Fatal | Panicked | Running.

Definition undo (r : run) : list pact := r.(trace) ++ map PStop r.(defers).

(** What the environment does after the start: the error of [fanotify.New], the
    outcome of the single round, the socket, and the loop. *)
Record RunEnv := mkRunEnv {
  re_fanotify : option string; re_round : bool;
  re_mkdir : bool; re_found : found_at; re_remove : bool; re_listen : bool; re_loop : Loop;
}.

Section Run.
Context {UC : GoUnicode} {FO : FloatOps} {FT : FloatText}.
Context {FS : Type} {MF : MapFiller FS}.

(** The part common to both modes, after [startup]. *)
Definition prepare (v : runtime_vars) (r : RunEnv) (once : bool) (c : config) (st : Started (FS := FS)) : run :=
  let loader := bool_decide (st.(st_filler) <> None) in
  let p := serves_if loader SLoader (mkRun [] []) in
  let p := did_if loader PFill p in
  let p := did PInit p in
  let p := did_if (negb once && loader) PFastPath p in
  let p := if present st.(st_fanotify) then
             match r.(re_fanotify) with
             | Some err => did (PWrite (fanotify_failed v.(cachedHostname) err)) p
             | None => serves SFanotify p
             end
           else p in
  let p := did_if c.(Integrity).(ic_EnableChain) PVerify p in
  serves_if (bool_decide (anchor_of c v.(cachedHostname) v.(cachedBootID) <> None)) SAnchor p.

(** The daemon: socket, server, signals, ticker, loop. *)
Definition daemon (r : RunEnv) (c : config) (p : run) : list pact * outcome :=
  let p := did_if (c.(Config.SigningKeyPath) == "") PWarnSigning p in
  match prepareSocketPath r.(re_mkdir) r.(re_found) r.(re_remove) with
  | Err _ => (p.(trace), Fatal)
  | Ok removed =>
      let p := did_if removed PSocketRemoved p in
      if negb r.(re_listen) then (p.(trace), Fatal)
      else
        let p := serves SSignals (did PListen p) in
        if ticker_period c <=? 0 then (undo p, Panicked)
        else
          let p := serves STicker p in
          let p := mkRun (p.(trace) ++ map PLoop r.(re_loop).(l_done)) p.(defers) in
          if decide (r.(re_loop).(l_phase) = Ended) then (undo p, Returned) else (p.(trace), Running)
  end.

Definition main (e : StartEnv (FS := FS)) (v : runtime_vars) (r : RunEnv) (once : bool) (cfgPath : string)
    : list pact * outcome :=
  match loadConfig e.(se_disk) cfgPath with
  | None => ([], Fatal)
  | Some c =>
      match startup e once c with
      | Err _ => ([], Fatal)
      | Ok st =>
          let p := prepare v r once c st in
          if once then if r.(re_round) then (undo (did PRound p), Returned) else ((did PRound p).(trace), Fatal)
          else daemon r c p
      end
  end.

(** ** What was started and stopped *)

Definition starts (l : list pact) : list service := omap (fun a => match a with PStart s => Some s | _ => None end) l.
Definition stops (l : list pact) : list service := omap (fun a => match a with PStop s => Some s | _ => None end) l.
End Run.

(** ** Orderly ends *)

(** Neither a start nor a stop. *)
Definition plain_act (a : pact) : Prop := match a with PStart _ | PStop _ => False | _ => True end.

Lemma starts_app l r : starts (l ++ r) = starts l ++ starts r.
Proof. apply omap_app. Qed.
Lemma stops_app l r : stops (l ++ r) = stops l ++ stops r.
Proof. apply omap_app. Qed.
Lemma starts_stops l : starts (map PStop l) = [].
Proof. by induction l. Qed.
Lemma stops_stops l : stops (map PStop l) = l.
Proof. induction l as [|s l IH]; [done|]. unfold stops in *. csimpl. by rewrite IH. Qed.
Lemma plain_acts l : Forall plain_act l -> starts l = [] /\ stops l = [].
Proof. induction 1 as [|a l Ha _ [IH1 IH2]]; [done|]. unfold starts, stops in *. destruct a; csimpl; done. Qed.

(** The deferred calls are those of what was started, and nothing was stopped. *)
Definition balanced (p : run) : Prop := rev (starts p.(trace)) = p.(defers) /\ stops p.(trace) = [].

Lemma balanced_acts p l : balanced p -> Forall plain_act l -> balanced (mkRun (trace p ++ l) (defers p)).
Proof.
  intros [H1 H2] [E1 E2]%plain_acts. unfold balanced. simpl. by rewrite starts_app, stops_app, E1, E2, !app_nil_r.
Qed.
Lemma balanced_did p a : balanced p -> plain_act a -> balanced (did a p).
Proof. intros Hp Ha. apply balanced_acts; [done|]. by repeat constructor. Qed.
Lemma balanced_did_if c p a : balanced p -> plain_act a -> balanced (did_if c a p).
Proof. destruct c; [apply balanced_did|done]. Qed.
Lemma balanced_serves p s : balanced p -> balanced (serves s p).
Proof.
  intros [H1 H2]. unfold balanced, serves. simpl. rewrite starts_app, stops_app, H2, rev_app_distr. simpl. by rewrite H1.
Qed.
Lemma balanced_serves_if c p s : balanced p -> balanced (serves_if c s p).
Proof. destruct c; [apply balanced_serves|done]. Qed.

Lemma undo_balanced p : balanced p -> starts (undo p) = starts p.(trace) /\ stops (undo p) = rev (starts p.(trace)).
Proof.
  intros [H1 H2]. unfold undo. rewrite starts_app, stops_app, starts_stops, stops_stops, H2, app_nil_r, H1. done.
Qed.

(** What is started comes in one order, each at most once. *)
Definition service_order : list service := [SLoader; SFanotify; SAnchor; SSignals; STicker].

#[local] Ltac sublist := repeat first [apply sublist_nil_l|apply sublist_skip|apply sublist_cons].

Section Order.
Context {UC : GoUnicode} {FO : FloatOps} {FT : FloatText}.
Context {FS : Type} {MF : MapFiller FS}.

Lemma prepare_balanced v r once c (st : Started (FS := FS)) : balanced (prepare v r once c st).
Proof.
  unfold prepare. apply balanced_serves_if, balanced_did_if; [|done].
  assert (balanced (did_if (negb once && bool_decide (st_filler st <> None)) PFastPath
    (did PInit (did_if (bool_decide (st_filler st <> None)) PFill (serves_if (bool_decide (st_filler st <> None)) SLoader (mkRun [] [])))))) as Hb.
  { repeat first [apply balanced_did_if|apply balanced_did|apply balanced_serves_if]; done. }
  destruct (present (st_fanotify st)); [|done]. destruct (re_fanotify r); [by apply balanced_did|by apply balanced_serves].
Qed.

Lemma prepare_starts v r once c (st : Started (FS := FS)) :
  starts (trace (prepare v r once c st)) `sublist_of` [SLoader; SFanotify; SAnchor]
  /\ (SLoader ∈ starts (trace (prepare v r once c st)) <-> st_filler st <> None)
  /\ (PFastPath ∈ trace (prepare v r once c st) -> once = false).
Proof.
  unfold prepare. destruct (st_filler st) as [fs|].
  - rewrite (bool_decide_true (Some fs <> None)) by done.
    destruct once, (present (st_fanotify st)), (re_fanotify r), (ic_EnableChain (Integrity c)), (bool_decide (anchor_of _ _ _ <> None));
      cbn; (split_and!; [sublist|set_solver|set_solver]).
  - rewrite (bool_decide_false ((None : option FS) <> None)) by auto.
    destruct once, (present (st_fanotify st)), (re_fanotify r), (ic_EnableChain (Integrity c)), (bool_decide (anchor_of _ _ _ <> None));
      cbn; (split_and!; [sublist|set_solver|set_solver]).
Qed.

(** How a run can end: deferred calls after a return or a panic, in the reverse
    order of the starts; none after [fatal]. *)
Definition orderly (l : list pact) (o : outcome) : Prop :=
  starts l `sublist_of` service_order
  /\ match o with Returned | Panicked => stops l = rev (starts l) | Fatal | Running => stops l = [] end.

Lemma orderly_undo p o : balanced p -> starts p.(trace) `sublist_of` service_order -> o = Returned \/ o = Panicked -> orderly (undo p) o.
Proof.
  intros Hb Hs Ho. destruct (undo_balanced p Hb) as [E1 E2]. unfold orderly. rewrite E1, E2.
  split; [done|]. by destruct Ho as [-> | ->].
Qed.

Lemma orderly_trace p o : balanced p -> starts p.(trace) `sublist_of` service_order -> o = Fatal \/ o = Running -> orderly p.(trace) o.
Proof. intros [_ E] Hs Ho. split; [done|]. by destruct Ho as [-> | ->]. Qed.

Lemma starts_did p a : plain_act a -> starts (did a p).(trace) = starts p.(trace).
Proof. intros Ha. simpl. rewrite starts_app. by destruct a; rewrite ?app_nil_r. Qed.
Lemma starts_did_if c p a : plain_act a -> starts (did_if c a p).(trace) = starts p.(trace).
Proof. destruct c; [apply starts_did|done]. Qed.
Lemma starts_serves p s : starts (serves s p).(trace) = starts p.(trace) ++ [s].
Proof. apply starts_app. Qed.
Lemma starts_acts p l d : Forall plain_act l -> starts (trace (mkRun (trace p ++ l) d)) = starts (trace p).
Proof. intros [E _]%plain_acts. cbn [trace]. by rewrite starts_app, E, app_nil_r. Qed.
Lemma loop_acts_plain l : Forall plain_act (map PLoop l).
Proof. induction l; by constructor. Qed.

Lemma sublist_more (l : list service) : l `sublist_of` [SLoader; SFanotify; SAnchor] ->
  l `sublist_of` service_order /\ (l ++ [SSignals]) `sublist_of` service_order
  /\ ((l ++ [SSignals]) ++ [STicker]) `sublist_of` service_order.
Proof.
  intros H. unfold service_order. change [SLoader; SFanotify; SAnchor; SSignals; STicker] with ([SLoader; SFanotify; SAnchor] ++ [SSignals; STicker]).
  split_and!; [by apply sublist_inserts_r|apply sublist_app; [done|sublist]|]. rewrite <- app_assoc. by apply sublist_app.
Qed.

Lemma daemon_orderly r c p l o :
  balanced p -> starts p.(trace) `sublist_of` [SLoader; SFanotify; SAnchor] -> daemon r c p = (l, o) ->
  orderly l o /\ (SLoader ∈ starts l <-> SLoader ∈ starts p.(trace))
  /\ (o = Returned -> exists pre, l_phase (re_loop r) = Ended
       /\ l = pre ++ map PLoop (l_done (re_loop r)) ++ map PStop (rev (starts l)) /\ stops pre = []
       /\ [SSignals; STicker] `sublist_of` starts pre).
Proof.
  intros Hb Hs. unfold daemon. cbv zeta. set (p1 := did_if _ PWarnSigning p).
  assert (balanced p1) as H1 by (by apply balanced_did_if).
  assert (starts (trace p1) = starts (trace p)) as E1 by (by apply starts_did_if).
  destruct (prepareSocketPath _ _ _) as [removed|].
  2: { intros [= <- <-]. split_and!; [| |done]; [|by rewrite E1]. apply orderly_trace; [done| |by left]. rewrite E1. by apply sublist_more. }
  set (p2 := did_if removed PSocketRemoved p1). assert (balanced p2) as H2 by (by apply balanced_did_if).
  assert (starts (trace p2) = starts (trace p)) as E2 by (unfold p2; by rewrite starts_did_if).
  destruct (negb (re_listen r)).
  { intros [= <- <-]. split_and!; [| |done]; [|by rewrite E2]. apply orderly_trace; [done| |by left]. rewrite E2. by apply sublist_more. }
  set (p3 := serves SSignals (did PListen p2)).
  assert (balanced p3) as H3 by (by apply balanced_serves, balanced_did).
  assert (starts (trace p3) = starts (trace p) ++ [SSignals]) as E3.
  { unfold p3. by rewrite starts_serves, starts_did, E2. }
  destruct (ticker_period c <=? 0).
  { intros [= <- <-]. split; [|split; [|done]].
    - apply orderly_undo; [done| |by right]. rewrite E3. by apply sublist_more.
    - rewrite (proj1 (undo_balanced _ H3)), E3. set_solver. }
  set (p4 := serves STicker p3). assert (balanced p4) as H4 by (by apply balanced_serves).
  assert (starts (trace p4) = (starts (trace p) ++ [SSignals]) ++ [STicker]) as E4.
  { unfold p4. by rewrite starts_serves, E3. }
  pose proof (balanced_acts p4 _ H4 (loop_acts_plain (l_done (re_loop r)))) as H5. set (p5 := mkRun _ _) in *.
  assert (starts (trace p5) = (starts (trace p) ++ [SSignals]) ++ [STicker]) as E5.
  { unfold p5. by rewrite starts_acts by apply loop_acts_plain. }
  destruct (decide _) as [He|He].
  - intros [= <- <-]. destruct (undo_balanced _ H5) as [Eu _]. split; [|split].
    { apply orderly_undo; [done| |by left]. rewrite E5. by apply sublist_more. }
    { rewrite Eu, E5. set_solver. }
    intros _. exists (trace p4). split_and!; [done| |apply H4|].
    + rewrite Eu. destruct H5 as [Hd _]. rewrite Hd. unfold undo, p5. simpl. by rewrite <- app_assoc.
    + rewrite E4, <- app_assoc. by apply sublist_inserts_l.
  - intros [= <- <-]. split; [|split; [|done]].
    + apply (orderly_trace p5); [done| |by right]. rewrite E5. by apply sublist_more.
    + change (SLoader ∈ starts (trace p5) <-> SLoader ∈ starts (trace p)). rewrite E5. set_solver.
Qed.
End Order.

Lemma startup_filler {UC : GoUnicode} {FO : FloatOps} {FT : FloatText} {FS : Type} {MF : MapFiller FS}
    (e : StartEnv (FS := FS)) once c st :
  startup e once c = Ok st -> st_filler st <> None <-> bc_Enabled (BPF c) = true.
Proof.
  unfold startup. destruct (check_dirs _ _ _); [|done]. cbn [res_bind]. destruct (Load _ _); [|done].
  destruct (resolveSigningKey _ _ _ _) as [[[key source]|] d]; [|done]. destruct (NewWithOptions _ _ _ _); [|done]. cbn [res_bind].
  unfold startBPFLoader. destruct (bc_Enabled (BPF c)); cbn [negb res_bind].
  - destruct (_ == ""); [done|]. destruct (negb _); [done|]. destruct (se_load e); [|done]. by intros [= <-].
  - intros [= <-]. done.
Qed.

(** C15. A run of the program is orderly: services are started in one order, each
    at most once; a run that returns or panics stops exactly what it started,
    in reverse order, and a fatal error stops nothing.  A daemon returns only
    after its loop ended on request: then, after everything it did before, it
    has cleared the pid, closed the server, cleaned the firewall and shut the
    agent down, and only after that the ticker, the signals, the anchor, the
    file guard and the probes were stopped.  The probes run exactly when the
    configuration asks for them, and the fast path never runs in the mode of a
    single round. *)
Theorem program_orderly {UC : GoUnicode} {FO : FloatOps} {FT : FloatText} {FS : Type} {MF : MapFiller FS}
    (e : StartEnv (FS := FS)) v r once cfgPath l o hs :
  main e v r once cfgPath = (l, o) -> steps loop0 hs (re_loop r) ->
  orderly l o
  /\ (once = true -> PFastPath ∉ l)
  /\ (o = Returned -> once = false ->
      HRequest ∈ hs /\ exists pre body, l = pre ++ map PLoop (body ++ ending) ++ map PStop (rev (starts l))
      /\ stops pre = [] /\ Forall ordinary body)
  /\ (forall c, loadConfig e.(se_disk) cfgPath = Some c -> l <> [] ->
      (SLoader ∈ starts l <-> c.(BPF).(bc_Enabled) = true)).
Proof.
  intros Hm Hst. assert (loop_ok hs (re_loop r)) as Hok.
  { apply (steps_ok [] hs loop0); [|exact Hst]. unfold loop_ok. simpl. split_and!; try done; [by exists []|lia]. }
  unfold main in Hm. destruct (loadConfig (se_disk e) cfgPath) as [c|].
  2: { injection Hm as <- <-. unfold orderly. split_and!; try done; [apply sublist_nil_l|set_solver]. }
  destruct (startup e once c) as [st|err] eqn:Es.
  2: { injection Hm as <- <-. unfold orderly. split_and!; try done; [apply sublist_nil_l|set_solver]. }
  pose proof (prepare_balanced v r once c st) as Hb. destruct (prepare_starts v r once c st) as (Hs & Hl & Hf).
  cbv zeta in Hm. set (p := prepare v r once c st) in *.
  pose proof (startup_filler e once c st Es) as Hfill.
  destruct once.
  - set (q := did PRound p) in *. assert (balanced q) as Hq by (by apply balanced_did).
    assert (starts (trace q) = starts (trace p)) as Eq by (by apply starts_did).
    assert (PFastPath ∉ trace q) as Hn by (unfold q, did; cbn [trace]; set_solver).
    destruct (undo_balanced q Hq) as [Eu _]. destruct (sublist_more _ Hs) as [Hs' _].
    destruct (re_round r).
    + assert (l = undo q) as -> by congruence. assert (o = Returned) as -> by congruence. split_and!; [apply orderly_undo; [done|by rewrite Eq|by left]| |done|].
      * intros _. unfold undo. rewrite elem_of_app, list_elem_of_fmap. naive_solver.
      * intros c' [= <-] _. by rewrite Eu, Eq, Hl.
    + assert (l = trace q) as -> by congruence. assert (o = Fatal) as -> by congruence.
      split_and!; [apply orderly_trace; [done|by rewrite Eq|by left]|done|done|].
      intros c' [= <-] _. by rewrite Eq, Hl.
  - destruct (daemon_orderly r c p l o Hb Hs Hm) as (Ho & Hsl & Hret). split_and!; [done|done| |].
    + intros Er _. destruct (Hret Er) as (pre & He & El & Hp & _). destruct Hok as ((body & Eb & Hbody) & Hreq & _).
      rewrite decide_True in Eb by done. split; [by apply Hreq|]. exists pre, body. by rewrite <- Eb.
    + intros c' [= <-] _. by rewrite Hsl, Hl.
Qed.

(** ** A run *)

Module Sample.
#[local] Instance unicode : GoUnicode := {| uni_equalFold := String.eqb; uni_toLower := id |}.
#[local] Instance floats : FloatOps := Suppress.binary64.
#[local] Instance texts : FloatText := {| float_text _ := None |}.

Definition vars : runtime_vars := cacheRuntimeVars (Some "h") 0 (Some (bytes " b ")).
Definition ended : Loop := mkLoop Ended [] false ending.
Definition renv : RunEnv := mkRunEnv None true true ASocket true true ended.

Lemma ended_reached : steps loop0 [HRequest] ended.
Proof. eapply steps_cons; [apply (st_request loop0); reflexivity|]. apply steps_nil. Qed.

Lemma program_orderly_witness :
  let l := [PInit; PStart SFanotify; PVerify; PSocketRemoved; PListen; PStart SSignals; PStart STicker]
           ++ map PLoop ending ++ [PStop STicker; PStop SSignals; PStop SFanotify] in
  main Main.Sample.senv vars renv false "configs/agent.json" = (l, Returned) /\ orderly l Returned.
Proof.
  intros l. assert (main Main.Sample.senv vars renv false "configs/agent.json" = (l, Returned)) as E by (vm_compute; reflexivity).
  split; [exact E|].
  exact (proj1 (program_orderly Main.Sample.senv vars renv false "configs/agent.json" l Returned [HRequest] E ended_reached)).
Defined.

(** A file guard that cannot be set up is reported in the log, and the program
    goes on without it. *)
Example guard_failure_reported :
  let '(l, o) := main Main.Sample.senv vars (mkRunEnv (Some "fanotify_init: operation not permitted") true true ASocket true true ended)
                   false "configs/agent.json" in
  (starts l, take 2 l) = ([SSignals; STicker], [PInit; PWrite (fanotify_failed "h" "fanotify_init: operation not permitted")]).
Proof. vm_compute. reflexivity. Qed.
End Sample.
