(* ===== verification/Client.v ===== *)
(** * The command line client ([cmd/edrctl/main.go])

    [dispatch] says what a command line does: a request to the agent, a command
    on local files, or a usage error.  The local commands on policies and
    signatures run on the files; the printing is not modelled. *)

From S2P Require Import Prelude GoStrings GoTime Json GoJson Crypto EventLog LogRun Anchor BpfEvent Loader Bridge MapSync BpfMaps Collector Suppress Policy Response Nft Quarantine Responder Agent Security Query Disk Keys PolicyFile PolicyStore Baseline Metrics Server ServerProofs.

#[local] Open Scope string_scope.
#[local] Open Scope list_scope.
#[local] Open Scope Z_scope.

(** [queryString] *)
Definition queryString (args : list string) : string :=
  match List.filter (fun a => contains a "=") args with
  | [] => ""
  | parts => "?" +:+ join "&" parts
  end.

(** A request names an endpoint, and what follows it: the query with its
    question mark, and the body. *)
Inductive action :=
| AGet (endpoint query : string)
| APost (endpoint query : string) (body : list ascii)
| AValidate (file : string)
| ASign (file key : string)
| AVerify (file key : string)
| ABaseline (file : string)
| AUsage
| AUsageOf (line : string)
| ANothing.           (** the program ends without a word *)

Definition dquote (s : string) : list ascii := dq :: bytes s ++ [dq].

(** The bodies are put together without escaping. *)
Definition freeze_arg (arg : string) : list ascii :=
  if hasPrefix arg "path=" then bytes "," ++ dquote "process_path" ++ bytes ":" ++ dquote (trimPrefix arg "path=")
  else if hasPrefix arg "ticks=" then bytes "," ++ dquote "start_ticks" ++ bytes ":" ++ dquote (trimPrefix arg "ticks=")
  else [].

Definition pid_body (pid : string) (more : list ascii) : list ascii :=
  bytes "{" ++ dquote "pid" ++ bytes ":" ++ bytes pid ++ more ++ bytes "}".

Definition version_query (args : list string) : string :=
  match args with [_; v] => "?version=" +:+ v | _ => "" end.

(** [args] follow the word [policy]. *)
Definition dispatch_policy (args : list string) : action :=
  match args with
  | [] => ANothing
  | sub :: rest =>
      if (sub == "validate") && (length rest =? 1)%nat then match rest with [file] => AValidate file | _ => ANothing end
      else if (sub == "versions") && (length rest =? 0)%nat then AGet "/v0/policy/versions" ""
      else if sub == "rollback" then APost "/v0/policy/rollback" (version_query args) []
      else if (sub == "sign") && (length rest =? 2)%nat then
        match rest with [file; key] => ASign file key | _ => ANothing end
      else if sub == "verify-signature" then
        match rest with
        | [] => APost "/v0/policy/verify-signature" "" []
        | file :: more => AVerify file (match more with key :: _ => key | [] => "" end)
        end
      else if sub == "reload" then APost "/v0/policy/reload" (version_query args) []
      else ANothing
  end.

Definition dispatch_events (sub : string) (more : list string) : action :=
  if sub == "verify" then AGet "/v0/events/verify" ""
  else if (sub == "tail") || (sub == "query") then AGet "/v0/events" (queryString more) else AUsage.

Definition dispatch_nft (sub : string) (more : list string) : action :=
  match more with
  | [] => if sub == "list" then AGet "/v0/network/nft/list" ""
          else if sub == "rollback" then APost "/v0/network/nft/rollback" "" [] else AUsage
  | _ => AUsage
  end.

Definition dispatch_process (sub : string) (more : list string) : action :=
  if sub == "freeze" then
    match more with
    | pid :: args => APost "/v0/process/freeze" "" (pid_body pid (concat (map freeze_arg args)))
    | [] => AUsageOf "usage: edrctl process freeze PID [path=PATH] [ticks=TICKS]"
    end
  else if sub == "resume" then
    match more with
    | pid :: _ => APost "/v0/process/resume" "" (pid_body pid [])
    | [] => AUsageOf "usage: edrctl process resume PID"
    end
  else if sub == "frozen" then AGet "/v0/process/frozen" "" else AUsage.

Definition dispatch_network (sub : string) : action :=
  if sub == "isolate" then APost "/v0/network/isolate" "" []
  else if sub == "restore" then APost "/v0/network/restore" "" [] else AUsage.

Definition dispatch_notify (sub : string) : action :=
  if sub == "test" then APost "/v0/notify/test" "" [] else AUsage.

Definition dispatch_quarantine (sub : string) (more : list string) : action :=
  if sub == "list" then AGet "/v0/quarantine/list" ""
  else if sub == "restore" then
    match more with
    | path :: _ => APost "/v0/quarantine/restore" ("?path=" +:+ path) []
    | [] => AUsageOf "usage: edrctl quarantine restore ORIGINAL_PATH"
    end
  else AUsage.

Definition dispatch (args : list string) : action :=
  match args with
  | [] => AUsage
  | cmd :: rest =>
      if cmd == "policy" then dispatch_policy rest
      else if cmd == "baseline" then
        match rest with [run; file] => if run == "run" then ABaseline file else AUsage | _ => AUsage end
      else if cmd == "status" then AGet "/v0/status" ""
      else if cmd == "metrics" then
        match rest with
        | sub :: _ => if sub == "prometheus" then AGet "/v0/metrics/prometheus" "" else AGet "/v0/metrics" ""
        | [] => AGet "/v0/metrics" ""
        end
      else if cmd == "health" then AGet "/v0/health" ""
      else if cmd == "shutdown" then match rest with [] => APost "/v0/shutdown" "" [] | _ => AUsage end
      else match rest with
      | [] => AUsage
      | sub :: more =>
          if cmd == "events" then dispatch_events sub more
          else if cmd == "responses" then
            match more with [] => if sub == "list" then AGet "/v0/responses" "" else AUsage | _ => AUsage end
          else if cmd == "forensics" then
            if sub == "export" then APost "/v0/forensics/export" (queryString more) [] else AUsage
          else if cmd == "nft" then dispatch_nft sub more
          else if cmd == "process" then dispatch_process sub more
          else if cmd == "network" then dispatch_network sub
          else if cmd == "notify" then dispatch_notify sub
          else if cmd == "quarantine" then dispatch_quarantine sub more
          else AUsage
      end
  end.

(** ** Local commands *)

Section Local.
Context {UC : GoUnicode} {ED : Ed25519}.

Inductive cli_err := CKey (e : sign_err) | CFile (e : disk_err) | CSignature.

(** [policy sign] *)
Definition sign_policy (d : Disk) (policyPath keyPath : string) : result cli_err Disk :=
  match LoadSigningKey d keyPath with
  | Err e => Err (CKey e)
  | Ok key =>
      match readFile d policyPath with
      | Err e => Err (CFile e)
      | Ok raw =>
          match Sign (Some key) raw with
          | Err e => Err (CKey e)
          | Ok sig =>
              match writeFile d (SignatureFile policyPath) (bytes (sig +:+ nl)) with
              | Err e => Err (CFile e)
              | Ok d => Ok d
              end
          end
      end
  end.

(** [policy verify-signature FILE KEY] *)
Definition verify_policy (d : Disk) (policyPath keyPath : string) : result cli_err () :=
  match LoadPublicKey d keyPath with
  | Err e => Err (CKey e)
  | Ok pub =>
      match readFile d policyPath with
      | Err e => Err (CFile e)
      | Ok raw =>
          match readFile d (SignatureFile policyPath) with
          | Err e => Err (CFile e)
          | Ok sig =>
              match Verify pub raw sig with
              | Err e => Err (CKey e)
              | Ok true => Ok ()
              | Ok false => Err CSignature
              end
          end
      end
  end.

End Local.

(** ** Requests reach their handlers *)

Section Reach.
Context {UC : GoUnicode} {FO : FloatOps} {FT : FloatText} {DG : Digest} {ED : Ed25519}.
Context {FS : Type} {MF : MapFiller FS}.
Variables (env : SEnv) (opts : ServerOptions) (responder : option SoftResponder) (auth_text : auth_err -> string).

(** The endpoints that want a POST. *)
Definition post_endpoints : list string :=
  ["/v0/policy/reload"; "/v0/policy/rollback"; "/v0/policy/verify-signature"; "/v0/network/nft/rollback";
   "/v0/forensics/export"; "/v0/shutdown"; "/v0/process/freeze"; "/v0/process/resume"; "/v0/network/isolate";
   "/v0/network/restore"; "/v0/notify/test"; "/v0/quarantine/restore"].
Definition get_endpoints : list string :=
  ["/v0/health"; "/v0/metrics"; "/v0/status"; "/v0/policy/versions"; "/v0/events"; "/v0/events/verify"; "/v0/responses";
   "/v0/network/nft/list"; "/v0/process/frozen"; "/v0/metrics/prometheus"; "/v0/quarantine/list"; "/v0/baseline/run"].

(** Never answers that the method is wrong or the path unknown; an error has
    the status of one. *)
Definition refusal (status : Z) : Prop :=
  status <> StatusMethodNotAllowed /\ status <> StatusNotFound /\ 300 <= status.
Definition served (m : @Server.S_ _ FS answer) : Prop := forall s status why, (m s).1 = AErr status why -> refusal status.

Lemma served_ret x : (forall status why, x = AErr status why -> refusal status) -> served (sret x).
Proof. intros H s. apply H. Qed.
Lemma served_bind {A} (m : Server.S_ A) k : (forall x, served (k x)) -> served (sbind m k).
Proof. intros H s. unfold sbind. destruct (m s) as [x s1]. apply H. Qed.
Lemma served_guard r m : served m -> served (requireAuthorized opts r m).
Proof.
  intros H. unfold requireAuthorized. destruct (authorize _ _); [exact H|]. apply served_ret. intros status why [= <- _]. split_and!; discriminate.
Qed.
Lemma served_post r m : rq_Method r = "POST" -> served m -> served (post_only r m).
Proof. intros Hm H. unfold post_only. by rewrite bool_decide_eq_true_2. Qed.
Lemma served_override base r d k : (forall p, served (k p)) -> served (override_path env base r d k).
Proof.
  intros Hk. unfold override_path. destruct (Get (rq_Query r) "path" != ""); [|apply Hk].
  apply served_bind. intros fs. destruct (safePathUnder _ _ _ _); [apply Hk|]. apply served_ret. intros status why [= <- _]. split_and!; discriminate.
Qed.

Ltac serving :=
  repeat first
    [ apply served_guard | (apply served_post; [assumption|]) | (apply served_override; intros ?)
    | (apply served_ret; intros ? ? [=]; subst; split_and!; discriminate) | (apply served_ret; discriminate)
    | (apply served_bind; intros ?)
    | match goal with |- served (match ?x with _ => _ end) => destruct x end
    | match goal with |- served (let _ := ?x in _) => progress cbv zeta end
    | progress cbv beta ].

Lemma routes_served r :
  Forall (fun route => (route.1 ∈ post_endpoints /\ (rq_Method r = "POST" -> served (route.2 r)))
                       \/ (route.1 ∈ get_endpoints /\ served (route.2 r))) (routes env opts responder auth_text).
Proof.
  unfold routes. repeat apply Forall_cons_2; [..|apply Forall_nil_2]; cbn [fst snd];
    first [left; split; [by repeat constructor|intros Hm] | right; split; [by repeat constructor|]].
  all: unfold handleHealth, handleMetrics, handleStatus, handleVersions, handleVerifySignature, handleEvents,
    handleEventsVerify, handleResponses, handleNFTList, handleNFTRollback, handleForensics, handleFreeze, handleShutdown,
    handleReload, handleRollback, reload_from, load_checked, ExportForensics, handleResume, handleFrozen,
    handleIsolate, handleRestoreNetwork, with_nft, handleNotifyTest, handlePrometheus,
    handleQuarantineList, handleQuarantineRestore, handleBaseline, bad, json_; serving.
Qed.

Lemma endpoints_routed : Forall (fun e => e ∈ (routes env opts responder auth_text).*1) (post_endpoints ++ get_endpoints).
Proof. apply (bool_decide_unpack _). vm_compute. exact I. Qed.

Lemma endpoints_apart : Forall (fun e => ~ (e ∈ get_endpoints)) post_endpoints.
Proof. apply (bool_decide_unpack _). vm_compute. exact I. Qed.

Lemma serve_served r :
  rq_Path r ∈ post_endpoints /\ rq_Method r = "POST" \/ rq_Path r ∈ get_endpoints ->
  served (serve env opts responder auth_text r).
Proof.
  intros H. unfold serve. destruct (List.find _ _) as [route|] eqn:E.
  - apply List.find_some in E as [Hin Hp%bool_decide_eq_true]. pose proof (routes_served r) as HF.
    rewrite Forall_forall in HF. apply list_elem_of_In in Hin. destruct (HF route Hin) as [[H1 H2]|[H1 H2]]; [|exact H2].
    destruct H as [[_ Hm]|H]; [by apply H2|]. exfalso. rewrite Hp in H1. pose proof endpoints_apart as Ha.
    rewrite Forall_forall in Ha. by apply (Ha (rq_Path r)).
  - exfalso. assert (rq_Path r ∈ (routes env opts responder auth_text).*1) as (route & Hp & Hin)%list_elem_of_fmap.
    { pose proof endpoints_routed as Hr. rewrite Forall_forall in Hr. apply Hr, elem_of_app. tauto. }
    apply list_elem_of_In in Hin. pose proof (List.find_none _ _ E route Hin) as Hn. cbv beta in Hn.
    by rewrite bool_decide_eq_true_2 in Hn.
Qed.

(** Where a command line leads. *)
Definition leads (a : action) : Prop :=
  match a with
  | AGet e _ => e ∈ get_endpoints
  | APost e _ _ => e ∈ post_endpoints
  | _ => True
  end.

Lemma dispatch_leads args : leads (dispatch args).
Proof.
  assert (forall args, leads (dispatch_policy args)) as Hp.
  { intros [|sub rest]; simpl; [done|]. repeat (case_match; simpl; try done); by repeat constructor. }
  destruct args as [|cmd rest]; simpl; [done|].
  unfold dispatch_events, dispatch_nft, dispatch_process, dispatch_network, dispatch_notify, dispatch_quarantine.
  repeat (case_match; simpl; try done); by repeat constructor.
Qed.

End Reach.

(** Whatever the command line, the request it sends names an endpoint of
    the agent with the method that endpoint wants: it is never answered that
    the path is unknown or the method wrong, and a refusal has an error status. *)
Theorem client_requests_served {UC : GoUnicode} {FO : FloatOps} {FT : FloatText} {DG : Digest} {ED : Ed25519}
    {FS : Type} {MF : MapFiller FS} (env : SEnv) (opts : ServerOptions) (responder : option SoftResponder)
    (auth_text : auth_err -> string) (args : list string) (r : Request) :
  match dispatch args with
  | AGet e _ => rq_Method r = "GET" /\ rq_Path r = e
  | APost e _ _ => rq_Method r = "POST" /\ rq_Path r = e
  | _ => False
  end ->
  forall (s : @Srv _ FS) status why, (serve env opts responder auth_text r s).1 = AErr status why ->
    refusal status.
Proof.
  intros H. pose proof (dispatch_leads args) as Hl. apply serve_served.
  destruct (dispatch args); cbn [leads] in Hl; try done; destruct H as [Hm ->]; auto.
Qed.

(** ** A signed policy is put in force *)

Section Signed.
Context {UC : GoUnicode} {ED : Ed25519}.

Lemma sign_policy_signs d policyPath keyPath signingKeyPath d' key :
  sign_policy d policyPath keyPath = Ok d' -> LoadSigningKey d keyPath = Ok key ->
  LoadPublicKey d (signingKeyPath +:+ ".pub") = Ok (Public key) ->
  SignatureFile policyPath <> signingKeyPath +:+ ".pub" -> no_read d (SignatureFile policyPath) = false ->
  exists raw, readFile d' policyPath = Ok raw /\ signed d' policyPath signingKeyPath raw.
Proof.
  intros Hs Hk Hpub Hne Hr. unfold sign_policy in Hs. rewrite Hk in Hs.
  destruct (readFile d policyPath) as [raw|] eqn:Er; [|done].
  destruct (LoadSigningKey_proper _ _ _ Hk) as [Hp _].
  destruct (sign_verifies key raw (bytes nl) Hp) as (sig & Hsig & Hv); [by repeat constructor|]. rewrite Hsig in Hs.
  destruct (writeFile d (SignatureFile policyPath) (bytes (sig +:+ nl))) as [d1|] eqn:Ew; [|done]. injection Hs as <-.
  assert (policyPath <> SignatureFile policyPath) as Hpp.
  { unfold SignatureFile. intros E. apply (f_equal String.length) in E. rewrite string_length_app in E. simpl in E. lia. }
  exists raw. split; [by rewrite (readFile_other _ _ _ _ _ Ew)|].
  exists (bytes (sig +:+ nl)), (Public key). split_and!.
  - by apply (readFile_written _ _ _ _ Ew).
  - unfold LoadPublicKey in *. rewrite (readFile_other _ _ _ _ _ Ew) by congruence. exact Hpub.
  - by rewrite bytes_app.
Qed.

(** A backup, whether it works or not, leaves what can be read. *)
Lemma backup_reads others stamp path s r s' p b :
  steady others -> backupPolicy others stamp path s = (r, s') -> readFile (io_disk s) p = Ok b -> readFile (io_disk s') p = Ok b.
Proof.
  intros Hst. unfold backupPolicy. destruct (path == ""); [by intros [= <- <-]|]. unfold io_bind, io_ret.
  rewrite (access_steady others Hst).
  destruct (readFile (io_disk s) path) as [raw|]; [|by intros [= <- <-]]. destruct (mkdirFor (io_disk s)); [|by intros [= <- <-]].
  case_bool_decide as Hx; [by intros [= <- <-]|].
  destruct (writeFile (io_disk s) _ raw) as [d|] eqn:Ew; [|by intros [= <- <-]]. unfold put_disk. intros [= <- <-] Hb. cbn [io_disk].
  rewrite (readFile_other _ _ _ _ _ Ew); [exact Hb|]. intros ->. apply Hx. unfold readFile in Hb.
  destruct (no_read _ _); [done|]. destruct (content (io_disk s) !! _); [by eexists|done].
Qed.

Lemma signed_reads others stamp path0 s r s' policyPath key raw :
  steady others -> backupPolicy others stamp path0 s = (r, s') ->
  signed (io_disk s) policyPath key raw -> signed (io_disk s') policyPath key raw.
Proof.
  intros Hst Hb (sig & pub & H1 & H2 & H3). exists sig, pub. split_and!; [by eapply backup_reads| |done].
  unfold LoadPublicKey in *. destruct (readFile (io_disk s) (key +:+ ".pub")) as [b|] eqn:E; [|done].
  by rewrite (backup_reads _ _ _ _ _ _ _ _ Hst Hb E).
Qed.

Lemma verify_signed others policyPath key s raw :
  steady others -> key <> "" -> readFile (io_disk s) policyPath = Ok raw -> signed (io_disk s) policyPath key raw ->
  exists s', verifyPolicySig others policyPath key s = (None, s') /\ io_disk s' = io_disk s.
Proof.
  intros Hst Hk Hr (sig & pub & H1 & H2 & H3). unfold verifyPolicySig. rewrite bool_decide_eq_false_2 by done.
  unfold io_bind, io_ret. rewrite (access_steady others Hst), H1, (access_steady others Hst). cbn [io_disk]. rewrite H2.
  rewrite (access_steady others Hst). cbn [io_disk]. rewrite Hr, H3. by eexists.
Qed.

End Signed.

(** A policy signed with [edrctl policy sign] under the key whose public half
    the agent has is put in force by the next reload: while nobody else writes,
    an authorised POST to reload, without an override, of a policy file that
    loads and was signed just before is answered without an error and ends with
    that policy in force and the kernel blacklists filled from it. *)
Lemma signed_policy_reloads {UC : GoUnicode} {FO : FloatOps} {FT : FloatText} {DG : Digest} {ED : Ed25519}
    {FS : Type} {MF : MapFiller FS} (env : SEnv) (opts : ServerOptions) (responder : option SoftResponder)
    (auth_text : auth_err -> string) (d : Disk) (keyPath : string) (key : SigningKey) (d' : Disk) (pol : Policy)
    (r : Request) (s : @Srv _ FS) :
  steady env.(v_others) ->
  LoadSigningKey d keyPath = Ok key -> LoadPublicKey d (opts.(SigningKeyPath) +:+ ".pub") = Ok (Public key) ->
  sign_policy d opts.(PolicyPath) keyPath = Ok d' ->
  no_read d (SignatureFile opts.(PolicyPath)) = false -> SignatureFile opts.(PolicyPath) <> opts.(SigningKeyPath) +:+ ".pub" ->
  opts.(SigningKeyPath) <> "" -> opts.(PolicyPath) <> "" ->
  io_disk s.(s_io) = d' -> Load d' opts.(PolicyPath) = Ok pol ->
  rq_Path r = "/v0/policy/reload" -> rq_Method r = "POST" -> Get r.(rq_Query) "path" = "" ->
  authorize r.(rq_Peer) opts.(AllowedUIDs) = Ok () ->
  let s' := (serve env opts responder auth_text r s).2 in
  (exists v, (serve env opts responder auth_text r s).1 = AJson v)
  /\ s_agent s' = set_policy (s_agent s) pol /\ s_filler s' = syncBPFMaps pol (s_filler s).
Proof.
  intros Hst Hk Hpub Hs Hr Hne Hkp Hpp Hd Hl Hpath Hm Hq Ha.
  destruct (sign_policy_signs _ _ _ _ _ _ Hs Hk Hpub Hne Hr) as (raw & Hraw & Hsig).
  assert (serve env opts responder auth_text r = handleReload env opts r) as ->.
  { unfold serve. rewrite Hpath. reflexivity. }
  unfold handleReload, requireAuthorized, post_only, override_path, reload_from, load_checked.
  rewrite Ha, Hm, Hq. rewrite !bool_decide_eq_true_2, !(bool_decide_eq_false_2 (PolicyPath opts = "")) by done. cbn [negb].
  unfold sbind, ask, sret, lift_io, json_, sret. cbn [set_io s_io io_disk io_tick].
  match goal with |- context [backupPolicy ?o ?st ?p ?i] => destruct (backupPolicy o st p i) as [br i1] eqn:Eb end.
  cbn [set_io s_io]. rewrite (loadPolicy_steady _ Hst).
  assert (readFile (io_disk i1) (PolicyPath opts) = Ok raw) as Hraw1 by (eapply backup_reads; [exact Hst|exact Eb|by rewrite Hd]).
  assert (signed (io_disk i1) (PolicyPath opts) (SigningKeyPath opts) raw) as Hsig1
    by (eapply signed_reads; [exact Hst|exact Eb|by rewrite Hd]).
  assert (Load (io_disk i1) (PolicyPath opts) = Ok pol) as ->.
  { unfold Load in *. rewrite Hraw1. by rewrite Hraw in Hl. }
  cbn [set_io s_io].
  edestruct (verify_signed (v_others env) (PolicyPath opts) (SigningKeyPath opts)) as (i2 & -> & _);
    [exact Hst|exact Hkp|exact Hraw1|exact Hsig1|].
  split; [by eexists|done].
Qed.

(** ** Concrete command lines *)

Module Sample.
#[local] Instance unicode : GoUnicode := {| uni_equalFold := String.eqb; uni_toLower := id |}.
#[local] Instance floats : FloatOps := Suppress.binary64.
#[local] Instance texts : FloatText := {| float_text _ := None |}.
#[local] Existing Instance checksum_digest.
#[local] Existing Instance Keys.Sample.toy.

Import ServerProofs.Sample.

(** The key, its public half and a policy without a signature. *)
Definition unsigned : Disk :=
  mkDisk (<["/p/policy.json" := good]> (<["/k" := bytes (hexEncode (take 32 (Private key)))]>
    {["/k.pub" := bytes (hexEncode (Public key))]})) (fun _ => false) (fun _ => false) false.
Definition signed_disk : Disk := match sign_policy unsigned "/p/policy.json" "/k" with Ok d => d | Err _ => unsigned end.
Definition server : @Srv floats (libbpfLoader BpfMaps.Sample.table (option Z)) := mkSrv agent None (mkIo signed_disk 0) (mkMachine ∅ ∅) [] [] [] 0.
Definition policy : Policy := match load_bytes good with Ok p => p | Err _ => a_Policy agent end.

Lemma client_requests_served_witness :
  forall status why, (serve (env_of PolicyStore.Sample.alone) opts None (fun _ => "") reload server).1 = AErr status why ->
    refusal status.
Proof.
  refine (client_requests_served (env_of PolicyStore.Sample.alone) opts None (fun _ => "") ["policy"; "reload"] reload _ server).
  vm_compute. auto.
Defined.

(** The file given to a reload goes to the agent as a version, which the
    handler does not read: the configured policy is reloaded. *)
Example reload_file_ignored :
  dispatch ["policy"; "reload"; "/p/other.json"] = APost "/v0/policy/reload" "?version=/p/other.json" [].
Proof. vm_compute. reflexivity. Qed.

(** A misspelt subcommand of [policy] does nothing and reports success. *)
Example misspelt_policy_silent : dispatch ["policy"; "valdate"; "f"] = ANothing /\ dispatch ["event"; "x"] = AUsage.
Proof. vm_compute. auto. Qed.

(** A path with a quote changes the body of the request. *)
Example freeze_body_injected :
  decode_freeze freeze_names (pid_body "5" (freeze_arg (text (jtext "path=/a','pid':7,'x':'"))))
  = Some (mkFreeze 7 "/a" "").
Proof. vm_compute. reflexivity. Qed.

End Sample.
