(* ===== verification/ClientRun.v ===== *)
(** * A run of the command line client ([cmd/edrctl/main.go])

    [Client] says what a command line asks for; here the command is carried
    out: the request over the socket and its answer, the commands on local
    files, what is printed on the two outputs, and the exit code.  The answers
    of the socket and the texts of errors are arguments. *)

From S2P Require Import Prelude GoStrings GoTime Json GoJson Crypto EventLog LogRun Anchor BpfEvent Loader Bridge MapSync BpfMaps Collector Suppress Policy Response Nft Quarantine Responder Agent Security Query Disk Keys PolicyFile PolicyStore Baseline Metrics Server ServerProofs Client.

#[local] Open Scope string_scope.
#[local] Open Scope list_scope.
#[local] Open Scope Z_scope.

(** ** The transport *)

Record request := mkRequest { q_method : string; q_url : string; q_contentType : option string; q_body : list ascii }.

(** The bytes of the body that could be read, and the error that ended the
    reading early, if any. *)
Record response := mkResponse { StatusCode : Z; Status : string; b_bytes : list ascii; b_read : option string }.

Section Transport.
(** The answer to a request, or the text of the error. *)
Variable http : request -> result string response.

Definition readAll (r : response) : result string (list ascii) :=
  match r.(b_read) with None => Ok r.(b_bytes) | Some e => Err e end.

Definition unixGet (path : string) : list request * result string (list ascii) :=
  let q := mkRequest "GET" ("http://unix" +:+ path) None [] in
  ([q], let? resp := http q in
        fail_if 300 <=? resp.(StatusCode) with resp.(Status) ;;
        readAll resp).

Definition unixPostJSON (path : string) (jsonBody : list ascii) : list request * result string (list ascii) :=
  let q := mkRequest "POST" ("http://unix" +:+ path) (if present jsonBody then Some "application/json" else None) jsonBody in
  ([q], let? resp := http q in
        fail_if 300 <=? resp.(StatusCode)
          with (resp.(Status) +:+ ": " +:+ trimSpace (text resp.(b_bytes))) ;;
        readAll resp).

Definition unixPost (path : string) : list request * result string (list ascii) := unixPostJSON path [].
End Transport.

(** ** The outcome of a run *)

Record outcome := mkOutcome { o_sent : list request; o_out : list ascii; o_err : list string; o_exit : Z; o_disk : Disk }.

Definition usage_lines : list string :=
  ["usage: edrctl [--socket path] COMMAND"; ""; "Commands:";
   "  status                        Show agent status";
   "  metrics                       Show agent metrics (JSON)";
   "  metrics prometheus             Show Prometheus metrics";
   "  health                        Health check";
   "  shutdown                      Shutdown agent";
   "  policy validate FILE          Validate policy file";
   "  policy sign FILE KEY          Sign policy file";
   "  policy verify-signature [F K] Verify policy signature";
   "  policy reload [FILE]          Reload policy";
   "  policy versions               List policy versions";
   "  policy rollback [VERSION]     Rollback policy";
   "  baseline run FILE             Run baseline check";
   "  events tail [k=v...]          Tail events";
   "  events query [k=v...]         Query events";
   "  events verify                 Verify event chain";
   "  responses list                List response history";
   "  forensics export [k=v...]     Export forensics";
   "  nft list                      List nft rules";
   "  nft rollback                  Rollback nft rules";
   "  process freeze PID [k=v...]   Freeze process (SIGSTOP)";
   "  process resume PID            Resume process (SIGCONT)";
   "  process frozen                List frozen processes";
   "  network isolate               Apply network isolation";
   "  network restore               Restore network";
   "  notify test                   Test webhook notification";
   "  quarantine list               List quarantined files";
   "  quarantine restore PATH       Restore quarantined file"].

(** [json.NewEncoder.Encode] of the findings. *)
Definition finding_value (f : Finding) : gval :=
  GStruct [("id", GStr f.(f_ID)); ("path", GStr f.(f_Path)); ("passed", GBool f.(f_Passed));
           ("expected", GStr f.(f_Expected)); ("actual", GStr f.(f_Actual))].
Definition printJSON (l : list Finding) : list ascii := print (marshal (GSlice (map finding_value l))) ++ [byte 10].

(** The surroundings of a run: the socket, [os.Stat] and the texts of errors. *)
Record ClientEnv := mkClientEnv {
  c_http : request -> result string response; c_stat : string -> result string Z;
  c_loadText : load_err -> string; c_cliText : cli_err -> string; c_baselineText : baseline_err -> string;
}.

Section Run.
Context {UC : GoUnicode} {ED : Ed25519}.
Variable env : ClientEnv.

Definition line (s : list ascii) : list ascii := s ++ [byte 10].

(** [die] on an error, or what is printed. *)
Definition finish (d : Disk) (sent : list request) (r : result string (list ascii)) : outcome :=
  match r with
  | Ok out => mkOutcome sent out [] 0 d
  | Err e => mkOutcome sent [] [e] 1 d
  end.

Definition remote (d : Disk) (x : list request * result string (list ascii)) : outcome :=
  finish d x.1 (let? body := x.2 in Ok (line body)).

Definition as_text {E A} (t : E -> string) (r : result E A) : result string A :=
  match r with Ok a => Ok a | Err e => Err (t e) end.

Definition run (d : Disk) (args : list string) : outcome :=
  match dispatch args with
  | AGet e q => remote d (unixGet env.(c_http) (e +:+ q))
  | APost e q body => remote d (unixPostJSON env.(c_http) (e +:+ q) body)
  | AValidate file =>
      finish d [] (let? p := as_text env.(c_loadText) (Load d file) in
        Ok (line (bytes ("ok: " +:+ itoa (Z.of_nat (length p.(p_Rules))) +:+ " rules, process_access="
                         +:+ p.(p_ProcessAccess).(pa_Mode)))))
  | ASign file key =>
      match sign_policy d file key with
      | Ok d' => finish d' [] (Ok (line (bytes ("ok: signed " +:+ file +:+ " -> " +:+ SignatureFile file))))
      | Err e => finish d [] (Err (env.(c_cliText) e))
      end
  | AVerify file key =>
      match verify_policy d file key with
      | Ok _ => finish d [] (Ok (line (bytes ("ok: valid signature for " +:+ file))))
      | Err CSignature => mkOutcome [] (line (bytes "invalid signature")) [] 1 d
      | Err e => finish d [] (Err (env.(c_cliText) e))
      end
  | ABaseline file =>
      finish d [] (let? t := as_text env.(c_baselineText) (LoadTemplate d file) in Ok (printJSON (Run env.(c_stat) t)))
  | AUsage => mkOutcome [] [] usage_lines 2 d
  | AUsageOf l => mkOutcome [] [] [l] 2 d
  | ANothing => mkOutcome [] [] [] 0 d
  end.
End Run.

(** ** What an exit code means *)

(** The answer of the agent on the wire; the texts of bodies and status lines
    are arguments. *)
Record Wire := mkWire { w_body : answer -> list ascii; w_status : Z -> string }.
Definition wire (t : Wire) (a : answer) : response :=
  match a with
  | AErr st _ => mkResponse st (t.(w_status) st) (t.(w_body) a) None
  | _ => mkResponse 200 "200 OK" (t.(w_body) a) None
  end.

(** The request of a command. *)
Definition request_of (a : action) : option request :=
  match a with
  | AGet e q => Some (mkRequest "GET" ("http://unix" +:+ (e +:+ q)) None [])
  | APost e q body =>
      Some (mkRequest "POST" ("http://unix" +:+ (e +:+ q)) (if present body then Some "application/json" else None) body)
  | _ => None
  end.

Section Meaning.
Context {UC : GoUnicode} {ED : Ed25519}.
Variable env : ClientEnv.

Lemma run_remote d args q :
  request_of (dispatch args) = Some q ->
  exists r, run env d args = remote d ([q], r)
  /\ forall resp, c_http env q = Ok resp ->
     if 300 <=? StatusCode resp then exists e, r = Err e else r = readAll resp.
Proof.
  unfold run. destruct (dispatch args) as [e qs|e qs body| | | | | | |]; cbn [request_of]; intros [= <-].
  - unfold unixGet. eexists. split; [reflexivity|]. intros resp ->. cbn [res_bind]. destruct (300 <=? StatusCode resp); eauto.
  - unfold unixPostJSON. eexists. split; [reflexivity|]. intros resp ->. cbn [res_bind]. destruct (300 <=? StatusCode resp); eauto.
Qed.

(** One request is sent by the commands for the agent and none by the others;
    whatever the command, a failure leaves the files as they were. *)
Lemma run_frame d args :
  o_sent (run env d args) = option_list (request_of (dispatch args))
  /\ (o_exit (run env d args) <> 0 -> o_disk (run env d args) = d).
Proof.
  unfold run. destruct (dispatch args) as [e q|e q body|f|f k|f k|f| |l|]; cbn [request_of option_list].
  - unfold remote, unixGet, finish. cbn [fst snd]. by destruct (res_bind _ _).
  - unfold remote, unixPostJSON, finish. cbn [fst snd]. by destruct (res_bind _ _).
  - unfold finish. by destruct (res_bind _ _).
  - destruct (sign_policy d f k); by simpl.
  - destruct (verify_policy d f k) as [|[]]; by simpl.
  - unfold finish. by destruct (res_bind _ _).
  - done.
  - done.
  - done.
Qed.
End Meaning.

(** The exit code of the client is the verdict of the agent: a command that is
    a request, answered by the control server, exits with zero exactly when the
    server did not refuse it, and then prints the body of the answer; otherwise
    it exits with one and prints nothing on the standard output. *)
Theorem client_verdict {UC : GoUnicode} {FO : FloatOps} {FT : FloatText} {DG : Digest} {ED : Ed25519}
    {FS : Type} {MF : MapFiller FS} (senv : SEnv) (opts : ServerOptions) (responder : option SoftResponder)
    (auth_text : auth_err -> string) (t : Wire) (env : ClientEnv) (d : Disk) (args : list string) (q : request)
    (r : Request) (s : @Srv _ FS) :
  request_of (dispatch args) = Some q ->
  match dispatch args with
  | AGet e _ => rq_Method r = "GET" /\ rq_Path r = e
  | APost e _ _ => rq_Method r = "POST" /\ rq_Path r = e
  | _ => False
  end ->
  let a := (serve senv opts responder auth_text r s).1 in
  c_http env q = Ok (wire t a) ->
  o_sent (run env d args) = [q] /\
  match a with
  | AErr _ _ => o_exit (run env d args) = 1 /\ o_out (run env d args) = []
  | _ => o_exit (run env d args) = 0 /\ o_out (run env d args) = line (w_body t a)
  end.
Proof.
  intros Hq Hr a Hh. split; [by rewrite (proj1 (run_frame env d args)), Hq|].
  destruct (run_remote env d args q Hq) as (res & -> & Hres). specialize (Hres _ Hh).
  assert (forall st why, a = AErr st why -> refusal st) as Href.
  { intros st why. apply (serve_served senv opts responder auth_text r). pose proof (dispatch_leads args) as Hl.
    destruct (dispatch args); cbn [leads] in Hl; try done; destruct Hr as [Hm ->]; auto. }
  destruct a as [st why|v|ls]; cbn [wire StatusCode] in Hres.
  - destruct (Href st why eq_refl) as (_ & _ & Hst). rewrite (proj2 (Z.leb_le _ _) Hst) in Hres.
    destruct Hres as [e ->]. done.
  - cbn in Hres. subst res. done.
  - cbn in Hres. subst res. done.
Qed.



(** ** Concrete runs *)

Module Sample.
#[local] Instance unicode : GoUnicode := {| uni_equalFold := String.eqb; uni_toLower := id |}.
#[local] Instance floats : FloatOps := Suppress.binary64.
#[local] Instance texts : FloatText := {| float_text _ := None |}.
#[local] Existing Instance checksum_digest.
#[local] Existing Instance Keys.Sample.toy.

Definition the_wire : Wire := mkWire (fun _ => bytes "{}") (fun st => itoa st).
Definition reply : answer := (serve (ServerProofs.Sample.env_of PolicyStore.Sample.alone) ServerProofs.Sample.opts None (fun _ => "") ServerProofs.Sample.reload Client.Sample.server).1.
Definition cenv : ClientEnv :=
  mkClientEnv (fun _ => Ok (wire the_wire reply)) (fun _ => Err "no such file") (fun _ => "load") (fun _ => "cli") (fun _ => "baseline").


Lemma client_verdict_witness :
  o_exit (run cenv Client.Sample.unsigned ["policy"; "reload"]) = 0.
Proof.
  pose proof (client_verdict (ServerProofs.Sample.env_of PolicyStore.Sample.alone) ServerProofs.Sample.opts None (fun _ => "") the_wire cenv Client.Sample.unsigned ["policy"; "reload"]
    (mkRequest "POST" "http://unix/v0/policy/reload" None []) ServerProofs.Sample.reload Client.Sample.server) as H.
  cbv zeta in H. destruct H as [_ H]; [reflexivity|vm_compute; auto|reflexivity|].
  fold reply in H. destruct reply eqn:E; [vm_compute in E; discriminate E|apply H..].
Defined.

(** A signature that does not fit is reported on the standard output with a
    failing exit code. *)
Example wrong_signature_fails :
  let o := run cenv (with_content Client.Sample.signed_disk (<["/p/policy.json" := bytes "{}"]> (content Client.Sample.signed_disk)))
             ["policy"; "verify-signature"; "/p/policy.json"; "/k.pub"] in
  (o_exit o, text (o_out o)) = (1, "invalid signature" +:+ nl).
Proof. vm_compute. reflexivity. Qed.
End Sample.
