(* ===== verification/Notify.v ===== *)
(** * Notifications ([internal/notify/webhook.go], [internal/notify/email.go])

    [Webhook] has the dispatcher as a step relation over its callers, its loop
    and the goroutines that send, and the payloads as the text of JSON values.
    [Email] has the message that is handed to the mail server.  The answer of an
    HTTP request, the rendering of the HTML template and the outcome of the SMTP
    session are arguments. *)

From S2P Require Import Prelude GoStrings GoTime Json GoJson Crypto EventLog ChainProofs LogRun Loader.

#[local] Open Scope string_scope.
#[local] Open Scope list_scope.
#[local] Open Scope Z_scope.

(** ** Events and thresholds *)

Record WebhookEvent := mkWebhookEvent {
  we_RuleID : string; we_Severity : string; we_Category : string; we_Decision : string; we_Action : string;
  we_Subject : option (list (string * gval)); we_Object : option (list (string * gval)); we_Timestamp : Time; we_Host : string;
}.

Definition severityOrder (s : string) : Z :=
  if s == "low" then 1 else if s == "medium" then 2 else if s == "high" then 3 else if s == "critical" then 4 else 0.

Definition shouldNotify (eventSeverity minSeverity : string) : bool :=
  if minSeverity == "" then true else severityOrder minSeverity <=? severityOrder eventSeverity.

(** UTF-8 of the coloured circles. *)
Definition severityEmoji (s : string) : string :=
  text (map byte (if s == "critical" then [0xF0; 0x9F; 0x94; 0xB4]
    else if s == "high" then [0xF0; 0x9F; 0x9F; 0xA0]
    else if s == "medium" then [0xF0; 0x9F; 0x9F; 0xA1]
    else if s == "low" then [0xF0; 0x9F; 0x9F; 0xA2]
    else [0xE2; 0x9A; 0xAA])).

(** ** Web hooks *)

Module Webhook.

Record WebhookConfig := mkConfig {
  URL : string; Headers : list (string * string); TimeoutSec : Z; Format : string; MinSeverity : string;
}.

(** *** Payloads *)

Section Payload.
Variable fmt_v : gval -> string.       (** [%v] of a value that is neither a string nor an integer *)

Definition sprint (v : gval) : string := match v with GStr s => s | GInt z => itoa z | _ => fmt_v v end.

(** [Format(time.RFC3339)]: no fraction of a second. *)
Definition rfc3339 (t : Time) : string :=
  text (time_print (mkTime t.(t_year) t.(t_month) t.(t_day) t.(t_hour) t.(t_min) t.(t_sec) 0 t.(t_off))).

Definition getMember (k : string) (m : list (string * gval)) : option gval := snd <$> List.find (fun kv => kv.1 == k) m.

Definition concat_text (l : list string) : string := foldr String.append "" l.

Definition dingTalk_text (ev : WebhookEvent) : string :=
  concat_text ([severityEmoji ev.(we_Severity); " **EDR Alert** ["; ev.(we_RuleID); "]"; nl; nl;
    "- **Rule**: "; ev.(we_RuleID); nl; "- **Severity**: "; ev.(we_Severity); nl; "- **Category**: "; ev.(we_Category); nl;
    "- **Decision**: "; ev.(we_Decision); nl; "- **Host**: "; ev.(we_Host); nl; "- **Time**: "; rfc3339 ev.(we_Timestamp)]
    ++ match ev.(we_Subject) ≫= getMember "process_name" with
       | Some name => [nl; "- **Process**: "; sprint name]
       | None => []
       end).

Definition weChat_text (ev : WebhookEvent) : string :=
  concat_text [severityEmoji ev.(we_Severity); " EDR Alert ["; ev.(we_RuleID); "]"; nl; "> Rule: "; ev.(we_RuleID); nl;
    "> Severity: "; ev.(we_Severity); nl; "> Category: "; ev.(we_Category); nl; "> Decision: "; ev.(we_Decision); nl;
    "> Host: "; ev.(we_Host); nl; "> Time: "; rfc3339 ev.(we_Timestamp)].

Definition feishu_text (ev : WebhookEvent) : string :=
  concat_text ["**Rule**: "; ev.(we_RuleID); nl; "**Category**: "; ev.(we_Category); nl; "**Decision**: "; ev.(we_Decision); nl;
    "**Host**: "; ev.(we_Host); nl; "**Time**: "; rfc3339 ev.(we_Timestamp)].

Definition formatDingTalk (ev : WebhookEvent) : gval :=
  GMap [("msgtype", GStr "markdown");
        ("markdown", GMap [("title", GStr (concat_text ["EDR ["; ev.(we_Severity); "] "; ev.(we_RuleID)]));
                           ("text", GStr (dingTalk_text ev))])].

Definition formatWeChatWork (ev : WebhookEvent) : gval :=
  GMap [("msgtype", GStr "markdown"); ("markdown", GMap [("content", GStr (weChat_text ev))])].

Definition formatFeishu (ev : WebhookEvent) : gval :=
  GMap [("msg_type", GStr "interactive");
        ("card", GMap
           [("header", GMap [("title", GMap [("tag", GStr "plain_text");
               ("content", GStr (concat_text [severityEmoji ev.(we_Severity); " EDR Alert ["; ev.(we_Severity); "]"]))])]);
            ("elements", GSlice [GMap [("tag", GStr "markdown"); ("content", GStr (feishu_text ev))]])])].

(** The fields in declaration order; [omitempty] leaves out an empty text and an
    empty map. *)
Definition map_field (name : string) (m : option (list (string * gval))) : list (string * gval) :=
  match m with Some (x :: l) => [(name, GMap (x :: l))] | _ => [] end.

Definition formatGeneric (ev : WebhookEvent) : gval :=
  GStruct ([("rule_id", GStr ev.(we_RuleID)); ("severity", GStr ev.(we_Severity)); ("category", GStr ev.(we_Category));
      ("decision", GStr ev.(we_Decision))]
    ++ (if ev.(we_Action) == "" then [] else [("action", GStr ev.(we_Action))])
    ++ map_field "subject" ev.(we_Subject) ++ map_field "object" ev.(we_Object)
    ++ [("timestamp", GStr (text (time_print ev.(we_Timestamp)))); ("host", GStr ev.(we_Host))]).

Definition payload (format : string) (ev : WebhookEvent) : gval :=
  if format == "dingtalk" then formatDingTalk ev
  else if format == "wechat_work" then formatWeChatWork ev
  else if format == "feishu" then formatFeishu ev
  else formatGeneric ev.

(** [MarshalJSON] of a time refuses years of more than four digits; the error
    is dropped and the body is empty. *)
Definition formatPayload (format : string) (ev : WebhookEvent) : list ascii :=
  if (bool_decide (format ∈ ["dingtalk"; "wechat_work"; "feishu"])) || ((0 <=? t_year (we_Timestamp ev)) && (t_year (we_Timestamp ev) <=? 9999))
  then print (marshal (payload format ev)) else [].

(** *** One request *)

(** [textproto.CanonicalMIMEHeaderKey] *)
Definition is_letter (a : ascii) : bool := is_upper a || ((97 <=? code a) && (code a <=? 122)).
Definition token_byte (a : ascii) : bool :=
  is_letter a || is_digit a || bool_decide (a ∈ bytes "!#$%&'*+-.^_`|~").
Definition upper (a : ascii) : ascii := if (97 <=? code a) && (code a <=? 122) then byte (code a - 32) else a.

Fixpoint canon (up : bool) (l : list ascii) : list ascii :=
  match l with
  | [] => []
  | a :: l => (if up then upper a else lower a) :: canon (a == "-"%char) l
  end.

Definition canonicalKey (k : string) : string :=
  if forallb token_byte (bytes k) then text (canon true (bytes k)) else k.

(** [Header.Set] *)
Definition setHeader (h : gmap string string) (kv : string * string) : gmap string string := <[canonicalKey kv.1 := kv.2]> h.

Definition redactURL (url : string) : string :=
  match index url "access_token=" with
  | Some i => text (take (i + 13) (bytes url)) +:+ "***"
  | None =>
      match index url "key=" with
      | Some i => text (take (i + 4) (bytes url)) +:+ "***"
      | None => url
      end
  end.

Record Request := mkRequest { q_URL : string; q_Header : gmap string string; q_Body : list ascii }.

(** What became of a request: refused when built (with the error), failed (with
    the text of the error), or answered with a status. *)
Inductive outcome := OBuild (err : string) | OFailed (err : string) | OStatus (code : Z).

(** The request that leaves, and the line on the error output. *)
Definition sendOne (c : WebhookConfig) (ev : WebhookEvent) (o : outcome) : option Request * option string :=
  let req := mkRequest c.(URL) (foldl setHeader {["Content-Type" := "application/json"]} c.(Headers)) (formatPayload c.(Format) ev) in
  match o with
  | OBuild err => (None, Some ("webhook: new request: " +:+ err))
  | OFailed err => (Some req, Some ("webhook: post " +:+ redactURL c.(URL) +:+ ": " +:+ err))
  | OStatus code =>
      (Some req, if 400 <=? code then Some ("webhook: post " +:+ redactURL c.(URL) +:+ ": status " +:+ itoa code) else None)
  end.

End Payload.

(** *** The dispatcher *)

Definition queueCap : nat := 256.

(** The end points that are kept, with their timeouts in seconds. *)
Definition NewClients (cfgs : list WebhookConfig) : list (WebhookConfig * Z) :=
  map (fun c => (c, if c.(TimeoutSec) <=? 0 then 10 else c.(TimeoutSec))) (List.filter (fun c => c.(URL) != "") cfgs).

(** Without an end point the loop is not started. *)
Inductive lphase := Absent | Running | Draining | Exited.

#[global] Instance lphase_eq_dec : EqDecision lphase.
Proof. solve_decision. Defined.

(** [d_taken] are the events that went into the queue, [d_handled] those that
    left it, [d_sending] the goroutines that were started and are not done,
    [d_sent] those that are. *)
Record Dispatcher := mkDispatcher {
  d_clients : list (WebhookConfig * Z); d_queue : list WebhookEvent; d_stopped : bool; d_loop : lphase;
  d_taken : list WebhookEvent; d_handled : list WebhookEvent;
  d_sending : list (WebhookConfig * WebhookEvent); d_sent : list (WebhookConfig * WebhookEvent);
}.

Definition NewWebhookDispatcher (cfgs : list WebhookConfig) : Dispatcher :=
  let clients := NewClients cfgs in
  mkDispatcher clients [] false (match clients with [] => Absent | _ => Running end) [] [] [] [].

(** A send that does not block. *)
Definition Dispatch (d : Dispatcher) (ev : WebhookEvent) : Dispatcher :=
  let '(ok, q) := try_send queueCap ev d.(d_queue) in
  mkDispatcher d.(d_clients) q d.(d_stopped) d.(d_loop) (d.(d_taken) ++ if ok then [ev] else []) d.(d_handled) d.(d_sending) d.(d_sent).

Definition targets (clients : list (WebhookConfig * Z)) (ev : WebhookEvent) : list (WebhookConfig * WebhookEvent) :=
  map (fun c => (c.1, ev)) (List.filter (fun c => shouldNotify ev.(we_Severity) c.1.(MinSeverity)) clients).

Definition sendToAll (d : Dispatcher) (q : list WebhookEvent) (ev : WebhookEvent) : Dispatcher :=
  mkDispatcher d.(d_clients) q d.(d_stopped) d.(d_loop) d.(d_taken) (d.(d_handled) ++ [ev])
    (d.(d_sending) ++ targets d.(d_clients) ev) d.(d_sent).

Definition to_phase (d : Dispatcher) (p : lphase) : Dispatcher :=
  mkDispatcher d.(d_clients) d.(d_queue) d.(d_stopped) p d.(d_taken) d.(d_handled) d.(d_sending) d.(d_sent).

Definition stopping (d : Dispatcher) : Dispatcher :=
  mkDispatcher d.(d_clients) d.(d_queue) true d.(d_loop) d.(d_taken) d.(d_handled) d.(d_sending) d.(d_sent).

Inductive move := MDispatch (ev : WebhookEvent) | MStop | MLoop | MSend.

Inductive dstep : Dispatcher -> move -> Dispatcher -> Prop :=
| ds_dispatch d ev : dstep d (MDispatch ev) (Dispatch d ev)
(** [Stop] closes [done]; a second [Stop] would close it again and panic *)
| ds_stop d : d.(d_stopped) = false -> dstep d MStop (stopping d)
| ds_take d ev q : d.(d_loop) = Running \/ d.(d_loop) = Draining -> d.(d_queue) = ev :: q -> dstep d MLoop (sendToAll d q ev)
| ds_done d : d.(d_loop) = Running -> d.(d_stopped) = true -> dstep d MLoop (to_phase d Draining)
| ds_exit d : d.(d_loop) = Draining -> d.(d_queue) = [] -> dstep d MLoop (to_phase d Exited)
(** a goroutine finishes its request *)
| ds_send d l1 x l2 : d.(d_sending) = l1 ++ x :: l2 ->
    dstep d MSend (mkDispatcher d.(d_clients) d.(d_queue) d.(d_stopped) d.(d_loop) d.(d_taken) d.(d_handled) (l1 ++ l2) (d.(d_sent) ++ [x])).

Inductive dsteps : Dispatcher -> list move -> Dispatcher -> Prop :=
| dsteps_nil d : dsteps d [] d
| dsteps_cons d m d1 ms d2 : dstep d m d1 -> dsteps d1 ms d2 -> dsteps d (m :: ms) d2.

(** [Stop] has returned: the loop is over, or never ran. *)
Definition Stop_returned (d : Dispatcher) : bool :=
  d.(d_stopped) && match d.(d_loop) with Absent | Exited => true | _ => false end.

(** *** What the dispatcher delivers *)

(** The events of the callers. *)
Definition dispatched (ms : list move) : list WebhookEvent := omap (fun m => match m with MDispatch ev => Some ev | _ => None end) ms.

Definition delivers (clients : list (WebhookConfig * Z)) (ms : list move) (d : Dispatcher) : Prop :=
  d.(d_clients) = clients
  /\ d.(d_taken) = d.(d_handled) ++ d.(d_queue)
  /\ (length d.(d_queue) <= queueCap)%nat
  /\ d.(d_taken) `sublist_of` dispatched ms
  /\ d.(d_sent) ++ d.(d_sending) ≡ₚ concat (map (targets clients) d.(d_handled))
  /\ (d.(d_loop) = Absent <-> clients = [])
  /\ (d.(d_loop) = Draining \/ d.(d_loop) = Exited -> d.(d_stopped) = true).

Lemma delivers_step clients ms d m d' : delivers clients ms d -> dstep d m d' -> delivers clients (ms ++ [m]) d'.
Proof.
  intros (<- & Ht & Hq & Hs & Hp & Ha & Hx) Hstep.
  assert (dispatched (ms ++ [m]) = dispatched ms ++ dispatched [m]) as Hms by apply omap_app.
  assert (d_taken d `sublist_of` dispatched (ms ++ [m])) as Hs'.
  { rewrite Hms. by apply sublist_inserts_r. }
  destruct Hstep as [d ev|d Hst|d ev q Hl Hqu|d Hl Hst|d Hl Hqu|d l1 x l2 Hsend]; unfold delivers; simpl.
  - unfold Dispatch. destruct (Live.try_send_spec queueCap ev (d_queue d) Hq) as [Hq' [E|[E _]]];
      rewrite E in Hq' |- *; simpl in *; rewrite ?app_nil_r; split_and!; try done.
    + by rewrite Ht, app_assoc.
    + rewrite Hms. by apply sublist_app.
  - by split_and!.
  - split_and!; try done.
    + by rewrite Ht, Hqu, <- app_assoc.
    + rewrite Hqu in Hq. simpl in Hq. lia.
    + rewrite map_app, concat_app. simpl. rewrite app_nil_r, app_assoc. by apply Permutation_app.
  - split_and!; try done. rewrite <- Ha, Hl. done.
  - split_and!; try done. rewrite <- Ha, Hl. done. tauto.
  - split_and!; try done. rewrite <- Hp, Hsend, <- app_assoc. simpl.
    apply Permutation_app_head. by rewrite Permutation_middle.
Qed.

Lemma delivers_run clients ms0 d ms d' : delivers clients ms0 d -> dsteps d ms d' -> delivers clients (ms0 ++ ms) d'.
Proof.
  intros Hd Hrun. revert ms0 Hd. induction Hrun as [d|d m d1 ms d2 Hstep _ IH]; intros ms0 Hd; [by rewrite app_nil_r|].
  replace (ms0 ++ m :: ms) with ((ms0 ++ [m]) ++ ms) by (by rewrite <- app_assoc). eapply IH, delivers_step; done.
Qed.

Lemma delivers_new cfgs : delivers (NewClients cfgs) [] (NewWebhookDispatcher cfgs).
Proof.
  unfold delivers, NewWebhookDispatcher. simpl. split_and!; try done; [unfold queueCap; lia|by destruct (NewClients cfgs)|].
  destruct (NewClients cfgs); intros [|]; done.
Qed.

(** The dispatcher hands the events that found room in its queue to the end
    points in the order of the calls, each exactly once to each end point whose
    threshold it meets, and to no other; the queue holds at most 256 events. *)
Theorem webhook_delivery (cfgs : list WebhookConfig) (ms : list move) (d : Dispatcher) :
  dsteps (NewWebhookDispatcher cfgs) ms d -> delivers (NewClients cfgs) ms d.
Proof. intros Hrun. apply (delivers_run _ [] _ ms d (delivers_new cfgs) Hrun). Qed.







(** *** The receiver reads the message *)

Lemma concat_text_utf8 l : Forall (fun s => valid_utf8 s = true) l -> valid_utf8 (concat_text l) = true.
Proof. induction 1 as [|s l Hs _ IH]; [done|]. by apply valid_utf8_app. Qed.

Lemma severityEmoji_utf8 s : valid_utf8 (severityEmoji s) = true.
Proof. unfold severityEmoji. repeat case_bool_decide; vm_compute; reflexivity. Qed.

Lemma rfc3339_utf8 t : valid_utf8 (rfc3339 t) = true.
Proof. apply time_text_utf8. Qed.

(** The texts of the event are UTF-8, its maps can be encoded, and its year has
    four digits. *)
Record sendable (fmt_v : gval -> string) (ev : WebhookEvent) : Prop := {
  send_texts : Forall (fun s => valid_utf8 s = true)
    [ev.(we_RuleID); ev.(we_Severity); ev.(we_Category); ev.(we_Decision); ev.(we_Action); ev.(we_Host)];
  send_name : forall name, ev.(we_Subject) ≫= getMember "process_name" = Some name -> valid_utf8 (sprint fmt_v name) = true;
  send_subject : forall m, ev.(we_Subject) = Some m -> json_ok inner_depth (marshal (GMap m)) = true;
  send_object : forall m, ev.(we_Object) = Some m -> json_ok inner_depth (marshal (GMap m)) = true;
  send_year : 0 <= t_year ev.(we_Timestamp) <= 9999;
}.

#[local] Ltac utf8_texts :=
  repeat first [ apply List.Forall_nil | apply List.Forall_cons
               | assumption | apply severityEmoji_utf8 | apply rfc3339_utf8 | (vm_compute; reflexivity) ].

Section Readable.
Variables (fmt_v : gval -> string) (ev : WebhookEvent) (Hev : sendable fmt_v ev).

Lemma dingTalk_utf8 : valid_utf8 (dingTalk_text fmt_v ev) = true.
Proof.
  destruct Hev as [Ht Hn _ _ _]. decompose_Forall_hyps. apply concat_text_utf8, Forall_app. split; [utf8_texts|].
  destruct (we_Subject ev ≫= getMember "process_name") as [name|]; utf8_texts. by apply Hn.
Qed.

Lemma weChat_utf8 : valid_utf8 (weChat_text ev) = true.
Proof. destruct Hev as [Ht _ _ _ _]. decompose_Forall_hyps. apply concat_text_utf8. utf8_texts. Qed.

Lemma feishu_utf8 : valid_utf8 (feishu_text ev) = true.
Proof. destruct Hev as [Ht _ _ _ _]. decompose_Forall_hyps. apply concat_text_utf8. utf8_texts. Qed.

Lemma map_field_ok name m :
  valid_utf8 name = true -> (forall l, m = Some l -> json_ok inner_depth (marshal (GMap l)) = true) ->
  forallb (fun kv => valid_utf8 kv.1 && json_ok inner_depth kv.2) (map (fun kv => (kv.1, marshal kv.2)) (map_field name m)) = true.
Proof.
  intros Hn Hm. destruct m as [[|x l]|]; [done| |done].
  change (valid_utf8 name && json_ok inner_depth (marshal (GMap (x :: l))) && true = true). by rewrite Hn, (Hm _ eq_refl).
Qed.

Lemma generic_ok : json_ok (S inner_depth) (marshal (formatGeneric ev)) = true.
Proof.
  destruct Hev as [Ht _ Hs Ho _]. rewrite !Forall_cons in Ht. destruct Ht as (? & ? & ? & ? & H3 & ? & _).
  pose proof (time_text_utf8 (we_Timestamp ev)) as HT.
  unfold formatGeneric. cbn [marshal json_ok]. rewrite !map_app, !forallb_app, !andb_true_iff.
  split_and!; try done; try (apply map_field_ok; [vm_compute; reflexivity|done]);
    [|destruct (we_Action ev == ""); [done|]|]; cbn [map fst snd forallb marshal json_ok]; rewrite !andb_true_iff; by split_and!.
Qed.

Lemma chat_ok format k : format ∈ ["dingtalk"; "wechat_work"; "feishu"] -> json_ok (8 + k) (marshal (payload fmt_v format ev)) = true.
Proof.
  intros Hf. pose proof dingTalk_utf8 as U1. pose proof weChat_utf8 as U2. pose proof feishu_utf8 as U3.
  destruct Hev as [Ht _ _ _ _]. rewrite !Forall_cons in Ht. destruct Ht as (? & ? & ? & ? & ? & ? & _). unfold payload.
  assert (valid_utf8 (concat_text ["EDR ["; we_Severity ev; "] "; we_RuleID ev]) = true) as U4 by (apply concat_text_utf8; utf8_texts).
  assert (valid_utf8 (concat_text [severityEmoji (we_Severity ev); " EDR Alert ["; we_Severity ev; "]"]) = true) as U5
    by (apply concat_text_utf8; utf8_texts).
  unfold formatDingTalk, formatWeChatWork, formatFeishu. revert U1 U2 U3 U4 U5.
  generalize (dingTalk_text fmt_v ev), (weChat_text ev), (feishu_text ev), (concat_text ["EDR ["; we_Severity ev; "] "; we_RuleID ev]),
    (concat_text [severityEmoji (we_Severity ev); " EDR Alert ["; we_Severity ev; "]"]). intros t1 t2 t3 t4 t5 U1 U2 U3 U4 U5.
  repeat case_bool_decide; try (exfalso; set_solver); simpl; rewrite ?U1, ?U2, ?U3, ?U4, ?U5; done.
Qed.

End Readable.

(** The receiver of a web hook decodes the body to exactly the message that
    was composed, whatever characters the fields hold, in every format. *)
Theorem payload_decodes (fmt_v : gval -> string) (format : string) (ev : WebhookEvent) :
  sendable fmt_v ev -> parse (formatPayload fmt_v format ev) = Some (marshal (payload fmt_v format ev)).
Proof.
  intros Hev. unfold formatPayload.
  assert (json_ok max_depth (marshal (payload fmt_v format ev)) = true) as Hok.
  { destruct (decide (format ∈ ["dingtalk"; "wechat_work"; "feishu"])) as [Hf|Hf].
    - assert (max_depth = 8 + (max_depth - 8))%nat as -> by (vm_compute; reflexivity). by apply chat_ok.
    - unfold payload. do 3 (rewrite bool_decide_eq_false_2 by set_solver).
      assert (max_depth = S inner_depth) as -> by (vm_compute; reflexivity). by eapply generic_ok. }
  rewrite (proj2 (Z.leb_le _ _) (proj1 (send_year _ _ Hev))), (proj2 (Z.leb_le _ _) (proj2 (send_year _ _ Hev))), orb_true_r.
  rewrite <- (app_nil_r (print _)). by apply parse_print.
Qed.

(** *** Redaction *)

Lemma prefix_app_r p s t : (String.length p <= String.length s)%nat -> String.prefix p (s +:+ t) = String.prefix p s.
Proof.
  revert s. induction p as [|a p IH]; intros [|b s]; simpl; intros Hl; [by destruct t|done|lia|].
  destruct (ascii_dec a b); [|done]. apply IH. lia.
Qed.

Lemma index_bound s sub i : index s sub = Some i -> (i + String.length sub <= String.length s)%nat.
Proof.
  revert i. induction s as [|a s IH]; intros i; cbn [index]; destruct (String.prefix sub _) eqn:Hp; try done.
  - intros [= <-]. by destruct sub.
  - intros [= <-]. apply prefix_spec in Hp as [u ->]. rewrite <- !length_bytes, bytes_app, length_app. lia.
  - intros (j & Hj & ->)%fmap_Some. apply IH in Hj. simpl. lia.
Qed.

Lemma index_app s t sub i : index s sub = Some i -> index (s +:+ t) sub = Some i.
Proof.
  revert i. induction s as [|a s IH]; intros i Hi; pose proof (index_bound _ _ _ Hi) as Hb.
  - destruct sub; [by destruct t|simpl in Hb; lia].
  - change (String a s +:+ t) with (String a (s +:+ t)). revert Hi. cbn [index].
    change (String a (s +:+ t)) with (String a s +:+ t). rewrite prefix_app_r by lia.
    destruct (String.prefix sub (String a s)); [done|]. intros (j & Hj & ->)%fmap_Some. by rewrite (IH _ Hj).
Qed.

Lemma index_found s sub t : exists i, index (s +:+ sub +:+ t) sub = Some i /\ (i <= String.length s)%nat.
Proof.
  induction s as [|a s (i & Hi & Hl)].
  - exists 0%nat. split; [|done]. change ("" +:+ sub +:+ t) with (sub +:+ t). pose proof (prefix_app sub t) as Hp.
    destruct (sub +:+ t) as [|b u]; cbn [index]; by rewrite Hp.
  - change (String a s +:+ sub +:+ t) with (String a (s +:+ sub +:+ t)). cbn [index].
    destruct (String.prefix _ _); [exists 0%nat; split; [done|lia]|]. exists (S i). rewrite Hi. simpl. split; [done|lia].
Qed.

(** What is kept of a URL that has the marker at a place: nothing after it. *)
Lemma redact_take s sub t : exists i, index (s +:+ sub +:+ t) sub = Some i
  /\ take (i + String.length sub) (bytes (s +:+ sub +:+ t)) = take (i + String.length sub) (bytes (s +:+ sub)).
Proof.
  destruct (index_found s sub t) as (i & Hi & Hl). exists i. split; [done|].
  rewrite <- string_app_assoc, bytes_app, take_app_le; [done|]. rewrite bytes_app, length_app, !length_bytes. lia.
Qed.

Lemma index_prefix s sub t : index (s +:+ sub +:+ t) sub = index (s +:+ sub) sub.
Proof.
  destruct (index_found s sub "") as (i & Hi & _). assert (forall u, u +:+ "" = u) as E by (intros u; induction u as [|c u IH]; [done|exact (f_equal (String c) IH)]).
  rewrite E in Hi. rewrite <- string_app_assoc, Hi. by apply index_app.
Qed.

(** What the error output shows of a URL does not depend on what follows
    [access_token=], nor, in a URL without that marker, on what follows
    [key=]. *)
Theorem redact_hides (a x y : string) :
  redactURL (a +:+ "access_token=" +:+ x) = redactURL (a +:+ "access_token=" +:+ y)
  /\ (index (a +:+ "key=" +:+ x) "access_token=" = None -> index (a +:+ "key=" +:+ y) "access_token=" = None ->
      redactURL (a +:+ "key=" +:+ x) = redactURL (a +:+ "key=" +:+ y)).
Proof.
  split.
  - destruct (redact_take a "access_token=" x) as (i & Hi & Tx). destruct (redact_take a "access_token=" y) as (j & Hj & Ty).
    assert (i = j) as <- by (rewrite index_prefix in Hi, Hj; congruence).
    unfold redactURL. rewrite Hi, Hj. simpl in Tx, Ty. by rewrite Tx, Ty.
  - intros Hx Hy. destruct (redact_take a "key=" x) as (i & Hi & Tx). destruct (redact_take a "key=" y) as (j & Hj & Ty).
    assert (i = j) as <- by (rewrite index_prefix in Hi, Hj; congruence).
    unfold redactURL. rewrite Hx, Hy, Hi, Hj. simpl in Tx, Ty. by rewrite Tx, Ty.
Qed.

End Webhook.

(** ** Email *)

Module Email.

Record EmailConfig := mkEmailConfig {
  Enabled : bool; SMTPHost : string; SMTPPort : Z; Username : string; Password : string; From : string; To : list string;
  UseTLS : bool; EmailMinSeverity : string;
}.

(** The host of [net.SplitHostPort], empty when it fails. *)
Definition splitHost (hp : string) : string :=
  match lastIndexByte ":"%char hp with
  | None => ""
  | Some i =>
      let b := bytes hp in
      match b with
      | "["%char :: _ =>
          match indexByte "]"%char b with
          | Some e =>
              if negb (S e =? i)%nat || bool_decide ("["%char ∈ drop 1 b) || bool_decide ("]"%char ∈ drop (S e) b) then ""
              else text (take (e - 1) (drop 1 b))
          | None => ""
          end
      | _ =>
          let host := take i b in
          if bool_decide (":"%char ∈ host) || bool_decide ("["%char ∈ b) || bool_decide ("]"%char ∈ b) then "" else text host
      end
  end.

Definition crlf : string := text [byte 13; byte 10].
Definition dash : string := text (map byte [0xE2; 0x80; 0x94]).

Section Mail.
Variable uni_toUpper : string -> string.       (** [strings.ToUpper] of a text that is not ASCII *)

Definition toUpper (s : string) : string :=
  if forallb is_ascii (bytes s) then text (map Webhook.upper (bytes s)) else uni_toUpper s.

Definition subject (ev : WebhookEvent) : string :=
  Webhook.concat_text ["[EDR "; toUpper ev.(we_Severity); "] "; ev.(we_RuleID); " "; dash; " "; ev.(we_Host)].

Definition header_lines (c : EmailConfig) (ev : WebhookEvent) : list string :=
  ["From: " +:+ c.(From); "To: " +:+ join "," c.(To); "Subject: " +:+ subject ev; "MIME-Version: 1.0";
   "Content-Type: text/html; charset=" +:+ text (quote "UTF-8")].

Definition message (c : EmailConfig) (htmlBody : string) (ev : WebhookEvent) : string :=
  Webhook.concat_text (map (fun h => h +:+ crlf) (header_lines c ev)) +:+ crlf +:+ htmlBody.

(** What is handed to [smtp.SendMail]. *)
Record Mail := mkMail { m_addr : string; m_auth : option (string * string * string); m_from : string; m_to : list string; m_msg : string }.

Definition mail (c : EmailConfig) (htmlBody : string) (ev : WebhookEvent) : Mail :=
  let addr := c.(SMTPHost) +:+ ":" +:+ itoa (if c.(SMTPPort) <=? 0 then 587 else c.(SMTPPort)) in
  mkMail addr (if c.(Username) == "" then None else Some (c.(Username), c.(Password), splitHost addr)) c.(From) c.(To)
    (message c htmlBody ev).

Inductive email_err := ETemplate (e : string) | ESend (e : string).

(** The mail that is handed on and the error; [render] is the template on the
    event, [session] the outcome of the session. *)
Definition Dispatch (c : EmailConfig) (render : WebhookEvent -> result string string) (session : Mail -> option string)
    (ev : WebhookEvent) : option Mail * option email_err :=
  if negb c.(Enabled) then (None, None)
  else if negb (shouldNotify ev.(we_Severity) c.(EmailMinSeverity)) then (None, None)
  else match render ev with
  | Err e => (None, Some (ETemplate e))
  | Ok html => let m := mail c html ev in (Some m, ESend <$> session m)
  end.

(** *** The message is read as it was meant *)

(** A line up to its CR LF. *)
Fixpoint read_line (l : list ascii) : option (list ascii * list ascii) :=
  match l with
  | [] => None
  | a :: r =>
      match r with
      | b :: r' => if (a == byte 13) && (b == byte 10) then Some ([], r') else prod_map (cons a) id <$> read_line r
      | [] => None
      end
  end.

(** The header lines up to the empty line, and the body. *)
Fixpoint read_message (fuel : nat) (l : list ascii) : option (list string * string) :=
  match fuel with
  | O => None
  | S fuel =>
      match read_line l with
      | None => None
      | Some ([], body) => Some ([], text body)
      | Some (h, rest) => prod_map (cons (text h)) id <$> read_message fuel rest
      end
  end.

Definition one_line (s : string) : bool := forallb (fun a => (code a != 13) && (code a != 10)) (bytes s).

Lemma read_line_crlf l r : forallb (fun a => (code a != 13) && (code a != 10)) l = true ->
  read_line (l ++ byte 13 :: byte 10 :: r) = Some (l, r).
Proof.
  induction l as [|a l IH]; intros Hl; [by vm_compute|]. simpl in Hl. apply andb_true_iff in Hl as [Ha Hl].
  specialize (IH Hl). cbn [app read_line]. destruct l as [|b l]; cbn [app] in *.
  - rewrite bool_decide_eq_false_2 by (intros ->; done). cbn [andb]. by rewrite IH.
  - rewrite (bool_decide_eq_false_2 (a = byte 13)) by (intros ->; done). cbn [andb]. by rewrite IH.
Qed.

Lemma bytes_nonempty s : s <> "" -> exists a l, bytes s = a :: l.
Proof. destruct s; [done|]. intros _. eexists _, _. reflexivity. Qed.

Lemma read_message_lines hs body fuel :
  (length hs < fuel)%nat -> Forall (fun h => one_line h = true /\ h <> "") hs ->
  read_message fuel (bytes (Webhook.concat_text (map (fun h => h +:+ crlf) hs) +:+ crlf +:+ body)) = Some (hs, body).
Proof.
  intros Hf HF. rewrite bytes_app, bytes_app. unfold crlf at 2. rewrite bytes_text.
  revert fuel Hf. induction HF as [|h hs [H1 H2] _ IH]; intros [|fuel] Hf; simpl in Hf; try lia.
  - pose proof (read_line_crlf [] (bytes body) eq_refl) as E. cbn [read_message].
    change (bytes (Webhook.concat_text (map (fun h => h +:+ crlf) [])) ++ [byte 13; byte 10] ++ bytes body)
      with ([] ++ byte 13 :: byte 10 :: bytes body). by rewrite E, text_bytes.
  - specialize (IH fuel ltac:(lia)). cbn [read_message]. revert IH. set (more := [byte 13; byte 10] ++ bytes body). intros IH.
    change (Webhook.concat_text (map (fun h => h +:+ crlf) (h :: hs)))
      with ((h +:+ crlf) +:+ Webhook.concat_text (map (fun h => h +:+ crlf) hs)).
    rewrite !bytes_app. unfold crlf at 1. rewrite bytes_text, <- !app_assoc. cbn [app].
    rewrite (read_line_crlf (bytes h)) by done. destruct (bytes_nonempty h H2) as (a & l & E). rewrite E, <- E, IH. simpl.
    by rewrite text_bytes.
Qed.

Lemma one_line_app s t : one_line s = true -> one_line t = true -> one_line (s +:+ t) = true.
Proof. unfold one_line. rewrite bytes_app, forallb_app. by intros -> ->. Qed.

Lemma one_line_join sep l : one_line sep = true -> Forall (fun s => one_line s = true) l -> one_line (join sep l) = true.
Proof.
  intros Hs HF. induction HF as [|x l Hx HF IH]; [done|]. destruct l as [|y l]; [done|].
  rewrite join_cons. by repeat apply one_line_app.
Qed.

Lemma one_line_concat l : Forall (fun s => one_line s = true) l -> one_line (Webhook.concat_text l) = true.
Proof. induction 1 as [|s l Hs _ IH]; [done|]. by apply one_line_app. Qed.

Lemma upper_one_line s : forallb is_ascii (bytes s) = true -> one_line s = true -> one_line (toUpper s) = true.
Proof.
  intros Ha. unfold toUpper. rewrite Ha. unfold one_line. rewrite bytes_text. clear Ha. induction (bytes s) as [|a l IH]; [done|].
  simpl. rewrite !andb_true_iff. intros [H1 H2]. split; [|by apply IH]. clear -H1. revert H1.
  destruct a as [[] [] [] [] [] [] [] []]; vm_compute; done.
Qed.

(** Without line breaks in the configured addresses and in the event, the
    mail has exactly the five headers that are meant and the rendered page as its
    body. *)
Theorem email_headers (c : EmailConfig) (html : string) (ev : WebhookEvent) :
  forallb is_ascii (bytes ev.(we_Severity)) = true ->
  Forall (fun s => one_line s = true) (c.(From) :: ev.(we_Severity) :: ev.(we_RuleID) :: ev.(we_Host) :: c.(To)) ->
  read_message 6 (bytes (message c html ev)) = Some (header_lines c ev, html).
Proof.
  intros Ha HF. rewrite !Forall_cons in HF. destruct HF as (H1 & H2 & H3 & H4 & H5).
  apply read_message_lines; [simpl; lia|].
  assert (one_line (subject ev) = true) as Hs.
  { apply one_line_concat. repeat apply List.Forall_cons; try done; try (vm_compute; reflexivity). by apply upper_one_line. }
  unfold header_lines. repeat apply List.Forall_cons; try apply List.Forall_nil; (split; [|done]);
    first [ vm_compute; reflexivity | apply one_line_app; [vm_compute; reflexivity|] ]; try done.
  by apply one_line_join.
Qed.

End Mail.
End Email.

(** ** Concrete runs *)

Module Sample.
Import Email Webhook.

Definition hook : WebhookConfig := mkConfig "https://h/send?access_token=T" [("x-edr", "1")] 0 "dingtalk" "high".
Definition ev (severity : string) : WebhookEvent :=
  mkWebhookEvent "r1" severity "process" "deny" "kill" (Some [("process_name", GStr "nc"); ("pid", GInt 7)]) None
    (mkTime 2024 5 6 7 8 9 0 0) "h1".
Definition fmt (_ : gval) : string := "".
Definition d1 : Dispatcher := sendToAll (Dispatch (NewWebhookDispatcher [hook]) (ev "high")) [] (ev "high").

Lemma d1_run : dsteps (NewWebhookDispatcher [hook]) [MDispatch (ev "high"); MLoop] d1.
Proof.
  eapply dsteps_cons; [apply ds_dispatch|]. eapply dsteps_cons; [|apply dsteps_nil].
  apply ds_take; [by left|reflexivity].
Defined.

Lemma webhook_delivery_witness :
  delivers (NewClients [hook]) [MDispatch (ev "high"); MLoop] d1 /\ d1.(d_sending) = [(hook, ev "high")].
Proof. split; [apply (webhook_delivery [hook]), d1_run|reflexivity]. Defined.


Lemma payload_decodes_witness :
  parse (formatPayload fmt "dingtalk" (ev "high")) = Some (marshal (payload fmt "dingtalk" (ev "high"))).
Proof.
  apply (payload_decodes fmt "dingtalk" (ev "high")). constructor; simpl.
  - repeat constructor.
  - by intros name [= <-].
  - intros m [= <-]. vm_compute. reflexivity.
  - done.
  - lia.
Defined.

Definition mailer : EmailConfig := mkEmailConfig true "mail" 0 "u" "p" "edr@h" ["a@h"; "b@h"] true "high".

Lemma email_headers_witness :
  read_message 6 (bytes (message id mailer "<p>" (ev "high"))) = Some (header_lines id mailer (ev "high"), "<p>").
Proof. apply (email_headers id mailer "<p>" (ev "high")); [reflexivity|repeat constructor]. Defined.

(** [Stop] returns while a request is still being sent. *)
Example stop_leaves_requests : exists ms d,
  dsteps (NewWebhookDispatcher [hook]) ms d /\ Stop_returned d = true /\ d.(d_sending) = [(hook, ev "high")] /\ d.(d_sent) = [].
Proof.
  exists [MDispatch (ev "high"); MLoop; MStop; MLoop; MLoop], (to_phase (to_phase (stopping d1) Draining) Exited).
  split; [|done]. eapply dsteps_cons; [apply ds_dispatch|]. eapply dsteps_cons; [apply ds_take; [by left|reflexivity]|].
  eapply dsteps_cons; [by apply ds_stop|]. eapply dsteps_cons; [by apply ds_done|].
  eapply dsteps_cons; [by apply ds_exit|apply dsteps_nil].
Qed.

(** A key in front of a token is shown. *)
Example key_shown : redactURL "https://h/send?key=SECRET&access_token=T" = "https://h/send?key=SECRET&access_token=***".
Proof. reflexivity. Qed.

(** The text of the error of a failed request has the URL in full. *)
Example token_shown : (sendOne fmt hook (ev "high") (OFailed "Post https://h/send?access_token=T: connection refused")).2
  = Some "webhook: post https://h/send?access_token=***: Post https://h/send?access_token=T: connection refused".
Proof. reflexivity. Qed.

(** An unknown threshold lets everything pass, an unknown severity only that. *)
Example unknown_threshold : shouldNotify "low" "hihg" = true /\ shouldNotify "info" "low" = false.
Proof. done. Qed.

(** A line break in a rule name adds a header. *)
Example header_injected :
  read_message 9 (bytes (message id mailer "<p>"
    (mkWebhookEvent ("r" +:+ crlf +:+ "Bcc: x@y") "high" "" "" "" None None timeZero "h")))
  = Some (["From: edr@h"; "To: a@h,b@h"; "Subject: [EDR HIGH] r"; "Bcc: x@y " +:+ dash +:+ " h"; "MIME-Version: 1.0";
           "Content-Type: text/html; charset=" +:+ text (quote "UTF-8")], "<p>").
Proof. vm_compute. reflexivity. Qed.

Example credentials_host : (mail id mailer "" (ev "high")).(m_auth) = Some ("u", "p", "mail") /\ splitHost "[::1]:25" = "::1"
  /\ splitHost "::1:25" = "".
Proof. vm_compute. done. Qed.

Example headers_set : q_Header <$> (sendOne fmt hook (ev "high") (OStatus 200)).1
  = Some {["Content-Type" := "application/json"; "X-Edr" := "1"]}.
Proof. vm_compute. reflexivity. Qed.

End Sample.
