(* ===== verification/Web.v ===== *)
(** * The web console ([internal/web/handler.go])

    The handlers by path, the connections of the event stream as a step relation,
    and the stream as a browser reads it.  The embedded page and the state of the
    agent are arguments; the mutex makes [Publish], the registration of a
    connection and its removal single steps. *)

From S2P Require Import Prelude GoStrings GoTime Json GoJson Loader.

#[local] Open Scope string_scope.
#[local] Open Scope list_scope.
#[local] Open Scope Z_scope.

(** ** Pages *)

(** [AgentView] *)
Record AgentView := mkView { Metrics : gval; ResponseHistory : Z -> gval; Status : gval }.

Inductive page := NotFound | Page (contentType : string) (body : list ascii) | Stream.

(** [json.NewEncoder(w).Encode] *)
Definition encoded (v : gval) : list ascii := print (marshal v) ++ [byte 10].

Definition serveIndex (indexHTML path : string) : page :=
  if path != "/" then NotFound else Page "text/html; charset=utf-8" (bytes indexHTML).
Definition apiMetrics (a : AgentView) : page := Page "application/json" (encoded a.(Metrics)).
Definition apiStatus (a : AgentView) : page := Page "application/json" (encoded a.(Status)).
Definition apiResponses (a : AgentView) : page := Page "application/json" (encoded (a.(ResponseHistory) 50)).

(** The pattern of the index takes every path that has no handler of its own. *)
Definition Handler (indexHTML : string) (a : AgentView) (path : string) : page :=
  if path == "/api/metrics" then apiMetrics a
  else if path == "/api/status" then apiStatus a
  else if path == "/api/responses" then apiResponses a
  else if path == "/events" then Stream
  else serveIndex indexHTML path.

(** ** The event stream *)

Definition frame (j : json) : list ascii := bytes "data: " ++ print j ++ [byte 10; byte 10].

Definition clientCap : nat := 16.

(** A connection: the messages in its channel and those that were written;
    [c_since] are the events published since it was registered. *)
Record conn := mkConn { c_queue : list (list ascii); c_written : list (list ascii); c_since : list json }.

Abbreviation Dashboard := (gmap nat conn).

Definition push (msg : list ascii) (j : json) (c : conn) : conn :=
  mkConn (try_send clientCap msg c.(c_queue)).2 c.(c_written) (c.(c_since) ++ [j]).

Definition Publish (d : Dashboard) (event : gval) : Dashboard :=
  let j := marshal event in push (frame j) j <$> d.

Inductive wstep : Dashboard -> Dashboard -> Prop :=
| w_publish d event : wstep d (Publish d event)
(** [serveSSE]: the connection is registered, writes what its channel holds, and
    is removed when the request is over *)
| w_connect d id : d !! id = None -> wstep d (<[id := mkConn [] [] []]> d)
| w_write d id c msg q : d !! id = Some c -> c.(c_queue) = msg :: q -> wstep d (<[id := mkConn q (c.(c_written) ++ [msg]) c.(c_since)]> d)
| w_leave d id : wstep d (delete id d).

(** ** The browser *)

(** A line, its line feed removed. *)
Fixpoint take_line (l : list ascii) : option (list ascii * list ascii) :=
  match l with
  | [] => None
  | a :: l => if a == byte 10 then Some ([], l) else prod_map (cons a) id <$> take_line l
  end.

(** The events of a stream: an event is its data line, ended by an empty line. *)
Fixpoint read_events (fuel : nat) (l : list ascii) : option (list json) :=
  match fuel, l with
  | _, [] => Some []
  | O, _ => None
  | S fuel, _ =>
      '(line, l) ← take_line l;
      '(blank, l) ← take_line l;
      if negb (hasPrefix (text line) "data: ") || negb (bool_decide (blank = [])) then None
      else j ← parse (drop 6 line); cons j <$> read_events fuel l
  end.

Lemma take_line_lf l r : Forall printable l -> take_line (l ++ byte 10 :: r) = Some (l, r).
Proof.
  induction 1 as [|a l Ha _ IH]; [reflexivity|]. cbn [app take_line].
  rewrite bool_decide_eq_false_2 by (intros ->; vm_compute in Ha; done). by rewrite IH.
Qed.

Lemma data_printable : Forall printable (bytes "data: ").
Proof. apply printable_text. vm_compute. reflexivity. Qed.

Lemma read_frame fuel j l : json_ok max_depth j = true ->
  read_events (S fuel) (frame j ++ l) = cons j <$> read_events fuel l.
Proof.
  intros Hj. assert (Forall printable (bytes "data: " ++ print j)) as Hp by (apply Forall_app; split; [apply data_printable|by eapply print_printable]).
  assert (frame j ++ l = (bytes "data: " ++ print j) ++ byte 10 :: byte 10 :: l) as ->.
  { unfold frame. by rewrite <- !app_assoc. }
  assert (forall k l', read_events (S k) ((bytes "data: " ++ print j) ++ byte 10 :: l') =
     ('(line, l) ← take_line ((bytes "data: " ++ print j) ++ byte 10 :: l'); '(blank, l) ← take_line l;
      if negb (hasPrefix (text line) "data: ") || negb (bool_decide (blank = [])) then None
      else j ← parse (drop 6 line); cons j <$> read_events k l)) as -> by done.
  rewrite take_line_lf by done. cbn [mbind option_bind].
  pose proof (take_line_lf [] l (List.Forall_nil _)) as E. cbn [app] in E. rewrite E. cbn [mbind option_bind].
  rewrite bool_decide_eq_true_2 by done.
  assert (hasPrefix (text (bytes "data: " ++ print j)) "data: " = true) as ->.
  { apply prefix_spec. exists (text (print j)). reflexivity. }
  cbn [negb orb]. change (drop 6 (bytes "data: " ++ print j)) with (print j).
  rewrite <- (app_nil_r (print j)), parse_print by done. reflexivity.
Qed.

Lemma read_frames js fuel : Forall (fun j => json_ok max_depth j = true) js -> (length js <= fuel)%nat ->
  read_events fuel (concat (map frame js)) = Some js.
Proof.
  intros HF. revert fuel. induction HF as [|j js Hj _ IH]; intros fuel Hl; [by destruct fuel|].
  destruct fuel as [|fuel]; simpl in Hl; [lia|]. cbn [map concat]. rewrite read_frame by done. by rewrite IH by lia.
Qed.

(** ** What a browser gets *)

Definition conn_ok (c : conn) : Prop := exists got,
  got `sublist_of` c.(c_since) /\ c.(c_written) ++ c.(c_queue) = map frame got
  /\ (length c.(c_queue) <= clientCap)%nat
  /\ ((length c.(c_since) <= clientCap)%nat -> got = c.(c_since)).

Lemma push_ok j c : conn_ok c -> conn_ok (push (frame j) j c).
Proof.
  intros (got & Hs & Hw & Hq & Hall). unfold push, try_send.
  destruct (Nat.ltb_spec (length (c_queue c)) clientCap) as [Hroom|Hfull].
  - exists (got ++ [j]). simpl. split_and!.
    + by apply sublist_app.
    + by rewrite app_assoc, Hw, map_app.
    + rewrite length_app. simpl. lia.
    + rewrite length_app. simpl. intros Hl. by rewrite Hall by lia.
  - exists got. simpl. split_and!; try done.
    + by apply sublist_inserts_r.
    + rewrite length_app. simpl. intros Hl. exfalso.
      assert (length (c_written c ++ c_queue c) = length got) as E by (rewrite Hw; apply length_map).
      rewrite length_app, (Hall ltac:(lia)) in E. lia.
Qed.

Lemma wstep_ok d d' : wstep d d' -> map_Forall (fun _ => conn_ok) d -> map_Forall (fun _ => conn_ok) d'.
Proof.
  intros Hs Hd. destruct Hs as [d event|d id Hn|d id c msg q Hc Hq|d id].
  - intros k c Hk. unfold Publish in Hk. apply lookup_fmap_Some in Hk as (c0 & <- & Hk). apply push_ok. by eapply Hd.
  - apply map_Forall_insert_2; [|done]. exists []. simpl. split_and!; [done|done|lia|done].
  - apply map_Forall_insert_2; [|done]. destruct (Hd _ _ Hc) as (got & H1 & H2 & H4 & H5). exists got. simpl.
    split_and!; try done; [by rewrite <- H2, Hq, <- app_assoc|]. rewrite Hq in H4. simpl in H4. lia.
  - by apply map_Forall_delete.
Qed.

(** A browser that reads what was written to it so far decodes it to events
    that were published since it connected, in their order; it misses none when
    at most sixteen were published and its channel is empty.  The events are
    values with UTF-8 texts. *)
Theorem stream_readable (d : Dashboard) (id : nat) (c : conn) :
  rtc wstep ∅ d -> d !! id = Some c -> Forall (fun j => json_ok max_depth j = true) c.(c_since) ->
  exists js, read_events (length c.(c_written)) (concat c.(c_written)) = Some js
    /\ js `sublist_of` c.(c_since)
    /\ ((length c.(c_since) <= clientCap)%nat -> c.(c_queue) = [] -> js = c.(c_since)).
Proof.
  intros Hrun Hc HF. assert (map_Forall (fun _ => conn_ok) d) as Hd.
  { remember (∅ : Dashboard) as d0 eqn:E. assert (map_Forall (fun _ => conn_ok) d0) as H0 by (subst; apply map_Forall_empty).
    clear E. induction Hrun as [|? ? ? Hs _ IH]; [done|]. apply IH; [done|]. by eapply wstep_ok. }
  destruct (Hd _ _ Hc) as (got & Hs & Hw & Hq & Hall).
  assert (c_written c = map frame (take (length (c_written c)) got)) as Hwr.
  { by rewrite <- firstn_map, <- Hw, take_app_length. }
  exists (take (length (c_written c)) got). split_and!.
  - rewrite Hwr at 2. apply read_frames; [|rewrite length_take; lia]. apply Forall_take.
    rewrite Forall_forall in HF |- *. intros j Hj. apply HF. by eapply elem_of_sublist.
  - etransitivity; [apply sublist_take|done].
  - intros Hl Hn. rewrite Hn, app_nil_r in Hw. rewrite <- (Hall Hl). apply take_ge. by rewrite Hw, length_map.
Qed.

(** ** Concrete runs *)

Module Sample.

Definition alert (n : Z) : gval := GMap [("rule", GStr "r"); ("n", GInt n)].

Definition d1 : Dashboard := Publish (<[7%nat := mkConn [] [] []]> ∅) (alert 1).
Definition d2 : Dashboard := <[7%nat := mkConn [] [frame (marshal (alert 1))] [marshal (alert 1)]]> d1.

Lemma d2_reached : rtc wstep ∅ d2.
Proof.
  eapply rtc_l; [by apply (w_connect ∅ 7)|]. eapply rtc_l; [apply (w_publish _ (alert 1))|]. fold d1.
  eapply rtc_l; [|apply rtc_refl]. by eapply (w_write d1 7 (mkConn [frame (marshal (alert 1))] [] [marshal (alert 1)])).
Defined.

Lemma stream_readable_witness :
  exists js, read_events 1 (concat [frame (marshal (alert 1))]) = Some js /\ js = [marshal (alert 1)].
Proof.
  destruct (stream_readable d2 7 (mkConn [] [frame (marshal (alert 1))] [marshal (alert 1)])) as (js & H1 & _ & H2).
  - apply d2_reached.
  - reflexivity.
  - by repeat constructor.
  - exists js. split; [exact H1|]. apply H2; [simpl; unfold clientCap; lia|done].
Defined.

(** The seventeenth event is dropped when the browser reads none. *)
Example slow_client_misses :
  let d := foldl (fun d n => Publish d (alert n)) (<[7%nat := mkConn [] [] []]> ∅) (List.map Z.of_nat (seq 0 17)) in
  (fun c => (length c.(c_queue), length c.(c_since))) <$> (d !! 7%nat) = Some (16%nat, 17%nat).
Proof. vm_compute. reflexivity. Qed.

Example unknown_page : Handler "<html>" (mkView GNil (fun _ => GNil) GNil) "/api/other" = NotFound.
Proof. reflexivity. Qed.

End Sample.
